(* ===== verification/_CoqProject ===== *)
-Q . S2P
Prelude.v
LsError.v
LsStr.v
LsMem.v
PoolUse.v
Store.v
LsQueue.v
LsTimer.v
LsLog.v
LsHtable.v
LsHash.v
GHeap.v
GHeapLayout.v
GHeapSort.v
PQueue.v
Spud.v
LsSockaddr.v
LsPktinfo.v
Tube.v
LsEventing.v
EventBindings.v
EventDispatch.v
EventNames.v
EventLife.v
TubeManager.v
ManagerState.v
ManagerTubes.v
ManagerPackets.v
ManagerHandshake.v
ManagerLoop.v
ManagerSockets.v
ManagerEvents.v
ManagerOpen.v
ManagerTimers.v
ManagerLife.v
ManagerSession.v
TubeStream.v
Samples.v
Timertest.v
Spudecho.v
Spudload.v
Spudtest.v
ManagerExample.v
