(* ===== verification/Prelude.v ===== *)
(** * SPUDlib, the Substrate Protocol for User Datagrams: a verified model

    SPUDlib multiplexes _tubes_ over UDP.  A tube is named by a random ID of eight bytes;
    each datagram carries a header with the ID and one of four commands (DATA, OPEN,
    CLOSE, ACK) and, perhaps, one CBOR item.  A _tube manager_ owns the sockets, a table of
    tubes, a queue of timers and an event dispatcher; its receive loop waits in select(),
    reads a datagram, finds the tube and triggers events, whose callbacks are the
    application's.  This library models the C files of src/, include/ and vendor/gheap/
    as executable Rocq functions and proves what they promise, and where they do not.

    ** How the code is modelled

    A C function is a function [S -> outcome (A * S)] ([C S A], with a monad notation, in
    this file): it ends with a result and a new state, or in a [fault] (use after free,
    double free, NULL dereference, access out of bounds, failed assert).  [runs m s Q] says
    that [m] from [s] ends without a fault in a state that satisfies [Q]; nearly every
    theorem is of that form, so that it states memory safety and termination as well;
    [runs_or m s F Q] also allows the faults [F], for code that a hostile input can stop.
    Failures that the code reports through [ls_err] are values of [res].

    - Objects: Store.v gives each C type its own finite map from addresses, with lists of
      linked objects ([chain]).  Allocation consults a script of answers, so that a theorem
      about all states covers all patterns of memory exhaustion.
    - The heap, byte by byte, is in LsMem.v; clients that use raw blocks and pools run on
      it, and PoolUse.v says what they leave of it.
    - Integers are [Z], with the wrap-around written where the code computes in a type.
    - The operating system (clocks, sockets, select(), recvmsg(), sendmsg(), pipes,
      mutexes, the random source) is a script of answers in the state.  The CBOR library
      and the C library's formatting and name resolution are parameters: [CborLib] and
      its laws in Tube.v, arguments elsewhere.
    - Callbacks of the application are parameters that run over the whole state; what is
      asked of them is a named hypothesis ([quiet_callbacks], [quiet_signals]), and the
      examples instantiate them.

    Loops whose recursion is not structural take fuel.  The modelled code computes it from
    its data (a list's loop gets the size of the store), or the theorem has a premise that
    bounds it from below (the dispatcher's queue: [trigger_delivers]; the receive loop:
    more than the answers of select() that are to come); that it is enough is part of each
    theorem, since running out of fuel is a fault.

    ** Files

    - Prelude.v: integers, faults, the monad and its rules, [res].  Store.v: object stores.
    - LsError.v (src/ls_error.c), LsStr.v (src/ls_str.c), LsTimer.v (src/ls_timer.c),
      LsQueue.v (src/ls_queue.c), LsSockaddr.v (src/ls_sockaddr.c), LsPktinfo.v
      (src/ls_pktinfo.c), LsLog.v (src/ls_log.c): a file each, operations named as in C.
    - LsMem.v (src/ls_mem.c): allocation wrappers, pools and their cleaners.
    - LsHtable.v (src/ls_htable.c): the hash table, generic in keys ([Hashable]), values and
      cleaners; LsHash.v: the hash and comparison functions of that file as instances, and
      the iteration by nodes.
    - GHeap.v, GHeapLayout.v, GHeapSort.v, PQueue.v (vendor/gheap): the paged heap, for the
      layouts that are a tree ([HeapLayout]; GHeapLayout.v: all are), sorting, repair and
      removal, and the priority queue over it, generic in its owner ([HasQueue]).
    - Spud.v (src/spud.c): headers, parsing, IDs.  Tube.v (src/tube.c, and
      tube_manager_sendmsg): tubes and what they send.
    - LsEventing.v (src/ls_eventing.c): dispatchers, events, bindings, moments.  Theorems:
      EventBindings.v (bind, unbind), EventDispatch.v (triggers), EventNames.v (events by
      name), EventLife.v (what a dispatcher owns, from its creation to its destruction).
    - TubeManager.v (src/tube_manager.c): the manager.  Theorems: ManagerState.v (the
      invariant), ManagerTubes.v (adding, removing, sending), ManagerPackets.v (one packet),
      ManagerHandshake.v (two managers), ManagerLoop.v (the loop), ManagerSockets.v
      (sockets, policy), ManagerEvents.v (binding to its events), ManagerOpen.v (opening
      tubes), ManagerTimers.v (timers), ManagerLife.v (creation, destruction),
      ManagerSession.v (all of a server's calls, in any order), ManagerExample.v (concrete
      managers and runs).
    - TubeStream.v (src/tube_stream.c): streams and stream managers.
    - Samples.v, Timertest.v, Spudecho.v, Spudload.v, Spudtest.v (samplecode/): programs over
      the library, a file for each; the last one's callbacks open a tube and send on it.

    The manager's state is an eventing state [estate] whose client part is [mworld]; that
    has the table of tubes, a hash-table state whose client part is [tworld] (tubes, packet
    informations, pools, what was sent).  [zoom] runs a component on its part.

    Ownership: [ground] (ManagerState.v) is all of the heaps of the table and of the dispatcher
    that is not the manager's, and the invariant says that the rest is exactly what the
    manager owns: so that "nothing is left" after a destruction is an equality of heaps.

    ** What is proved

    - Refinement: sessions of hash-table calls follow a finite map, with the cleaners called
      on the entries that leave it ([htable_session_refines_map]); queue sessions a list;
      priority-queue sessions a bag whose top is maximal; bindings an ordered list;
      diagnostic contexts a stack; the manager's timers an agenda ([timer_agenda]).
    - Events: a trigger delivers its event to every callback, breadth first, with the
      events that callbacks trigger ([trigger_delivers]); events are found by name.
    - The heap: parents and children are a tree whatever the fanout and the pages, as long
      as a page's size fits [size_t], with the wrap-around of [size_t] ([every_layout]); for each such layout and strict weak order, [heapsort_sorts],
      [removal_correct], and the repair of a heap after an item has changed.
    - Memory: pools free all they allocated, cleaners run last in first out, slices are
      disjoint; [pool_calloc_size] says how long a slice of [ls_pool_calloc] is, whose
      product is computed modulo 2^64 and not checked.
    - Messages: building and parsing are inverse; the parser accepts exactly the payloads
      it should; what a tube sends is parsed as what it meant to send.
    - The manager: [serving] ties the table, the tubes and the dispatcher to a registry, a
      finite map of the tubes by ID.  [packet_handled] is the protocol, one case for each
      reaction to a packet, with the ACK that an accepted tube is answered with and the
      events, each left out only for want of memory; [packet_safe] keeps the invariant for
      any bytes; [handshake] opens a tube between two managers and delivers any data sent on
      it; [loop_safe] runs the whole receive loop over any network input, and the tubes are
      then what the datagrams make of them, up to the first that is fatal (an empty one, or,
      with no error structure, a bad one), if there is one; [wait_until_next_timer] relates
      select()'s timeout to the timers;
      [event_bound] changes the callbacks that events are delivered to.
    - Its life: [manager_created] makes a manager from nothing or leaves nothing,
      [manager_destroyed] gives all of it back, and [manager_session] runs any calls of a
      server between the two.  [stream_manager_created] and [stream_manager_destroyed] say
      the same of stream managers, on the same lemmas.
    - Programs: [echo_later] (Spudecho.v) follows data from the callback that receives it to
      the timer that sends it back; [stack_is_sent] (Spudtest.v) is a round of the client,
      with what it gives away; [running_round] (Spudload.v) a round of the load generator.
    - Faults of the code: a due timer is freed and another run in its place
      ([due_timer_misused], which ends timertest and spudecho, and makes spudtest stop early); opening a tube that fails
      frees it twice or leaves it in the table ([open_tube_outcomes], all the ways in which
      [tube_manager_open_tube] may end); unbinding under a queued moment (EventDispatch.v); the
      priority queue after a failed growth, and one made from nothing (PQueue.v); the
      unchecked product of [ls_pool_calloc] (LsMem.v); a leak of [tube_set_local] (Tube.v);
      datagrams that end the receive loop ([loop_safe], [loop_stopped]), spudtest
      ([data_may_crash]), spudecho ([echo_later]) and spudload (its runs).

    [loop_safe] and [manager_session] ask that the application has no timers, since a due
    timer breaks the loop, and that callbacks do not create or destroy tubes.
    [manager_session] also asks for an error structure and for no empty datagram, since
    those are what [loop_safe] says can stop the loop.

    ** Plan

    Left: a dispatcher's destruction while it runs; sessions of a manager with calls of
    [tube_manager_open_tube], from callbacks too, and with timers that are never due.

    ** Not modelled

    The addresses of a heap's items (an index outside the array is a fault here); the
    allocator and socket functions that a program may install, beyond the variables they
    are kept in, since their answers are scripts here; the log lines inside other
    components, which do not change their state; threads: the code's mutex is modelled by
    its failures, and spudload's second thread runs between the rounds of its first; the
    pauses of spudload, which gauss.c draws in floating point; adectest, which no target
    builds and which calls a function that the library does not have; the unit tests, some
    of whose sessions are replayed as examples. *)

From stdpp Require Export base list gmap option strings sorting.
From Stdlib Require Export ZArith Lia.
From Stdlib Require Import Permutation.

#[export] Set Default Goal Selector "!".

(** ** Machine integers

    A C integer is a [Z] in the range of its type; every place where the code
    computes in a type narrower than the mathematical result says so with one of
    these wrappers. *)
Open Scope Z_scope.

Create HintDb spud.

Declare Scope spud_scope.
Delimit Scope spud_scope with spud.
Open Scope spud_scope.

Definition uwrap (w z : Z) : Z := z mod 2 ^ w.
Definition swrap (w z : Z) : Z := (z + 2 ^ (w - 1)) mod 2 ^ w - 2 ^ (w - 1).

Abbreviation u8 := (uwrap 8).
Abbreviation u16 := (uwrap 16).
Abbreviation u32 := (uwrap 32).
Abbreviation u64 := (uwrap 64).
Abbreviation i32 := (swrap 32).

Definition in_range (w z : Z) : Prop := 0 <= z < 2 ^ w.

Definition SIZE_MAX : Z := 2 ^ 64 - 1.

Lemma uwrap_range w z : 0 <= w -> in_range w (uwrap w z).
Proof. intros. apply Z.mod_pos_bound. lia. Qed.

Lemma uwrap_id w z : in_range w z -> uwrap w z = z.
Proof. apply Z.mod_small. Qed.

Lemma uwrap_idemp w z : 0 <= w -> uwrap w (uwrap w z) = uwrap w z.
Proof. intros. apply uwrap_id, uwrap_range; done. Qed.

Lemma swrap_id w z : 0 < w -> - 2 ^ (w - 1) <= z < 2 ^ (w - 1) -> swrap w z = z.
Proof.
  intros Hw Hz. unfold swrap. rewrite Z.mod_small; [lia|].
  replace (2 ^ w) with (2 * 2 ^ (w - 1)); [lia|].
  rewrite <- Z.pow_succ_r by lia. f_equal; lia.
Qed.

(** What is wrapped once more need not have been wrapped before. *)
Lemma uwrap_add_l w a b : uwrap w (uwrap w a + b) = uwrap w (a + b).
Proof. apply Zplus_mod_idemp_l. Qed.
Lemma uwrap_add_r w a b : uwrap w (a + uwrap w b) = uwrap w (a + b).
Proof. apply Zplus_mod_idemp_r. Qed.
Lemma uwrap_sub_l w a b : uwrap w (uwrap w a - b) = uwrap w (a - b).
Proof. apply Zminus_mod_idemp_l. Qed.
Lemma uwrap_sub_r w a b : uwrap w (a - uwrap w b) = uwrap w (a - b).
Proof. apply Zminus_mod_idemp_r. Qed.
Lemma uwrap_mul_l w a b : uwrap w (uwrap w a * b) = uwrap w (a * b).
Proof. apply Zmult_mod_idemp_l. Qed.

Create Rewrite HintDb wrap.
#[export] Hint Rewrite uwrap_add_l uwrap_add_r uwrap_sub_l uwrap_sub_r uwrap_mul_l : wrap.

(** Linear arithmetic with division and modulo by constants. *)
Ltac zlia := Z.to_euclidean_division_equations; lia.

(** ** Faults and outcomes

    What a C program must never do.  A run of the modelled code either ends with a
    value or stops at the first of these; a theorem that a call is [Done] is a
    theorem that none of them happens. *)
Inductive fault : Set :=
  | UseAfterFree        (* a load or store through a pointer to a freed object *)
  | DoubleFree          (* free() of a block that is not live *)
  | NullDeref           (* a load or store through NULL *)
  | OutOfBounds         (* an access outside its array or block *)
  | AssertFail          (* an assert() of a debug build *)
  | OutOfFuel.          (* not a fault of the code: the interpreter gave up *)

#[export] Instance fault_eq_dec : EqDecision fault.
Proof. solve_decision. Defined.

Inductive outcome (A : Type) : Type :=
  | Done (a : A)
  | Fault (f : fault).
Arguments Done {A} a.
Arguments Fault {A} f.

(** A stateful C function over the component state [S]. *)
Definition C (S A : Type) : Type := S -> outcome (A * S).

#[export] Instance C_ret S : MRet (C S) := fun A (a : A) s => Done (a, s).
#[export] Instance C_bind S : MBind (C S) := fun A B (f : A -> C S B) (m : C S A) s =>
  match m s with
  | Done (a, s') => f a s'
  | Fault e => Fault e
  end.

Section c_monad.
Context {S : Type}.

Definition c_fault {A} (f : fault) : C S A := fun _ => Fault f.
Definition c_get : C S S := fun s => Done (s, s).
Definition c_gets {A} (f : S -> A) : C S A := fun s => Done (f s, s).
Definition c_modify (f : S -> S) : C S unit := fun s => Done (tt, f s).

(** [assert(b)] of a debug build (CMAKE_BUILD_TYPE is Debug). *)
Definition c_assert (b : bool) : C S unit := if b then mret tt else c_fault AssertFail.

(** Dereference of a pointer that may be NULL. *)
Definition c_deref {A} (p : option A) : C S A :=
  match p with Some a => mret a | None => c_fault NullDeref end.

(** A load from a typed store: the object must still be there. *)
Definition c_live {A} (o : option A) : C S A :=
  match o with Some a => mret a | None => c_fault UseAfterFree end.
End c_monad.

(** Run a function of a sub-component on the part of the state it owns. *)
Definition zoom {S T A} (get : S -> T) (put : T -> S -> S) (m : C T A) : C S A := fun s =>
  match m (get s) with
  | Done (a, t) => Done (a, put t s)
  | Fault e => Fault e
  end.

Lemma bind_done {S A B} (m : C S A) (f : A -> C S B) s a s' :
  m s = Done (a, s') -> (m ≫= f) s = f a s'.
Proof. intros H. unfold mbind, C_bind. by rewrite H. Qed.

Lemma bind_done_inv {S A B} (m : C S A) (f : A -> C S B) s b s'' :
  (m ≫= f) s = Done (b, s'') -> exists a s', m s = Done (a, s') /\ f a s' = Done (b, s'').
Proof.
  unfold mbind, C_bind. destruct (m s) as [[a s']|e] eqn:E; [|done]. eauto.
Qed.

(** ** Weakest preconditions over runs

    [runs m s Q]: from state [s], [m] ends without a fault, and [Q] holds of its
    value and final state. *)
Definition runs {S A} (m : C S A) (s : S) (Q : A -> S -> Prop) : Prop :=
  match m s with
  | Done (a, s') => Q a s'
  | Fault _ => False
  end.

Section runs.
Context {S : Type}.
Implicit Types s : S.

Lemma runs_ret {A} (a : A) s (Q : A -> S -> Prop) : Q a s -> runs (mret a) s Q.
Proof. done. Qed.

Lemma runs_bind {A B} (m : C S A) (f : A -> C S B) s Q :
  runs m s (fun a s' => runs (f a) s' Q) -> runs (m ≫= f) s Q.
Proof. unfold runs, mbind, C_bind. by destruct (m s) as [[a s']|e]. Qed.

Lemma runs_conseq {A} (m : C S A) s (P Q : A -> S -> Prop) :
  runs m s P -> (forall a s', P a s' -> Q a s') -> runs m s Q.
Proof. unfold runs. destruct (m s) as [[a s']|e]; eauto. Qed.

Lemma runs_and {A} (m : C S A) s (P Q : A -> S -> Prop) :
  runs m s P -> runs m s Q -> runs m s (fun a s' => P a s' /\ Q a s').
Proof. unfold runs. destruct (m s) as [[a s']|e]; eauto. Qed.

Lemma runs_done {A} (m : C S A) s a s' (Q : A -> S -> Prop) :
  m s = Done (a, s') -> Q a s' -> runs m s Q.
Proof. unfold runs. by intros ->. Qed.

Lemma runs_inv {A} (m : C S A) s (Q : A -> S -> Prop) :
  runs m s Q -> exists a s', m s = Done (a, s') /\ Q a s'.
Proof. unfold runs. destruct (m s) as [[a s']|e]; eauto; done. Qed.

(** The run itself, beside what is known of it. *)
Lemma runs_eq {A} (m : C S A) s (Q : A -> S -> Prop) :
  runs m s Q -> runs m s (fun a s' => m s = Done (a, s') /\ Q a s').
Proof. unfold runs. by destruct (m s) as [[a s']|e]. Qed.

Lemma runs_gets {A} (f : S -> A) s (Q : A -> S -> Prop) : Q (f s) s -> runs (c_gets f) s Q.
Proof. done. Qed.

Lemma runs_get s (Q : S -> S -> Prop) : Q s s -> runs c_get s Q.
Proof. done. Qed.

Lemma runs_modify (f : S -> S) s (Q : unit -> S -> Prop) : Q tt (f s) -> runs (c_modify f) s Q.
Proof. done. Qed.

Lemma runs_assert b s (Q : unit -> S -> Prop) : b = true -> Q tt s -> runs (c_assert b) s Q.
Proof. by intros ->. Qed.

Lemma runs_deref {A} (p : option A) a s (Q : A -> S -> Prop) :
  p = Some a -> Q a s -> runs (c_deref p) s Q.
Proof. by intros ->. Qed.

Lemma runs_live {A} (p : option A) a s (Q : A -> S -> Prop) :
  p = Some a -> Q a s -> runs (c_live p) s Q.
Proof. by intros ->. Qed.

Lemma runs_zoom {T A} (get : S -> T) (put : T -> S -> S) (m : C T A) s Q :
  runs m (get s) (fun a t => Q a (put t s)) -> runs (zoom get put m) s Q.
Proof. unfold runs, zoom. by destruct (m (get s)) as [[a t]|e]. Qed.
End runs.

#[global] Typeclasses Opaque runs.

(** [ends m s O]: the outcome of [m] from [s], a fault or not, satisfies [O]. *)
Definition ends {S A} (m : C S A) (s : S) (O : outcome (A * S) -> Prop) : Prop := O (m s).

Lemma ends_bind {S A B} (m : C S A) (f : A -> C S B) s O :
  runs m s (fun a s' => ends (f a) s' O) -> ends (m ≫= f) s O.
Proof. intros (a & s' & E & H)%runs_inv. unfold ends. by rewrite (bind_done _ _ _ _ _ E). Qed.

Lemma ends_ret {S A} (a : A) (s : S) O : O (Done (a, s)) -> ends (mret a) s O.
Proof. done. Qed.

(** [runs_or m s F Q]: as [runs], except that [m] may also stop at a fault that [F] allows. *)
Definition runs_or {S A} (m : C S A) (s : S) (F : fault -> Prop) (Q : A -> S -> Prop) : Prop :=
  ends m s (fun o => match o with Done (a, s') => Q a s' | Fault e => F e end).

Section runs_or.
Context {S : Type}.
Implicit Types (s : S) (F : fault -> Prop).

Lemma runs_or_ret {A} (a : A) s F Q : Q a s -> runs_or (mret a) s F Q.
Proof. done. Qed.

Lemma runs_or_fault {A} e s F (Q : A -> S -> Prop) : F e -> runs_or (c_fault e) s F Q.
Proof. done. Qed.

Lemma runs_or_bind {A B} (m : C S A) (f : A -> C S B) s F Q :
  runs_or m s F (fun a s' => runs_or (f a) s' F Q) -> runs_or (m ≫= f) s F Q.
Proof. unfold runs_or, ends, mbind, C_bind. by destruct (m s) as [[a s']|e]. Qed.

(** What cannot fault, first or last. *)
Lemma runs_or_after {A B} (m : C S A) (f : A -> C S B) s F Q :
  runs m s (fun a s' => runs_or (f a) s' F Q) -> runs_or (m ≫= f) s F Q.
Proof. apply ends_bind. Qed.

Lemma runs_or_runs {A} (m : C S A) s F Q : runs m s Q -> runs_or m s F Q.
Proof. unfold runs_or, ends, runs. by destruct (m s) as [[a s']|e]. Qed.

Lemma runs_or_conseq {A} (m : C S A) s (F G : fault -> Prop) (P Q : A -> S -> Prop) :
  runs_or m s F P -> (forall e, F e -> G e) -> (forall a s', P a s' -> Q a s') -> runs_or m s G Q.
Proof. unfold runs_or, ends. destruct (m s) as [[a s']|e]; eauto. Qed.

Lemma runs_or_none {A} (m : C S A) s F Q : runs_or m s F Q -> (forall e, ~ F e) -> runs m s Q.
Proof. unfold runs_or, ends, runs. destruct (m s) as [[a s']|e]; [done|]. intros H Hn. by eapply Hn. Qed.

Lemma runs_or_assert b s F (Q : unit -> S -> Prop) :
  (b = false -> F AssertFail) -> (b = true -> Q tt s) -> runs_or (c_assert b) s F Q.
Proof. intros H0 H1. destruct b; [by apply H1|by apply H0]. Qed.

(** A fault for certain. *)
Lemma runs_or_certain {A} (m : C S A) s e : runs_or m s (eq e) (fun _ _ => False) -> m s = Fault e.
Proof. unfold runs_or, ends. by destruct (m s) as [[a s']|e'] eqn:E; [|intros <-]. Qed.
End runs_or.

(** One step of symbolic execution of a [runs_or] goal, whose first call cannot fault. *)
Ltac or_step :=
  cbn beta iota;
  lazymatch goal with
  | |- runs_or (mret _) _ _ _ => apply runs_or_ret
  | |- runs_or (c_fault _) _ _ _ => apply runs_or_fault
  | |- runs_or (mbind _ _) _ _ _ => apply runs_or_after
  end; cbn beta iota.

(** One step of symbolic execution of a [runs] goal. *)
Ltac run_step :=
  cbn beta iota;
  lazymatch goal with
  | |- runs (mret _) _ _ => apply runs_ret
  | |- runs (mbind _ _) _ _ => apply runs_bind
  | |- runs (c_gets _) _ _ => apply runs_gets
  | |- runs c_get _ _ => apply runs_get
  | |- runs (c_modify _) _ _ => apply runs_modify
  | |- runs (c_assert _) _ _ => apply runs_assert; [done|]
  | |- runs (c_live _) _ _ => eapply runs_live; [by simplify_map_eq|]
  | |- runs (c_deref _) _ _ => eapply runs_deref; [done|]
  end; cbn beta iota.

Ltac run := repeat run_step.

(** ** Error codes as results

    A C function that returns [bool] and fills in an [ls_err] on failure is a
    function into this sum. *)
Inductive res (E A : Type) : Type :=
  | Ok (a : A)
  | Err (e : E).
Arguments Ok {E A} a.
Arguments Err {E A} e.

Definition is_ok {E A} (r : res E A) : bool := match r with Ok _ => true | Err _ => false end.
