(* ===== verification/LsError.v ===== *)
(** Error codes and messages: src/ls_error.c and include/ls_error.h.

    An error code is a C enum, so an [int]: the named codes are 0 .. 11, errno
    values are stored negated, and getaddrinfo errors are stored below
    [GAI_OFFSET_POS].  [strerror] and [gai_strerror] belong to the C library and are
    parameters. *)

From S2P Require Import Prelude.
Open Scope Z_scope.

(** The enumerators of [ls_errcode]. *)
Definition LS_ERR_NONE : Z := 0.
Definition LS_ERR_INVALID_ARG : Z := 1.
Definition LS_ERR_INVALID_STATE : Z := 2.
Definition LS_ERR_NO_MEMORY : Z := 3.
Definition LS_ERR_OVERFLOW : Z := 4.
Definition LS_ERR_SOCKET_CONNECT : Z := 5.
Definition LS_ERR_BAD_FORMAT : Z := 6.
Definition LS_ERR_PROTOCOL : Z := 7.
Definition LS_ERR_TIMEOUT : Z := 8.
Definition LS_ERR_NOT_FOUND : Z := 9.
Definition LS_ERR_NO_IMPL : Z := 10.
Definition LS_ERR_USER : Z := 11.

Definition ERR_MSG_TABLE : list string :=
  [ "no error"; "invalid argument"; "invalid state"; "out of memory";
    "buffer overflow"; "socket connect failure"; "bad data format";
    "protocol error"; "timed out"; "not found"; "not implemented";
    "user-defined error" ]%string.

Definition GAI_OFFSET_POS : Z := -1000.
Definition GAI_OFFSET_NEG : Z := -1100.

(** An [ls_err] structure. *)
Record ls_err := LsErr {
  err_code : Z;
  err_message : string;
  err_function : string;
  err_file : string;
  err_line : Z
}.

Section messages.
Context (gai_strerror strerror : Z -> string).

Definition ls_err_message (code : Z) : outcome string :=
  let ic := code in
  if decide (ic < 0) then
    if decide (ic < GAI_OFFSET_NEG) then Done (gai_strerror (ic - GAI_OFFSET_NEG))
    else if decide (ic < GAI_OFFSET_POS) then Done (gai_strerror (- (ic - GAI_OFFSET_POS)))
    else Done (strerror (- ic))
  else if decide (ic > LS_ERR_USER) then Done "Unknown code"%string
  else match ERR_MSG_TABLE !! Z.to_nat code with
       | Some s => Done s
       | None => Fault OutOfBounds
       end.

Definition ls_err_gai (gai_error : Z) : Z :=
  if decide (gai_error < 0) then GAI_OFFSET_NEG + gai_error
  else GAI_OFFSET_POS - gai_error.

(** The [LS_ERROR] macro: nothing happens without a context or without an error. *)
Definition LS_ERROR (err : option ls_err) (errcode : Z) (func file : string) (line : Z)
    : outcome (option ls_err) :=
  match err with
  | None => Done None
  | Some e =>
      if decide (errcode = LS_ERR_NONE) then Done (Some e)
      else match ls_err_message errcode with
           | Done m => Done (Some (LsErr errcode m func file line))
           | Fault f => Fault f
           end
  end.

(** Every [int] code has a message: the table is never indexed out of bounds,
    the named codes give the table's text, codes above [LS_ERR_USER] give
    "Unknown code", codes from -1000 to -1 are errno values. *)
Theorem ls_err_message_total code :
  (0 <= code <= LS_ERR_USER -> exists m, ERR_MSG_TABLE !! Z.to_nat code = Some m /\
     ls_err_message code = Done m) /\
  (LS_ERR_USER < code -> ls_err_message code = Done "Unknown code"%string) /\
  (GAI_OFFSET_POS <= code < 0 -> ls_err_message code = Done (strerror (- code))) /\
  (exists m, ls_err_message code = Done m).
Proof.
  assert (Hin : 0 <= code <= LS_ERR_USER -> exists m, ERR_MSG_TABLE !! Z.to_nat code = Some m).
  { intros H. apply lookup_lt_is_Some. unfold LS_ERR_USER in H. simpl. lia. }
  unfold ls_err_message, GAI_OFFSET_POS, GAI_OFFSET_NEG in *.
  destruct (decide (0 <= code <= LS_ERR_USER)) as [H|H].
  - destruct (Hin H) as [m Hm]. rewrite Hm. unfold LS_ERR_USER in *.
    rewrite !(decide_False (P := code < 0)) by lia.
    rewrite !(decide_False (P := code > 11)) by lia.
    split_and!; eauto; lia.
  - unfold LS_ERR_USER in *.
    repeat case_decide; split_and!; (lia || eauto).
Qed.

(** A getaddrinfo error survives the trip through an error code: its message is
    [gai_strerror]'s for every negative error (Linux) and every positive error up to
    100 (BSD); above 100 the two ranges collide and the message of another error,
    [100 - gai_error], is given. *)
Theorem ls_err_gai_roundtrip gai_error :
  (gai_error < 0 \/ 0 < gai_error <= 100 ->
     ls_err_message (ls_err_gai gai_error) = Done (gai_strerror gai_error)) /\
  (100 < gai_error ->
     ls_err_message (ls_err_gai gai_error) = Done (gai_strerror (100 - gai_error))).
Proof.
  unfold ls_err_message, ls_err_gai, GAI_OFFSET_POS, GAI_OFFSET_NEG.
  split; intros; repeat case_decide; try lia; do 2 f_equal; lia.
Qed.
End messages.
