(* ===== verification/LsStr.v ===== *)
(** NULL-tolerant string functions: src/ls_str.c, with the C library's string
    comparisons they call.

    A C string is the list of its bytes up to, and without, the terminating NUL; the
    contents of a buffer are the bytes that are there, NUL included. *)

From S2P Require Import Prelude.
Open Scope Z_scope.

Definition cstr : Type := list Z.

(** A byte of a C string: a non-zero [unsigned char]. *)
Definition cstr_wf (s : cstr) : Prop := Forall (fun c => 0 < c < 256) s.

(** A [const char *] argument: NULL, or an address and the string that is there. *)
Record cptr := CPtr { cp_addr : Z; cp_str : cstr }.

Module Libc.
(** tolower() in the C locale. *)
Definition tolower (c : Z) : Z := if decide (65 <= c <= 90) then c + 32 else c.

(** The comparison loop all of strcmp(), strcasecmp(), strncmp() and strncasecmp()
    share: the first differing pair decides, a missing byte is the NUL. *)
Fixpoint cmp_by (f : Z -> Z) (a b : cstr) : Z :=
  match a, b with
  | [], [] => 0
  | [], y :: _ => 0 - f y
  | x :: _, [] => f x - 0
  | x :: a', y :: b' => if decide (f x = f y) then cmp_by f a' b' else f x - f y
  end.

Definition strcmp : cstr -> cstr -> Z := cmp_by (fun c => c).
Definition strcasecmp : cstr -> cstr -> Z := cmp_by tolower.
Definition strncmp (a b : cstr) (n : Z) : Z :=
  cmp_by (fun c => c) (take (Z.to_nat n) a) (take (Z.to_nat n) b).
Definition strncasecmp (a b : cstr) (n : Z) : Z :=
  cmp_by tolower (take (Z.to_nat n) a) (take (Z.to_nat n) b).

(** atoi(): leading white space, a sign, digits; the value of an out-of-range
    number is not defined by C and not used here. *)
Definition isspace (c : Z) : bool := bool_decide (c = 32 \/ 9 <= c <= 13).
Definition isdigit (c : Z) : bool := bool_decide (48 <= c <= 57).

Fixpoint digits (acc : Z) (s : cstr) : Z :=
  match s with
  | c :: s' => if isdigit c then digits (10 * acc + (c - 48)) s' else acc
  | [] => acc
  end.

Fixpoint atoi (s : cstr) : Z :=
  match s with
  | c :: s' =>
      if isspace c then atoi s'
      else if decide (c = 45) then - digits 0 s'
      else if decide (c = 43) then digits 0 s'
      else digits 0 s
  | [] => 0
  end.
End Libc.

Definition ls_atoi (a : option cptr) (def : Z) : Z :=
  match a with None => def | Some p => Libc.atoi (cp_str p) end.

Definition ls_strlen (a : option cptr) : Z :=
  match a with None => 0 | Some p => Z.of_nat (length (cp_str p)) end.

(** The loop of [ls_strnlen] over the bytes of a buffer. *)
Fixpoint strnlen_loop (i : Z) (len : nat) (buf : list Z) : Z :=
  match len, buf with
  | S len', c :: buf' => if decide (c = 0) then i else strnlen_loop (i + 1) len' buf'
  | _, _ => i
  end.

Definition ls_strnlen (a : option cptr) (len : Z) : Z :=
  match a with
  | None => 0
  | Some p => strnlen_loop 0 (Z.to_nat len) (cp_str p ++ [0])
  end.

(** The NULL and same-pointer cases all four comparisons start with. *)
Definition null_cmp (cmp : cstr -> cstr -> Z) (a b : option cptr) : Z :=
  match a, b with
  | None, None => 0
  | None, Some _ => -1
  | Some _, None => 1
  | Some p, Some q => if decide (cp_addr p = cp_addr q) then 0 else cmp (cp_str p) (cp_str q)
  end.

Definition ls_strcmp (a b : option cptr) : Z := null_cmp Libc.strcmp a b.
Definition ls_strcasecmp (a b : option cptr) : Z := null_cmp Libc.strcasecmp a b.
Definition ls_strncmp (a b : option cptr) (n : Z) : Z :=
  null_cmp (fun s t => Libc.strncmp s t n) a b.
Definition ls_strncasecmp (a b : option cptr) (n : Z) : Z :=
  null_cmp (fun s t => Libc.strncasecmp s t n) a b.

(** ** The comparison loop is a total order on strings up to [f] *)
Section cmp_by.
Context (f : Z -> Z).

(** [f] does not turn a byte into NUL, nor out of the bytes. *)
Definition keeps_bytes : Prop := forall c, 0 < c < 256 -> 0 < f c < 256.

Hypothesis Hf : keeps_bytes.

Lemma cmp_by_zero a b : cstr_wf a -> cstr_wf b ->
  Libc.cmp_by f a b = 0 <-> f <$> a = f <$> b.
Proof.
  intros Ha. revert b. induction Ha as [|x a Hx Ha IH]; intros b Hb.
  - destruct Hb as [|y b Hy Hb]; simpl; [done|]. pose proof (Hf y Hy). split; [lia|done].
  - destruct Hb as [|y b Hy Hb]; simpl.
    + pose proof (Hf x Hx). split; [lia|done].
    + case_decide as E.
      * rewrite (IH b Hb), E. split; [by intros H; f_equal|by intros [= ?]].
      * split; [lia|]. by intros [= ?].
Qed.

Lemma cmp_by_antisym a b : Libc.cmp_by f b a = - Libc.cmp_by f a b.
Proof.
  revert b. induction a as [|x a IH]; intros [|y b]; simpl; try lia.
  repeat case_decide; (apply IH || lia || congruence).
Qed.

Lemma cmp_by_trans a b c : cstr_wf a -> cstr_wf b -> cstr_wf c ->
  Libc.cmp_by f a b < 0 -> Libc.cmp_by f b c <= 0 -> Libc.cmp_by f a c < 0.
Proof.
  intros Ha. revert b c. induction Ha as [|x a Hx Ha IH]; intros b c Hb Hc.
  - destruct Hb as [|y b Hy Hb]; [simpl; lia|].
    destruct Hc as [|z c Hz Hc]; simpl;
      pose proof (Hf y Hy); [lia|]. pose proof (Hf z Hz). lia.
  - destruct Hb as [|y b Hy Hb]; simpl; [pose proof (Hf x Hx); lia|].
    destruct Hc as [|z c Hz Hc]; simpl; [pose proof (Hf y Hy); lia|].
    repeat case_decide; try lia. by apply IH.
Qed.
End cmp_by.

Lemma tolower_keeps_bytes : keeps_bytes Libc.tolower.
Proof. intros c Hc. unfold Libc.tolower. case_decide; lia. Qed.

Lemma id_keeps_bytes : keeps_bytes (fun c => c).
Proof. intros c Hc. lia. Qed.

Lemma cstr_wf_take n s : cstr_wf s -> cstr_wf (take n s).
Proof. apply Forall_take. Qed.

#[export] Hint Resolve tolower_keeps_bytes id_keeps_bytes cstr_wf_take : spud.

(** ** The NULL-tolerant comparisons *)

(** Pointers that agree on the address agree on the string there. *)
Definition coherent (a b : option cptr) : Prop :=
  match a, b with
  | Some p, Some q => cp_addr p = cp_addr q -> cp_str p = cp_str q
  | _, _ => True
  end.

Definition ptr_wf (a : option cptr) : Prop := forall p, a = Some p -> cstr_wf (cp_str p).

(** [ls_strcmp] and [ls_strcasecmp] return 0 exactly when both arguments are NULL
    or both are strings that are equal (equal up to ASCII case); they are antisymmetric,
    and NULL comes before every string. *)
Theorem ls_strcmp_spec a b : ptr_wf a -> ptr_wf b -> coherent a b ->
  (ls_strcmp a b = 0 <-> cp_str <$> a = cp_str <$> b) /\
  (ls_strcasecmp a b = 0 <-> fmap Libc.tolower ∘ cp_str <$> a = fmap Libc.tolower ∘ cp_str <$> b) /\
  ls_strcmp b a = - ls_strcmp a b /\
  ls_strcasecmp b a = - ls_strcasecmp a b /\
  (forall p, ls_strcmp None (Some p) < 0 /\ ls_strcasecmp None (Some p) < 0).
Proof.
  intros Ha Hb Hc. unfold ls_strcmp, ls_strcasecmp, null_cmp, Libc.strcmp, Libc.strcasecmp.
  split_and!; [| | | |done].
  - destruct a as [p|], b as [q|]; simpl; try done.
    case_decide as E; [by rewrite (Hc E)|].
    rewrite cmp_by_zero by eauto with spud.
    rewrite !list_fmap_id. split; [by intros ->|by intros [= ->]].
  - destruct a as [p|], b as [q|]; simpl; try done.
    case_decide as E; [by rewrite (Hc E)|].
    rewrite cmp_by_zero by eauto with spud. split; [by intros ->|by intros [= ->]].
  - destruct a as [p|], b as [q|]; simpl; try done.
    repeat case_decide; try lia. apply cmp_by_antisym.
  - destruct a as [p|], b as [q|]; simpl; try done.
    repeat case_decide; try lia. apply cmp_by_antisym.
Qed.

Lemma strnlen_loop_spec i n s : cstr_wf s ->
  strnlen_loop i n (s ++ [0]) = i + Z.of_nat (min n (length s)).
Proof.
  intros Hs. revert i n. induction Hs as [|c s Hc Hs IH]; intros i [|n]; simpl; try lia.
  rewrite decide_False by lia. rewrite IH. lia.
Qed.

(** [ls_strnlen] is the length of the string, cut at [len]; 0 for NULL; and it
    never looks at more than the [len] first bytes (the loop is over them). *)
Theorem ls_strnlen_min a len : ptr_wf a -> 0 <= len ->
  ls_strnlen a len = Z.min len (ls_strlen a).
Proof.
  intros Ha Hlen. destruct a as [p|]; simpl; [|lia].
  rewrite strnlen_loop_spec by eauto. lia.
Qed.

Lemma ls_strcmp_spec_witness :
  let a := Some (CPtr 1 [65; 98]) in
  let b := Some (CPtr 2 [97; 98]) in
  (ls_strcmp a b = 0 <-> cp_str <$> a = cp_str <$> b) /\
  (ls_strcasecmp a b = 0 <-> fmap Libc.tolower ∘ cp_str <$> a = fmap Libc.tolower ∘ cp_str <$> b) /\
  ls_strcmp b a = - ls_strcmp a b /\
  ls_strcasecmp b a = - ls_strcasecmp a b /\
  (forall p, ls_strcmp None (Some p) < 0 /\ ls_strcasecmp None (Some p) < 0).
Proof.
  intros a b. refine (ls_strcmp_spec a b _ _ _).
  - intros p [= <-]. repeat constructor.
  - intros p [= <-]. repeat constructor.
  - discriminate.
Defined.

Lemma ls_strnlen_min_witness :
  let a := Some (CPtr 1 [65; 98; 99]) in ls_strnlen a 2 = Z.min 2 (ls_strlen a).
Proof.
  intros a. refine (ls_strnlen_min a 2 _ _).
  - intros p [= <-]. repeat constructor.
  - discriminate.
Defined.
