(* ===== verification/LsMem.v ===== *)
(** Allocation wrappers and memory pools: src/ls_mem.c, include/ls_mem.h,
    src/ls_pool_types.h.

    [mem] is the process heap as the library sees it.  malloc() either fails or gives a
    block no live block shares; whether the next calls fail is the script [m_oom], so a
    theorem about all [mem] is a theorem about every pattern of allocation failures.
    Freed names are not given out again, which no program can observe without using a
    dangling pointer. *)

From S2P Require Import Prelude LsError LsStr.
Open Scope Z_scope.

(** The base address of a heap block; a [void *] is [option addr]. *)
Abbreviation loc := positive.
Record addr := Addr { a_blk : loc; a_off : Z }.

#[export] Instance addr_eq_dec : EqDecision addr.
Proof. solve_decision. Defined.

Definition addr_of (l : loc) : addr := Addr l 0.

(** ** The heap *)
Record mem := Mem {
  m_live : gmap loc Z;             (* blocks not yet freed, with their sizes *)
  m_next : loc;                    (* every block so far is below *)
  m_bytes : gmap (loc * Z) Z;      (* the bytes stored in the blocks *)
  m_oom : list bool                (* which of the next allocations fail *)
}.

Definition set_live (f : gmap loc Z -> gmap loc Z) (m : mem) : mem :=
  Mem (f (m_live m)) (m_next m) (m_bytes m) (m_oom m).

Definition mem_wf (m : mem) : Prop := forall l, is_Some (m_live m !! l) -> (l < m_next m)%positive.

Module Libc.
Definition malloc (size : Z) : C mem (option loc) := fun m =>
  match m_oom m with
  | true :: o => Done (None, Mem (m_live m) (m_next m) (m_bytes m) o)
  | o => Done (Some (m_next m),
               Mem (<[m_next m := size]> (m_live m)) (Pos.succ (m_next m)) (m_bytes m) (tail o))
  end.

Definition free (l : loc) : C mem unit := fun m =>
  match m_live m !! l with
  | Some _ => Done (tt, set_live (delete l) m)
  | None => Fault DoubleFree
  end.

(** The [n] bytes at [a] are inside a live block. *)
Definition in_block (m : mem) (a : addr) (n : Z) : outcome unit :=
  match m_live m !! a_blk a with
  | None => Fault UseAfterFree
  | Some sz => if decide (0 <= a_off a /\ a_off a + n <= sz) then Done tt else Fault OutOfBounds
  end.

Fixpoint store_bytes (a : addr) (bs : list Z) (b : gmap (loc * Z) Z) : gmap (loc * Z) Z :=
  match bs with
  | [] => b
  | c :: bs' => store_bytes (Addr (a_blk a) (a_off a + 1)) bs' (<[(a_blk a, a_off a) := c]> b)
  end.

(** memcpy() of bytes from outside the heap. *)
Definition memcpy (a : addr) (bs : list Z) : C mem unit := fun m =>
  match in_block m a (Z.of_nat (length bs)) with
  | Done _ => Done (tt, Mem (m_live m) (m_next m) (store_bytes a bs (m_bytes m)) (m_oom m))
  | Fault e => Fault e
  end.

(** memset(p, c, n); with [n = 0] nothing is accessed, NULL included. *)
Definition memset (p : option addr) (c n : Z) : C mem unit :=
  if decide (n = 0) then mret tt
  else a ← c_deref p; memcpy a (replicate (Z.to_nat n) c).

(** The bytes of a block, [None] where nothing was stored. *)
Definition load_bytes (m : mem) (a : addr) (n : nat) : list (option Z) :=
  (fun i => m_bytes m !! (a_blk a, a_off a + Z.of_nat i)) <$> seq 0 n.

(** realloc(): a fresh block with the old contents, the old block freed. *)
Definition realloc (p : option loc) (size : Z) : C mem (option loc) :=
  r ← malloc size;
  match r, p with
  | None, _ => mret None
  | Some l, None => mret (Some l)
  | Some l, Some old =>
      old_size ← c_gets (fun m => m_live m !! old) ≫= c_live;
      m ← c_get;
      memcpy (addr_of l)
        (default 0 <$> load_bytes m (addr_of old) (Z.to_nat (Z.min old_size size)));;
      free old;;
      mret (Some l)
  end.
End Libc.

(** ** ls_data_*: the logging wrappers *)

Definition ls_data_malloc (size : Z) : C mem (option loc) := Libc.malloc size.

Definition ls_data_free (p : option loc) : C mem unit :=
  match p with None => mret tt | Some l => Libc.free l end.

Definition ls_data_realloc (p : option loc) (size : Z) : C mem (option loc) :=
  Libc.realloc p size.

Definition ls_data_calloc (nmemb size : Z) : C mem (option loc) :=
  let block_size := u64 (nmemb * size) in
  ret ← ls_data_malloc block_size;
  match ret with
  | None => mret None
  | Some l => Libc.memset (Some (addr_of l)) 0 block_size;; mret (Some l)
  end.

Definition ls_data_strdup (src : option cptr) : C mem (option loc) :=
  match src with
  | None => mret None
  | Some s =>
      let len := ls_strlen src in
      ret ← ls_data_malloc (u64 (len + 1));
      match ret with
      | None => mret None
      | Some l => Libc.memcpy (addr_of l) (cp_str s ++ [0]);; mret (Some l)
      end
  end.

Definition ls_data_strndup (src : option cptr) (len : Z) : C mem (option loc) :=
  match src with
  | None => mret None
  | Some s =>
      let len := ls_strnlen src len in
      ret ← ls_data_malloc (u64 (len + 1));
      match ret with
      | None => mret None
      | Some l =>
          Libc.memcpy (addr_of l) (take (Z.to_nat len) (cp_str s));;
          Libc.memcpy (Addr l len) [0];;
          mret (Some l)
      end
  end.

(** ** Pools *)

(** A function registered to run when the pool goes: [_free_page], [ls_data_free] or a
    user's. *)
Inductive cleaner : Set := free_page_fn | data_free_fn | user_fn (id : N).

Record pool_cleaner_ctx := CleanerCtx { cc_cleaner : cleaner; cc_arg : option addr }.

Record pool_page := Page { pg_block : loc; pg_size : Z; pg_used : Z }.

(** Both linked lists are reachable only from the pool, so they are lists, head first,
    of node addresses and nodes. *)
Record ls_pool := Pool {
  p_size : Z;
  p_page_size : Z;
  p_cleaners : list (loc * pool_cleaner_ctx);
  p_tail : option loc;
  p_pages : list (loc * pool_page)
}.

Definition SIZEOF_POOL_PAGE : Z := 32.
Definition SIZEOF_CLEANER_CTX : Z := 24.
Definition SIZEOF_POOL : Z := 40.

Record pstate := PState {
  ps_mem : mem;
  ps_pools : gmap loc ls_pool;
  ps_paging : bool;                      (* _paging_enabled *)
  ps_called : list (N * option addr)     (* user cleaners called so far, latest first *)
}.

Definition set_mem (m : mem) (s : pstate) : pstate :=
  PState m (ps_pools s) (ps_paging s) (ps_called s).
Definition set_pools (f : gmap loc ls_pool -> gmap loc ls_pool) (s : pstate) : pstate :=
  PState (ps_mem s) (f (ps_pools s)) (ps_paging s) (ps_called s).

Definition on_mem {A} : C mem A -> C pstate A := zoom ps_mem set_mem.
Definition get_pool (p : loc) : C pstate ls_pool :=
  c_gets (fun s => ps_pools s !! p) ≫= c_live.
Definition put_pool (p : loc) (pool : ls_pool) : C pstate unit :=
  c_modify (set_pools (insert p pool)).

(** [_malloc_fnc] without a cleaner. *)
Definition malloc_fnc_plain (size : Z) : C pstate (res Z loc) :=
  ret ← on_mem (ls_data_malloc size);
  match ret with
  | None => mret (Err LS_ERR_NO_MEMORY)
  | Some l => mret (Ok l)
  end.

Definition ls_pool_add_cleaner (p : loc) (callback : cleaner) (arg : option addr)
    : C pstate (res Z unit) :=
  r ← malloc_fnc_plain SIZEOF_CLEANER_CTX;
  match r with
  | Err e => mret (Err e)
  | Ok ctx =>
      pool ← get_pool p;
      put_pool p (Pool (p_size pool) (p_page_size pool)
                    ((ctx, CleanerCtx callback arg) :: p_cleaners pool)
                    (match p_cleaners pool with [] => Some ctx | _ => p_tail pool end)
                    (p_pages pool));;
      mret (Ok tt)
  end.

(** [_malloc_fnc]: an allocation, and the cleaner that will release it. *)
Definition malloc_fnc (p : option loc) (size : Z) (cl : option cleaner) : C pstate (res Z loc) :=
  r ← malloc_fnc_plain size;
  match r, p, cl with
  | Ok l, Some pl, Some c =>
      a ← ls_pool_add_cleaner pl c (Some (addr_of l));
      match a with
      | Ok _ => mret (Ok l)
      | Err e => on_mem (ls_data_free (Some l));; mret (Err e)
      end
  | _, _, _ => mret r
  end.

(** [_page_malloc]: a slice of the page's unused tail. *)
Definition page_malloc (pg : pool_page) (size : Z) : option (addr * pool_page) :=
  let will_use := pg_used pg in
  if decide (size > pg_size pg - will_use) then None
  else Some (Addr (pg_block pg) will_use, Page (pg_block pg) (pg_size pg) (will_use + size)).

Definition add_page (p : loc) : C pstate (res Z unit) :=
  pool ← get_pool p;
  r ← malloc_fnc (Some p) SIZEOF_POOL_PAGE None;
  match r with
  | Err e => mret (Err e)
  | Ok page =>
      r ← malloc_fnc (Some p) (p_page_size pool) None;
      match r with
      | Err e => on_mem (ls_data_free (Some page));; mret (Err e)
      | Ok block =>
          r ← ls_pool_add_cleaner p free_page_fn (Some (addr_of page));
          match r with
          | Err e =>
              on_mem (ls_data_free (Some block));;
              on_mem (ls_data_free (Some page));;
              mret (Err e)
          | Ok _ =>
              pool ← get_pool p;
              put_pool p (Pool (u64 (p_size pool + p_page_size pool)) (p_page_size pool)
                            (p_cleaners pool) (p_tail pool)
                            ((page, Page block (p_page_size pool) 0) :: p_pages pool));;
              mret (Ok tt)
          end
      end
  end.

Definition ls_pool_create (size : Z) : C pstate (res Z loc) :=
  r ← malloc_fnc None SIZEOF_POOL None;
  match r with
  | Err e => mret (Err e)
  | Ok ret =>
      paging ← c_gets ps_paging;
      let size := if paging : bool then size else 0 in
      put_pool ret (Pool 0 size [] None []);;
      if decide (size = 0) then mret (Ok ret)
      else
        r ← add_page ret;
        match r with
        | Ok _ => mret (Ok ret)
        | Err e =>
            on_mem (ls_data_free (Some ret));;
            c_modify (set_pools (delete ret));;
            mret (Err e)
        end
  end.

(** The page structure at an address: its fields are read when it is freed. *)
Fixpoint find_page (l : loc) (pages : list (loc * pool_page)) : option pool_page :=
  match pages with
  | [] => None
  | (l', pg) :: ps => if decide (l = l') then Some pg else find_page l ps
  end.

(** One turn of the loop of [ls_pool_destroy]: call the cleaner, free its node. *)
Definition run_cleaner (pages : list (loc * pool_page)) (c : loc * pool_cleaner_ctx)
    : C pstate unit :=
  match cc_cleaner c.2 with
  | free_page_fn =>
      a ← c_deref (cc_arg c.2);
      pg ← c_live (find_page (a_blk a) pages);
      on_mem (ls_data_free (Some (pg_block pg)));;
      on_mem (ls_data_free (Some (a_blk a)))
  | data_free_fn => on_mem (ls_data_free (a_blk <$> cc_arg c.2))
  | user_fn id =>
      c_modify (fun s => PState (ps_mem s) (ps_pools s) (ps_paging s)
                           ((id, cc_arg c.2) :: ps_called s))
  end;;
  on_mem (ls_data_free (Some c.1)).

Fixpoint run_cleaners (pages : list (loc * pool_page)) (cs : list (loc * pool_cleaner_ctx))
    : C pstate unit :=
  match cs with
  | [] => mret tt
  | c :: cs' => run_cleaner pages c;; run_cleaners pages cs'
  end.

Definition ls_pool_destroy (p : loc) : C pstate unit :=
  pool ← get_pool p;
  run_cleaners (p_pages pool) (p_cleaners pool);;
  on_mem (ls_data_free (Some p));;
  c_modify (set_pools (delete p)).

(** The page list's head is the page being filled. *)
Definition put_head_page (p : loc) (pg : pool_page) : C pstate unit :=
  pool ← get_pool p;
  match p_pages pool with
  | (l, _) :: ps =>
      put_pool p (Pool (p_size pool) (p_page_size pool) (p_cleaners pool) (p_tail pool)
                    ((l, pg) :: ps))
  | [] => c_fault NullDeref
  end.

Definition ls_pool_malloc (p : loc) (size : Z) : C pstate (res Z (option addr)) :=
  pool ← get_pool p;
  if decide (size = 0) then mret (Ok None)
  else if decide (size > p_page_size pool) then
    r ← malloc_fnc (Some p) size (Some data_free_fn);
    match r with
    | Err e => mret (Err e)
    | Ok l =>
        pool ← get_pool p;
        put_pool p (Pool (u64 (p_size pool + size)) (p_page_size pool) (p_cleaners pool)
                      (p_tail pool) (p_pages pool));;
        mret (Ok (Some (addr_of l)))
    end
  else
    page ← c_deref (head (p_pages pool));
    match page_malloc page.2 size with
    | Some (a, pg) => put_head_page p pg;; mret (Ok (Some a))
    | None =>
        r ← add_page p;
        match r with
        | Err e => mret (Err e)
        | Ok _ =>
            pool ← get_pool p;
            page ← c_deref (head (p_pages pool));
            match page_malloc page.2 size with
            | Some (a, pg) => put_head_page p pg;; mret (Ok (Some a))
            | None => mret (Ok None)
            end
        end
    end.

Definition ls_pool_calloc (p : loc) (num size : Z) : C pstate (res Z (option addr)) :=
  let block_size := u64 (num * size) in
  r ← ls_pool_malloc p (u64 (num * size));
  match r with
  | Err e => mret (Err e)
  | Ok ptr => on_mem (Libc.memset ptr 0 block_size);; mret (Ok ptr)
  end.

Definition ls_pool_strdup (p : loc) (src : option cptr) : C pstate (res Z (option addr)) :=
  match src with
  | None => mret (Ok None)
  | Some s =>
      let len := ls_strlen src in
      r ← ls_pool_malloc p (u64 (len + 1));
      match r with
      | Err e => mret (Err e)
      | Ok ret =>
          a ← c_deref ret;
          on_mem (Libc.memcpy a (cp_str s ++ [0]));;
          mret (Ok ret)
      end
  end.

Definition ls_pool_enable_paging (enable : bool) : C pstate unit :=
  c_modify (fun s => PState (ps_mem s) (ps_pools s) enable (ps_called s)).

(** ** Facts about the heap *)

Definition mem_alloc (size : Z) (m : mem) : mem :=
  Mem (<[m_next m := size]> (m_live m)) (Pos.succ (m_next m)) (m_bytes m) (tail (m_oom m)).
Definition mem_oom (m : mem) : mem := Mem (m_live m) (m_next m) (m_bytes m) (tail (m_oom m)).

Definition alloc_st (size : Z) (s : pstate) : pstate := set_mem (mem_alloc size (ps_mem s)) s.
Definition oom_st (s : pstate) : pstate := set_mem (mem_oom (ps_mem s)) s.
Definition free_st (l : loc) (s : pstate) : pstate := set_mem (set_live (delete l) (ps_mem s)) s.

Abbreviation live s := (m_live (ps_mem s)).
Abbreviation next s := (m_next (ps_mem s)).

Lemma mem_wf_fresh m : mem_wf m -> m_live m !! m_next m = None.
Proof. intros H. apply eq_None_not_Some. intros Hs. specialize (H _ Hs). lia. Qed.

Lemma mem_wf_alloc size m : mem_wf m -> mem_wf (mem_alloc size m).
Proof.
  intros H l. simpl. destruct (decide (l = m_next m)) as [->|Hne]; [lia|].
  rewrite lookup_insert_ne by done. intros Hl. specialize (H _ Hl). lia.
Qed.

Lemma mem_wf_delete l m : mem_wf m -> mem_wf (set_live (delete l) m).
Proof.
  intros H k. simpl. intros [x [_ Hx]%lookup_delete_Some]. apply H. eauto.
Qed.

#[export] Hint Resolve mem_wf_alloc mem_wf_delete : spud.

Lemma malloc_exact size m (Q : option loc -> mem -> Prop) :
  (hd false (m_oom m) = true -> Q None (mem_oom m)) ->
  (hd false (m_oom m) = false -> Q (Some (m_next m)) (mem_alloc size m)) ->
  runs (ls_data_malloc size) m Q.
Proof.
  intros Hn Hs. unfold runs, ls_data_malloc, Libc.malloc.
  destruct (m_oom m) as [|[] o] eqn:E; unfold mem_oom, mem_alloc in *; rewrite E in *; eauto.
Qed.

Lemma malloc_cases size m (Q : option loc -> mem -> Prop) :
  Q None (mem_oom m) -> Q (Some (m_next m)) (mem_alloc size m) ->
  runs (ls_data_malloc size) m Q.
Proof. intros Hn Hs. by apply malloc_exact. Qed.

Lemma runs_malloc size s (Q : option loc -> pstate -> Prop) :
  Q None (oom_st s) -> Q (Some (next s)) (alloc_st size s) ->
  runs (on_mem (ls_data_malloc size)) s Q.
Proof. intros Hn Hs. apply runs_zoom, malloc_cases; done. Qed.

Lemma runs_free l s (Q : unit -> pstate -> Prop) :
  is_Some (live s !! l) -> Q tt (free_st l s) -> runs (on_mem (ls_data_free (Some l))) s Q.
Proof.
  intros [sz Hl] HQ. apply runs_zoom. unfold runs, ls_data_free, Libc.free. by rewrite Hl.
Qed.

(** [minus ls g]: the heap once the blocks [ls] have been freed. *)
Definition minus (ls : list loc) (g : gmap loc Z) : gmap loc Z := foldr delete g ls.

Lemma lookup_minus ls g l : minus ls g !! l = if decide (l ∈ ls) then None else g !! l.
Proof.
  induction ls as [|k ls IH]; [done|].
  change (minus (k :: ls) g) with (delete k (minus ls g)).
  rewrite lookup_delete, IH. repeat case_decide; set_solver.
Qed.

Lemma minus_perm ls ls' g : (forall l, l ∈ ls <-> l ∈ ls') -> minus ls g = minus ls' g.
Proof. intros H. apply map_eq. intros l. rewrite !lookup_minus. specialize (H l). repeat case_decide; tauto. Qed.

Lemma minus_insert_in ls l x g : l ∈ ls -> minus ls (<[l := x]> g) = minus ls g.
Proof.
  intros H. apply map_eq. intros k. rewrite !lookup_minus. case_decide; [done|].
  by rewrite lookup_insert_ne by congruence.
Qed.

Lemma minus_insert_out ls l x g : l ∉ ls -> minus ls (<[l := x]> g) = <[l := x]> (minus ls g).
Proof.
  intros H. apply map_eq. intros k. rewrite lookup_minus, !lookup_insert, lookup_minus.
  repeat case_decide; congruence.
Qed.

Lemma minus_app ls ls' g : minus (ls ++ ls') g = minus ls (minus ls' g).
Proof. unfold minus. by rewrite foldr_app. Qed.

Lemma minus_delete ls l g : minus ls (delete l g) = minus (l :: ls) g.
Proof. apply map_eq. intros k. rewrite !lookup_minus, lookup_delete. repeat case_decide; set_solver. Qed.

(** ** What a pool owns *)

Definition ctx_blocks (pages : list (loc * pool_page)) (c : loc * pool_cleaner_ctx) : list loc :=
  match cc_cleaner c.2, cc_arg c.2 with
  | free_page_fn, Some a =>
      match find_page (a_blk a) pages with Some pg => [pg_block pg; a_blk a] | None => [] end
  | data_free_fn, Some a => [a_blk a]
  | _, _ => []
  end ++ [c.1].

Definition pool_blocks (pool : ls_pool) : list loc :=
  concat (ctx_blocks (p_pages pool) <$> p_cleaners pool).

(** The user callbacks registered with a pool, in the order destruction calls them. *)
Definition user_call (c : loc * pool_cleaner_ctx) : list (N * option addr) :=
  match cc_cleaner c.2 with user_fn id => [(id, cc_arg c.2)] | _ => [] end.
Definition user_calls (pool : ls_pool) : list (N * option addr) :=
  concat (user_call <$> p_cleaners pool).

Definition ctx_ok (pages : list (loc * pool_page)) (c : loc * pool_cleaner_ctx) : Prop :=
  cc_cleaner c.2 = free_page_fn ->
  exists a pg, cc_arg c.2 = Some a /\ find_page (a_blk a) pages = Some pg.

Definition page_ok (s : pstate) (pool : ls_pool) (lp : loc * pool_page) : Prop :=
  0 <= pg_used lp.2 <= pg_size lp.2 /\ pg_size lp.2 = p_page_size pool /\
  live s !! pg_block lp.2 = Some (pg_size lp.2) /\ pg_block lp.2 ∈ pool_blocks pool.

(** A pool that has pages has a current one. *)
Definition pool_ready (pool : ls_pool) : Prop := 0 < p_page_size pool -> p_pages pool <> [].

(** The pool at [p] owns exactly the live blocks that are not in [base]: each of them is
    released by one cleaner, and none twice. *)
Record pool_inv (base : gmap loc Z) (p : loc) (pool : ls_pool) (s : pstate) : Prop := {
  pi_pool : ps_pools s !! p = Some pool;
  pi_wf : mem_wf (ps_mem s);
  pi_nodup : NoDup (pool_blocks pool ++ [p]);
  pi_live : Forall (fun l => is_Some (live s !! l)) (pool_blocks pool ++ [p]);
  pi_base : base = minus (pool_blocks pool ++ [p]) (live s);
  pi_ctx : Forall (ctx_ok (p_pages pool)) (p_cleaners pool);
  pi_pages : Forall (page_ok s pool) (p_pages pool);
  pi_psize : 0 <= p_page_size pool
}.

Lemma pool_inv_fresh base p pool s : pool_inv base p pool s -> next s ∉ pool_blocks pool ++ [p].
Proof.
  intros I H. eapply Forall_forall in H; [|apply (pi_live _ _ _ _ I)]; simpl in H.
  rewrite mem_wf_fresh in H by apply I. by destruct H.
Qed.

Lemma pool_inv_base_fresh base p pool s : pool_inv base p pool s -> base !! next s = None.
Proof.
  intros I. rewrite (pi_base _ _ _ _ I), lookup_minus, mem_wf_fresh by apply I.
  by destruct (decide _).
Qed.

(** A failed allocation changes nothing; a successful one adds a block to [base]. *)
Lemma pool_inv_oom base p pool s : pool_inv base p pool s -> pool_inv base p pool (oom_st s).
Proof. intros []. by constructor. Qed.

Lemma live_alloc_ne s size l : mem_wf (ps_mem s) -> is_Some (live s !! l) ->
  live (alloc_st size s) !! l = live s !! l.
Proof.
  intros Hwf Hl. simpl. apply lookup_insert_ne. intros <-. rewrite mem_wf_fresh in Hl by done.
  by destruct Hl.
Qed.

Lemma pool_inv_alloc base p pool s size :
  pool_inv base p pool s -> pool_inv (<[next s := size]> base) p pool (alloc_st size s).
Proof.
  intros I. pose proof (pool_inv_fresh _ _ _ _ I) as Hf. destruct I as [Hp Hwf Hnd Hl Hb Hc Hpg Hs].
  constructor; try done.
  - by apply mem_wf_alloc.
  - eapply Forall_impl; [exact Hl|]. intros l Hl'. by rewrite live_alloc_ne.
  - simpl. rewrite minus_insert_out by done. by rewrite <- Hb.
  - eapply Forall_impl; [exact Hpg|]. intros lp (H1 & H2 & H3 & H4). split_and!; try done; try lia.
    rewrite live_alloc_ne; eauto.
Qed.

Lemma pool_inv_free base p pool s l :
  pool_inv base p pool s -> is_Some (base !! l) -> pool_inv (delete l base) p pool (free_st l s).
Proof.
  intros [Hp Hwf Hnd Hl Hb Hc Hpg Hs] Hbl.
  assert (Hout : l ∉ pool_blocks pool ++ [p]).
  { intros H. rewrite Hb, lookup_minus, decide_True in Hbl by done. by destruct Hbl. }
  assert (Hne : forall k, k ∈ pool_blocks pool ++ [p] -> live (free_st l s) !! k = live s !! k).
  { intros k Hk. simpl. apply lookup_delete_ne. congruence. }
  constructor; try done.
  - by apply mem_wf_delete.
  - eapply Forall_forall. intros k Hk. rewrite Hne by done.
    by eapply Forall_forall in Hl; [|exact Hk].
  - simpl. rewrite minus_delete. rewrite Hb.
    apply map_eq. intros k. rewrite lookup_delete, !lookup_minus.
    repeat case_decide; set_solver.
  - eapply Forall_impl; [exact Hpg|]. intros lp (H1 & H2 & H3 & H4). split_and!; try done; try lia.
    rewrite Hne; [done|set_solver].
Qed.

(** ** Adding to a pool *)

Definition push_ctx (ctx : loc) (cl : cleaner) (arg : option addr) (pool : ls_pool) : ls_pool :=
  Pool (p_size pool) (p_page_size pool) ((ctx, CleanerCtx cl arg) :: p_cleaners pool)
    (match p_cleaners pool with [] => Some ctx | _ => p_tail pool end) (p_pages pool).

Definition pool_st (p : loc) (pool : ls_pool) (s : pstate) : pstate := set_pools (insert p pool) s.

Lemma runs_get_pool p s pool (Q : ls_pool -> pstate -> Prop) :
  ps_pools s !! p = Some pool -> Q pool s -> runs (get_pool p) s Q.
Proof. intros H HQ. unfold get_pool. by repeat run_step. Qed.

Lemma runs_put_pool p pool s (Q : unit -> pstate -> Prop) :
  Q tt (pool_st p pool s) -> runs (put_pool p pool) s Q.
Proof. done. Qed.

Lemma runs_malloc_fnc_plain size s (Q : res Z loc -> pstate -> Prop) :
  Q (Err LS_ERR_NO_MEMORY) (oom_st s) -> Q (Ok (next s)) (alloc_st size s) ->
  runs (malloc_fnc_plain size) s Q.
Proof. intros Hn Hs. unfold malloc_fnc_plain. run_step. by apply runs_malloc. Qed.

Lemma runs_add_cleaner p cl arg s pool (Q : res Z unit -> pstate -> Prop) :
  ps_pools s !! p = Some pool ->
  Q (Err LS_ERR_NO_MEMORY) (oom_st s) ->
  Q (Ok tt) (pool_st p (push_ctx (next s) cl arg pool) (alloc_st SIZEOF_CLEANER_CTX s)) ->
  runs (ls_pool_add_cleaner p cl arg) s Q.
Proof.
  intros Hp Hn Hs. unfold ls_pool_add_cleaner. run_step.
  apply runs_malloc_fnc_plain; [done|]. run_step. by eapply runs_get_pool.
Qed.

(** What an operation on the pool at [p] leaves alone: other pools, the cleaners called. *)
Record pool_frame (p : loc) (s s' : pstate) : Prop := {
  pf_pools q : q <> p -> ps_pools s' !! q = ps_pools s !! q;
  pf_called : ps_called s' = ps_called s;
  pf_paging : ps_paging s' = ps_paging s
}.

#[export] Instance pool_frame_preorder p : PreOrder (pool_frame p).
Proof.
  split.
  - by intros s.
  - intros s t u [H1 H2 H3] [H4 H5 H6]. split; [|congruence..].
    intros q Hq. by rewrite H4, H1.
Qed.

Lemma pool_frame_st p pool s s' : pool_frame p s s' -> pool_frame p s (pool_st p pool s').
Proof.
  intros [H1 H2 H3]. split; [|done..]. intros q Hq. simpl. rewrite lookup_insert_ne by done. auto.
Qed.

Lemma pool_frame_mem p m s s' : pool_frame p s s' -> pool_frame p s (set_mem m s').
Proof. by intros []. Qed.

#[export] Hint Resolve pool_frame_st pool_frame_mem : spud.
#[export] Hint Extern 2 (pool_frame _ _ (alloc_st _ _)) => apply pool_frame_mem : spud.
#[export] Hint Extern 2 (pool_frame _ _ (oom_st _)) => apply pool_frame_mem : spud.
#[export] Hint Extern 2 (pool_frame _ _ (free_st _ _)) => apply pool_frame_mem : spud.
#[export] Hint Extern 3 (pool_frame _ _ _) => reflexivity : spud.

Lemma find_page_cons_ne l pg l' pages : l <> l' -> find_page l' ((l, pg) :: pages) = find_page l' pages.
Proof. intros H. simpl. by rewrite decide_False. Qed.

(** A pool that differs only in sizes and list tail owns the same blocks. *)
Lemma pool_inv_resize base p pool s sz :
  pool_inv base p pool s ->
  let pool' := Pool sz (p_page_size pool) (p_cleaners pool) (p_tail pool) (p_pages pool) in
  pool_inv base p pool' (pool_st p pool' s).
Proof.
  intros []. constructor; try done. simpl. by simplify_map_eq.
Qed.

Lemma live_pool_alloc_ne p pool size s l : mem_wf (ps_mem s) -> is_Some (live s !! l) ->
  live (pool_st p pool (alloc_st size s)) !! l = live s !! l.
Proof. apply live_alloc_ne. Qed.

Lemma minus_alloc ls s x : mem_wf (ps_mem s) -> next s ∉ ls ->
  delete (next s) (minus ls (<[next s := x]> (live s))) = minus ls (live s).
Proof.
  intros Hwf Hn. apply map_eq. intros l. rewrite lookup_delete, !lookup_minus, lookup_insert.
  repeat case_decide; try done; subst; by rewrite ?mem_wf_fresh.
Qed.

(** Adopting: a new cleaner node takes over one block [arg] of [base]. *)
Lemma pool_inv_push base p pool s cl arg :
  pool_inv base p pool s ->
  let owned := match cl, arg with data_free_fn, Some a => [a_blk a] | _, _ => [] end in
  cl <> free_page_fn ->
  Forall (fun l => is_Some (base !! l)) owned ->
  let pool' := push_ctx (next s) cl arg pool in
  pool_inv (minus owned base) p pool' (pool_st p pool' (alloc_st SIZEOF_CLEANER_CTX s)).
Proof.
  intros I owned Hcl Hown pool'.
  pose proof (pool_inv_fresh _ _ _ _ I) as Hfr.
  pose proof (pool_inv_base_fresh _ _ _ _ I) as Hbf.
  assert (Hblk : pool_blocks pool' = owned ++ next s :: pool_blocks pool).
  { unfold pool', pool_blocks, owned. simpl. unfold ctx_blocks at 1. simpl.
    destruct cl as [| |], arg; try done. }
  assert (Hno : forall l, l ∈ owned -> l ∉ pool_blocks pool ++ [p] /\ is_Some (live s !! l)).
  { intros l Hl. eapply Forall_forall in Hown; [|exact Hl]. simpl in Hown.
    rewrite (pi_base _ _ _ _ I), lookup_minus in Hown. case_decide; [by destruct Hown|done]. }
  assert (Hne : next s ∉ owned).
  { intros H. eapply Forall_forall in Hown; [|exact H]. simpl in Hown. rewrite Hbf in Hown.
    by destruct Hown. }
  assert (Hndo : NoDup owned)
    by (unfold owned; destruct cl, arg; simpl; auto using NoDup_nil_2, NoDup_singleton).
  destruct I as [Hp Hwf Hnd Hl Hb Hc Hpg Hs].
  constructor.
  - simpl. by simplify_map_eq.
  - by apply mem_wf_alloc.
  - rewrite Hblk, <- app_assoc. simpl. apply NoDup_app. split_and!; [done| |].
    + intros l Hlo. apply not_elem_of_cons. split; [by intros ->|by apply Hno].
    + by apply NoDup_cons.
  - rewrite Hblk, <- app_assoc. apply Forall_app. split; [|apply Forall_cons; split].
    + apply Forall_forall. intros l Hlo. rewrite live_pool_alloc_ne; [by apply Hno|done|by apply Hno].
    + simpl. by simplify_map_eq.
    + eapply Forall_impl; [exact Hl|]. intros l Hl'. cbn beta. rewrite live_pool_alloc_ne; done.
  - rewrite Hblk, <- app_assoc, minus_app. f_equal. simpl.
    rewrite Hb. symmetry. by apply minus_alloc.
  - simpl. constructor; [by intros ?|]. done.
  - eapply Forall_impl; [exact Hpg|]. intros lp (H1 & H2 & H3 & H4). split_and!; try done; try lia.
    + rewrite live_pool_alloc_ne; eauto.
    + rewrite Hblk. apply elem_of_app. right. by right.
  - done.
Qed.

(** The contexts of a pool stand for the blocks they stood for when a page is adopted. *)
Lemma adopted_ctxs page pg' pool :
  Forall (ctx_ok (p_pages pool)) (p_cleaners pool) -> page ∉ pool_blocks pool ->
  Forall (fun c => ctx_blocks ((page, pg') :: p_pages pool) c = ctx_blocks (p_pages pool) c /\
                   (ctx_ok (p_pages pool) c -> ctx_ok ((page, pg') :: p_pages pool) c)) (p_cleaners pool).
Proof.
  intros Hc Hno. apply Forall_forall. intros c Hcin. eapply Forall_forall in Hc as Hok; [|exact Hcin].
  unfold ctx_ok, ctx_blocks in *. destruct (cc_cleaner c.2) eqn:Ec; [|done..].
  destruct Hok as (a & pg & Ha & Hf); [done|]. rewrite Ha.
  assert (a_blk a ∈ pool_blocks pool).
  { apply list_elem_of_In, in_concat. exists (ctx_blocks (p_pages pool) c). split.
    - apply list_elem_of_In, list_elem_of_fmap. eauto.
    - unfold ctx_blocks. rewrite Ec, Ha, Hf. simpl. auto. }
  assert (page <> a_blk a) by (intros ->; done).
  simpl. rewrite decide_False by done. rewrite Hf. split; [done|].
  intros _ _. exists a, pg. simpl. by rewrite decide_False.
Qed.

(** Adopting a page: its structure and its block leave [base] together. *)
Lemma pool_inv_add_page base p pool s page block :
  pool_inv base p pool s ->
  base !! page = Some SIZEOF_POOL_PAGE -> base !! block = Some (p_page_size pool) -> page <> block ->
  let pool1 := push_ctx (next s) free_page_fn (Some (addr_of page)) pool in
  let pool' := Pool (u64 (p_size pool1 + p_page_size pool1)) (p_page_size pool1)
                 (p_cleaners pool1) (p_tail pool1)
                 ((page, Page block (p_page_size pool1) 0) :: p_pages pool1) in
  pool_inv (delete block (delete page base)) p pool' (pool_st p pool' (alloc_st SIZEOF_CLEANER_CTX s)).
Proof.
  intros I Hpage Hblock Hpb pool1 pool'.
  pose proof (pool_inv_fresh _ _ _ _ I) as Hfr.
  pose proof (pool_inv_base_fresh _ _ _ _ I) as Hbf.
  assert (Hno : forall l x, base !! l = Some x -> (l ∉ pool_blocks pool ++ [p]) /\ live s !! l = Some x).
  { intros l x Hl. rewrite (pi_base _ _ _ _ I), lookup_minus in Hl. by case_decide. }
  destruct (Hno _ _ Hpage) as [Hpage1 Hpage2]. destruct (Hno _ _ Hblock) as [Hblock1 Hblock2].
  destruct I as [Hp Hwf Hnd Hl Hb Hc Hpg Hs].
  assert (Hold : Forall (fun c => ctx_blocks (p_pages pool') c = ctx_blocks (p_pages pool) c /\
                                  (ctx_ok (p_pages pool) c -> ctx_ok (p_pages pool') c)) (p_cleaners pool)).
  { apply (adopted_ctxs page _ pool); [exact Hc|]. intros ?. apply Hpage1, elem_of_app. by left. }
  assert (Hblk : pool_blocks pool' = block :: page :: next s :: pool_blocks pool).
  { unfold pool', pool_blocks at 1. simpl. unfold ctx_blocks at 1. simpl.
    rewrite decide_True by done. simpl. do 3 f_equal.
    unfold pool_blocks. f_equal. apply list_fmap_ext. intros i c Hi.
    eapply Forall_lookup_1 in Hold as [? _]; [|exact Hi]. done. }
  constructor.
  - simpl. by simplify_map_eq.
  - by apply mem_wf_alloc.
  - assert (Hfn : forall l x, live s !! l = Some x -> l <> next s).
    { intros l x Hlx ->. by rewrite mem_wf_fresh in Hlx. }
    rewrite Hblk. simpl. rewrite !NoDup_cons, !not_elem_of_cons. eauto 10.
  - rewrite Hblk. cbn [app]. rewrite !Forall_cons. split_and!.
    + rewrite live_pool_alloc_ne; eauto.
    + rewrite live_pool_alloc_ne; eauto.
    + by simplify_map_eq.
    + eapply Forall_impl; [exact Hl|]. intros l Hl'. rewrite live_pool_alloc_ne; done.
  - rewrite Hblk. simpl. do 2 f_equal. rewrite Hb. symmetry. by apply minus_alloc.
  - simpl. constructor.
    + intros _. exists (addr_of page). eexists. split; [done|]. simpl. by rewrite decide_True.
    + apply Forall_forall. intros c Hcin. eapply Forall_forall in Hold as [_ Hok]; [|exact Hcin].
      apply Hok. by eapply Forall_forall in Hc.
  - simpl. constructor.
    + split_and!; [simpl; lia|simpl; lia|done| |].
      * cbn [snd pg_block]. rewrite live_pool_alloc_ne; eauto.
      * rewrite Hblk. by left.
    + eapply Forall_impl; [exact Hpg|]. intros lp (H1 & H2 & H3 & H4). split_and!; try done; try lia.
      * rewrite live_pool_alloc_ne; eauto.
      * rewrite Hblk. by do 3 right.
  - done.
Qed.

Lemma pool_st_twice p pool1 pool2 s : pool_st p pool2 (pool_st p pool1 s) = pool_st p pool2 s.
Proof. unfold pool_st, set_pools. simpl. by rewrite insert_insert_eq. Qed.

Lemma alloc_free_live size s : mem_wf (ps_mem s) ->
  delete (next s) (<[next s := size]> (live s)) = live s.
Proof. intros. rewrite delete_insert_id; [done|]. by apply mem_wf_fresh. Qed.

Lemma alloc_grows size s : mem_wf (ps_mem s) -> live s ⊆ live (alloc_st size s).
Proof. intros. simpl. apply insert_subseteq. by apply mem_wf_fresh. Qed.

Lemma delete_insert_two a b x y (g : gmap loc Z) : b <> a -> g !! a = None -> g !! b = None ->
  delete a (delete b (<[a := x]> (<[b := y]> g))) = g.
Proof.
  intros. apply map_eq. intros k. rewrite !lookup_delete, !lookup_insert.
  repeat case_decide; congruence.
Qed.

Lemma add_page_spec base p pool s : pool_inv base p pool s ->
  runs (add_page p) s (fun r s' =>
    pool_frame p s s' /\ m_bytes (ps_mem s') = m_bytes (ps_mem s) /\
    match r with
    | Err e => e = LS_ERR_NO_MEMORY /\ pool_inv base p pool s' /\ live s' = live s
    | Ok _ => exists page block pool', pool_inv base p pool' s' /\
        live s ⊆ live s' /\ live s !! block = None /\
        p_page_size pool' = p_page_size pool /\ user_calls pool' = user_calls pool /\
        p_pages pool' = (page, Page block (p_page_size pool) 0) :: p_pages pool
    end).
Proof.
  intros I. unfold add_page, malloc_fnc.
  pose proof (pi_pool _ _ _ _ I) as Hp. pose proof (pi_wf _ _ _ _ I) as Hwf.
  run. eapply runs_get_pool; [done|]. run.
  apply runs_malloc_fnc_plain; run.
  { split_and!; eauto using pool_inv_oom with spud. }
  set (s1 := alloc_st SIZEOF_POOL_PAGE s).
  pose proof (pool_inv_alloc _ _ _ _ SIZEOF_POOL_PAGE I) as I1. fold s1 in I1.
  pose proof (pool_inv_base_fresh _ _ _ _ I) as Hf.
  pose proof (pool_inv_base_fresh _ _ _ _ I1) as Hf1.
  apply runs_malloc_fnc_plain; run.
  { apply runs_free; [simpl; by simplify_map_eq|]. run.
    split_and!; [eauto 10 with spud|done|done| |by apply alloc_free_live].
    pose proof (pool_inv_free _ _ _ _ (next s) (pool_inv_oom _ _ _ _ I1)) as I2.
    rewrite delete_insert_id in I2 by done. apply I2. by simplify_map_eq. }
  set (s2 := alloc_st (p_page_size pool) s1).
  pose proof (pool_inv_alloc _ _ _ _ (p_page_size pool) I1) as I2. fold s2 in I2.
  assert (Hne : next s <> next s1) by (simpl; lia).
  eapply runs_add_cleaner; [exact Hp| |]; run.
  { apply runs_free; [simpl; by simplify_map_eq|]. run.
    apply runs_free; [simpl; rewrite lookup_delete_ne by done; by simplify_map_eq|]. run.
    pose proof (pool_inv_free _ _ _ _ (next s1) (pool_inv_oom _ _ _ _ I2)) as I3.
    rewrite delete_insert_id in I3 by done.
    pose proof (pool_inv_free _ _ _ _ (next s) (I3 ltac:(by simplify_map_eq))) as I4.
    rewrite delete_insert_id in I4 by done.
    split_and!; [eauto 10 with spud|done|done|apply I4; by simplify_map_eq|].
    simpl. change (Pos.succ (next s)) with (next s1).
    rewrite (alloc_free_live _ s1) by apply I1. by apply alloc_free_live. }
  eapply runs_get_pool; [simpl; by simplify_map_eq|]. run.
  apply runs_put_pool. run. rewrite pool_st_twice.
  split_and!; [eauto 10 with spud|done|].
  pose proof (pool_inv_add_page _ _ _ _ (next s) (next s1) I2) as I3.
  specialize (I3 ltac:(by rewrite lookup_insert_ne, lookup_insert_eq)
                 ltac:(by rewrite lookup_insert_eq) Hne).
  cbv zeta in I3.
  rewrite delete_insert_two in I3; [|done| |done].
  2: { rewrite lookup_insert_ne in Hf1 by done. done. }
  exists (next s), (next s1). eexists. split_and!; [exact I3| | |done|done|done].
  - simpl. etrans; [apply (alloc_grows SIZEOF_POOL_PAGE); done|].
    etrans; [apply (alloc_grows (p_page_size pool)), I1|]. apply (alloc_grows SIZEOF_CLEANER_CTX), I2.
  - apply eq_None_not_Some. intros Hs%Hwf. simpl in Hs. lia.
Qed.

(** ** Handing out slices of a page *)

Definition with_pages (pages : list (loc * pool_page)) (pool : ls_pool) : ls_pool :=
  Pool (p_size pool) (p_page_size pool) (p_cleaners pool) (p_tail pool) pages.

Lemma pool_blocks_head pool l pg pg' ps :
  p_pages pool = (l, pg) :: ps -> pg_block pg' = pg_block pg ->
  pool_blocks (with_pages ((l, pg') :: ps) pool) = pool_blocks pool.
Proof.
  intros Hps Hb. unfold pool_blocks. f_equal. simpl. apply list_fmap_ext. intros _ c _.
  unfold ctx_blocks. rewrite Hps. simpl. repeat case_match; simplify_eq; congruence.
Qed.

Lemma pool_inv_head base p pool s l pg pg' ps :
  pool_inv base p pool s -> p_pages pool = (l, pg) :: ps ->
  pg_block pg' = pg_block pg -> pg_size pg' = pg_size pg -> 0 <= pg_used pg' <= pg_size pg ->
  let pool' := with_pages ((l, pg') :: ps) pool in
  pool_inv base p pool' (pool_st p pool' s).
Proof.
  intros [Hp Hwf Hnd Hl Hb Hc Hpg Hs] Hps Hblk Hsz Hu pool'.
  pose proof (pool_blocks_head _ _ _ _ _ Hps Hblk) as Hpb. fold pool' in Hpb.
  rewrite Hps in Hpg. inversion Hpg as [|? ? (H1 & H2 & H3 & H4) Hpg']; subst.
  constructor; rewrite ?Hpb; try done.
  - simpl. by simplify_map_eq.
  - eapply Forall_impl; [exact Hc|]. intros c Hok Hcl. destruct (Hok Hcl) as (a & pg0 & Ha & Hf).
    rewrite Hps in Hf. simpl in *. exists a. case_decide; eauto.
  - simpl. constructor.
    + simpl in *. split_and!; simpl; try lia; try congruence.
    + eapply Forall_impl; [exact Hpg'|]. intros lp (? & ? & ? & ?). split_and!; try done; try lia.
      by rewrite Hpb.
Qed.

Fixpoint find_block (b : loc) (pages : list (loc * pool_page)) : option pool_page :=
  match pages with
  | [] => None
  | (_, pg) :: ps => if decide (b = pg_block pg) then Some pg else find_block b ps
  end.

(** How much of a block has been handed out: a page up to [used], any other live block
    entirely. *)
Definition taken (s : pstate) (pool : ls_pool) (b : loc) : Z :=
  match find_block b (p_pages pool) with
  | Some pg => pg_used pg
  | None => Z.max 0 (default 0 (live s !! b))
  end.

Lemma find_block_Some b pages pg : find_block b pages = Some pg ->
  exists l, (l, pg) ∈ pages /\ pg_block pg = b.
Proof.
  induction pages as [|[l' pg'] ps IH]; simpl; [done|]. case_decide; intros.
  - simplify_eq. exists l'. split; [by left|done].
  - destruct IH as (l & ? & ?); [done|]. exists l. split; [by right|done].
Qed.

Lemma taken_le base p pool s b : pool_inv base p pool s ->
  0 <= taken s pool b <= Z.max 0 (default 0 (live s !! b)).
Proof.
  intros I. unfold taken. destruct (find_block b (p_pages pool)) as [pg|] eqn:E; [|lia].
  apply find_block_Some in E as (l & Hin & <-).
  eapply Forall_forall in Hin; [|apply (pi_pages _ _ _ _ I)]. destruct Hin as (H1 & H2 & H3 & H4).
  simpl in *. rewrite H3. simpl. lia.
Qed.

Lemma not_live_not_page base p pool s b : pool_inv base p pool s -> live s !! b = None ->
  find_block b (p_pages pool) = None.
Proof.
  intros I Hb. destruct (find_block _ _) as [pg|] eqn:E; [|done].
  apply find_block_Some in E as (l & Hin & <-).
  eapply Forall_forall in Hin; [|apply (pi_pages _ _ _ _ I)]. destruct Hin as (_ & _ & H3 & _).
  simpl in H3. congruence.
Qed.

Lemma taken_grows s s' pool pool' b :
  find_block b (p_pages pool') = find_block b (p_pages pool) -> live s ⊆ live s' ->
  taken s pool b <= taken s' pool' b.
Proof.
  intros Hf Hsub. unfold taken. rewrite Hf. destruct (find_block b (p_pages pool)); [lia|].
  destruct (live s !! b) as [n|] eqn:E; simpl; [|lia].
  rewrite (lookup_weaken _ _ _ _ E Hsub). simpl. lia.
Qed.

Lemma page_malloc_spec pg size a pg' : 0 < size -> page_malloc pg size = Some (a, pg') ->
  a = Addr (pg_block pg) (pg_used pg) /\ pg_block pg' = pg_block pg /\
  pg_size pg' = pg_size pg /\ pg_used pg' = pg_used pg + size /\ pg_used pg' <= pg_size pg.
Proof.
  intros Hsz. unfold page_malloc. case_decide; [done|]. intros. simplify_eq. simpl. split_and!; try done; lia.
Qed.

(** A slice of the page at the head of the list. *)
Lemma put_head_page_spec base p pool s l pg a pg' ps size :
  pool_inv base p pool s -> p_pages pool = (l, pg) :: ps -> 0 < size ->
  page_malloc pg size = Some (a, pg') ->
  runs (put_head_page p pg') s (fun _ s' => exists pool',
    pool_inv base p pool' s' /\ pool_ready pool' /\ pool_frame p s s' /\
    m_bytes (ps_mem s') = m_bytes (ps_mem s) /\ live s' = live s /\
    p_page_size pool' = p_page_size pool /\ user_calls pool' = user_calls pool /\
    taken s pool (a_blk a) <= a_off a /\ a_off a + size <= taken s' pool' (a_blk a) /\
    (forall b, taken s pool b <= taken s' pool' b) /\ is_Some (live s' !! a_blk a)).
Proof.
  intros I Hps Hsz Hpm. destruct (page_malloc_spec _ _ _ _ Hsz Hpm) as (-> & Hb & Hs & Hu & Hle).
  pose proof (pi_pages _ _ _ _ I) as Hpg. rewrite Hps in Hpg.
  inversion Hpg as [|? ? (H1 & H2 & H3 & H4) _]; subst. simpl in *.
  unfold put_head_page. run. eapply runs_get_pool; [apply I|]. rewrite Hps. run. apply runs_put_pool.
  eexists. split_and!; [eapply pool_inv_head; eauto; lia|by intros _| |done|done|done|done| | | |].
  - eauto with spud.
  - unfold taken. rewrite Hps. simpl. by rewrite decide_True.
  - unfold taken. simpl. rewrite decide_True by congruence. lia.
  - intros b. unfold taken. rewrite Hps. simpl. rewrite Hb. case_decide; lia.
  - simpl. eauto.
Qed.

(** What a call on the pool at [p] that hands out [size] bytes at [a] guarantees: the
    slice starts above what was already taken of its block and ends below what is taken
    now, so it overlaps no earlier slice and lies inside the block. *)
Definition slice_out (base : gmap loc Z) (p : loc) (pool : ls_pool) (s : pstate)
    (a : addr) (size : Z) (s' : pstate) : Prop :=
  exists pool', pool_inv base p pool' s' /\ pool_ready pool' /\ pool_frame p s s' /\ live s ⊆ live s' /\
    p_page_size pool' = p_page_size pool /\ user_calls pool' = user_calls pool /\
    taken s pool (a_blk a) <= a_off a /\ a_off a + size <= taken s' pool' (a_blk a) /\
    (forall b, taken s pool b <= taken s' pool' b) /\ is_Some (live s' !! a_blk a).

(** A call that fails leaves the pool and the heap as they were. *)
Definition unchanged (base : gmap loc Z) (p : loc) (pool : ls_pool) (s s' : pstate) : Prop :=
  pool_inv base p pool s' /\ pool_frame p s s' /\ live s' = live s.

Definition pool_result (base : gmap loc Z) (p : loc) (pool : ls_pool) (s : pstate) (size : Z)
    (r : res Z (option addr)) (s' : pstate) : Prop :=
  match r with
  | Err e => e = LS_ERR_NO_MEMORY /\ unchanged base p pool s s'
  | Ok None => size = 0 /\ unchanged base p pool s s'
  | Ok (Some a) => 0 < size /\ slice_out base p pool s a size s'
  end.

Lemma unchanged_mem base p pool s : pool_inv base p pool s -> unchanged base p pool s s.
Proof. intros. split_and!; done. Qed.

(** The direct path: a block of its own and a cleaner that frees it. *)
Lemma pool_inv_direct base p pool s size :
  pool_inv base p pool s -> pool_ready pool -> 0 < size ->
  let s1 := alloc_st size s in
  let pool1 := push_ctx (next s1) data_free_fn (Some (addr_of (next s))) pool in
  let pool' := Pool (u64 (p_size pool1 + size)) (p_page_size pool1) (p_cleaners pool1)
                 (p_tail pool1) (p_pages pool1) in
  slice_out base p pool s (addr_of (next s)) size (pool_st p pool' (alloc_st SIZEOF_CLEANER_CTX s1)).
Proof.
  intros I Hrd Hsz s1 pool1 pool'. pose proof (pi_wf _ _ _ _ I) as Hwf.
  pose proof (pool_inv_alloc _ _ _ _ size I) as I1. fold s1 in I1.
  pose proof (pool_inv_push _ _ _ _ data_free_fn (Some (addr_of (next s))) I1) as I2.
  cbv zeta in I2. specialize (I2 ltac:(done)).
  specialize (I2 ltac:(constructor; [simpl; by simplify_map_eq|done])).
  apply pool_inv_resize with (sz := u64 (p_size pool1 + size)) in I2.
  cbv zeta in I2. rewrite pool_st_twice in I2. simpl in I2.
  rewrite delete_insert_id in I2 by (by apply (pool_inv_base_fresh _ _ _ _ I)).
  assert (Hfb : find_block (next s) (p_pages pool) = None)
    by (eapply not_live_not_page; [exact I|by apply mem_wf_fresh]).
  exists pool'. split_and!.
  - exact I2.
  - exact Hrd.
  - eauto with spud.
  - etrans; [by apply (alloc_grows size)|]. apply (alloc_grows SIZEOF_CLEANER_CTX), I1.
  - done.
  - done.
  - simpl. unfold taken. rewrite Hfb, mem_wf_fresh by done. done.
  - unfold taken. simpl. rewrite Hfb. rewrite lookup_insert_ne by lia.
    rewrite lookup_insert_eq. simpl. lia.
  - intros b. apply taken_grows; [done|]. etrans; [by apply (alloc_grows size)|].
    apply (alloc_grows SIZEOF_CLEANER_CTX), I1.
  - simpl. rewrite lookup_insert_ne by lia. rewrite lookup_insert_eq. eauto.
Qed.

Lemma ls_pool_malloc_runs base p pool s size :
  pool_inv base p pool s -> pool_ready pool -> 0 <= size ->
  runs (ls_pool_malloc p size) s (fun r s' =>
    pool_result base p pool s size r s' /\ m_bytes (ps_mem s') = m_bytes (ps_mem s)).
Proof.
  intros I Hrd Hsz. pose proof (pi_wf _ _ _ _ I) as Hwf. pose proof (pi_pool _ _ _ _ I) as Hp.
  unfold ls_pool_malloc. run. eapply runs_get_pool; [done|]. case_decide as H0.
  { run. split; [|done]. split; [done|]. by apply unchanged_mem. }
  case_decide as Hbig.
  - unfold malloc_fnc. run. apply runs_malloc_fnc_plain; run.
    { split; [|done]. split; [done|]. split_and!; [by apply pool_inv_oom|eauto with spud|done]. }
    eapply runs_add_cleaner; [exact Hp| |]; run.
    { apply runs_free; [simpl; by simplify_map_eq|]. run. split; [|done]. split; [done|].
      pose proof (pool_inv_free _ _ _ _ (next s) (pool_inv_oom _ _ _ _ (pool_inv_alloc _ _ _ _ size I))
        ltac:(by simplify_map_eq)) as I2.
      rewrite delete_insert_id in I2 by (by apply (pool_inv_base_fresh _ _ _ _ I)).
      split_and!; [exact I2|eauto 10 with spud|by apply alloc_free_live]. }
    eapply runs_get_pool; [simpl; by simplify_map_eq|]. run. apply runs_put_pool. run.
    rewrite pool_st_twice. split; [|done]. split; [lia|].
    pose proof (pool_inv_direct _ _ _ _ size I Hrd ltac:(lia)) as Hout. exact Hout.
  - pose proof (Hrd ltac:(lia)) as Hh.
    destruct (p_pages pool) as [|[l pg] ps] eqn:Hps; [done|]. run.
    destruct (page_malloc pg size) as [[a pg']|] eqn:Epm; simpl; rewrite Epm; run.
    + eapply runs_conseq; [eapply put_head_page_spec; eauto; lia|].
      intros _ s' (pool' & I' & Hrd' & Hfr & Hby & Hlv & Hps' & Huc & Ht). run. split; [|done]. split; [lia|].
      exists pool'. split_and!; try done; try apply Ht. by rewrite Hlv.
    + eapply runs_conseq; [by apply add_page_spec|]. intros r s1 (Hfr & Hby & Hr).
      destruct r as [[]|e]; run.
      2: { destruct Hr as (-> & I' & Hlv). split; [|done]. split; done. }
      destruct Hr as (page & block & pool1 & I1 & Hsub & Hnew & Hpz & Huc1 & Hpg1).
      eapply runs_get_pool; [apply I1|]. rewrite Hpg1. run.
      unfold page_malloc at 1. simpl. rewrite decide_False by lia. run.
      eapply runs_conseq.
      { eapply (put_head_page_spec _ _ _ _ _ _ (Addr block 0) _ _ size I1 Hpg1); [lia|].
        unfold page_malloc. simpl. rewrite decide_False by lia. done. }
      intros _ s2 (pool2 & I2 & Hrd2 & Hfr2 & Hby2 & Hlv2 & Hpz2 & Huc2 & Ht1 & Ht2 & Ht3 & Ht4). run.
        split; [|congruence]. split; [lia|]. exists pool2.
      assert (Hz : taken s pool block = 0).
      { unfold taken. rewrite (not_live_not_page _ _ _ _ _ I Hnew), Hnew. done. }
      split_and!; [done|done|by etrans|by rewrite Hlv2|congruence|congruence| |done| |done].
      * simpl. lia.
      * intros b. etrans; [|apply Ht3]. destruct (decide (b = block)) as [->|Hne].
        { rewrite Hz. by eapply taken_le. }
        apply taken_grows; [|done]. rewrite Hpg1. simpl. by rewrite decide_False, Hps.
Qed.

(** ** Writing into a slice *)

Lemma lookup_store_bytes a bs b l o :
  Libc.store_bytes a bs b !! (l, o) =
  if decide (l = a_blk a /\ a_off a <= o < a_off a + Z.of_nat (length bs))
  then bs !! Z.to_nat (o - a_off a) else b !! (l, o).
Proof.
  revert a b. induction bs as [|c bs IH]; intros a b; simpl.
  { rewrite decide_False; [done|]. lia. }
  rewrite IH. simpl.
  destruct (decide (l = a_blk a)) as [->|Hl].
  2: { rewrite !decide_False by tauto. apply lookup_insert_ne. congruence. }
  destruct (decide (o = a_off a)) as [->|Ho].
  { rewrite decide_False by lia. rewrite decide_True by (split; [done|lia]).
    rewrite Z.sub_diag. simpl. by rewrite lookup_insert_eq. }
  rewrite lookup_insert_ne by congruence.
  destruct (decide (a_off a <= o < a_off a + Z.of_nat (S (length bs)))) as [Hin|Hin].
  - rewrite decide_True by (split; [done|lia]). rewrite decide_True by done.
    replace (Z.to_nat (o - a_off a)) with (S (Z.to_nat (o - (a_off a + 1)))) by lia. done.
  - rewrite !decide_False by lia. done.
Qed.

Definition write_st (a : addr) (bs : list Z) (s : pstate) : pstate :=
  set_mem (Mem (live s) (next s) (Libc.store_bytes a bs (m_bytes (ps_mem s))) (m_oom (ps_mem s))) s.

Lemma runs_memcpy a bs s n (Q : unit -> pstate -> Prop) :
  live s !! a_blk a = Some n -> 0 <= a_off a -> a_off a + Z.of_nat (length bs) <= n ->
  Q tt (write_st a bs s) -> runs (on_mem (Libc.memcpy a bs)) s Q.
Proof.
  intros Hl H0 Hn HQ. apply runs_zoom. unfold runs, Libc.memcpy, Libc.in_block.
  rewrite Hl, decide_True by lia. done.
Qed.

Lemma slice_out_write base p pool s a size s' b bs :
  slice_out base p pool s a size s' -> slice_out base p pool s a size (write_st b bs s').
Proof.
  intros (pool' & [] & Hrd & Hfr & Hsub & Hrest). exists pool'. split_and!; try done; try apply Hrest.
  by apply pool_frame_mem.
Qed.

(** A slice can be written from end to end. *)
Lemma runs_fill_slice base p pool s a size s' bs (Q : unit -> pstate -> Prop) :
  pool_inv base p pool s -> slice_out base p pool s a size s' -> 0 < size ->
  Z.of_nat (length bs) = size -> Q tt (write_st a bs s') -> runs (on_mem (Libc.memcpy a bs)) s' Q.
Proof.
  intros I (pool' & I' & _ & Hfr & Hsub & _ & _ & Ht1 & Ht2 & _ & [n Hn]) Hsz Hlen HQ.
  pose proof (taken_le _ _ _ _ (a_blk a) I). pose proof (taken_le _ _ _ _ (a_blk a) I') as Hle.
  rewrite Hn in Hle. simpl in Hle. eapply runs_memcpy; eauto; lia.
Qed.

(** The bytes of a region, and every byte outside it. *)
Definition holds_bytes (s : pstate) (a : addr) (bs : list Z) : Prop :=
  forall i, (i < length bs)%nat -> m_bytes (ps_mem s) !! (a_blk a, a_off a + Z.of_nat i) = bs !! i.
Definition same_outside (a : addr) (n : Z) (s s' : pstate) : Prop :=
  forall l o, ~ (l = a_blk a /\ a_off a <= o < a_off a + n) ->
    m_bytes (ps_mem s') !! (l, o) = m_bytes (ps_mem s) !! (l, o).

Lemma write_st_bytes a bs s : holds_bytes (write_st a bs s) a bs.
Proof.
  intros i Hi. simpl. rewrite lookup_store_bytes, decide_True by lia. f_equal. lia.
Qed.

Lemma write_st_outside a bs s s' n : n = Z.of_nat (length bs) ->
  m_bytes (ps_mem s') = m_bytes (ps_mem s) -> same_outside a n s (write_st a bs s').
Proof. intros -> Hb l o Hout. simpl. by rewrite lookup_store_bytes, decide_False, Hb. Qed.

Lemma runs_memset a c n s (Q : unit -> pstate -> Prop) : n <> 0 ->
  runs (on_mem (Libc.memcpy a (replicate (Z.to_nat n) c))) s Q ->
  runs (on_mem (Libc.memset (Some a) c n)) s Q.
Proof. intros Hn. unfold Libc.memset. by rewrite decide_False. Qed.

Lemma runs_memset_0 p c n s (Q : unit -> pstate -> Prop) : n = 0 ->
  Q tt s -> runs (on_mem (Libc.memset p c n)) s Q.
Proof. intros -> HQ. apply runs_zoom. simpl. by destruct s. Qed.

Lemma ls_pool_calloc_runs base p pool s num size :
  pool_inv base p pool s -> pool_ready pool ->
  let n := u64 (num * size) in
  runs (ls_pool_calloc p num size) s (fun r s' =>
    pool_result base p pool s n r s' /\
    (forall a, r = Ok (Some a) -> holds_bytes s' a (replicate (Z.to_nat n) 0) /\
                                 same_outside a n s s')).
Proof.
  intros I Hrd n. assert (0 <= n) by (apply uwrap_range; lia).
  unfold ls_pool_calloc. run. eapply runs_conseq; [by apply ls_pool_malloc_runs|].
  intros r s' [Hr Hb]. destruct r as [oa|e]; run; [|by split]. fold n. destruct oa as [a|].
  - destruct Hr as [Hn Hout]. apply runs_memset; [lia|].
    eapply runs_fill_slice; [done|done|done|rewrite length_replicate; lia|]. run.
    split; [split; [done|by apply slice_out_write]|]. intros ? [= <-].
    split; [apply write_st_bytes|]. apply write_st_outside; [rewrite length_replicate; lia|done].
  - destruct Hr as [Hn Hun]. apply runs_memset_0; [exact Hn|]. run. by split.
Qed.

Lemma ls_pool_strdup_runs base p pool s src :
  pool_inv base p pool s -> pool_ready pool -> ls_strlen src < SIZE_MAX ->
  runs (ls_pool_strdup p src) s (fun r s' =>
    pool_result base p pool s (match src with None => 0 | _ => ls_strlen src + 1 end) r s' /\
    (forall a q, r = Ok (Some a) -> src = Some q -> holds_bytes s' a (cp_str q ++ [0]) /\
       same_outside a (ls_strlen src + 1) s s')).
Proof.
  intros I Hrd Hlen. destruct src as [q|]; simpl in *.
  2: { run. split; [|done]. split; [done|]. by apply unchanged_mem. }
  unfold SIZE_MAX in Hlen. rewrite uwrap_id by (unfold in_range; lia).
  run. eapply runs_conseq; [apply ls_pool_malloc_runs; [done|done|lia]|].
  intros r s' [Hr Hb]. destruct r as [[a|]|e]; run; [| |by split].
  - destruct Hr as [Hn Hout].
    eapply runs_fill_slice; [done|done|done|rewrite length_app; simpl; lia|]. run.
    split; [split; [done|by apply slice_out_write]|]. intros ? ? [= <-] [= <-].
    split; [apply write_st_bytes|]. apply write_st_outside; [rewrite length_app; simpl; lia|done].
  - destruct Hr as [Hn _]. lia.
Qed.

(** ** Destruction *)

Lemma run_cleaner_runs pages c s :
  ctx_ok pages c -> NoDup (ctx_blocks pages c) ->
  Forall (fun l => is_Some (live s !! l)) (ctx_blocks pages c) ->
  runs (run_cleaner pages c) s (fun _ s1 =>
    live s1 = minus (ctx_blocks pages c) (live s) /\
    next s1 = next s /\ ps_pools s1 = ps_pools s /\ ps_paging s1 = ps_paging s /\
    ps_called s1 = user_call c ++ ps_called s).
Proof.
  intros Hok Hnd Hlv. destruct c as [l [cl arg]].
  unfold run_cleaner, ctx_blocks, user_call, ctx_ok in *. simpl in *.
  destruct cl as [| |id].
  - destruct Hok as (a & pg & -> & Hf); [done|]. rewrite Hf in *. simpl in *. run.
    rewrite !Forall_cons in Hlv. rewrite !NoDup_cons, !not_elem_of_cons in Hnd.
    destruct Hlv as (H1 & H2 & H3 & _), Hnd as ((? & ? & _) & (? & _) & _).
    apply runs_free; [done|]. run.
    apply runs_free; [simpl; by rewrite lookup_delete_ne by congruence|]. run.
    apply runs_free; [simpl; by rewrite !lookup_delete_ne by congruence|].
    split_and!; try done. simpl. apply map_eq. intros k.
    rewrite !lookup_delete. repeat case_decide; congruence.
  - destruct arg as [a|]; simpl in *.
    + rewrite !Forall_cons in Hlv. rewrite !NoDup_cons, !not_elem_of_cons in Hnd.
      destruct Hlv as (H1 & H3 & _), Hnd as ((? & _) & _). run.
      apply runs_free; [done|]. run.
      apply runs_free; [simpl; by rewrite !lookup_delete_ne by congruence|].
      split_and!; try done. simpl. apply map_eq. intros k.
      rewrite !lookup_delete. repeat case_decide; congruence.
    + rewrite !Forall_cons in Hlv. destruct Hlv as [H1 _]. run.
      apply runs_zoom. run. apply runs_free; [by destruct s|]. by destruct s.
  - replace (match arg with Some _ | None => [] end) with (@nil loc) in * by (by destruct arg).
    simpl in *. rewrite !Forall_cons in Hlv. destruct Hlv as [H1 _]. run.
    apply runs_free; [done|]. done.
Qed.

Lemma run_cleaners_runs pages cs s :
  Forall (ctx_ok pages) cs ->
  NoDup (concat (ctx_blocks pages <$> cs)) ->
  Forall (fun l => is_Some (live s !! l)) (concat (ctx_blocks pages <$> cs)) ->
  runs (run_cleaners pages cs) s (fun _ s' =>
    live s' = minus (concat (ctx_blocks pages <$> cs)) (live s) /\
    next s' = next s /\ ps_pools s' = ps_pools s /\ ps_paging s' = ps_paging s /\
    ps_called s' = rev (concat (user_call <$> cs)) ++ ps_called s).
Proof.
  intros Hok. revert s. induction Hok as [|c cs Hc Hok IH]; intros s Hnd Hlv.
  { run. done. }
  cbn [run_cleaners]. rewrite !fmap_cons in *. cbn [concat] in *.
  apply NoDup_app in Hnd as (Hnd1 & Hdis & Hnd2). apply Forall_app in Hlv as [Hlv1 Hlv2].
  run. eapply runs_conseq; [by apply run_cleaner_runs|].
  intros _ s1 (H1 & H2 & H3 & H4 & H5). eapply runs_conseq; [apply IH; [done|]|].
  - apply Forall_forall. intros l Hl. rewrite H1, lookup_minus, decide_False by (intros ?; by eapply Hdis).
    by eapply Forall_forall in Hlv2.
  - intros _ s2 (H6 & H7 & H8 & H9 & H10). split_and!; try congruence.
    + rewrite H6, H1, <- minus_app. apply minus_perm. intros l. rewrite !elem_of_app. tauto.
    + rewrite H10, H5, rev_app_distr, <- app_assoc. f_equal.
      unfold user_call. by destruct (cc_cleaner c.2).
Qed.

Lemma ls_pool_destroy_runs base p pool s : pool_inv base p pool s ->
  runs (ls_pool_destroy p) s (fun _ s' =>
    live s' = base /\ mem_wf (ps_mem s') /\ ps_pools s' = delete p (ps_pools s) /\
    ps_called s' = rev (user_calls pool) ++ ps_called s /\ ps_paging s' = ps_paging s).
Proof.
  intros [Hp Hwf Hnd Hl Hb Hc Hpg Hs]. unfold ls_pool_destroy. run.
  eapply runs_get_pool; [done|]. run.
  apply NoDup_app in Hnd as (Hnd1 & Hdis & _). apply Forall_app in Hl as [Hl1 Hl2].
  eapply runs_conseq; [by apply run_cleaners_runs|].
  intros _ s1 (H1 & H2 & H3 & H4 & H5). run. rewrite Forall_singleton in Hl2.
  fold (pool_blocks pool) in H1.
  apply runs_free.
  { rewrite H1, lookup_minus, decide_False; [exact Hl2|]. intros H. eapply Hdis; [done|by left]. }
  run. split_and!; [| |simpl; by rewrite H3|done|done].
  - simpl. rewrite H1, Hb. apply (minus_perm (p :: pool_blocks pool)). intros l.
    rewrite elem_of_cons, elem_of_app, list_elem_of_singleton. tauto.
  - intros l. simpl. rewrite H1, H2, lookup_delete, lookup_minus. repeat case_decide; try by intros [].
    apply Hwf.
Qed.

(** ** Creation *)

Lemma ls_pool_create_runs size s :
  mem_wf (ps_mem s) -> 0 <= size ->
  runs (ls_pool_create size) s (fun r s' =>
    pool_frame (next s) s s' /\
    match r with
    | Err e => e = LS_ERR_NO_MEMORY /\ live s' = live s /\ mem_wf (ps_mem s')
    | Ok p => p = next s /\ exists pool, pool_inv (live s) p pool s' /\ pool_ready pool /\
        user_calls pool = [] /\ p_page_size pool = (if ps_paging s then size else 0)
    end).
Proof.
  intros Hwf Hsz. unfold ls_pool_create, malloc_fnc. run.
  apply runs_malloc_fnc_plain; run; [split_and!; eauto with spud|].
  apply runs_put_pool. run. cbn [alloc_st set_mem ps_paging].
  set (psz := if ps_paging s then size else 0).
  assert (Hps : 0 <= psz) by (unfold psz; destruct (ps_paging s); lia).
  set (pool := Pool 0 psz [] None []).
  set (s1 := pool_st (next s) pool (alloc_st SIZEOF_POOL s)).
  assert (I : pool_inv (live s) (next s) pool s1).
  { constructor; simpl; try done.
    - by simplify_map_eq.
    - by apply mem_wf_alloc.
    - apply NoDup_singleton.
    - rewrite Forall_singleton. by simplify_map_eq.
    - rewrite delete_insert_id; [done|]. by apply mem_wf_fresh. }
  case_decide as Hz; run.
  { split; [eauto with spud|]. split; [done|]. exists pool. split_and!; try done.
    unfold pool_ready. simpl. lia. }
  eapply runs_conseq; [by apply add_page_spec|]. intros r s2 (Hfr & _ & Hr).
  assert (Hfr2 : pool_frame (next s) s s2) by (etrans; [|exact Hfr]; unfold s1; eauto with spud).
  destruct r as [[]|e]; run.
  - destruct Hr as (page & block & pool' & I' & _ & _ & Hpz & Huc & Hpages).
    split; [done|]. split; [done|]. exists pool'. split_and!; [done| |done|done].
    intros _. by rewrite Hpages.
  - destruct Hr as (-> & I' & Hlv). apply runs_free; [rewrite Hlv; simpl; by simplify_map_eq|]. run.
    split_and!; [|done| |].
    + destruct Hfr2 as [Hq Hca Hpa]. split; [|done|done]. intros q Hq'. simpl.
      rewrite lookup_delete_ne by done. by apply Hq.
    + simpl. rewrite Hlv. simpl. by apply alloc_free_live.
    + apply mem_wf_delete, I'.
Qed.

(** ** Sessions: any sequence of calls on one pool *)

Inductive pool_op : Type :=
  | OpMalloc (size : Z)
  | OpCalloc (num size : Z)
  | OpStrdup (src : option cptr)
  | OpAddCleaner (id : N) (arg : option addr).

Definition op_wf (op : pool_op) : Prop :=
  match op with
  | OpMalloc size => 0 <= size
  | OpStrdup src => ls_strlen src < SIZE_MAX
  | _ => True
  end.

(** The bytes an operation asks for. *)
Definition op_size (op : pool_op) : Z :=
  match op with
  | OpMalloc size => size
  | OpCalloc num size => u64 (num * size)
  | OpStrdup None => 0
  | OpStrdup src => ls_strlen src + 1
  | OpAddCleaner _ _ => 0
  end.

Definition run_op (p : loc) (op : pool_op) : C pstate (res Z (option addr)) :=
  match op with
  | OpMalloc size => ls_pool_malloc p size
  | OpCalloc num size => ls_pool_calloc p num size
  | OpStrdup src => ls_pool_strdup p src
  | OpAddCleaner id arg =>
      r ← ls_pool_add_cleaner p (user_fn id) arg;
      mret (match r with Ok _ => Ok None | Err e => Err e end)
  end.

Fixpoint run_ops (p : loc) (ops : list pool_op) : C pstate (list (res Z (option addr))) :=
  match ops with
  | [] => mret []
  | op :: ops' => r ← run_op p op; rs ← run_ops p ops'; mret (r :: rs)
  end.

(** The life of a pool: created, used, destroyed. *)
Definition pool_session (size : Z) (ops : list pool_op) : C pstate (list (res Z (option addr))) :=
  r ← ls_pool_create size;
  match r with
  | Err _ => mret []
  | Ok p => rs ← run_ops p ops; ls_pool_destroy p;; mret rs
  end.

(** The slice an operation handed out, and the callback it registered. *)
Definition op_slice (op : pool_op) (r : res Z (option addr)) : list (addr * Z) :=
  match r with Ok (Some a) => [(a, op_size op)] | _ => [] end.
Definition op_callback (op : pool_op) (r : res Z (option addr)) : list (N * option addr) :=
  match op, r with OpAddCleaner id arg, Ok _ => [(id, arg)] | _, _ => [] end.

Fixpoint slices (ops : list pool_op) (rs : list (res Z (option addr))) : list (addr * Z) :=
  match ops, rs with
  | op :: ops', r :: rs' => op_slice op r ++ slices ops' rs'
  | _, _ => []
  end.
Fixpoint callbacks (ops : list pool_op) (rs : list (res Z (option addr))) : list (N * option addr) :=
  match ops, rs with
  | op :: ops', r :: rs' => op_callback op r ++ callbacks ops' rs'
  | _, _ => []
  end.

Definition disjoint_slices (x y : addr * Z) : Prop :=
  a_blk x.1 <> a_blk y.1 \/ a_off x.1 + x.2 <= a_off y.1 \/ a_off y.1 + y.2 <= a_off x.1.

(** A step of a session: what every operation guarantees. *)
Definition op_post (base : gmap loc Z) (p : loc) (pool : ls_pool) (s : pstate) (op : pool_op)
    (r : res Z (option addr)) (s' : pstate) : Prop :=
  (match r with Err e => e = LS_ERR_NO_MEMORY | _ => True end) /\
  exists pool', pool_inv base p pool' s' /\ pool_ready pool' /\ pool_frame p s s' /\
    live s ⊆ live s' /\ user_calls pool' = op_callback op r ++ user_calls pool /\
    (forall b, taken s pool b <= taken s' pool' b) /\
    (forall x, x ∈ op_slice op r -> 0 < x.2 /\ taken s pool (a_blk x.1) <= a_off x.1 /\
       a_off x.1 + x.2 <= taken s' pool' (a_blk x.1) /\ is_Some (live s' !! a_blk x.1)).

Lemma taken_same s s' pool b : live s' = live s -> taken s' pool b = taken s pool b.
Proof. unfold taken. by intros ->. Qed.

Lemma pool_result_op_post base p pool s op r s' :
  pool_ready pool -> op_callback op r = [] ->
  pool_result base p pool s (op_size op) r s' -> op_post base p pool s op r s'.
Proof.
  intros Hrd Hcb Hr. unfold op_post, op_slice. rewrite Hcb.
  destruct r as [[a|]|e]; simpl in Hr.
  - destruct Hr as [Hsz (pool' & I & Hrd' & Hfr & Hsub & _ & Huc & H1 & H2 & H3 & H4)].
    split; [done|]. exists pool'. split_and!; try done.
    intros x [->|[]%not_elem_of_nil]%elem_of_cons. by split_and!.
  - destruct Hr as [_ (I & Hfr & Hlv)]. split; [done|]. exists pool. rewrite Hlv. split_and!; try done.
    + intros b. by rewrite (taken_same _ _ _ _ Hlv).
    + by intros x Hx%not_elem_of_nil.
  - destruct Hr as [-> (I & Hfr & Hlv)]. split; [done|]. exists pool. rewrite Hlv. split_and!; try done.
    + intros b. by rewrite (taken_same _ _ _ _ Hlv).
    + by intros x Hx%not_elem_of_nil.
Qed.

Lemma run_op_runs base p pool s op :
  pool_inv base p pool s -> pool_ready pool -> op_wf op ->
  runs (run_op p op) s (fun r s' => op_post base p pool s op r s').
Proof.
  intros I Hrd Hop. destruct op as [size|num size|src|id arg]; simpl in *.
  - eapply runs_conseq; [by apply ls_pool_malloc_runs|]. intros r s' [Hr _].
    by apply pool_result_op_post.
  - eapply runs_conseq; [by apply ls_pool_calloc_runs|]. intros r s' [Hr _].
    by apply pool_result_op_post.
  - eapply runs_conseq; [by apply ls_pool_strdup_runs|]. intros r s' [Hr _].
    by apply pool_result_op_post.
  - run. pose proof (pi_wf _ _ _ _ I) as Hwf.
    eapply runs_add_cleaner; [apply I| |]; run.
    + split; [done|]. exists pool. split_and!;
        [by apply pool_inv_oom|done|eauto with spud|done|done|done|].
      by intros x Hx%not_elem_of_nil.
    + split; [done|]. eexists.
      pose proof (pool_inv_push _ _ _ _ (user_fn id) arg I ltac:(done) ltac:(done)) as I'.
      split_and!; [exact I'|exact Hrd|eauto with spud|by apply (alloc_grows SIZEOF_CLEANER_CTX)|done| |].
      * intros b. apply taken_grows; [done|]. by apply (alloc_grows SIZEOF_CLEANER_CTX).
      * by intros x Hx%not_elem_of_nil.
Qed.

Lemma run_ops_runs base p ops : forall pool s,
  pool_inv base p pool s -> pool_ready pool -> Forall op_wf ops ->
  runs (run_ops p ops) s (fun rs s' => exists pool',
    pool_inv base p pool' s' /\ pool_ready pool' /\ pool_frame p s s' /\ live s ⊆ live s' /\
    user_calls pool' = rev (callbacks ops rs) ++ user_calls pool /\
    (forall b, taken s pool b <= taken s' pool' b) /\
    length rs = length ops /\
    Forall (fun r => forall e, r = Err e -> e = LS_ERR_NO_MEMORY) rs /\
    Forall (fun x => 0 < x.2 /\ taken s pool (a_blk x.1) <= a_off x.1 /\
              a_off x.1 + x.2 <= taken s' pool' (a_blk x.1) /\ is_Some (live s' !! a_blk x.1))
      (slices ops rs) /\
    ForallOrdPairs disjoint_slices (slices ops rs)).
Proof.
  induction ops as [|op ops IH]; intros pool s I Hrd Hops; cbn [run_ops].
  { run. exists pool. split_and!; try done; constructor. }
  inversion Hops as [|? ? Hop Hops']; subst. run.
  eapply runs_conseq; [by apply run_op_runs|]. intros r s1 [Herr Hp].
  destruct Hp as (pool1 & I1 & Hrd1 & Hfr1 & Hsub1 & Huc1 & Hmono1 & Hsl1). run.
  eapply runs_conseq; [by apply IH|].
  intros rs s2 (pool2 & I2 & Hrd2 & Hfr2 & Hsub2 & Huc2 & Hmono2 & Hlen & Herrs & Hsl2 & Hdis). run.
  exists pool2. split_and!; [done|done|by etrans|by etrans| | |by simpl; f_equal| | |].
  - rewrite Huc2, Huc1. simpl. rewrite rev_app_distr, <- app_assoc. f_equal.
    f_equal. unfold op_callback. by destruct op, r.
  - intros b. etrans; [apply Hmono1|apply Hmono2].
  - constructor; [|done]. intros e ->. done.
  - simpl. apply Forall_app. split.
    + apply Forall_forall. intros x Hx. destruct (Hsl1 x Hx) as (H1 & H2 & H3 & [n Hn]).
      split_and!; [done|done| |].
      * etrans; [exact H3|apply Hmono2].
      * exists n. by eapply lookup_weaken.
    + eapply Forall_impl; [exact Hsl2|]. intros x (H1 & H2 & H3 & H4). split_and!; try done.
      etrans; [apply Hmono1|exact H2].
  - simpl. unfold op_slice in *. destruct r as [[a|]|e]; simpl in *; try done. constructor; [|done].
    apply List.Forall_forall. intros y Hy%list_elem_of_In.
    destruct (Hsl1 (a, op_size op)) as (_ & _ & H3 & _); [by left|]. simpl in H3.
    eapply Forall_forall in Hy; [|exact Hsl2]. destruct Hy as (_ & H2 & _). simpl in *.
    unfold disjoint_slices. simpl. destruct (decide (a_blk a = a_blk y.1)) as [E|]; [|by left].
    rewrite <- E in H2. right. left. lia.
Qed.

(** C12: no leak and no double free: whatever allocations fail and whatever is done with
    a pool in between, creating it and destroying it ends without a fault and leaves
    exactly the blocks live that were live before; an error that a call on the pool reports
    is [LS_ERR_NO_MEMORY]. *)
Theorem pool_session_leak_free size ops s :
  mem_wf (ps_mem s) -> 0 <= size -> Forall op_wf ops ->
  runs (pool_session size ops) s (fun rs s' =>
    live s' = live s /\ mem_wf (ps_mem s') /\
    Forall (fun r => forall e, r = Err e -> e = LS_ERR_NO_MEMORY) rs).
Proof.
  intros Hwf Hsz Hops. unfold pool_session. run.
  eapply runs_conseq; [by apply ls_pool_create_runs|]. intros r s1 [_ Hr].
  destruct r as [p|e]; run; [|by split_and!; try apply Hr].
  destruct Hr as (-> & pool & I & Hrd & _ & _).
  eapply runs_conseq; [by apply run_ops_runs|].
  intros rs s2 (pool2 & I2 & _ & _ & _ & _ & _ & _ & Herr & _). run.
  eapply runs_conseq; [by apply ls_pool_destroy_runs|]. intros _ s3 (Hlv & Hwf3 & _). run. done.
Qed.

(** C13: the slices a pool hands out never overlap and lie inside live blocks.  The slice of
    each call has the length that the code computes for it ([op_size]): the size asked for,
    the string with its final zero, and for [ls_pool_calloc] the product of its arguments
    modulo 2^64, which is less than was asked for when the product overflows
    ([pool_calloc_size]). *)
Theorem pool_slices_disjoint size ops s p s0 :
  mem_wf (ps_mem s) -> 0 <= size -> Forall op_wf ops ->
  ls_pool_create size s = Done (Ok p, s0) ->
  runs (run_ops p ops) s0 (fun rs s' =>
    length rs = length ops /\
    ForallOrdPairs disjoint_slices (slices ops rs) /\
    Forall (fun x => 0 < x.2 /\ 0 <= a_off x.1 /\
              exists n, live s' !! a_blk x.1 = Some n /\ a_off x.1 + x.2 <= n) (slices ops rs)).
Proof.
  intros Hwf Hsz Hops Hcr. pose proof (ls_pool_create_runs size s Hwf Hsz) as Hc.
  unfold runs in Hc at 1. rewrite Hcr in Hc. destruct Hc as [_ (-> & pool & I & Hrd & _ & _)].
  eapply runs_conseq; [by apply run_ops_runs|].
  intros rs s2 (pool2 & I2 & _ & _ & _ & _ & _ & Hlen & _ & Hsl & Hdis).
  split_and!; [done|done|]. eapply Forall_impl; [exact Hsl|].
  intros x (H1 & H2 & H3 & [n Hn]). pose proof (taken_le _ _ _ _ (a_blk x.1) I).
  pose proof (taken_le _ _ _ _ (a_blk x.1) I2) as Hle. rewrite Hn in Hle. simpl in Hle.
  split_and!; [done|lia|]. exists n. split; [done|lia].
Qed.

(** C39: destruction calls each user callback that was registered exactly once, the most
    recently registered first ([ps_called] lists the latest call first). *)
Theorem pool_callbacks_lifo size ops s :
  mem_wf (ps_mem s) -> 0 <= size -> Forall op_wf ops ->
  runs (pool_session size ops) s (fun rs s' =>
    rev (ps_called s') = rev (ps_called s) ++ rev (callbacks ops rs)).
Proof.
  intros Hwf Hsz Hops. unfold pool_session. run.
  eapply runs_conseq; [by apply ls_pool_create_runs|]. intros r s1 [Hfr Hr].
  destruct r as [p|e]; run.
  2: { rewrite (pf_called _ _ _ Hfr). destruct ops; by rewrite app_nil_r. }
  destruct Hr as (-> & pool & I & Hrd & Huc & _).
  eapply runs_conseq; [by apply run_ops_runs|].
  intros rs s2 (pool2 & I2 & _ & Hfr2 & _ & Huc2 & _). run.
  eapply runs_conseq; [by apply ls_pool_destroy_runs|]. intros _ s3 (_ & _ & _ & Hca & _). run.
  rewrite Hca, Huc2, Huc, app_nil_r, rev_involutive, rev_app_distr.
  by rewrite (pf_called _ _ _ Hfr2), (pf_called _ _ _ Hfr).
Qed.

(** [ls_pool_calloc] hands out zeroed memory and writes nothing else. *)
Theorem pool_calloc_zeroed base p pool s num size :
  pool_inv base p pool s -> pool_ready pool -> 0 <= num -> 0 <= size -> num * size <= SIZE_MAX ->
  runs (ls_pool_calloc p num size) s (fun r s' =>
    match r with
    | Ok (Some a) => 0 < num * size /\ holds_bytes s' a (replicate (Z.to_nat (num * size)) 0) /\
        same_outside a (num * size) s s'
    | Ok None => num * size = 0
    | Err e => e = LS_ERR_NO_MEMORY /\ live s' = live s
    end).
Proof.
  intros I Hrd Hn Hs Hmax. unfold SIZE_MAX in Hmax.
  eapply runs_conseq; [by apply ls_pool_calloc_runs|]. intros r s' [Hr Hb].
  rewrite !uwrap_id in * by (unfold in_range; nia).
  destruct r as [[a|]|e]; simpl in Hr.
  - destruct (Hb a eq_refl). by destruct Hr.
  - by destruct Hr.
  - destruct Hr as [-> (_ & _ & Hlv)]. done.
Qed.

(** C40: what [ls_pool_calloc] hands out, for all its arguments.  The product is computed in
    [size_t] and not checked: a call gives [num * size] modulo 2^64 bytes, [n], zeroed, that
    overlap nothing handed out before and lie inside a live block, and it writes nothing
    else; or NULL and success when [n] is 0, which it may be for arguments that are not; or
    it reports that there is no memory and changes nothing.  So when the product overflows,
    a success is less than was asked for. *)
Theorem pool_calloc_size base p pool s num size :
  pool_inv base p pool s -> pool_ready pool -> 0 <= num -> 0 <= size ->
  let n := (num * size) mod 2 ^ 64 in
  n <= num * size /\ (SIZE_MAX < num * size -> n < num * size) /\
  runs (ls_pool_calloc p num size) s (fun r s' =>
    match r with
    | Ok (Some a) => 0 < n /\ taken s pool (a_blk a) <= a_off a /\
        (exists m, live s' !! a_blk a = Some m /\ a_off a + n <= m) /\
        holds_bytes s' a (replicate (Z.to_nat n) 0) /\ same_outside a n s s' /\ live s ⊆ live s'
    | Ok None => n = 0 /\ live s' = live s
    | Err e => e = LS_ERR_NO_MEMORY /\ live s' = live s
    end).
Proof.
  intros I Hrd Hn Hs n. pose proof (Z.mod_le (num * size) (2 ^ 64) ltac:(nia) ltac:(lia)).
  pose proof (Z.mod_pos_bound (num * size) (2 ^ 64) ltac:(lia)).
  split; [done|split; [unfold n, SIZE_MAX in *; lia|]].
  eapply runs_conseq; [by apply ls_pool_calloc_runs|]. intros r s' [Hr Hb].
  change (u64 (num * size)) with n in *. destruct r as [[a|]|e]; simpl in Hr.
  - destruct (Hb a eq_refl) as [Hz Hout].
    destruct Hr as (Hpos & pool' & I' & _ & _ & Hsub & _ & _ & Ht & Ht' & _ & [m Hm]).
    split_and!; [done|done| |done|done|done]. exists m. split; [done|].
    pose proof (taken_le _ _ _ _ (a_blk a) I). pose proof (taken_le _ _ _ _ (a_blk a) I') as Hle.
    rewrite Hm in Hle. cbn in Hle. lia.
  - by destruct Hr as (? & _ & _ & ?).
  - by destruct Hr as (? & _ & _ & ?).
Qed.

(** *** The functions that allocate: what [Libc.malloc], [Libc.realloc] and [Libc.free] above
    stand for is the C library's, or the program's own. *)
Section memory_funcs.
Context {malloc_func realloc_func free_func : Type} (malloc : malloc_func) (realloc : realloc_func) (free : free_func).

Record memory_funcs := MemoryFuncs { _malloc_func : malloc_func; _realloc_func : realloc_func; _free_func : free_func }.

Definition ls_data_set_memory_funcs (m : option malloc_func) (r : option realloc_func) (f : option free_func)
    : C memory_funcs unit :=
  c_modify (fun _ => MemoryFuncs (default malloc m) (default realloc r) (default free f)).
End memory_funcs.

(** The state of a program that has not allocated yet; [oom] scripts the failures. *)
Definition pstate_init (oom : list bool) : pstate := PState (Mem ∅ 1 ∅ oom) ∅ true [].

Lemma pstate_init_wf oom : mem_wf (ps_mem (pstate_init oom)).
Proof. intros l [x Hx]. simpl in Hx. by rewrite lookup_empty in Hx. Qed.

(** A new pool of page size 128, its address and its state. *)
Definition fresh_pool : pstate :=
  match ls_pool_create 128 (pstate_init []) with Done (_, s) => s | Fault _ => pstate_init [] end.

(** So: asked for 2^61 + 1 items of 8 bytes, it succeeds with a slice of 8 bytes. *)
Example pool_calloc_overflow : exists a s',
  ls_pool_calloc 1 (2 ^ 61 + 1) 8 fresh_pool = Done (Ok (Some a), s') /\
  (2 ^ 61 + 1) * 8 = 18446744073709551624 /\
  (exists pool, ps_pools s' !! 1%positive = Some pool /\
     taken fresh_pool pool (a_blk a) = 8 /\ taken s' pool (a_blk a) = 8 /\ p_size pool = 128).
Proof.
  do 2 eexists. split; [vm_compute; reflexivity|]. split; [reflexivity|].
  eexists. split; [vm_compute; reflexivity|]. split_and!; vm_compute; reflexivity.
Qed.

Section witnesses.
Let ops : list pool_op :=
  [OpMalloc 100; OpCalloc 5 8; OpAddCleaner 7 None; OpMalloc 500; OpStrdup (Some (CPtr 1 [104; 105]));
   OpAddCleaner 8 None; OpMalloc 0].

Lemma ops_wf : Forall op_wf ops.
Proof. repeat constructor; simpl; unfold SIZE_MAX; lia. Qed.

Lemma pool_session_leak_free_witness :
  runs (pool_session 128 ops) (pstate_init [false; false; false; false; true; false; true])
    (fun rs s' => live s' = ∅ /\ mem_wf (ps_mem s') /\
       Forall (fun r => forall e, r = Err e -> e = LS_ERR_NO_MEMORY) rs).
Proof.
  apply (pool_session_leak_free 128 ops (pstate_init [false; false; false; false; true; false; true])).
  - apply pstate_init_wf.
  - lia.
  - apply ops_wf.
Defined.

Lemma pool_slices_disjoint_witness :
  runs (run_ops 1 ops) fresh_pool (fun rs s' =>
    length rs = length ops /\
    ForallOrdPairs disjoint_slices (slices ops rs) /\
    Forall (fun x => 0 < x.2 /\ 0 <= a_off x.1 /\
              exists n, live s' !! a_blk x.1 = Some n /\ a_off x.1 + x.2 <= n) (slices ops rs)).
Proof.
  apply (pool_slices_disjoint 128 ops (pstate_init []) 1%positive fresh_pool).
  - apply pstate_init_wf.
  - lia.
  - apply ops_wf.
  - vm_compute. reflexivity.
Defined.

Lemma pool_callbacks_lifo_witness :
  runs (pool_session 128 ops) (pstate_init []) (fun rs s' =>
    rev (ps_called s') = rev (callbacks ops rs)).
Proof.
  apply (pool_callbacks_lifo 128 ops (pstate_init [])).
  - apply pstate_init_wf.
  - lia.
  - apply ops_wf.
Defined.

Lemma fresh_pool_ready : exists pool, pool_inv ∅ 1 pool fresh_pool /\ pool_ready pool.
Proof.
  pose proof (ls_pool_create_runs 128 (pstate_init []) (pstate_init_wf []) ltac:(lia)) as H.
  unfold runs in H.
  destruct (ls_pool_create 128 (pstate_init [])) as [[[p|e] s]|f] eqn:E; [|vm_compute in E; discriminate..].
  destruct H as [_ (-> & pool & I & Hrd & _ & _)].
  assert (Hs : s = fresh_pool) by (unfold fresh_pool; by rewrite E). subst s. by exists pool.
Qed.

(** 2^61 + 1 items of 8 bytes: the slice has 8 bytes. *)
Lemma pool_calloc_size_witness : exists pool, pool_inv ∅ 1 pool fresh_pool /\
  8 < (2 ^ 61 + 1) * 8 /\
  runs (ls_pool_calloc 1 (2 ^ 61 + 1) 8) fresh_pool (fun r s' =>
    match r with
    | Ok (Some a) => 0 < 8 /\ taken fresh_pool pool (a_blk a) <= a_off a /\
        (exists m, live s' !! a_blk a = Some m /\ a_off a + 8 <= m) /\
        holds_bytes s' a (replicate (Z.to_nat 8) 0) /\ same_outside a 8 fresh_pool s' /\
        live fresh_pool ⊆ live s'
    | Ok None => 8 = 0 /\ live s' = live fresh_pool
    | Err e => e = LS_ERR_NO_MEMORY /\ live s' = live fresh_pool
    end).
Proof.
  destruct fresh_pool_ready as (pool & I & Hrd). exists pool. split; [exact I|].
  destruct (pool_calloc_size ∅ 1 pool fresh_pool (2 ^ 61 + 1) 8 I Hrd) as (_ & Hlt & Hr); [lia|lia|].
  split; [apply Hlt; unfold SIZE_MAX; lia|exact Hr].
Defined.

Lemma pool_calloc_zeroed_witness :
  exists base pool, pool_inv base 1 pool fresh_pool /\
  runs (ls_pool_calloc 1 3 4) fresh_pool (fun r s' =>
    match r with
    | Ok (Some a) => 0 < 3 * 4 /\ holds_bytes s' a (replicate (Z.to_nat (3 * 4)) 0) /\
        same_outside a (3 * 4) fresh_pool s'
    | Ok None => 3 * 4 = 0
    | Err e => e = LS_ERR_NO_MEMORY /\ live s' = live fresh_pool
    end).
Proof.
  destruct fresh_pool_ready as (pool & I & Hrd). exists ∅, pool. split; [exact I|].
  apply (pool_calloc_zeroed ∅ 1 pool fresh_pool 3 4); [exact I|exact Hrd|lia|lia|].
  unfold SIZE_MAX. lia.
Defined.
End witnesses.
