(* ===== verification/PoolUse.v ===== *)
(** What a component that uses heap blocks and pools for a while leaves of the heap: the
    lemmas that the clients of LsMem.v share. *)

From S2P Require Import Prelude LsError LsMem.
Open Scope Z_scope.

(** ** What a call leaves of the heap *)

(** The same live blocks, the same pools in them: what a call that owns its blocks only
    while it runs leaves. *)
Record same_heap (s s' : pstate) : Prop := {
  sh_live : m_live (ps_mem s') = m_live (ps_mem s);
  sh_wf : mem_wf (ps_mem s');
  sh_pools q : is_Some (m_live (ps_mem s) !! q) -> ps_pools s' !! q = ps_pools s !! q;
  sh_called : ps_called s' = ps_called s;
  sh_paging : ps_paging s' = ps_paging s }.

Lemma same_heap_refl s : mem_wf (ps_mem s) -> same_heap s s.
Proof. by split. Qed.

Lemma same_heap_trans s s' s'' : same_heap s s' -> same_heap s' s'' -> same_heap s s''.
Proof.
  intros [H1 H2 H3 H4 H5] [K1 K2 K3 K4 K5]. split; [congruence|done| |congruence..].
  intros q Hq. rewrite K3; [by apply H3|by rewrite H1].
Qed.

Lemma runs_data_calloc_exact n k s (Q : option loc -> pstate -> Prop) : mem_wf (ps_mem s) ->
  (forall s', hd false (m_oom (ps_mem s)) = true -> same_heap s s' -> Q None s') ->
  (forall l s', hd false (m_oom (ps_mem s)) = false -> m_live (ps_mem s) !! l = None -> mem_wf (ps_mem s') ->
     m_live (ps_mem s') = <[l := u64 (n * k)]> (m_live (ps_mem s)) ->
     ps_pools s' = ps_pools s -> ps_called s' = ps_called s -> ps_paging s' = ps_paging s ->
     Q (Some l) s') ->
  runs (on_mem (ls_data_calloc n k)) s Q.
Proof.
  intros Hwf H0 H1. apply runs_zoom. unfold ls_data_calloc. cbv zeta. apply runs_bind.
  assert (Hu : 0 <= u64 (n * k)) by (apply uwrap_range; lia).
  apply malloc_exact; intros Eo; run_step.
  - apply H0; [done|]. by split.
  - pose proof (mem_wf_fresh _ Hwf) as Hf. pose proof (mem_wf_alloc (u64 (n * k)) _ Hwf).
    unfold Libc.memset. case_decide as E.
    + run. by apply H1.
    + run. unfold runs, Libc.memcpy, Libc.in_block. cbn. rewrite lookup_insert_eq.
      rewrite decide_True by (rewrite length_replicate; lia). by apply H1.
Qed.

Lemma runs_data_calloc n k s (Q : option loc -> pstate -> Prop) : mem_wf (ps_mem s) ->
  (forall s', same_heap s s' -> Q None s') ->
  (forall l s', m_live (ps_mem s) !! l = None -> mem_wf (ps_mem s') ->
     m_live (ps_mem s') = <[l := u64 (n * k)]> (m_live (ps_mem s)) ->
     ps_pools s' = ps_pools s -> ps_called s' = ps_called s -> ps_paging s' = ps_paging s ->
     Q (Some l) s') ->
  runs (on_mem (ls_data_calloc n k)) s Q.
Proof. intros Hwf H0 H1. apply runs_data_calloc_exact; auto. Qed.

Lemma runs_free_block l s s' sz (Q : unit -> pstate -> Prop) :
  m_live (ps_mem s) !! l = None -> mem_wf (ps_mem s') ->
  m_live (ps_mem s') = <[l := sz]> (m_live (ps_mem s)) ->
  ps_pools s' = ps_pools s -> ps_called s' = ps_called s -> ps_paging s' = ps_paging s ->
  (forall s'', same_heap s s'' -> Q tt s'') ->
  runs (on_mem (ls_data_free (Some l))) s' Q.
Proof.
  intros Hf Hwf El Ep Ec Eg HQ. apply runs_free; [rewrite El, lookup_insert_eq; eauto|].
  apply HQ. split; cbn; [|by apply mem_wf_delete|by rewrite Ep|done..].
  by rewrite El, delete_insert_id.
Qed.

(** The pool at [p], made from [s], still owns exactly what is not in the heap of [s]. *)
Record pool_keeps (s : pstate) (p : loc) (s' : pstate) : Prop := {
  pk_inv : exists pool, pool_inv (m_live (ps_mem s)) p pool s' /\ pool_ready pool /\ user_calls pool = [];
  pk_new : m_live (ps_mem s) !! p = None;
  pk_pools q : is_Some (m_live (ps_mem s) !! q) -> ps_pools s' !! q = ps_pools s !! q;
  pk_called : ps_called s' = ps_called s;
  pk_paging : ps_paging s' = ps_paging s }.

Lemma pool_keeps_frame s p s' s'' : pool_keeps s p s' -> pool_frame p s' s'' ->
  (exists pool, pool_inv (m_live (ps_mem s)) p pool s'' /\ pool_ready pool /\ user_calls pool = []) ->
  pool_keeps s p s''.
Proof.
  intros [_ Hn Hq Hc Hg] [Hf1 Hf2 Hf3] Hi. split; [done|done| |congruence..].
  intros q Hl. rewrite <- Hq by done. apply Hf1. intros ->. rewrite Hn in Hl. by destruct Hl.
Qed.

Lemma pool_result_keeps s p s' pool n r s'' : pool_keeps s p s' ->
  pool_inv (m_live (ps_mem s)) p pool s' -> user_calls pool = [] -> pool_ready pool ->
  pool_result (m_live (ps_mem s)) p pool s' n r s'' -> pool_keeps s p s''.
Proof.
  intros Hk I Hu Hr Hres. destruct r as [[a|]|e].
  - destruct Hres as (_ & pool' & I' & Hr' & Hf' & _ & _ & Hu' & _).
    eapply pool_keeps_frame; [done..|]. exists pool'. by rewrite Hu'.
  - destruct Hres as (_ & I' & Hf' & _). eapply pool_keeps_frame; [done..|]. by exists pool.
  - destruct Hres as (_ & I' & Hf' & _). eapply pool_keeps_frame; [done..|]. by exists pool.
Qed.

Lemma pool_calloc_keeps s p n k s' : pool_keeps s p s' ->
  runs (ls_pool_calloc p n k) s' (fun r s'' => pool_keeps s p s'' /\
    forall e, r = Err e -> e = LS_ERR_NO_MEMORY).
Proof.
  intros Hk. destruct (pk_inv _ _ _ Hk) as (pool & I & Hr & Hu).
  eapply runs_conseq; [by apply ls_pool_calloc_runs|]. intros r s'' [Hres _].
  split; [by eapply pool_result_keeps|]. intros e ->. by destruct Hres.
Qed.

Lemma pool_malloc_keeps s p n s' : pool_keeps s p s' -> 0 <= n ->
  runs (ls_pool_malloc p n) s' (fun r s'' => pool_keeps s p s'' /\
    forall e, r = Err e -> e = LS_ERR_NO_MEMORY).
Proof.
  intros Hk Hn. destruct (pk_inv _ _ _ Hk) as (pool & I & Hr & Hu).
  eapply runs_conseq; [by apply ls_pool_malloc_runs|]. intros r s'' [Hres _].
  split; [by eapply pool_result_keeps|]. intros e ->. by destruct Hres.
Qed.

Lemma pool_create_keeps s size (Q : res Z loc -> pstate -> Prop) : mem_wf (ps_mem s) -> 0 <= size ->
  (forall s', same_heap s s' -> Q (Err LS_ERR_NO_MEMORY) s') ->
  (forall p s', pool_keeps s p s' -> Q (Ok p) s') ->
  runs (ls_pool_create size) s Q.
Proof.
  intros Hwf Hz H0 H1. eapply runs_conseq; [by apply ls_pool_create_runs|].
  intros r s' [[Hf1 Hf2 Hf3] Hr]. pose proof (mem_wf_fresh _ Hwf) as Hn. destruct r as [p|e].
  - destruct Hr as (-> & pool & I & Hrd & Hu & _). apply H1. split; [by exists pool|done| |done..].
    intros q [x Hq]. apply Hf1. congruence.
  - destruct Hr as (-> & El & Hw). apply H0. split; [done|done| |done|done].
    intros q [x Hq]. apply Hf1. congruence.
Qed.

Lemma pool_keeps_wf s p s' : pool_keeps s p s' -> mem_wf (ps_mem s').
Proof. intros [(pool & [] & _) _ _ _ _]. done. Qed.

(** What allocates and frees on its own leaves the pool as it is. *)
Lemma pool_keeps_same s p s' s'' : pool_keeps s p s' -> same_heap s' s'' -> pool_keeps s p s''.
Proof.
  intros [(pool & I & Hr & Hu) Hn Hq Hc Hg] [H1 H2 H3 H4 H5].
  assert (Hlive : forall q, is_Some (m_live (ps_mem s) !! q) -> is_Some (m_live (ps_mem s') !! q)).
  { intros q. rewrite (pi_base _ _ _ _ I), lookup_minus. by case_decide; [intros []|]. }
  split; [|done| |congruence..].
  - exists pool. split; [|done]. destruct I as [Ip Iw Ind Il Ib Ic Ig Iz].
    assert (Hp : is_Some (m_live (ps_mem s') !! p)).
    { apply (Forall_forall _ _) with (x := p) in Il; [done|]. apply elem_of_app. right. by left. }
    split; [by rewrite H3|done|done|by rewrite H1|by rewrite H1|done| |done].
    eapply Forall_impl; [done|]. intros lp. unfold page_ok. by rewrite H1.
  - intros q Hl. rewrite H3 by auto. by apply Hq.
Qed.

Lemma pool_keeps_destroy s p s' (Q : unit -> pstate -> Prop) : pool_keeps s p s' ->
  (forall s'', same_heap s s'' -> Q tt s'') -> runs (ls_pool_destroy p) s' Q.
Proof.
  intros [(pool & I & _ & Hu) Hn Hq Hc Hg] HQ.
  eapply runs_conseq; [by apply ls_pool_destroy_runs|].
  intros [] s'' (El & Hw & Ep & Ec & Eg). apply HQ.
  split; [done|done| |by rewrite Ec, Hu|congruence]. intros q [x Hl].
  rewrite Ep, lookup_delete_ne by congruence. apply Hq. eauto.
Qed.

(** ** Several pools at once *)

Lemma elem_of_concat {A} (x : A) ls : x ∈ concat ls <-> exists l, x ∈ l /\ l ∈ ls.
Proof.
  rewrite list_elem_of_In, in_concat.
  split; intros (l & H1 & H2); exists l; rewrite !list_elem_of_In in *; tauto.
Qed.

(** The blocks of a pool, its own among them. *)
Definition own (o : loc * ls_pool) : list loc := pool_blocks o.2 ++ [o.1].

(** The heap is that of [s0] and, apart from it, the pools [ps]. *)
Record owns (s0 : pstate) (ps : list loc) (s : pstate) : Prop := {
  ow_pools : exists os : list (loc * ls_pool), os.*1 = ps /\
    Forall (fun o => pool_inv (minus (own o) (m_live (ps_mem s))) o.1 o.2 s /\ user_calls o.2 = []) os /\
    NoDup (concat (own <$> os)) /\
    m_live (ps_mem s0) = minus (concat (own <$> os)) (m_live (ps_mem s));
  ow_wf : mem_wf (ps_mem s);
  ow_same q : is_Some (m_live (ps_mem s0) !! q) -> ps_pools s !! q = ps_pools s0 !! q;
  ow_called : ps_called s = ps_called s0;
  ow_paging : ps_paging s = ps_paging s0 }.

Lemma owns_nil s : mem_wf (ps_mem s) -> owns s [] s.
Proof. intros Hwf. split; try done. exists []. split_and!; try done; constructor. Qed.

Lemma owns_nil_same s s' : owns s [] s' -> same_heap s s'.
Proof.
  intros [(os & Eos & _ & _ & El) Hw Hs Hc Hp]. apply fmap_nil_inv in Eos as ->.
  by split.
Qed.

(** A pool is what it was as long as its own blocks are. *)
Lemma pool_inv_outside p pool s s' :
  pool_inv (minus (own (p, pool)) (m_live (ps_mem s))) p pool s -> mem_wf (ps_mem s') ->
  ps_pools s' !! p = ps_pools s !! p ->
  (forall l, l ∈ own (p, pool) -> m_live (ps_mem s') !! l = m_live (ps_mem s) !! l) ->
  pool_inv (minus (own (p, pool)) (m_live (ps_mem s'))) p pool s'.
Proof.
  intros [Ip Iw Ind Il Ib Ic Ig Iz] Hw Hp Hl. split; [by rewrite Hp|done|done| |done|done| |done].
  - apply Forall_forall. intros l Hin. rewrite Hl by done. by apply (Forall_forall _ _) with (x := l) in Il.
  - eapply Forall_impl; [done|]. intros lp (H1 & H2 & H3 & H4). split_and!; [lia..|done| |done].
    rewrite Hl; [done|]. apply elem_of_app. by left.
Qed.

Lemma minus_lookup_out ls (g : gmap loc Z) l : l ∉ ls -> minus ls g !! l = g !! l.
Proof. intros H. by rewrite lookup_minus, decide_False. Qed.

Lemma own_live s o l : pool_inv (minus (own o) (m_live (ps_mem s))) o.1 o.2 s -> l ∈ own o ->
  is_Some (m_live (ps_mem s) !! l).
Proof. intros [] Hl. by apply (Forall_forall _ _) with (x := l) in pi_live. Qed.

Lemma owns_same s0 ps s s' : owns s0 ps s -> same_heap s s' -> owns s0 ps s'.
Proof.
  intros [(os & Eos & Hos & Hnd & El) Hw Hs Hc Hp] [H1 H2 H3 H4 H5].
  split; [|done| |congruence..].
  - exists os. split_and!; [done| |done|by rewrite H1]. eapply Forall_impl; [done|].
    intros [p pool] [I Hu]. split; [|done]. eapply pool_inv_outside; [done|done| |by intros; rewrite H1].
    cbn. apply H3. apply (own_live s (p, pool)); [done|]. apply elem_of_app. right. by left.
  - intros q Hq. rewrite H3; [by apply Hs|]. rewrite El, lookup_minus in Hq.
    by case_decide; [destruct Hq|].
Qed.

(** A new pool joins them. *)
Lemma owns_new s0 ps s p s' : owns s0 ps s -> pool_keeps s p s' -> owns s0 (ps ++ [p]) s'.
Proof.
  intros [(os & Eos & Hos & Hnd & El) Hw Hs Hc Hp] [(pool & I & _ & Hu) Hn Hq Hc' Hp'].
  assert (Hout : forall l, is_Some (m_live (ps_mem s) !! l) -> l ∉ own (p, pool) /\
      m_live (ps_mem s') !! l = m_live (ps_mem s) !! l).
  { intros l. rewrite (pi_base _ _ _ _ I), lookup_minus. case_decide as Hd; [by intros []|]. done. }
  assert (Hlive : forall l, l ∈ concat (own <$> os) -> is_Some (m_live (ps_mem s) !! l)).
  { intros l (ls & Hl & (o & -> & Ho)%list_elem_of_fmap)%elem_of_concat.
    apply (Forall_forall _ _) with (x := o) in Hos; [|done]. by eapply own_live; [apply Hos|]. }
  split; [|apply I| |congruence..].
  - exists (os ++ [(p, pool)]). rewrite !fmap_app, concat_app. cbn [fmap list_fmap concat].
    rewrite app_nil_r. split_and!; [by rewrite Eos| | |].
    + apply Forall_app. split.
      * apply Forall_forall. intros [q qp] Ho. apply (Forall_forall _ _) with (x := (q, qp)) in Hos; [|done].
        destruct Hos as [Iq Huq]. split; [|done]. eapply pool_inv_outside; [done|apply I| |].
        -- apply Hq. apply (own_live s (q, qp)); [done|]. apply elem_of_app. right. by left.
        -- intros l Hl. by apply Hout, (own_live s (q, qp)).
      * apply Forall_singleton. split; [|done]. pose proof (pi_base _ _ _ _ I) as Eb.
        unfold own. cbn. by rewrite <- Eb.
    + apply NoDup_app. split_and!; [done| |apply I]. intros l Hl. by apply Hout, Hlive.
    + rewrite minus_app, El. f_equal. apply (pi_base _ _ _ _ I).
  - intros q Hl. rewrite Hq; [by apply Hs|]. rewrite El, lookup_minus in Hl.
    by case_decide; [destruct Hl|].
Qed.

(** The first of them is destroyed. *)
Lemma owns_destroy s0 p ps s : owns s0 (p :: ps) s ->
  runs (ls_pool_destroy p) s (fun _ s' => owns s0 ps s').
Proof.
  intros [(os & Eos & Hos & Hnd & El) Hw Hs Hc Hp]. destruct os as [|[q pool] os]; [done|].
  cbn in Eos. injection Eos as -> Eps. apply Forall_cons in Hos as [[I Hu] Hos]. cbn in I, Hu.
  cbn [fmap list_fmap concat] in Hnd, El. apply NoDup_app in Hnd as (Hnd1 & Hdis & Hnd2).
  eapply runs_conseq; [by apply ls_pool_destroy_runs|].
  intros [] s' (El' & Hw' & Ep' & Ec' & Eg').
  split; [|done| |by rewrite Ec', Hu|congruence].
  - exists os. split_and!; [done| |done|].
    + apply Forall_forall. intros [q qp] Ho. pose proof Ho as Ho'.
      apply (Forall_forall _ _) with (x := (q, qp)) in Hos; [|done]. destruct Hos as [Iq Huq].
      assert (Hsep : forall l, l ∈ own (q, qp) -> l ∉ own (p, pool)).
      { intros l Hl Hl'. apply (Hdis l Hl'). apply elem_of_concat. exists (own (q, qp)).
        split; [done|]. apply list_elem_of_fmap. by exists (q, qp). }
      split; [|done]. eapply pool_inv_outside; [done|done| |].
      * cbn. rewrite Ep'. apply lookup_delete_ne. intros ->. apply (Hsep q).
        -- apply elem_of_app. right. by left.
        -- apply elem_of_app. right. by left.
      * intros l Hl. rewrite El'. by apply minus_lookup_out, Hsep.
    + rewrite El', <- minus_app, El. apply minus_perm. intros l. rewrite !elem_of_app. tauto.
  - intros q Hl. rewrite Ep', lookup_delete_ne; [by apply Hs|]. intros ->.
    rewrite El, lookup_minus, decide_True in Hl; [by destruct Hl|].
    apply elem_of_app. left. apply elem_of_app. right. by left.
Qed.
