(* ===== verification/Store.v ===== *)
(** Typed object stores: what ls_data_malloc(), ls_data_calloc() and ls_data_free()
    are to a component that allocates structs.

    The objects of one C type are a finite map from addresses to records; a pointer
    is an [option loc], with [None] for NULL.  Loads, stores and frees fault when the
    object is not there, so that use after free and double free are outcomes of a
    run; allocation fails when the component's script of allocator answers says so,
    so that a theorem covers every pattern of memory exhaustion.  (The allocator
    itself, byte by byte, is in LsMem.v.) *)

From S2P Require Import Prelude.
Open Scope Z_scope.

Abbreviation loc := positive.
Abbreviation ptr := (option loc).

Record store (A : Type) := Store { st_objs : gmap loc A; st_next : loc }.
Arguments Store {A}.
Arguments st_objs {A}.
Arguments st_next {A}.

Definition store_empty {A} : store A := Store ∅ 1.

Definition store_wf {A} (st : store A) : Prop :=
  forall l, is_Some (st_objs st !! l) -> (l < st_next st)%positive.

Definition st_set {A} (l : loc) (a : A) (st : store A) : store A :=
  Store (<[l := a]> (st_objs st)) (st_next st).
Definition st_del {A} (l : loc) (st : store A) : store A :=
  Store (delete l (st_objs st)) (st_next st).
Definition st_add {A} (a : A) (st : store A) : store A :=
  Store (<[st_next st := a]> (st_objs st)) (Pos.succ (st_next st)).

(** The interface between a component's state and the stores it keeps. *)
Class HasStore (S A : Type) := {
  the_store : S -> store A;
  with_store : store A -> S -> S }.

Class HasAllocator (S : Type) := {
  oom_script : S -> list bool;
  with_oom : list bool -> S -> S }.

(** What a component's theorems may assume of that interface. *)
Class StoreLaws (S A : Type) {HS : HasStore S A} {HA : HasAllocator S} := {
  the_with_store st s : the_store (A := A) (with_store st s) = st;
  the_with_oom o s : the_store (A := A) (with_oom o s) = the_store s }.

Section store_ops.
Context {S A : Type} {HS : HasStore S A} {HA : HasAllocator S}.

(** A read of the object at [l]. *)
Definition load (l : loc) : C S A :=
  s ← c_get; c_live (st_objs (the_store s) !! l).

(** A write of the object at [l]. *)
Definition save (l : loc) (a : A) : C S unit :=
  _ ← load l; c_modify (fun s => with_store (st_set l a (the_store s)) s).

(** Assignment to fields of the object at [l]. *)
Definition update (l : loc) (f : A -> A) : C S unit := a ← load l; save l (f a).

(** The allocator's next answer. *)
Definition oom : C S bool :=
  b ← c_gets (fun s => hd false (oom_script s));
  c_modify (fun s => with_oom (tail (oom_script s)) s);; mret b.

(** ls_data_calloc(1, sizeof(A)), with the initial contents *)
Definition new (a : A) : C S ptr :=
  fail ← oom;
  if fail : bool then mret None
  else
    l ← c_gets (fun s => st_next (the_store s));
    c_modify (fun s => with_store (st_add a (the_store s)) s);;
    mret (Some l).

(** ls_data_free(l), [l] not NULL *)
Definition release (l : loc) : C S unit :=
  s ← c_get;
  match st_objs (the_store s) !! l with
  | Some _ => c_modify (fun s => with_store (st_del l (the_store s)) s)
  | None => c_fault DoubleFree
  end.

Lemma runs_load l a s (Q : A -> S -> Prop) :
  st_objs (the_store s) !! l = Some a -> Q a s -> runs (load l) s Q.
Proof. intros H HQ. unfold load. run_step. run_step. by eapply runs_live. Qed.

Lemma load_done l a s : st_objs (the_store s) !! l = Some a -> load l s = Done (a, s).
Proof. intros H. unfold load, c_live, c_get, mbind, C_bind. by rewrite H. Qed.

Lemma runs_save l a s (Q : unit -> S -> Prop) :
  is_Some (st_objs (the_store s) !! l) ->
  Q tt (with_store (st_set l a (the_store s)) s) -> runs (save l a) s Q.
Proof.
  intros [b H] HQ. unfold save. run_step. eapply runs_load; [done|]. by run_step.
Qed.

Lemma runs_update l f a s (Q : unit -> S -> Prop) :
  st_objs (the_store s) !! l = Some a ->
  Q tt (with_store (st_set l (f a) (the_store s)) s) -> runs (update l f) s Q.
Proof.
  intros H HQ. unfold update. run_step. eapply runs_load; [done|].
  apply runs_save; [by rewrite H|done].
Qed.

Definition pop_oom (s : S) : S := with_oom (tail (oom_script s)) s.

Lemma runs_oom s (Q : bool -> S -> Prop) :
  Q (hd false (oom_script s)) (pop_oom s) -> runs oom s Q.
Proof. intros H. unfold oom. run. done. Qed.

Lemma runs_new_exact a s (Q : ptr -> S -> Prop) :
  (hd false (oom_script s) = true -> Q None (pop_oom s)) ->
  (hd false (oom_script s) = false -> Q (Some (st_next (the_store (pop_oom s))))
    (with_store (st_add a (the_store (pop_oom s))) (pop_oom s))) ->
  runs (new a) s Q.
Proof.
  intros H0 H1. unfold new. run_step. apply runs_oom. destruct (hd _ _); run; [by apply H0|by apply H1].
Qed.

Lemma runs_new a s (Q : ptr -> S -> Prop) :
  Q None (pop_oom s) ->
  Q (Some (st_next (the_store (pop_oom s))))
    (with_store (st_add a (the_store (pop_oom s))) (pop_oom s)) ->
  runs (new a) s Q.
Proof. intros H0 H1. by apply runs_new_exact. Qed.

Lemma runs_new_ok a s (Q : ptr -> S -> Prop) :
  hd false (oom_script s) = false ->
  Q (Some (st_next (the_store (pop_oom s))))
    (with_store (st_add a (the_store (pop_oom s))) (pop_oom s)) ->
  runs (new a) s Q.
Proof. intros E H1. apply runs_new_exact; [by rewrite E|done]. Qed.

Lemma runs_release l s (Q : unit -> S -> Prop) :
  is_Some (st_objs (the_store s) !! l) ->
  Q tt (with_store (st_del l (the_store s)) s) -> runs (release l) s Q.
Proof. intros [a H] HQ. unfold release. run_step. run_step. by rewrite H. Qed.
End store_ops.

(** Freshness and framing. *)
Lemma store_wf_fresh {A} (st : store A) : store_wf st -> st_objs st !! st_next st = None.
Proof. intros H. apply eq_None_not_Some. intros Hs%H. lia. Qed.

Lemma store_wf_empty {A} : store_wf (@store_empty A).
Proof. intros l. cbn. rewrite lookup_empty. by intros [? ?]. Qed.

Lemma store_wf_add {A} a (st : store A) : store_wf st -> store_wf (st_add a st).
Proof.
  intros H l. cbn. destruct (decide (l = st_next st)) as [->|Hne].
  - intros _. lia.
  - rewrite lookup_insert_ne by done. intros Hl%H. lia.
Qed.

Lemma store_wf_set {A} l (a : A) st : is_Some (st_objs st !! l) -> store_wf st ->
  store_wf (st_set l a st).
Proof.
  intros Hl H l'. cbn. destruct (decide (l' = l)) as [->|Hne].
  - intros _. by apply H.
  - rewrite lookup_insert_ne by done. apply H.
Qed.

Lemma store_wf_del {A} l (st : store A) : store_wf st -> store_wf (st_del l st).
Proof.
  intros H l'. cbn. destruct (decide (l' = l)) as [->|Hne].
  - rewrite lookup_delete_eq. by intros [? ?].
  - rewrite lookup_delete_ne by done. apply H.
Qed.

#[export] Hint Resolve store_wf_empty store_wf_add store_wf_del store_wf_fresh : spud.
#[export] Hint Extern 1 (store_wf (st_set _ _ _)) =>
  apply store_wf_set; [by simplify_map_eq|] : spud.

(** The part of a store that is not in [ls], for statements about leaks. *)
Definition without {A} (ls : list loc) (g : gmap loc A) : gmap loc A := foldr delete g ls.

Section without.
Context {A : Type}.
Implicit Types g : gmap loc A.

Lemma lookup_without ls g l : without ls g !! l = if decide (l ∈ ls) then None else g !! l.
Proof.
  induction ls as [|x ls IH]; cbn; [by rewrite decide_False by (by intros ?%elem_of_nil)|].
  destruct (decide (l = x)) as [->|Hne].
  - rewrite lookup_delete_eq, decide_True; [done|by left].
  - rewrite lookup_delete_ne by done. fold (without ls g). rewrite IH.
    apply decide_ext. rewrite elem_of_cons. naive_solver.
Qed.

Lemma without_ext ls ls' g : (forall l, l ∈ ls <-> l ∈ ls') -> without ls g = without ls' g.
Proof. intros H. apply map_eq. intros l. rewrite !lookup_without. by apply decide_ext. Qed.

Lemma without_insert_in ls l x g : l ∈ ls -> without ls (<[l := x]> g) = without ls g.
Proof.
  intros Hl. apply map_eq. intros l'. rewrite !lookup_without. case_decide; [done|].
  rewrite lookup_insert_ne; [done|]. by intros ->.
Qed.

Lemma without_cons_new ls l x g : g !! l = None ->
  without (l :: ls) (<[l := x]> g) = without ls g.
Proof.
  intros Hg. apply map_eq. intros l'. rewrite !lookup_without.
  destruct (decide (l' = l)) as [->|Hne].
  - rewrite decide_True by (by left). case_decide; [done|]. by rewrite Hg.
  - rewrite lookup_insert_ne by done. apply decide_ext. rewrite elem_of_cons. naive_solver.
Qed.

Lemma without_delete ls l g : without ls (delete l g) = without (l :: ls) g.
Proof.
  apply map_eq. intros l'. rewrite !lookup_without.
  destruct (decide (l' = l)) as [->|Hne].
  - rewrite lookup_delete_eq, (decide_True (P := l ∈ l :: ls)) by (by left).
    by case_decide.
  - rewrite lookup_delete_ne by done. apply decide_ext. rewrite elem_of_cons. naive_solver.
Qed.

Lemma without_nil g : without [] g = g.
Proof. done. Qed.

Lemma without_app ls ls' g : without ls' (without ls g) = without (ls ++ ls') g.
Proof.
  apply map_eq. intros l. rewrite !lookup_without.
  repeat case_decide; try done; rewrite ?elem_of_app in *; tauto.
Qed.

(** ** Ownership

    Of the map [g], the addresses [ls] are held, each there and held once; the rest of [g]
    is [g0].  What creates an object adds to [ls], what frees one takes from it, and with
    nothing held the map is what it was at first. *)
Definition held ls g0 g : Prop := NoDup ls /\ Forall (fun l => is_Some (g !! l)) ls /\ without ls g = g0.

Lemma held_nil g : held [] g g.
Proof. split_and!; [constructor|constructor|done]. Qed.

Lemma held_nil_inv g0 g : held [] g0 g -> g = g0.
Proof. by intros (_ & _ & ?). Qed.

Lemma held_perm ls ls' g0 g : ls ≡ₚ ls' -> held ls g0 g -> held ls' g0 g.
Proof.
  intros Hp (Hd & Hl & <-). split_and!; [by rewrite <- Hp|by rewrite <- Hp|].
  apply without_ext. intros l. by rewrite Hp.
Qed.

Lemma held_add ls g0 g l x : g !! l = None -> held ls g0 g -> held (l :: ls) g0 (<[l := x]> g).
Proof.
  intros Hg (Hd & Hl & <-).
  assert (Hn : l ∉ ls) by (intros Hin; apply (Forall_forall _ _) with (x := l) in Hl; [|done]; rewrite Hg in Hl; by destruct Hl).
  split_and!; [by constructor| |by apply without_cons_new].
  apply Forall_forall. intros l' Hin. rewrite lookup_insert. case_decide; [by eexists|].
  apply elem_of_cons in Hin as [->|Hin]; [done|]. by apply (Forall_forall _ _) with (x := l') in Hl.
Qed.

(** Some of it is freed. *)
Lemma held_app ls ls' g0 g : held (ls ++ ls') g0 g -> held ls' g0 (without ls g).
Proof.
  intros ((_ & Hdis & Hd)%NoDup_app & [_ Hl]%Forall_app & <-).
  split_and!; [done| |by rewrite without_app].
  apply Forall_forall. intros l Hin. rewrite lookup_without, decide_False by (intros ?; by eapply Hdis).
  by apply (Forall_forall _ _) with (x := l) in Hl.
Qed.

Lemma held_del l ls g0 g : held (l :: ls) g0 g -> held ls g0 (delete l g).
Proof. apply (held_app [l]). Qed.

(** Some of it is replaced by what is there instead. *)
Lemma held_swap ls ls' rest g0 g g' : held (ls ++ rest) g0 g ->
  NoDup ls' -> Forall (fun l => is_Some (g' !! l)) ls' -> without ls' g' = without ls g ->
  held (ls' ++ rest) g0 g'.
Proof.
  intros Hh Hd Hl He. destruct (held_app _ _ _ _ Hh) as (Hd2 & Hl2 & E2). rewrite <- He in Hl2, E2.
  split_and!.
  - apply NoDup_app. split_and!; [done| |done]. intros l Hin Hin'.
    apply (Forall_forall _ _) with (x := l) in Hl2; [|done].
    rewrite lookup_without, decide_True in Hl2 by done. by destruct Hl2.
  - apply Forall_app. split; [done|]. eapply Forall_impl; [exact Hl2|]. intros l.
    cbn beta. rewrite lookup_without. by case_decide; [intros []|].
  - by rewrite <- without_app.
Qed.
End without.

(** Singly linked lists in a store: [chain g p es] says that from [p], following the
    [next] fields, one finds exactly the objects [es] and then NULL. *)
Section chain.
Context {A : Type} (next : A -> ptr).
Implicit Types (g : gmap loc A) (p : ptr) (es : list (loc * A)).

Fixpoint chain g p es : Prop :=
  match es with
  | [] => p = None
  | (l, a) :: es' => p = Some l /\ g !! l = Some a /\ chain g (next a) es'
  end.

Lemma chain_lookup g p es l a : chain g p es -> (l, a) ∈ es -> g !! l = Some a.
Proof.
  revert p. induction es as [|[l' a'] es IH]; cbn; [by intros p _ ?%elem_of_nil|].
  intros p (-> & Hl & Hc) [[= -> ->]|Hin]%elem_of_cons; [done|eauto].
Qed.

Lemma chain_ext g g' p es : chain g p es ->
  (forall l, l ∈ es.*1 -> g' !! l = g !! l) -> chain g' p es.
Proof.
  revert p. induction es as [|[l a] es IH]; cbn; [done|].
  intros p (-> & Hl & Hc) Hext. split_and!; [done|rewrite Hext; [done|by left]|].
  apply IH; [done|]. intros l' Hl'. apply Hext. by right.
Qed.

Lemma chain_insert g p es l a : chain g p es -> l ∉ es.*1 -> chain (<[l := a]> g) p es.
Proof.
  intros Hc Hl. eapply chain_ext; [done|]. intros l' Hl'.
  apply lookup_insert_ne. by intros ->.
Qed.

Lemma chain_delete g p es l : chain g p es -> l ∉ es.*1 -> chain (delete l g) p es.
Proof.
  intros Hc Hl. eapply chain_ext; [done|]. intros l' Hl'.
  apply lookup_delete_ne. by intros ->.
Qed.

Lemma chain_det g p es es' : chain g p es -> chain g p es' -> es = es'.
Proof.
  revert p es'. induction es as [|[l a] es IH]; intros p [|[l' a'] es']; cbn; try done.
  - by intros -> [? _].
  - by intros (-> & _) ?.
  - intros (-> & Hl & Hc) ([= <-] & Hl' & Hc'). simplify_eq. f_equal. eauto.
Qed.

Lemma chain_suffix g p es1 l a es2 : chain g p (es1 ++ (l, a) :: es2) ->
  chain g (Some l) ((l, a) :: es2).
Proof.
  revert p. induction es1 as [|[l' a'] es1 IH]; cbn; [|naive_solver].
  by intros p (-> & Hl & Hc).
Qed.

(** A terminated list visits no object twice. *)
Lemma chain_nodup g p es : chain g p es -> NoDup es.*1.
Proof.
  revert p. induction es as [|[l a] es IH]; intros p Hc; cbn; [constructor|].
  constructor.
  - intros ([? a'] & [= <-] & (es1 & es2 & ->)%list_elem_of_split)%list_elem_of_fmap.
    pose proof (chain_suffix _ _ [] _ _ _ Hc) as H1.
    pose proof (chain_suffix _ _ ((l, a) :: es1) _ _ _ Hc) as H2.
    pose proof (chain_det _ _ _ _ H1 H2) as E. apply (f_equal length) in E.
    rewrite !length_cons, length_app in E. cbn in E. lia.
  - destruct Hc as (_ & _ & Hc). by eapply IH.
Qed.

(** So a loop that may visit every object of the store visits them all. *)
Lemma chain_fuel g p es : chain g p es -> (length es <= size g)%nat.
Proof.
  intros Hc. pose proof (chain_nodup _ _ _ Hc) as Hnd.
  rewrite <- (length_fmap fst), <- (size_list_to_set (C := gset loc)) by done.
  rewrite <- size_dom. apply subseteq_size. intros l.
  rewrite elem_of_list_to_set. intros ([? a] & -> & Hin)%list_elem_of_fmap.
  apply elem_of_dom. eexists. by eapply chain_lookup.
Qed.

Lemma chain_nil g es : chain g None es -> es = [].
Proof. by destruct es as [|[l a] es]; [|intros [? _]]. Qed.

Lemma chain_cons g l es : chain g (Some l) es ->
  exists a es', es = (l, a) :: es' /\ g !! l = Some a /\ chain g (next a) es'.
Proof.
  destruct es as [|[l' a] es]; cbn; [done|]. intros ([= ->] & Hl & Hc). eauto.
Qed.

Lemma chain_head g p es : chain g p es -> p = head es.*1.
Proof. destruct es as [|[l a] es]; cbn; [done|]. by intros [-> _]. Qed.

(** An object in the middle changed; what follows it is the list its new [next] starts. *)
Lemma chain_relink g p es l a a' mid es' :
  chain g p (es ++ (l, a) :: mid) -> l ∉ es.*1 -> l ∉ es'.*1 ->
  chain g (next a') es' -> chain (<[l := a']> g) p (es ++ (l, a') :: es').
Proof.
  intros Hc Hl Hl' Hq. revert p Hc. induction es as [|[l0 a0] es IH]; cbn; intros p Hc.
  - destruct Hc as (-> & _ & _). split_and!; [done|by rewrite lookup_insert_eq|].
    by apply chain_insert.
  - destruct Hc as (-> & Hl0 & Hc). cbn in Hl. apply not_elem_of_cons in Hl as [Hne Hl].
    split_and!; [done|by rewrite lookup_insert_ne|]. by apply IH.
Qed.

Lemma chain_drop g p es l a es' : chain g p (es ++ (l, a) :: es') -> chain g (next a) es'.
Proof. intros (_ & _ & Hc)%chain_suffix. exact Hc. Qed.

Lemma chain_middle_nodup g p es l a es' : chain g p (es ++ (l, a) :: es') ->
  l ∉ es.*1 /\ l ∉ es'.*1.
Proof.
  intros Hc%chain_nodup. rewrite fmap_app in Hc. apply NoDup_app in Hc as (_ & Hd & Hn).
  cbn in *. apply NoDup_cons in Hn as [Hn _]. split; [|done].
  intros Hl. apply (Hd _ Hl). by left.
Qed.

(** The last object's [next] redirected, or its other fields changed. *)
Lemma chain_set_last g p es l a a' q es' :
  chain g p (es ++ [(l, a)]) -> next a' = q -> l ∉ es'.*1 ->
  chain g q es' -> chain (<[l := a']> g) p (es ++ (l, a') :: es').
Proof.
  intros Hc <- Hl Hq. eapply chain_relink; [done| |done..].
  by apply chain_middle_nodup in Hc as [? _].
Qed.
End chain.

(** One step of symbolic execution over a store. *)
Ltac st_step :=
  cbn beta iota;
  lazymatch goal with
  | |- runs (load _) _ _ => eapply runs_load; [by simplify_map_eq|]
  | |- runs (update _ _) _ _ => eapply runs_update; [by simplify_map_eq|]
  | |- runs (save _ _) _ _ => eapply runs_save; [by simplify_map_eq|]
  | |- runs (release _) _ _ => eapply runs_release; [by simplify_map_eq|]
  | _ => run_step
  end; cbn beta iota.
Ltac st_run := repeat st_step.
