(* ===== verification/LsQueue.v ===== *)
(** The FIFO queue: src/ls_queue.c, on a store of linked nodes with a head and a tail
    pointer, refined to a list of values. *)

From S2P Require Import Prelude LsError Store.
Open Scope Z_scope.

Section queue.
(** What the queue holds (non-NULL [void] pointers) and its cleaner functions. *)
Context {V CL : Type}.

Record ls_qnode := QNode { qn_next : ptr; qn_value : option V }.
Record ls_queue := Queue { q_head : ptr; q_tail : ptr; q_cleaner : option CL }.

(** The heap of the component, and the calls of cleaner functions so far. *)
Record qstate := QState {
  qs_queues : store ls_queue;
  qs_nodes : store ls_qnode;
  qs_oom : list bool;
  qs_cleaned : list (CL * loc * V) }.

#[export] Instance qstate_queues : HasStore qstate ls_queue := {
  the_store := qs_queues;
  with_store st s := QState st (qs_nodes s) (qs_oom s) (qs_cleaned s) }.
#[export] Instance qstate_nodes : HasStore qstate ls_qnode := {
  the_store := qs_nodes;
  with_store st s := QState (qs_queues s) st (qs_oom s) (qs_cleaned s) }.
#[export] Instance qstate_alloc : HasAllocator qstate := {
  oom_script := qs_oom;
  with_oom o s := QState (qs_queues s) (qs_nodes s) o (qs_cleaned s) }.

Definition log_clean (c : CL) (q : loc) (v : V) (s : qstate) : qstate :=
  QState (qs_queues s) (qs_nodes s) (qs_oom s) (qs_cleaned s ++ [(c, q, v)]).

Definition ls_queue_create (cleaner : option CL) : C qstate (res Z loc) :=
  ret ← new (Queue None None cleaner);
  match ret with
  | None => mret (Err LS_ERR_NO_MEMORY)
  | Some q => mret (Ok q)
  end.

Definition ls_queue_enq (q : loc) (value : option V) : C qstate (res Z unit) :=
  c_assert (bool_decide (is_Some value));;
  n ← new (QNode None None);
  match n with
  | None => mret (Err LS_ERR_NO_MEMORY)
  | Some n =>
      update n (fun a => QNode (qn_next a) value);;
      qr ← load q;
      match q_tail qr with
      | Some t =>
          update t (fun a : ls_qnode => QNode (Some n) (qn_value a));;
          update q (fun a => Queue (q_head a) (Some n) (q_cleaner a));;
          mret (Ok tt)
      | None =>
          update q (fun a => Queue (Some n) (Some n) (q_cleaner a));;
          mret (Ok tt)
      end
  end.

Definition deq (q : loc) : C qstate ptr :=
  qr ← load q;
  match q_head qr with
  | None => mret None
  | Some r =>
      n ← load r;
      update q (fun a => Queue (qn_next (n : ls_qnode)) (q_tail a) (q_cleaner a));;
      qr ← load q;
      match q_head qr with
      | None => update q (fun a => Queue (q_head a) None (q_cleaner a));; mret (Some r)
      | Some _ => mret (Some r)
      end
  end.

Definition ls_queue_deq (q : loc) : C qstate (option V) :=
  n ← deq q;
  match n with
  | None => mret None
  | Some n =>
      a ← load n;
      release (A := ls_qnode) n;;
      mret (qn_value a)
  end.

(** The loop of [ls_queue_destroy]; [fuel] bounds its iterations. *)
Fixpoint destroy_loop (fuel : nat) (q : loc) : C qstate unit :=
  match fuel with
  | O => c_fault OutOfFuel
  | S fuel =>
      n ← deq q;
      match n with
      | None => mret tt
      | Some n =>
          qr ← load q;
          (match q_cleaner qr with
           | Some c =>
               a ← load n;
               v ← c_deref (qn_value (a : ls_qnode));
               c_modify (log_clean c q v)
           | None => mret tt
           end);;
          release (A := ls_qnode) n;;
          destroy_loop fuel q
      end
  end.

Definition ls_queue_destroy (q : loc) : C qstate unit :=
  s ← c_get;
  destroy_loop (S (size (st_objs (qs_nodes s)))) q;;
  release (A := ls_queue) q.

(** ** The abstract queue

    [queue_at base q c vs s]: in [s], [q] is a queue with cleaner [c] holding [vs],
    first in first, and besides its nodes the node store is [base]. *)
Definition last_ptr (es : list (loc * ls_qnode)) : ptr := fst <$> last es.

Record queue_at (base : gmap loc ls_qnode) (q : loc) (c : option CL) (vs : list V)
    (es : list (loc * ls_qnode)) (s : qstate) : Prop := {
  qa_queue : exists h, st_objs (qs_queues s) !! q = Some (Queue h (last_ptr es) c) /\
                       chain qn_next (st_objs (qs_nodes s)) h es;
  qa_values : (qn_value ∘ snd <$> es) = Some <$> vs;
  qa_base : without es.*1 (st_objs (qs_nodes s)) = base;
  qa_wf : store_wf (qs_nodes s) }.

Lemma last_ptr_snoc es l n : last_ptr (es ++ [(l, n)]) = Some l.
Proof. unfold last_ptr. by rewrite last_snoc. Qed.

Lemma last_ptr_None es : last_ptr es = None -> es = [].
Proof. unfold last_ptr. rewrite fmap_None. apply last_None. Qed.

Lemma last_ptr_Some es t : last_ptr es = Some t -> exists es' n, es = es' ++ [(t, n)].
Proof.
  unfold last_ptr. rewrite fmap_Some. intros ([? n] & (es' & ->)%last_Some & [= ->]). eauto.
Qed.

(** ** Each operation on the abstract queue *)
Lemma ls_queue_create_runs c s : store_wf (qs_nodes s) -> store_wf (qs_queues s) ->
  runs (ls_queue_create c) s (fun r s' => qs_cleaned s' = qs_cleaned s /\
    match r with
    | Ok q => st_objs (qs_queues s) !! q = None /\
              delete q (st_objs (qs_queues s')) = st_objs (qs_queues s) /\
              queue_at (st_objs (qs_nodes s)) q c [] [] s'
    | Err e => e = LS_ERR_NO_MEMORY /\ qs_queues s' = qs_queues s /\ qs_nodes s' = qs_nodes s
    end).
Proof.
  intros Hn Hq. unfold ls_queue_create. run_step. apply runs_new; cbn; run; split_and!; try done.
  - by apply store_wf_fresh.
  - apply delete_insert_id. by apply store_wf_fresh.
  - split; cbn; [|done..]. eexists. by rewrite lookup_insert_eq.
Qed.

Lemma queue_at_fresh base q c vs es s : queue_at base q c vs es s ->
  st_next (qs_nodes s) ∉ es.*1 /\ base !! st_next (qs_nodes s) = None.
Proof.
  intros [(h & _ & Hc) _ Hb Hwf]. pose proof (store_wf_fresh _ Hwf) as Hf. split.
  - intros ([? n] & E & Hin)%list_elem_of_fmap. cbn in E. subst.
    by rewrite (chain_lookup _ _ _ _ _ _ Hc Hin) in Hf.
  - rewrite <- Hb, lookup_without. by case_decide.
Qed.

Lemma ls_queue_enq_runs base q c vs es s v : queue_at base q c vs es s ->
  runs (ls_queue_enq q (Some v)) s (fun r s' =>
    qs_cleaned s' = qs_cleaned s /\
    delete q (st_objs (qs_queues s')) = delete q (st_objs (qs_queues s)) /\
    match r with
    | Ok _ => exists es', queue_at base q c (vs ++ [v]) es' s'
    | Err e => e = LS_ERR_NO_MEMORY /\ queue_at base q c vs es s'
    end).
Proof.
  intros Hqa. destruct (queue_at_fresh _ _ _ _ _ _ Hqa) as [Hf Hfb].
  destruct Hqa as [(h & Hq & Hc) Hv Hb Hwf].
  pose proof (store_wf_fresh _ Hwf) as Hfn.
  unfold ls_queue_enq. run_step. run_step. run_step. apply runs_new.
  { cbn. run. split_and!; [done..|]. split; cbn; eauto. }
  cbn. st_run. cbn. st_run. cbn.
  destruct (last_ptr es) as [t|] eqn:Et.
  - destruct (last_ptr_Some _ _ Et) as (es' & n & ->).
    assert (Ht : st_objs (qs_nodes s) !! t = Some n).
    { eapply chain_lookup; [done|]. apply elem_of_app. right. by left. }
    assert (t <> st_next (qs_nodes s)) by (intros ->; congruence).
    run_step. eapply runs_update; [cbn; by simplify_map_eq|]. cbn.
    st_run. cbn. split_and!; [done|by rewrite delete_insert_eq|].
    set (l := st_next (qs_nodes s)) in *.
    exists (es' ++ (t, QNode (Some l) (qn_value n)) :: [(l, QNode None (Some v))]).
    split; cbn.
    + rewrite lookup_insert_eq. exists h. split.
      * f_equal. f_equal. unfold last_ptr. by rewrite last_app_cons.
      * eapply chain_set_last; [|done| |].
        -- apply chain_insert; [by apply chain_insert|done].
        -- cbn. by intros ?%list_elem_of_singleton.
        -- cbn. split_and!; [done|by rewrite lookup_insert_eq|done].
    + revert Hv. rewrite !fmap_app. cbn. intros Hv. rewrite <- Hv.
      by rewrite <- app_assoc.
    + rewrite <- Hb. rewrite !fmap_app. cbn.
      rewrite without_insert_in by set_solver.
      rewrite insert_insert_eq.
      rewrite (without_ext _ (l :: es'.*1 ++ [t])) by set_solver.
      rewrite without_cons_new by done. done.
    + eauto 10 with spud.
  - apply last_ptr_None in Et as ->. cbn in *. subst h. destruct vs; [|done].
    st_run. cbn. split_and!; [done|by rewrite delete_insert_eq|].
    eexists [(st_next (qs_nodes s), QNode None (Some v))]. split; cbn.
    + rewrite lookup_insert_eq. eexists. split; [done|]. cbn.
      by rewrite lookup_insert_eq.
    + done.
    + rewrite insert_insert_eq, delete_insert_id by done. by rewrite <- Hb.
    + apply store_wf_set; cbn; [by simplify_map_eq|eauto with spud].
Qed.

Lemma deq_runs base q c vs es s : queue_at base q c vs es s ->
  runs (deq q) s (fun p s' =>
    qs_cleaned s' = qs_cleaned s /\
    delete q (st_objs (qs_queues s')) = delete q (st_objs (qs_queues s)) /\
    st_objs (qs_nodes s') = st_objs (qs_nodes s) /\
    match vs with
    | [] => p = None /\ queue_at base q c [] es s'
    | v :: vs' => exists l n es', p = Some l /\ es = (l, n) :: es' /\ qn_value n = Some v /\
        st_objs (qs_nodes s) !! l = Some n /\
        queue_at (without es'.*1 (st_objs (qs_nodes s))) q c vs' es' s'
    end).
Proof.
  intros [(h & Hq & Hc) Hv Hb Hwf]. unfold deq. st_run. cbn.
  destruct es as [|[l n] es]; destruct vs as [|v vs]; try done.
  - cbn in Hc. subst h. run. split_and!; [done..|]. split; cbn; eauto.
  - destruct Hc as (-> & Hl & Hc). cbn in Hv. injection Hv as Hv1 Hv2.
    st_run. cbn. st_run. cbn. destruct (qn_next n) as [h|] eqn:En.
    + run. cbn. split_and!; [done|by rewrite delete_insert_eq|done|].
      exists l, n, es. split_and!; [done..|]. split; cbn; [|done..].
      rewrite lookup_insert_eq. exists (Some h). split; [|done].
      do 2 f_equal. destruct es as [|e es]; [done|]. by unfold last_ptr.
    + apply chain_nil in Hc as ->. st_run. cbn.
      split_and!; [done|by rewrite delete_insert_eq, delete_insert_eq|done|].
      exists l, n, []. split_and!; [done..|]. split; cbn; [|done..].
      exists None. by rewrite lookup_insert_eq.
Qed.

Lemma queue_at_release base q c vs l es s s' :
  queue_at (without es.*1 (st_objs (qs_nodes s))) q c vs es s' ->
  l ∉ es.*1 -> st_objs (qs_nodes s') = st_objs (qs_nodes s) ->
  without (l :: es.*1) (st_objs (qs_nodes s)) = base ->
  queue_at base q c vs es (with_store (st_del l (qs_nodes s')) s').
Proof.
  intros [(h & Hq & Hc) Hv Hb Hwf] Hl Hn <-. split; cbn; [| | |eauto with spud].
  - exists h. split; [done|]. by apply chain_delete.
  - done.
  - by rewrite without_delete, Hn.
Qed.

Lemma queue_at_nodup base q c vs l n es s : queue_at base q c vs ((l, n) :: es) s -> l ∉ es.*1.
Proof.
  intros [(h & _ & Hc) _ _ _]. apply chain_nodup in Hc. cbn in Hc.
  by apply NoDup_cons in Hc as [? _].
Qed.

Lemma ls_queue_deq_runs base q c vs es s : queue_at base q c vs es s ->
  runs (ls_queue_deq q) s (fun r s' =>
    qs_cleaned s' = qs_cleaned s /\
    delete q (st_objs (qs_queues s')) = delete q (st_objs (qs_queues s)) /\
    r = head vs /\ exists es', queue_at base q c (tail vs) es' s').
Proof.
  intros Hqa. unfold ls_queue_deq. run_step. eapply runs_conseq; [by apply deq_runs|].
  intros p s' (Hcl & Hqs & Hns & Hd). destruct vs as [|v vs].
  - destruct Hd as [-> Hqa']. run. eauto.
  - destruct Hd as (l & n & es' & -> & -> & Hval & Hl & Hqa').
    pose proof (queue_at_nodup _ _ _ _ _ _ _ _ Hqa) as Hnd.
    run_step. eapply runs_load; [cbn; by rewrite Hns|]. run_step.
    eapply runs_release; [cbn; by rewrite Hns, Hl|]. run. split_and!; [done..|].
    exists es'. eapply queue_at_release; [done..|]. apply (qa_base _ _ _ _ _ _ Hqa).
Qed.

Definition cleanings (c : option CL) (q : loc) (vs : list V) : list (CL * loc * V) :=
  match c with Some c => (fun v => (c, q, v)) <$> vs | None => [] end.

Lemma queue_at_log base q c vs es s k v : queue_at base q c vs es s ->
  queue_at base q c vs es (log_clean k q v s).
Proof. by intros [Hq Hv Hb Hwf]. Qed.

Lemma destroy_loop_runs base q c vs es s fuel : queue_at base q c vs es s ->
  (length vs < fuel)%nat ->
  runs (destroy_loop fuel q) s (fun _ s' =>
    qs_cleaned s' = qs_cleaned s ++ cleanings c q vs /\
    delete q (st_objs (qs_queues s')) = delete q (st_objs (qs_queues s)) /\
    queue_at base q c [] [] s').
Proof.
  revert vs es s. induction fuel as [|fuel IH]; intros vs es s Hqa Hf; [lia|].
  cbn. run_step. eapply runs_conseq; [by apply deq_runs|].
  intros p s' (Hcl & Hqs & Hns & Hd). destruct vs as [|v vs].
  - destruct Hd as [-> Hqa']. run. rewrite Hcl. destruct Hqa' as [(h & Hq & Hc) Hv Hb Hwf].
    split_and!; [by destruct c; rewrite ?app_nil_r|done|].
    destruct es; [|done]. split; eauto.
  - destruct Hd as (l & n & es' & -> & -> & Hval & Hl & Hqa').
    pose proof (queue_at_nodup _ _ _ _ _ _ _ _ Hqa) as Hnd.
    pose proof (qa_queue _ _ _ _ _ _ Hqa') as (h & Hq & _).
    run_step. eapply runs_load; [done|]. cbn. run_step.
    assert (Hrest : forall s1, queue_at (without es'.*1 (st_objs (qs_nodes s))) q c vs es' s1 ->
      st_objs (qs_nodes s1) = st_objs (qs_nodes s) ->
      qs_queues s1 = qs_queues s' -> qs_cleaned s1 = qs_cleaned s ++ cleanings c q [v] ->
      runs (release (A := ls_qnode) l;; destroy_loop fuel q) s1 (fun _ s' =>
        qs_cleaned s' = qs_cleaned s ++ cleanings c q (v :: vs) /\
        delete q (st_objs (qs_queues s')) = delete q (st_objs (qs_queues s)) /\
        queue_at base q c [] [] s')).
    { intros s1 Hqa1 Hn1 Hq1 Hc1. run_step. eapply runs_release; [cbn; by rewrite Hn1, Hl|].
      eapply runs_conseq.
      { eapply (IH vs es'); [|cbn in Hf; lia]. eapply queue_at_release; [done..|].
        apply (qa_base _ _ _ _ _ _ Hqa). }
      intros _ s2 (Hc2 & Hq2 & Hqa2). split_and!; [|cbn in Hq2; by rewrite Hq2, Hq1|done].
      rewrite Hc2. cbn. rewrite Hc1. rewrite <- app_assoc. by destruct c. }
    destruct c as [k|].
    + run_step. eapply runs_load; [cbn; by rewrite Hns|]. run_step.
      eapply runs_deref; [done|]. run_step. apply Hrest; cbn; [by apply queue_at_log|done..|].
      by rewrite Hcl.
    + run_step. apply Hrest; [done..|]. by rewrite Hcl, app_nil_r.
Qed.

Lemma ls_queue_destroy_runs base q c vs es s : queue_at base q c vs es s ->
  runs (ls_queue_destroy q) s (fun _ s' =>
    qs_cleaned s' = qs_cleaned s ++ cleanings c q vs /\
    st_objs (qs_queues s') = delete q (st_objs (qs_queues s)) /\
    st_objs (qs_nodes s') = base).
Proof.
  intros Hqa. unfold ls_queue_destroy. run_step. run_step. run_step.
  eapply runs_conseq; [eapply destroy_loop_runs; [done|]|].
  - destruct Hqa as [(h & Hq & Hc) Hv Hb Hwf]. apply chain_fuel in Hc.
    apply (f_equal length) in Hv. rewrite !length_fmap in Hv.
    cbn in Hv, Hc. lia.
  - intros _ s' (Hcl & Hqs & [(h & Hq & Hc) Hv Hb Hwf]).
    eapply runs_release; [cbn; by rewrite Hq|]. cbn. done.
Qed.

(** ** Sessions: any use of one queue from creation to destruction *)
Inductive queue_op := Enq (v : V) | Deq.
Inductive queue_result := RAccepted | RNoMemory | RValue (v : option V).

Definition run_queue_op (q : loc) (op : queue_op) : C qstate queue_result :=
  match op with
  | Enq v => r ← ls_queue_enq q (Some v); mret (if is_ok r then RAccepted else RNoMemory)
  | Deq => v ← ls_queue_deq q; mret (RValue v)
  end.

Fixpoint run_queue_ops (q : loc) (ops : list queue_op) : C qstate (list queue_result) :=
  match ops with
  | [] => mret []
  | op :: ops => r ← run_queue_op q op; rs ← run_queue_ops q ops; mret (r :: rs)
  end.

Definition queue_session (c : option CL) (ops : list queue_op)
    : C qstate (option (loc * list queue_result)) :=
  r ← ls_queue_create c;
  match r with
  | Err _ => mret None
  | Ok q => rs ← run_queue_ops q ops; ls_queue_destroy q;; mret (Some (q, rs))
  end.

(** The specification: a list of values, a refused element is not queued. *)
Inductive fifo : list V -> list queue_op -> list queue_result -> list V -> Prop :=
  | fifo_nil vs : fifo vs [] [] vs
  | fifo_enq vs v ops rs vs' :
      fifo (vs ++ [v]) ops rs vs' -> fifo vs (Enq v :: ops) (RAccepted :: rs) vs'
  | fifo_full vs v ops rs vs' :
      fifo vs ops rs vs' -> fifo vs (Enq v :: ops) (RNoMemory :: rs) vs'
  | fifo_deq vs ops rs vs' :
      fifo (tail vs) ops rs vs' -> fifo vs (Deq :: ops) (RValue (head vs) :: rs) vs'.

Lemma run_queue_ops_runs base q c ops : forall vs es s, queue_at base q c vs es s ->
  runs (run_queue_ops q ops) s (fun rs s' =>
    qs_cleaned s' = qs_cleaned s /\
    delete q (st_objs (qs_queues s')) = delete q (st_objs (qs_queues s)) /\
    exists vs' es', fifo vs ops rs vs' /\ queue_at base q c vs' es' s').
Proof.
  induction ops as [|op ops IH]; intros vs es s Hqa; cbn.
  - run. split_and!; [done..|]. exists vs, es. split; [constructor|done].
  - run_step. destruct op as [v|]; cbn; run_step.
    + eapply runs_conseq; [by apply ls_queue_enq_runs|]. intros r s1 (Hc1 & Hq1 & H1).
      run_step. destruct r as [[]|e]; cbn; run_step.
      * destruct H1 as [es1 H1]. eapply runs_conseq; [by eapply IH|].
        intros rs s2 (Hc2 & Hq2 & vs2 & es2 & Hf & H2). run_step.
        rewrite Hc2, Hq2. split_and!; [done..|]. eauto using fifo.
      * destruct H1 as [-> H1]. eapply runs_conseq; [by eapply IH|].
        intros rs s2 (Hc2 & Hq2 & vs2 & es2 & Hf & H2). run_step.
        rewrite Hc2, Hq2. split_and!; [done..|]. eauto using fifo.
    + eapply runs_conseq; [by eapply ls_queue_deq_runs|]. intros r s1 (Hc1 & Hq1 & -> & es1 & H1).
      run_step. run_step. eapply runs_conseq; [by eapply IH|].
      intros rs s2 (Hc2 & Hq2 & vs2 & es2 & Hf & H2). run_step.
      rewrite Hc2, Hq2. split_and!; [done..|]. eauto using fifo.
Qed.

(** C32: a queue is a FIFO list.  Created, used by any operations and destroyed, under
    any pattern of memory exhaustion, it never faults; its results are those of the
    specification [fifo]; destruction hands exactly the values still queued to the
    cleaner, in order; and neither a queue nor a node is left allocated. *)
Theorem queue_session_fifo c ops s : store_wf (qs_nodes s) -> store_wf (qs_queues s) ->
  runs (queue_session c ops) s (fun r s' =>
    st_objs (qs_queues s') = st_objs (qs_queues s) /\
    st_objs (qs_nodes s') = st_objs (qs_nodes s) /\
    match r with
    | None => qs_cleaned s' = qs_cleaned s
    | Some (q, rs) => exists vs, fifo [] ops rs vs /\
        qs_cleaned s' = qs_cleaned s ++ cleanings c q vs
    end).
Proof.
  intros Hn Hq. unfold queue_session. run_step.
  eapply runs_conseq; [by apply ls_queue_create_runs|]. intros [q|e] s1 [Hc1 H1].
  - destruct H1 as (Hfr & Hd & Hqa). run_step.
    eapply runs_conseq; [by eapply (run_queue_ops_runs _ _ _ _ _ _ _ Hqa)|].
    intros rs s2 (Hc2 & Hq2 & vs & es & Hf & H2). run_step.
    eapply runs_conseq; [by apply (ls_queue_destroy_runs _ _ _ _ _ _ H2)|].
    intros _ s3 (Hc3 & Hq3 & Hn3). run_step. rewrite Hc3, Hc2, Hc1, Hq3.
    split; [by rewrite Hq2|]. split; [done|]. eauto.
  - destruct H1 as (_ & Hq1 & Hn1). run. rewrite Hq1, Hn1. done.
Qed.
End queue.

Definition qstate_init (o : list bool) : qstate (V := N) (CL := N) :=
  QState store_empty store_empty o [].

(** Two elements queued, one refused, one taken: the other goes to the cleaner. *)
Lemma queue_session_fifo_witness :
  let s := qstate_init [false; false; false; true] in
  let ops := [Enq 7%N; Enq 8%N; Enq 9%N; Deq] in
  runs (queue_session (Some 1%N) ops) s (fun r s' =>
    st_objs (qs_queues s') = st_objs (qs_queues s) /\
    st_objs (qs_nodes s') = st_objs (qs_nodes s) /\
    match r with
    | None => qs_cleaned s' = qs_cleaned s
    | Some (q, rs) => exists vs, fifo [] ops rs vs /\
        qs_cleaned s' = qs_cleaned s ++ cleanings (Some 1%N) q vs
    end).
Proof. intros s ops. exact (queue_session_fifo (Some 1%N) ops s store_wf_empty store_wf_empty). Defined.

Example queue_session_run :
  queue_session (Some 1%N) [Enq 7%N; Enq 8%N; Enq 9%N; Deq]
    (qstate_init [false; false; false; true])
  = Done (Some (1%positive, [RAccepted; RAccepted; RNoMemory; RValue (Some 7%N)]),
          QState (Store ∅ 2) (Store ∅ 3) [] [(1%N, 1%positive, 8%N)]).
Proof. vm_compute. reflexivity. Qed.
