(* ===== verification/LsTimer.v ===== *)
(** Timers: src/ls_timer.c over the store of [ls_timer] objects, with the timeval
    arithmetic of sys/time.h. *)

From S2P Require Import Prelude LsError Store.
Open Scope Z_scope.

(** [struct timeval]: two signed 64-bit integers. *)
Record timeval := Timeval { tv_sec : Z; tv_usec : Z }.

#[export] Instance timeval_eq_dec : EqDecision timeval.
Proof. solve_decision. Defined.

Definition i64 : Z -> Z := swrap 64.

(** The macro timeradd(). *)
Definition timeradd (a b : timeval) : timeval :=
  let sec := i64 (tv_sec a + tv_sec b) in
  let usec := i64 (tv_usec a + tv_usec b) in
  if decide (usec >= 1000000) then Timeval (i64 (sec + 1)) (i64 (usec - 1000000))
  else Timeval sec usec.

(** The macro timersub(). *)
Definition timersub (a b : timeval) : timeval :=
  let sec := i64 (tv_sec a - tv_sec b) in
  let usec := i64 (tv_usec a - tv_usec b) in
  if decide (usec < 0) then Timeval (i64 (sec - 1)) (i64 (usec + 1000000))
  else Timeval sec usec.

(** The macro timercmp(), for the operators the code uses. *)
Definition timercmp_eq (a b : timeval) : bool :=
  if decide (tv_sec a = tv_sec b) then bool_decide (tv_usec a = tv_usec b)
  else bool_decide (tv_sec a = tv_sec b).
Definition timercmp_lt (a b : timeval) : bool :=
  if decide (tv_sec a = tv_sec b) then bool_decide (tv_usec a < tv_usec b)
  else bool_decide (tv_sec a < tv_sec b).
Definition timercmp_gt (a b : timeval) : bool :=
  if decide (tv_sec a = tv_sec b) then bool_decide (tv_usec a > tv_usec b)
  else bool_decide (tv_sec a > tv_sec b).

Definition epoch : timeval := Timeval 0 0.

(** A well-formed time: not negative, the microseconds below a second. *)
Definition tv_wf (t : timeval) : Prop := 0 <= tv_sec t < 2 ^ 63 /\ 0 <= tv_usec t < 1000000.

(** A time as the microseconds since the epoch. *)
Definition usecs (t : timeval) : Z := tv_sec t * 1000000 + tv_usec t.

Section timer.
(** Callback functions and context pointers. *)
Context {CB X : Type}.

Record ls_timer := Timer { tm_cb : CB; tm_context : X; tm_tv : timeval }.

Context {S : Type} {HS : HasStore S ls_timer} {HA : HasAllocator S}.

Definition ls_timer_create (actual : timeval) (cb : CB) (context : X) : C S (res Z loc) :=
  ret ← new (Timer cb context actual);
  match ret with
  | None => mret (Err LS_ERR_NO_MEMORY)
  | Some t => mret (Ok t)
  end.

(** [struct timeval delta = {ms / 1000, (ms % 1000) * 1000}], [ms] an unsigned long. *)
Definition ms_delta (ms : Z) : timeval := Timeval (ms / 1000) (ms mod 1000 * 1000).

Definition ls_timer_create_ms (now : timeval) (ms : Z) (cb : CB) (context : X)
    : C S (res Z loc) :=
  ls_timer_create (timeradd now (ms_delta ms)) cb context.

Definition ls_timer_destroy (tim : loc) : C S unit := release (A := ls_timer) tim.

Definition ls_timer_cancel (tim : loc) : C S unit :=
  update tim (fun t => Timer (tm_cb t) (tm_context t) epoch).

Definition ls_timer_is_cancelled (tim : loc) : C S bool :=
  t ← load tim; mret (timercmp_eq (tm_tv t) epoch).

Definition ls_timer_get_context (tim : loc) : C S X := t ← load tim; mret (tm_context t).

Definition ls_timer_get_time (tim : loc) : C S (option timeval) :=
  c ← ls_timer_is_cancelled tim;
  if c : bool then mret None else t ← load tim; mret (Some (tm_tv t)).

Definition ls_timer_less (a b : loc) : C S bool :=
  ta ← load a; tb ← load b; mret (timercmp_lt (tm_tv ta) (tm_tv tb)).

Definition ls_timer_greater (a b : loc) : C S bool :=
  ta ← load a; tb ← load b; mret (timercmp_gt (tm_tv ta) (tm_tv tb)).

Definition ls_timer_greater_tv (a : loc) (b : timeval) : C S bool :=
  ta ← load a; mret (timercmp_gt (tm_tv ta) b).

(** [tim->cb(tim)] *)
Definition ls_timer_exec (call : CB -> loc -> C S unit) (tim : loc) : C S unit :=
  t ← load tim; call (tm_cb t) tim.
End timer.
Arguments ls_timer : clear implicits.

(** ** Time arithmetic *)
Lemma timercmp_lt_usecs a b : tv_wf a -> tv_wf b ->
  timercmp_lt a b = bool_decide (usecs a < usecs b).
Proof.
  intros [_ Ha] [_ Hb]. unfold timercmp_lt, usecs.
  case_decide; apply bool_decide_ext; nia.
Qed.

Lemma timercmp_gt_lt a b : timercmp_gt a b = timercmp_lt b a.
Proof. unfold timercmp_gt, timercmp_lt. repeat case_decide; apply bool_decide_ext; lia. Qed.

Lemma timercmp_eq_usecs a b : tv_wf a -> tv_wf b ->
  timercmp_eq a b = bool_decide (usecs a = usecs b).
Proof.
  intros [_ Ha] [_ Hb]. unfold timercmp_eq, usecs.
  case_decide; apply bool_decide_ext; nia.
Qed.

Lemma timercmp_eq_epoch t : timercmp_eq t epoch = bool_decide (t = epoch).
Proof.
  destruct t as [s u]. unfold timercmp_eq, epoch. cbn.
  case_decide as E; apply bool_decide_ext; split; intros H; congruence.
Qed.

Lemma timeradd_usecs a b : tv_wf a -> tv_wf b -> tv_sec a + tv_sec b + 1 < 2 ^ 63 ->
  tv_wf (timeradd a b) /\ usecs (timeradd a b) = usecs a + usecs b.
Proof.
  intros [Ha1 Ha2] [Hb1 Hb2] Hs. unfold timeradd, i64. cbv zeta.
  rewrite (swrap_id 64 (tv_sec a + tv_sec b)), (swrap_id 64 (tv_usec a + tv_usec b)) by lia.
  case_decide; rewrite ?swrap_id by lia; unfold tv_wf, usecs; cbn; lia.
Qed.

Lemma timersub_usecs a b : tv_wf a -> tv_wf b -> usecs b <= usecs a ->
  tv_wf (timersub a b) /\ usecs (timersub a b) = usecs a - usecs b.
Proof.
  intros [Ha1 Ha2] [Hb1 Hb2] Hle. unfold timersub, i64, usecs in *. cbv zeta.
  rewrite (swrap_id 64 (tv_sec a - tv_sec b)), (swrap_id 64 (tv_usec a - tv_usec b)) by lia.
  case_decide; rewrite ?swrap_id by lia; unfold tv_wf; cbn; lia.
Qed.

Lemma ms_delta_usecs ms : 0 <= ms < 2 ^ 64 ->
  tv_wf (ms_delta ms) /\ usecs (ms_delta ms) = ms * 1000.
Proof.
  intros H. unfold tv_wf, usecs, ms_delta. cbn.
  pose proof (Z.mod_pos_bound ms 1000). pose proof (Z.div_mod ms 1000).
  assert (ms / 1000 < 2 ^ 63) by (apply Z.div_lt_upper_bound; lia).
  assert (0 <= ms / 1000) by (apply Z.div_pos; lia). lia.
Qed.

(** ** The life of a timer *)
Section timer_proofs.
Context {CB X S : Type} `{StoreLaws S (ls_timer CB X)}.
Abbreviation timers s := (st_objs (the_store (A := ls_timer CB X) s)).

(** Each operation on a timer that is there. *)
Lemma ls_timer_create_runs tv (cb : CB) (x : X) s (Q : res Z loc -> S -> Prop) :
  Q (Err LS_ERR_NO_MEMORY) (pop_oom s) ->
  (let t := st_next (the_store (A := ls_timer CB X) s) in
   Q (Ok t) (with_store (st_add (Timer cb x tv) (the_store s)) (pop_oom s))) ->
  runs (ls_timer_create tv cb x) s Q.
Proof.
  intros H0 H1. unfold ls_timer_create. run_step.
  apply runs_new; unfold pop_oom; rewrite ?the_with_oom; by run.
Qed.

Section at_timer.
Context (t : loc) (cb : CB) (x : X) (tv : timeval) (s : S).
Hypothesis Ht : timers s !! t = Some (Timer cb x tv).

Lemma ls_timer_is_cancelled_runs (Q : bool -> S -> Prop) :
  Q (bool_decide (tv = epoch)) s -> runs (ls_timer_is_cancelled t) s Q.
Proof.
  intros HQ. unfold ls_timer_is_cancelled. run_step. eapply runs_load; [done|].
  run_step. by rewrite timercmp_eq_epoch.
Qed.

Lemma ls_timer_get_time_runs (Q : option timeval -> S -> Prop) :
  Q (if bool_decide (tv = epoch) then None else Some tv) s -> runs (ls_timer_get_time t) s Q.
Proof.
  intros HQ. unfold ls_timer_get_time. run_step. apply ls_timer_is_cancelled_runs.
  destruct (bool_decide (tv = epoch)); cbn beta iota; [by run|].
  run_step. eapply runs_load; [done|]. by run_step.
Qed.

Lemma ls_timer_get_context_runs (Q : X -> S -> Prop) :
  Q x s -> runs (ls_timer_get_context t) s Q.
Proof.
  intros HQ. unfold ls_timer_get_context. run_step. eapply runs_load; [done|]. by run_step.
Qed.

Lemma ls_timer_cancel_runs (Q : unit -> S -> Prop) :
  Q tt (with_store (st_set t (Timer cb x epoch) (the_store s)) s) ->
  runs (ls_timer_cancel t) s Q.
Proof. intros HQ. by eapply runs_update. Qed.

Lemma ls_timer_destroy_runs (Q : unit -> S -> Prop) :
  Q tt (with_store (st_del t (the_store (A := ls_timer CB X) s)) s) ->
  runs (ls_timer_destroy t) s Q.
Proof. intros HQ. apply runs_release; [by rewrite Ht|done]. Qed.
End at_timer.

Definition timer_script (now : timeval) (ms : Z) (cb : CB) (x : X) :=
  r ← ls_timer_create_ms (S := S) now ms cb x;
  match r with
  | Err e => mret (inl e)
  | Ok t =>
      c0 ← ls_timer_is_cancelled t; t0 ← ls_timer_get_time t;
      ls_timer_cancel t;;
      c1 ← ls_timer_is_cancelled t; t1 ← ls_timer_get_time t;
      x1 ← ls_timer_get_context t;
      ls_timer_destroy t;;
      mret (inr (c0, t0, c1, t1, x1))
  end.

(** A timer made with [ls_timer_create_ms] is due exactly [ms] milliseconds after
    [now] (the carry of the microseconds is right, nothing overflows); until it is
    cancelled it reports that time and is not cancelled; [ls_timer_cancel] makes it
    cancelled and without a time; destroying it leaves the timer store as it was. *)
Theorem timer_lifecycle now ms (cb : CB) (x : X) (s : S) :
  store_wf (the_store (A := ls_timer CB X) s) ->
  tv_wf now -> 0 <= ms < 2 ^ 64 -> tv_sec now + ms / 1000 + 1 < 2 ^ 63 -> 0 < usecs now ->
  runs (timer_script now ms cb x) s
    (fun r s' => timers s' = timers s /\
      match r with
      | inl e => e = LS_ERR_NO_MEMORY
      | inr (c0, t0, c1, t1, x1) =>
          c0 = false /\ (exists t, t0 = Some t /\ tv_wf t /\ usecs t = usecs now + ms * 1000) /\
          c1 = true /\ t1 = None /\ x1 = x
      end).
Proof.
  intros Hwf Hnow Hms Hsec Hpos.
  destruct (ms_delta_usecs ms Hms) as [Hd1 Hd2].
  destruct (timeradd_usecs now (ms_delta ms) Hnow Hd1 Hsec) as [Ht1 Ht2].
  pose proof (store_wf_fresh _ Hwf) as Hfr.
  unfold timer_script, ls_timer_create_ms. set (t := timeradd now (ms_delta ms)) in *.
  assert (Ene : t <> epoch) by (intros E; rewrite E in Ht2; change (usecs epoch) with 0 in Ht2; lia).
  run_step. apply ls_timer_create_runs; [run; unfold pop_oom; by rewrite the_with_oom|]. cbn.
  run_step. eapply ls_timer_is_cancelled_runs; [by rewrite the_with_store; apply lookup_insert_eq|].
  run_step. eapply ls_timer_get_time_runs; [by rewrite the_with_store; apply lookup_insert_eq|].
  run_step. eapply ls_timer_cancel_runs; [by rewrite the_with_store; apply lookup_insert_eq|].
  run_step. eapply ls_timer_is_cancelled_runs; [by rewrite the_with_store; apply lookup_insert_eq|].
  run_step. eapply ls_timer_get_time_runs; [by rewrite the_with_store; apply lookup_insert_eq|].
  run_step. eapply ls_timer_get_context_runs; [by rewrite the_with_store; apply lookup_insert_eq|].
  run_step. eapply ls_timer_destroy_runs; [by rewrite the_with_store; apply lookup_insert_eq|].
  run_step. rewrite !the_with_store. cbn. rewrite insert_insert_eq, delete_insert_id by done.
  rewrite (bool_decide_eq_false_2 _ Ene).
  split_and!; [done..| |done|done|done]. eexists. split_and!; [done..|]. lia.
Qed.

(** [ls_timer_less] is the order of the due times in microseconds; [ls_timer_greater]
    is its converse; a cancelled timer comes before every timer that is not. *)
Theorem timer_order a b (ta tb : ls_timer CB X) (s : S) :
  timers s !! a = Some ta -> timers s !! b = Some tb -> tv_wf (tm_tv ta) -> tv_wf (tm_tv tb) ->
  ls_timer_less a b s = Done (bool_decide (usecs (tm_tv ta) < usecs (tm_tv tb)), s) /\
  ls_timer_greater a b s = ls_timer_less b a s /\
  ls_timer_greater_tv a (tm_tv tb) s = ls_timer_less b a s /\
  (tm_tv ta = epoch -> tm_tv tb <> epoch -> ls_timer_less a b s = Done (true, s)).
Proof.
  intros Ha Hb Hwa Hwb.
  assert (Hless : forall x y tx ty, timers s !! x = Some tx -> timers s !! y = Some ty ->
    ls_timer_less x y s = Done (timercmp_lt (tm_tv tx) (tm_tv ty), s)).
  { intros x y tx ty Hx Hy. unfold ls_timer_less, load, c_live, c_get, mbind, C_bind.
    rewrite Hx. cbn. by rewrite Hy. }
  rewrite !(Hless _ _ _ _ Ha Hb), !(Hless _ _ _ _ Hb Ha).
  unfold ls_timer_greater, ls_timer_greater_tv, load, c_live, c_get, mbind, C_bind.
  rewrite Ha. cbn. rewrite Hb. cbn. rewrite !timercmp_gt_lt, !timercmp_lt_usecs by done.
  split_and!; [done..|]. intros Ea Eb. do 2 f_equal. apply bool_decide_eq_true_2.
  rewrite Ea. destruct (tm_tv tb) as [sb ub]. unfold epoch, usecs, tv_wf in *. cbn in *.
  destruct (decide (sb = 0 /\ ub = 0)) as [[-> ->]|]; [done|lia].
Qed.
End timer_proofs.

(** ** A heap with nothing but timers, for the examples *)
Record timer_heap := TimerHeap { th_timers : store (ls_timer N N); th_oom : list bool }.

#[export] Instance timer_heap_store : HasStore timer_heap (ls_timer N N) := {
  the_store := th_timers; with_store st s := TimerHeap st (th_oom s) }.
#[export] Instance timer_heap_alloc : HasAllocator timer_heap := {
  oom_script := th_oom; with_oom o s := TimerHeap (th_timers s) o }.
#[export] Instance timer_heap_laws : StoreLaws timer_heap (ls_timer N N).
Proof. by split. Qed.

(** The timers of test/ls_timer_test.c: 100 ms after a [now] whose microseconds carry. *)
Example timer_script_run :
  timer_script (Timeval 1430000000 950000) 100 0%N 5%N (TimerHeap store_empty [])
  = Done (inr (false, Some (Timeval 1430000001 50000), true, None, 5%N),
          TimerHeap (Store ∅ 2) []).
Proof. vm_compute. reflexivity. Qed.

Lemma timer_lifecycle_witness :
  let now := Timeval 1430000000 950000 in
  let s := TimerHeap store_empty [] in
  runs (timer_script now 100 0%N 5%N) s (fun r s' => st_objs (th_timers s') = st_objs (th_timers s) /\
    match r with
    | inl e => e = LS_ERR_NO_MEMORY
    | inr (c0, t0, c1, t1, x1) =>
        c0 = false /\ (exists t, t0 = Some t /\ tv_wf t /\ usecs t = usecs now + 100 * 1000) /\
        c1 = true /\ t1 = None /\ x1 = 5%N
    end).
Proof.
  intros now s. refine (timer_lifecycle now 100 0%N 5%N s _ _ _ _ _).
  - apply store_wf_empty.
  - unfold tv_wf, now. cbn. lia.
  - lia.
  - reflexivity.
  - reflexivity.
Defined.

Lemma timer_order_witness :
  let ta := Timer 0%N 0%N epoch in
  let tb := Timer 0%N 0%N (Timeval 100 100) in
  let s := TimerHeap (Store {[1%positive := ta; 2%positive := tb]} 3) [] in
  ls_timer_less 1%positive 2%positive s = Done (bool_decide (usecs epoch < usecs (Timeval 100 100)), s) /\
  ls_timer_greater 1%positive 2%positive s = ls_timer_less 2%positive 1%positive s /\
  ls_timer_greater_tv 1%positive (Timeval 100 100) s = ls_timer_less 2%positive 1%positive s /\
  (epoch = epoch -> Timeval 100 100 <> epoch -> ls_timer_less 1%positive 2%positive s = Done (true, s)).
Proof.
  intros ta tb s. refine (timer_order 1%positive 2%positive ta tb s _ _ _ _).
  - reflexivity.
  - reflexivity.
  - unfold tv_wf, ta. cbn. lia.
  - unfold tv_wf, tb. cbn. lia.
Defined.
