(* ===== verification/LsLog.v ===== *)
(** Logging: src/ls_log.c, with the stack of nested diagnostic contexts.

    Everything is printed by one function with the interface of vfprintf(), which the
    client may replace; the model records the calls of it, each with what it is given to
    print.  The nodes of the stack and their messages are objects in stores; the clock and
    the formatting of the client's messages are answers of the C library. *)

From S2P Require Import Prelude LsError LsStr LsTimer Store.
Open Scope Z_scope.

(** The enumerators of [ls_loglevel]. *)
Definition LS_LOG_NONE : Z := 0.
Definition LS_LOG_ERROR : Z := 1.
Definition LS_LOG_WARN : Z := 2.
Definition LS_LOG_INFO : Z := 3.
Definition LS_LOG_VERBOSE : Z := 4.
Definition LS_LOG_DEBUG : Z := 5.
Definition LS_LOG_TRACE : Z := 6.
Definition LS_LOG_MEMTRACE : Z := 7.

Definition LOG_MSG_TABLE : list string :=
  [ "NONE"; "ERROR"; "WARN"; "INFO"; "VERBOSE"; "DEBUG"; "TRACE"; "MEMTRACE" ]%string.

Definition level_colors : list Z := [0; 31; 33; 35; 32; 34; 36; 36].

(** A format with its arguments: what the client passes, with the text that it formats to
    ([None] when vsnprintf() fails), and the messages of this file itself. *)
Inductive message :=
  | ClientMessage (fmt : cstr) (text : option cstr)
  | InvalidNdcFormat (fmt : cstr)
  | NdcNoMemory (fmt : cstr)
  | NdcMismatch (expected got : Z)
  | NullTimeval (tag : cstr)
  | TimevalText (tag text : cstr).

(** localtime_r(): the fields of [struct tm] that are printed. *)
Record broken_time := BrokenTime {
  tm_year : Z; tm_mon : Z; tm_mday : Z; tm_hour : Z; tm_min : Z; tm_sec : Z }.

(** One call of the log function. *)
Inductive log_call :=
  | CallStamp (year mon mday hour min sec color : Z) (name : string)
  | CallNdc (id : Z) (text : cstr)
  | CallMessage (m : message)
  | CallReason (text : string)
  | CallChunk (chunk : cstr) (len : option Z)   (* the precision, if there is one *)
  | CallNewline.

Record ndc_node := NdcNode { nd_id : Z; nd_message : ptr; nd_next : ptr }.

Section log.
(** The client's log functions. *)
Context {F : Type}.

(** The file's static variables, the memory, the clock, and what was printed by which
    function ([None] is vfprintf). *)
Record log_state := LogState {
  lg_level : Z;
  lg_function : option F;
  lg_ndc_enabled : bool;
  lg_depth : Z;
  lg_head : ptr;
  lg_count : Z;
  lg_nodes : store ndc_node;
  lg_texts : store cstr;
  lg_oom : list bool;
  lg_times : list (option broken_time);
  lg_calls : list (option F * log_call) }.

#[export] Instance log_nodes : HasStore log_state ndc_node := {
  the_store := lg_nodes;
  with_store st s := LogState (lg_level s) (lg_function s) (lg_ndc_enabled s) (lg_depth s) (lg_head s)
    (lg_count s) st (lg_texts s) (lg_oom s) (lg_times s) (lg_calls s) }.
#[export] Instance log_texts : HasStore log_state cstr := {
  the_store := lg_texts;
  with_store st s := LogState (lg_level s) (lg_function s) (lg_ndc_enabled s) (lg_depth s) (lg_head s)
    (lg_count s) (lg_nodes s) st (lg_oom s) (lg_times s) (lg_calls s) }.
#[export] Instance log_alloc : HasAllocator log_state := {
  oom_script := lg_oom;
  with_oom o s := LogState (lg_level s) (lg_function s) (lg_ndc_enabled s) (lg_depth s) (lg_head s)
    (lg_count s) (lg_nodes s) (lg_texts s) o (lg_times s) (lg_calls s) }.

Definition set_level l s := LogState l (lg_function s) (lg_ndc_enabled s) (lg_depth s) (lg_head s)
  (lg_count s) (lg_nodes s) (lg_texts s) (lg_oom s) (lg_times s) (lg_calls s).
Definition set_function f s := LogState (lg_level s) f (lg_ndc_enabled s) (lg_depth s) (lg_head s)
  (lg_count s) (lg_nodes s) (lg_texts s) (lg_oom s) (lg_times s) (lg_calls s).
Definition set_ndc_enabled b s := LogState (lg_level s) (lg_function s) b (lg_depth s) (lg_head s)
  (lg_count s) (lg_nodes s) (lg_texts s) (lg_oom s) (lg_times s) (lg_calls s).
Definition set_ndc depth head count s := LogState (lg_level s) (lg_function s) (lg_ndc_enabled s) depth head
  count (lg_nodes s) (lg_texts s) (lg_oom s) (lg_times s) (lg_calls s).
Definition set_times l s := LogState (lg_level s) (lg_function s) (lg_ndc_enabled s) (lg_depth s) (lg_head s)
  (lg_count s) (lg_nodes s) (lg_texts s) (lg_oom s) l (lg_calls s).
Definition set_calls l s := LogState (lg_level s) (lg_function s) (lg_ndc_enabled s) (lg_depth s) (lg_head s)
  (lg_count s) (lg_nodes s) (lg_texts s) (lg_oom s) (lg_times s) l.

(** [_ls_log_vararg_function(stderr, ...)] *)
Definition log_function (c : log_call) : C log_state unit :=
  c_modify (fun s => set_calls (lg_calls s ++ [(lg_function s, c)]) s).

Definition ls_log_level_name (level : Z) : outcome string :=
  if decide (LS_LOG_NONE <= level) then
    if decide (LS_LOG_MEMTRACE >= level) then
      match LOG_MSG_TABLE !! Z.to_nat level with Some n => Done n | None => Fault OutOfBounds end
    else Fault AssertFail
  else Fault AssertFail.

Definition ls_log_set_function (fn : option F) : C log_state unit := c_modify (set_function fn).

Definition ls_log_set_level (level : Z) : C log_state unit :=
  c_assert (bool_decide (LS_LOG_NONE <= level));;
  c_assert (bool_decide (LS_LOG_MEMTRACE >= level));;
  c_modify (set_level level).

Definition ls_log_set_ndc_enabled (enabled : bool) : C log_state unit := c_modify (set_ndc_enabled enabled).

Definition ls_log_get_level : C log_state Z := c_gets lg_level.

(** The stack from [node], the oldest context first; [n] bounds the recursion. *)
Fixpoint _log_ndc_stack (n : nat) (node : ptr) : C log_state unit :=
  match n with
  | O => c_fault OutOfFuel
  | S n =>
      match node with
      | None => mret tt
      | Some l =>
          a ← load (A := ndc_node) l;
          (match nd_next a with Some next => _log_ndc_stack n (Some next) | None => mret tt end);;
          text ← c_deref (nd_message a);
          t ← load (A := cstr) text;
          log_function (CallNdc (nd_id a) t)
      end
  end.

(** time() and localtime_r(); [None] when one of them fails. *)
Definition local_time : C log_state (option broken_time) :=
  s ← c_get;
  c_modify (set_times (tail (lg_times s)));;
  mret (hd (Some (BrokenTime 115 0 1 0 0 0)) (lg_times s)).

Definition _log_prefix (level : Z) : C log_state bool :=
  c_assert (bool_decide (LS_LOG_ERROR <= level));;
  c_assert (bool_decide (LS_LOG_MEMTRACE >= level));;
  current ← c_gets lg_level;
  if decide (level > current) then mret false
  else
    local ← local_time;
    match local with
    | None => mret false
    | Some t =>
        color ← c_live (level_colors !! Z.to_nat level);
        match ls_log_level_name level with
        | Fault f => c_fault f
        | Done name =>
            log_function (CallStamp (tm_year t + 1900) (tm_mon t + 1) (tm_mday t) (tm_hour t) (tm_min t)
              (tm_sec t) color name);;
            s ← c_get;
            (if lg_ndc_enabled s then _log_ndc_stack (S (size (st_objs (lg_nodes s)))) (lg_head s)
             else mret tt);;
            mret true
        end
    end.

Definition ls_log (level : Z) (m : message) : C log_state unit :=
  go ← _log_prefix level;
  if go : bool then log_function (CallMessage m);; log_function CallNewline else mret tt.

Definition ls_log_err (level : Z) (err : option ls_err) (m : message) : C log_state unit :=
  go ← _log_prefix level;
  if go : bool then
    (match err with
     | Some e => log_function (CallReason (err_message e))
     | None => mret tt
     end);;
    log_function (CallMessage m);; log_function CallNewline
  else mret tt.

(** The generator of [ls_log_chunked], as the chunks that it will give, each with its
    length, before it gives NULL. *)
Fixpoint log_chunks (generated : list (cstr * Z)) : C log_state unit :=
  match generated with
  | [] => mret tt
  | (chunk, len) :: generated =>
      (if decide (len = 0) then log_function (CallChunk chunk None)
       else log_function (CallChunk chunk (Some (i32 len))));;
      log_chunks generated
  end.

Definition ls_log_chunked (level : Z) (generated : list (cstr * Z)) (m : message) : C log_state unit :=
  go ← _log_prefix level;
  if go : bool then
    log_function (CallMessage m);; log_chunks generated;; log_function CallNewline
  else mret tt.

(** [text] is what gmtime(), strftime() and snprintf() make of the time, [None] when one
    of them fails. *)
Definition ls_log_format_timeval (tv : option timeval) (text : timeval -> option cstr) (tag : cstr)
    : C log_state unit :=
  match tv with
  | None => ls_log LS_LOG_INFO (NullTimeval tag)
  | Some tv =>
      match text tv with
      | None => mret tt
      | Some t => ls_log LS_LOG_INFO (TimevalText tag t)
      end
  end.

(** The client's format [fmt] with its arguments formats to [text]. *)
Definition ls_log_push_ndc (fmt : cstr) (text : option cstr) : C log_state Z :=
  match text with
  | None => ls_log LS_LOG_WARN (InvalidNdcFormat fmt);; mret 0
  | Some text =>
      node ← new (NdcNode 0 None None);
      match node with
      | None => ls_log LS_LOG_WARN (NdcNoMemory fmt);; mret 0
      | Some node =>
          message ← new (A := cstr) [];
          update node (fun a => NdcNode (nd_id a) message (nd_next a));;
          match message with
          | None => release (A := ndc_node) node;; ls_log LS_LOG_WARN (NdcNoMemory fmt);; mret 0
          | Some message =>
              save message text;;
              s ← c_get;
              update node (fun a => NdcNode (lg_count s) (nd_message a) (lg_head s));;
              c_modify (set_ndc (i32 (lg_depth s + 1)) (Some node) (u32 (lg_count s + 1)));;
              mret (i32 (lg_depth s + 1))
          end
      end
  end.

(** The loop of [ls_log_pop_ndc]; [n] bounds its iterations. *)
Fixpoint pop_ndc_loop (n : nat) (ndc_depth : Z) : C log_state unit :=
  match n with
  | O => c_fault OutOfFuel
  | S n =>
      s ← c_get;
      match lg_head s with
      | Some prev =>
          if decide (lg_depth s >= ndc_depth) then
            a ← load (A := ndc_node) prev;
            c_modify (set_ndc (i32 (lg_depth s - 1)) (nd_next a) (lg_count s));;
            (match nd_message a with Some m => release (A := cstr) m | None => mret tt end);;
            release (A := ndc_node) prev;;
            pop_ndc_loop n ndc_depth
          else mret tt
      | None => mret tt
      end
  end.

Definition ls_log_pop_ndc (ndc_depth : Z) : C log_state unit :=
  c_assert (bool_decide (0 <= ndc_depth));;
  if decide (0 = ndc_depth) then mret tt
  else
    s ← c_get;
    (if decide (ndc_depth <> lg_depth s) then ls_log LS_LOG_WARN (NdcMismatch (lg_depth s) ndc_depth)
     else mret tt);;
    s ← c_get;
    pop_ndc_loop (S (size (st_objs (lg_nodes s)))) ndc_depth.
End log.
Arguments log_state : clear implicits.

(** ** The stack of contexts *)
Section log_proofs.
Context {F : Type}.
Abbreviation log_state := (log_state F).
Abbreviation nodes s := (st_objs (lg_nodes s)).
Abbreviation texts s := (st_objs (lg_texts s)).
Implicit Types (s : log_state) (es : list (loc * ndc_node)).

#[export] Instance log_nodes_laws : StoreLaws log_state ndc_node.
Proof. by split. Qed.
#[export] Instance log_texts_laws : StoreLaws log_state cstr.
Proof. by split. Qed.

(** The contexts by ID and text, the newest first. *)
Abbreviation contexts := (list (Z * cstr)).

Definition messages es : list loc := omap (fun e => nd_message e.2) es.

Definition shows s (e : loc * ndc_node) (x : Z * cstr) : Prop :=
  nd_id e.2 = x.1 /\ exists m, nd_message e.2 = Some m /\ texts s !! m = Some x.2.

Record ndc_at es (st : contexts) s : Prop := {
  na_chain : chain nd_next (nodes s) (lg_head s) es;
  na_shows : Forall2 (shows s) es st;
  na_distinct : NoDup (messages es);
  na_depth : lg_depth s = Z.of_nat (length st);
  na_wf : store_wf (lg_nodes s) /\ store_wf (lg_texts s);
  na_all : without es.*1 (nodes s) = ∅ /\ without (messages es) (texts s) = ∅ }.

(** ** What is printed *)
Definition call_all (cs : list log_call) s : log_state :=
  set_calls (lg_calls s ++ map (pair (lg_function s)) cs) s.

Lemma call_all_app cs cs' s : call_all cs' (call_all cs s) = call_all (cs ++ cs') s.
Proof. unfold call_all. cbn. by rewrite map_app, <- app_assoc. Qed.

Lemma log_function_runs c s (Q : unit -> log_state -> Prop) : Q tt (call_all [c] s) -> runs (log_function c) s Q.
Proof. intros HQ. unfold log_function. by run_step. Qed.

Definition ndc_calls (st : contexts) : list log_call := map (fun x => CallNdc x.1 x.2) (rev st).

Lemma ndc_stack_runs n es : forall st p s, chain nd_next (nodes s) p es -> Forall2 (shows s) es st ->
  (length es < n)%nat ->
  runs (_log_ndc_stack n p) s (fun _ s' => s' = call_all (ndc_calls st) s).
Proof.
  revert n. induction es as [|[l a] es IH]; intros [|n] st p s Hc Hs Hn; cbn in Hn; try lia; cbn [_log_ndc_stack].
  - cbn in Hc. subst p. apply Forall2_nil_inv_l in Hs as ->. run_step. unfold call_all. cbn.
    rewrite app_nil_r. by destruct s.
  - destruct Hc as (-> & Hl & Hc). apply Forall2_cons_inv_l in Hs as ([id t] & st' & (Hid & m & Hm & Ht) & Hs' & ->).
    cbn in Hid, Hm, Ht. run_step. apply (runs_load l a); [done|]. run_step.
    apply (runs_conseq _ _ (fun _ s' => s' = call_all (ndc_calls st') s)).
    { destruct (nd_next a) as [q|] eqn:Eq; [by apply IH; [|..|lia]|].
      apply chain_nil in Hc as ->. apply Forall2_nil_inv_l in Hs' as ->. run_step. unfold call_all. cbn.
      rewrite app_nil_r. by destruct s. }
    intros _ s' ->. rewrite Hm. run_step. run_step. run_step. apply (runs_load m t); [done|].
    apply log_function_runs. rewrite call_all_app. unfold ndc_calls. cbn [rev]. rewrite map_app. cbn.
    by rewrite Hid.
Qed.

Definition level_name (level : Z) : string := default EmptyString (LOG_MSG_TABLE !! Z.to_nat level).
Definition level_color (level : Z) : Z := default 0 (level_colors !! Z.to_nat level).

(** The start of a line: nothing when the level is above the current one, or when the
    clock fails. *)
Definition clock s : option broken_time := hd (Some (BrokenTime 115 0 1 0 0 0)) (lg_times s).
Definition prefix_calls (st : contexts) (level : Z) s : list log_call :=
  match clock s with
  | Some t =>
      CallStamp (tm_year t + 1900) (tm_mon t + 1) (tm_mday t) (tm_hour t) (tm_min t) (tm_sec t)
        (level_color level) (level_name level) ::
      (if lg_ndc_enabled s then ndc_calls st else [])
  | None => []
  end.

Definition line (st : contexts) (level : Z) (rest : list log_call) s : log_state :=
  if decide (level > lg_level s) then s
  else
    let s' := set_times (tail (lg_times s)) s in
    match clock s with
    | Some _ => call_all (prefix_calls st level s ++ rest ++ [CallNewline]) s'
    | None => s'
    end.

Lemma prefix_runs es st level s (Q : bool -> log_state -> Prop) : ndc_at es st s -> 1 <= level <= 7 ->
  (let s' := set_times (tail (lg_times s)) s in
   if decide (level > lg_level s) then Q false s
   else match clock s with
        | Some _ => Q true (call_all (prefix_calls st level s) s')
        | None => Q false s'
        end) ->
  runs (_log_prefix level) s Q.
Proof.
  intros Hat Hlevel HQ. unfold _log_prefix.
  run_step. apply runs_assert; [apply bool_decide_eq_true_2; unfold LS_LOG_ERROR; lia|].
  run_step. apply runs_assert; [apply bool_decide_eq_true_2; unfold LS_LOG_MEMTRACE; lia|].
  run_step. run_step. case_decide; [by run_step|].
  unfold local_time. run_step. run_step. run_step. run_step. run_step. run_step.
  unfold prefix_calls in HQ. unfold clock in HQ. destruct (hd _ _) as [t|]; [|by run_step].
  assert (Ht : exists c name, level_colors !! Z.to_nat level = Some c /\ LOG_MSG_TABLE !! Z.to_nat level = Some name).
  { assert (Hn : (Z.to_nat level < 8)%nat) by lia. destruct (Z.to_nat level) as [|[|[|[|[|[|[|[|n]]]]]]]]; [eauto..|lia]. }
  destruct Ht as (c & name & Hc & Hname). unfold level_color, level_name in HQ. rewrite Hc, Hname in HQ. cbn in HQ.
  run_step. eapply runs_live; [exact Hc|]. unfold ls_log_level_name. rewrite Hname.
  rewrite !decide_True by (unfold LS_LOG_NONE, LS_LOG_MEMTRACE; lia).
  run_step. apply log_function_runs. run_step. run_step. run_step.
  destruct Hat as [Hch Hsh _ _ _ _]. cbn [lg_ndc_enabled set_calls call_all set_times].
  destruct (lg_ndc_enabled s) eqn:En.
  - eapply runs_conseq; [apply (ndc_stack_runs _ es st); [exact Hch|exact Hsh|]|].
    + cbn. apply chain_fuel in Hch. lia.
    + intros _ s' ->. run_step. rewrite call_all_app. exact HQ.
  - run_step. run_step. exact HQ.
Qed.

Lemma log_runs es st level m s (Q : unit -> log_state -> Prop) : ndc_at es st s -> 1 <= level <= 7 ->
  Q tt (line st level [CallMessage m] s) -> runs (ls_log level m) s Q.
Proof.
  intros Hat Hlevel HQ. unfold ls_log. run_step. eapply prefix_runs; [done..|]. cbv zeta. unfold line in HQ.
  case_decide; [by run_step|]. cbv zeta in HQ. destruct (clock s) as [t|]; [|by run_step].
  run_step. apply log_function_runs. apply log_function_runs. rewrite !call_all_app, <- ?app_assoc. exact HQ.
Qed.

(** ** Pushing and popping *)
Lemma ndc_at_ext es st s s' : ndc_at es st s -> nodes s' = nodes s -> texts s' = texts s ->
  lg_head s' = lg_head s -> lg_depth s' = lg_depth s ->
  store_wf (lg_nodes s') /\ store_wf (lg_texts s') -> ndc_at es st s'.
Proof.
  intros [H1 H2 H3 H4 H5 H6] En Et Eh Ed Hwf. split; [congruence| |done|congruence|done|by rewrite En, Et].
  eapply Forall2_impl; [exact H2|]. intros e x. unfold shows. by rewrite Et.
Qed.

Lemma ndc_at_line es st level rest s : ndc_at es st s -> ndc_at es st (line st level rest s).
Proof.
  intros Hat. unfold line. case_decide; [done|]. cbv zeta.
  destruct (clock s); (eapply ndc_at_ext; [exact Hat|try done..]; apply Hat).
Qed.

Lemma ndc_at_pushed es st s l m a t s' : ndc_at es st s -> nodes s !! l = None -> texts s !! m = None ->
  nodes s' = <[l := NdcNode a (Some m) (lg_head s)]> (nodes s) -> texts s' = <[m := t]> (texts s) ->
  lg_head s' = Some l -> lg_depth s' = lg_depth s + 1 ->
  store_wf (lg_nodes s') -> store_wf (lg_texts s') ->
  ndc_at ((l, NdcNode a (Some m) (lg_head s)) :: es) ((a, t) :: st) s'.
Proof.
  intros [H1 H2 H3 H4 H5 (H6 & H7)] Hl Hm En Et Eh Ed Hwn Hwt.
  assert (Hl' : l ∉ es.*1).
  { intros ([? b] & -> & Hin)%list_elem_of_fmap. cbn in Hl. rewrite (chain_lookup _ _ _ _ _ _ H1 Hin) in Hl. done. }
  assert (Hm' : m ∉ messages es).
  { intros (e & He & Hme)%list_elem_of_omap. apply list_elem_of_lookup in He as [i Hi].
    destruct (Forall2_lookup_l _ _ _ _ _ H2 Hi) as (x & _ & _ & m' & Em' & Htx). congruence. }
  split; [| | | |done|].
  - cbn. rewrite En, lookup_insert_eq. split_and!; [done|done|]. by apply chain_insert.
  - constructor.
    + split; [done|]. exists m. split; [done|]. by rewrite Et, lookup_insert_eq.
    + eapply Forall2_impl; [exact H2|]. intros e x (E1 & m' & E2 & E3). split; [done|]. exists m'. split; [done|].
      rewrite Et, lookup_insert_ne; [done|]. intros ->. congruence.
  - cbn. by constructor.
  - cbn. lia.
  - cbn. rewrite En, Et. split; rewrite delete_insert_eq || idtac.
    + rewrite <- H6. apply (without_cons_new es.*1 l); done.
    + rewrite <- H7. apply (without_cons_new (messages es) m); done.
Qed.

Lemma push_ndc_runs es st s fmt text (Q : Z -> log_state -> Prop) : ndc_at es st s ->
  Z.of_nat (S (length st)) < 2 ^ 31 ->
  (forall s', ndc_at es st s' -> Q 0 s') ->
  (forall t es' s', text = Some t -> ndc_at es' ((lg_count s, t) :: st) s' -> lg_count s' = u32 (lg_count s + 1) ->
     Q (Z.of_nat (S (length st))) s') ->
  runs (ls_log_push_ndc fmt text) s Q.
Proof.
  intros Hat Hlen H0 H1. destruct (na_wf _ _ _ Hat) as [Wn Wt].
  assert (Hwarn : forall m s', ndc_at es st s' -> runs (ls_log LS_LOG_WARN m;; mret 0) s' Q).
  { intros m s' Hat'. run_step. eapply log_runs; [exact Hat'|unfold LS_LOG_WARN; lia|].
    run_step. by apply H0, ndc_at_line. }
  assert (Hoom : forall s', ndc_at es st s' -> ndc_at es st (pop_oom s')).
  { intros s' Hat'. eapply ndc_at_ext; [exact Hat'|try done..]. apply Hat'. }
  unfold ls_log_push_ndc. destruct text as [t|]; [|by apply Hwarn].
  run_step. apply runs_new; [by apply Hwarn, Hoom|]. cbn beta iota.
  set (l := st_next _). set (s1 := with_store _ _).
  assert (Hl : nodes s !! l = None) by (by apply (store_wf_fresh (lg_nodes s))).
  run_step. apply runs_new.
  - run_step. eapply (runs_update l); [cbn; by rewrite lookup_insert_eq|]. run_step.
    apply runs_release; [cbn; by rewrite lookup_insert_eq|]. apply Hwarn.
    eapply ndc_at_ext; [exact Hat|cbn|done..|cbn].
    + by rewrite insert_insert_eq, delete_insert_id.
    + split; [|done]. apply store_wf_del, store_wf_set; [cbn; by rewrite lookup_insert_eq|].
      by apply store_wf_add.
  - run_step. set (m := st_next _).
    assert (Hm : texts s !! m = None) by (by apply (store_wf_fresh (lg_texts s))).
    eapply (runs_update l); [cbn; by rewrite lookup_insert_eq|]. run_step.
    apply runs_save; [cbn; by rewrite lookup_insert_eq|]. run_step. run_step. run_step.
    eapply (runs_update l); [cbn; by rewrite lookup_insert_eq|]. run_step. run_step. run_step.
    pose proof (na_depth _ _ _ Hat) as Ed. cbn -[i32 u32 m l]. rewrite Ed.
    rewrite swrap_id by lia. replace (Z.of_nat (length st) + 1) with (Z.of_nat (S (length st))) by lia.
    eapply (H1 t _ _ eq_refl); [|done].
    eapply (ndc_at_pushed es st s l m); [exact Hat|exact Hl|exact Hm|..]; cbn -[l m].
    + by rewrite !insert_insert_eq.
    + by rewrite insert_insert_eq.
    + done.
    + lia.
    + apply store_wf_set; [cbn -[l]; rewrite lookup_insert_eq; by eexists|].
      apply store_wf_set; [cbn; rewrite lookup_insert_eq; by eexists|]. by apply store_wf_add.
    + apply store_wf_set; [cbn; rewrite lookup_insert_eq; by eexists|]. by apply store_wf_add.
Qed.

Lemma ndc_at_popped l a es x st s m s' : ndc_at ((l, a) :: es) (x :: st) s -> nd_message a = Some m ->
  nodes s' = delete l (nodes s) -> texts s' = delete m (texts s) -> lg_head s' = nd_next a ->
  lg_depth s' = lg_depth s - 1 -> store_wf (lg_nodes s') -> store_wf (lg_texts s') -> ndc_at es st s'.
Proof.
  intros [H1 H2 H3 H4 H5 (H6 & H7)] Em En Et Eh Ed Hwn Hwt.
  pose proof (chain_nodup _ _ _ _ H1) as Hn. cbn in Hn. apply NoDup_cons in Hn as [Hl _].
  destruct H1 as (_ & _ & Hc). apply Forall2_cons in H2 as [_ H2].
  unfold messages in H3, H7. cbn in H3, H7. rewrite Em in H3, H7. cbn in H3. apply NoDup_cons in H3 as [Hm H3].
  split; [| |done| |done|].
  - rewrite En, Eh. by apply chain_delete.
  - apply Forall2_same_length_lookup. split; [by eapply Forall2_length|]. intros i e y He Hy.
    destruct (Forall2_lookup_lr _ _ _ _ _ _ H2 He Hy) as (E1 & m' & E2 & E3). split; [done|].
    exists m'. split; [done|]. rewrite Et, lookup_delete_ne; [done|]. intros ->. apply Hm.
    apply list_elem_of_omap. exists e. split; [by eapply list_elem_of_lookup_2|done].
  - cbn in H4. lia.
  - rewrite En, Et, !without_delete. done.
Qed.

(** Popping to the depth [d - 1]. *)
Definition ndc_pop (d : Z) (st : contexts) : contexts :=
  if decide (d = 0) then st else drop (length st - (Z.to_nat d - 1)) st.

Lemma pop_loop_runs n d : 1 <= d -> forall es st s, ndc_at es st s -> (length es < n)%nat ->
  Z.of_nat (length st) < 2 ^ 31 ->
  runs (pop_ndc_loop n d) s (fun _ s' => exists es', ndc_at es' (ndc_pop d st) s').
Proof.
  intros Hd. induction n as [|n IH]; intros es st s Hat Hn Hlen; [lia|]. cbn [pop_ndc_loop].
  run_step. run_step. pose proof Hat as [H1 H2 _ H4 (Wn & Wt) _].
  assert (Hpop : forall k, ndc_pop d k = drop (length k - (Z.to_nat d - 1)) k).
  { intros k. unfold ndc_pop. by rewrite decide_False by lia. }
  destruct es as [|[l a] es].
  - cbn in H1. rewrite H1. apply Forall2_nil_inv_l in H2 as ->. run_step. exists []. by rewrite Hpop.
  - destruct H1 as (-> & Hl & Hc). destruct st as [|x st]; [by apply Forall2_cons_nil_inv in H2|].
    cbn in Hn, Hlen, H4. case_decide as Hge.
    + apply Forall2_cons in H2 as [(_ & m & Em & Htx) _]. cbn in Em.
      run_step. apply (runs_load l a); [done|]. run_step. run_step. rewrite Em.
      run_step. apply runs_release; [cbn; by rewrite Htx|]. run_step. apply runs_release; [cbn; by rewrite Hl|].
      eapply runs_conseq; [apply (IH es st)|].
      * eapply (ndc_at_popped l a es x st s m); [exact Hat|done|done..| | |]; cbn.
        -- rewrite swrap_id by lia. lia.
        -- by apply store_wf_del.
        -- by apply store_wf_del.
      * lia.
      * lia.
      * intros _ s' [es' Hat']. exists es'. rewrite Hpop in Hat' |- *. cbn [length].
        replace (S (length st) - (Z.to_nat d - 1))%nat with (S (length st - (Z.to_nat d - 1))) by lia. exact Hat'.
    + run_step. exists ((l, a) :: es). rewrite Hpop. cbn [length].
      replace (S (length st) - (Z.to_nat d - 1))%nat with 0%nat by lia. exact Hat.
Qed.

Lemma pop_ndc_runs es st s d : ndc_at es st s -> 0 <= d -> Z.of_nat (length st) < 2 ^ 31 ->
  runs (ls_log_pop_ndc d) s (fun _ s' => exists es', ndc_at es' (ndc_pop d st) s').
Proof.
  intros Hat Hd Hlen. unfold ls_log_pop_ndc. run_step. apply runs_assert; [by apply bool_decide_eq_true_2|].
  case_decide as E0; [subst d; run_step; by exists es|]. run_step. run_step. run_step.
  apply (runs_conseq _ _ (fun _ s' => ndc_at es st s')).
  { case_decide; [|by run_step]. eapply log_runs; [exact Hat|unfold LS_LOG_WARN; lia|]. by apply ndc_at_line. }
  intros _ s1 Hat1. run_step. run_step. apply (pop_loop_runs _ d ltac:(lia) es); [done| |done].
  pose proof (chain_fuel _ _ _ _ (na_chain _ _ _ Hat1)). lia.
Qed.

Lemma without_all {A} (ls : list loc) (g : gmap loc A) : without ls g = ∅ -> NoDup ls ->
  (forall l, l ∈ ls -> is_Some (g !! l)) -> size g = length ls.
Proof.
  intros Hw Hn Hin. rewrite <- (size_list_to_set (C := gset loc) ls) by done. rewrite <- size_dom. f_equal.
  apply set_eq. intros l. rewrite elem_of_list_to_set, elem_of_dom. split; [|apply Hin].
  intros [a Ha]. destruct (decide (l ∈ ls)) as [|Hl]; [done|].
  apply (f_equal (fun g => g !! l)) in Hw. rewrite lookup_without, decide_False, Ha in Hw by done. done.
Qed.

Lemma ndc_at_sizes es st s : ndc_at es st s -> size (nodes s) = length st /\ size (texts s) = length st.
Proof.
  intros [H1 H2 H3 H4 _ (H6 & H7)]. pose proof (Forall2_length _ _ _ H2) as Hlen.
  assert (Hm : length (messages es) = length es).
  { clear -H2. induction H2 as [|[l a] x es st (_ & m & Em & _) _ IH]; [done|]. cbn in Em |- *.
    rewrite Em. cbn. by f_equal. }
  rewrite (without_all es.*1 (nodes s)), (without_all (messages es) (texts s)), length_fmap; try done.
  - lia.
  - intros m (e & He & Hme)%list_elem_of_omap. apply list_elem_of_lookup in He as [i Hi].
    destruct (Forall2_lookup_l _ _ _ _ _ H2 Hi) as (x & _ & _ & m' & Em' & Htx). assert (m' = m) as -> by congruence.
    by eexists.
  - by eapply chain_nodup.
  - intros l ([? a] & -> & Hin)%list_elem_of_fmap. cbn. rewrite (chain_lookup _ _ _ _ _ _ H1 Hin). by eexists.
Qed.

(** ** Sessions *)
Inductive log_op :=
  | NdcPush (fmt : cstr) (text : option cstr)
  | NdcPop (d : Z)
  | NdcEnable (b : bool)
  | Log (level : Z) (m : message).

Definition run_log_op (op : log_op) : C log_state Z :=
  match op with
  | NdcPush fmt text => ls_log_push_ndc fmt text
  | NdcPop d => ls_log_pop_ndc d;; mret 0
  | NdcEnable b => ls_log_set_ndc_enabled b;; mret 0
  | Log level m => ls_log level m;; mret 0
  end.

Fixpoint run_log_ops (ops : list log_op) : C log_state (list Z) :=
  match ops with
  | [] => mret []
  | op :: ops => r ← run_log_op op; rs ← run_log_ops ops; mret (r :: rs)
  end.

(** What the asserts ask of the arguments. *)
Definition log_op_ok (op : log_op) : Prop :=
  match op with
  | NdcPop d => 0 <= d
  | Log level _ => LS_LOG_ERROR <= level <= LS_LOG_MEMTRACE
  | _ => True
  end.

(** The specification: a stack, where a push may fail. *)
Inductive ndc_steps : contexts -> list log_op -> list Z -> contexts -> Prop :=
  | ns_nil st : ndc_steps st [] [] st
  | ns_push st fmt t id ops rs st' : ndc_steps ((id, t) :: st) ops rs st' ->
      ndc_steps st (NdcPush fmt (Some t) :: ops) (Z.of_nat (S (length st)) :: rs) st'
  | ns_push_fails st fmt text ops rs st' : ndc_steps st ops rs st' ->
      ndc_steps st (NdcPush fmt text :: ops) (0 :: rs) st'
  | ns_pop st d ops rs st' : ndc_steps (ndc_pop d st) ops rs st' ->
      ndc_steps st (NdcPop d :: ops) (0 :: rs) st'
  | ns_other st op ops rs st' : match op with NdcEnable _ | Log _ _ => True | _ => False end ->
      ndc_steps st ops rs st' -> ndc_steps st (op :: ops) (0 :: rs) st'.

Lemma run_log_ops_runs ops : forall es st s, ndc_at es st s -> Forall log_op_ok ops ->
  Z.of_nat (length st + length ops) < 2 ^ 31 ->
  runs (run_log_ops ops) s (fun rs s' => exists es' st', ndc_steps st ops rs st' /\ ndc_at es' st' s').
Proof.
  induction ops as [|op ops IH]; intros es st s Hat Hok Hlen; cbn [run_log_ops].
  { run_step. exists es, st. split; [constructor|done]. }
  apply Forall_cons in Hok as [Hop Hok]. cbn in Hlen. run_step.
  assert (Hnext : forall r es1 st1 s1, ndc_at es1 st1 s1 -> (length st1 <= S (length st))%nat ->
    (forall rs st', ndc_steps st1 ops rs st' -> ndc_steps st (op :: ops) (r :: rs) st') ->
    runs (rs ← run_log_ops ops; mret (r :: rs)) s1 (fun rs s' =>
      exists es' st', ndc_steps st (op :: ops) rs st' /\ ndc_at es' st' s')).
  { intros r es1 st1 s1 Hat1 Hl Hstep. run_step. eapply runs_conseq; [apply (IH es1 st1); [done|done|lia]|].
    intros rs s2 (es2 & st2 & Hst & Hat2). run_step. exists es2, st2. split; [by apply Hstep|done]. }
  destruct op as [fmt text|d|b|level m]; cbn [run_log_op log_op_ok] in *.
  - eapply push_ndc_runs; [exact Hat|lia| |].
    + intros s1 Hat1. eapply Hnext; [exact Hat1|lia|]. intros. by constructor.
    + intros t es1 s1 -> Hat1 _. eapply Hnext; [exact Hat1|cbn; lia|]. intros. by econstructor.
  - run_step. eapply runs_conseq; [apply (pop_ndc_runs es st); [done|done|lia]|].
    intros [] s1 [es1 Hat1]. run_step. eapply Hnext; [exact Hat1| |intros; by constructor].
    unfold ndc_pop. case_decide; [lia|]. rewrite length_drop. lia.
  - run_step. unfold ls_log_set_ndc_enabled. run_step. run_step. eapply (Hnext 0 es st); [|lia|intros; by constructor].
    eapply ndc_at_ext; [exact Hat|try done..]. apply Hat.
  - run_step. eapply log_runs; [exact Hat|exact Hop|]. run_step.
    eapply (Hnext 0 es st); [by apply ndc_at_line|lia|intros; by constructor].
Qed.

(** The file's initial state, with the answers of the allocator and of the clock. *)
Definition log_initial (oom : list bool) (times : list (option broken_time)) : log_state :=
  LogState LS_LOG_INFO None true 0 None 0 store_empty store_empty oom times [].

Lemma ndc_at_initial oom times : ndc_at [] [] (log_initial oom times).
Proof. split; try done; cbn; [constructor|split; apply store_wf_empty]. Qed.

(** C23: the nested diagnostic contexts are a stack.  Over any pushes, pops and log lines,
    whatever the allocator answers, a push returns the new depth, or 0 and changes nothing
    when there is no memory or the format is bad; a pop with a depth that was returned
    leaves the contexts below that one, a pop with 0 or with too great a depth none less;
    nothing is used after it was freed, and the nodes and texts that are allocated are
    exactly those of the contexts on the stack. *)
Theorem ndc_session ops oom times : Forall log_op_ok ops -> Z.of_nat (length ops) < 2 ^ 31 ->
  runs (run_log_ops ops) (log_initial oom times) (fun rs s' => exists es st,
    ndc_steps [] ops rs st /\ ndc_at es st s' /\ size (nodes s') = length st /\ size (texts s') = length st).
Proof.
  intros Hok Hlen. eapply runs_conseq; [apply (run_log_ops_runs ops [] []); [apply ndc_at_initial|done|cbn; lia]|].
  intros rs s' (es & st & Hst & Hat). exists es, st. pose proof (ndc_at_sizes _ _ _ Hat) as [? ?].
  by split_and!.
Qed.

(** C36: a log line.  Nothing is printed for a level above the current one, nor when the
    clock fails; else the log function is called for the time with the level's name and
    colour, then, unless they are disabled, once for every context, the oldest first, then
    for the message and for the end of the line. *)
Theorem log_line es st level m s : ndc_at es st s -> LS_LOG_ERROR <= level <= LS_LOG_MEMTRACE ->
  ls_log level m s = Done (tt, line st level [CallMessage m] s).
Proof.
  intros Hat Hlevel. assert (H : runs (ls_log level m) s (fun _ s' => s' = line st level [CallMessage m] s)).
  { by eapply log_runs. }
  by destruct (runs_inv _ _ _ H) as ([] & s' & E & ->).
Qed.
End log_proofs.

(** The session of test/ls_log_test.c: three contexts, the last popped, then, with a
    depth mismatch, both others. *)
Definition plain (t : cstr) : message := ClientMessage t (Some t).
Definition log_ops_ex : list log_op :=
  [NdcPush [97] (Some [97]); NdcPush [98] (Some [98]); NdcPush [99] (Some [99]); NdcPop 3; Log LS_LOG_WARN (plain [116]);
   NdcPop 1; NdcPush [37] None; NdcPop 0].

Lemma ndc_session_witness :
  runs (run_log_ops log_ops_ex) (log_initial (F := unit) [false; true] []) (fun rs s' => exists es st,
    ndc_steps [] log_ops_ex rs st /\ ndc_at es st s' /\ size (st_objs (lg_nodes s')) = length st /\
    size (st_objs (lg_texts s')) = length st).
Proof.
  refine (ndc_session log_ops_ex [false; true] [] _ _); [|reflexivity].
  repeat (apply Forall_cons; split; [by (cbn; unfold LS_LOG_ERROR, LS_LOG_WARN, LS_LOG_MEMTRACE; lia)|]).
  by apply Forall_nil.
Defined.

Lemma log_line_witness :
  let s := log_initial (F := unit) [] [] in
  ls_log LS_LOG_ERROR (plain [116]) s = Done (tt, line [] LS_LOG_ERROR [CallMessage (plain [116])] s).
Proof.
  intros s. refine (log_line [] [] LS_LOG_ERROR (plain [116]) s (ndc_at_initial [] []) _).
  unfold LS_LOG_ERROR, LS_LOG_MEMTRACE. lia.
Defined.

Example ndc_run :
  (match run_log_ops log_ops_ex (log_initial (F := unit) [] []) with
   | Done (rs, s') => Some (rs, List.filter (fun c => match c with CallNdc _ _ | CallMessage _ => true | _ => false end)
                                  (snd <$> lg_calls s'), lg_depth s')
   | Fault _ => None
   end) = Some ([1; 2; 3; 0; 0; 0; 0; 0],
     [CallNdc 0 [97]; CallNdc 1 [98]; CallMessage (plain [116]);
      CallNdc 0 [97]; CallNdc 1 [98]; CallMessage (NdcMismatch 2 1); CallMessage (InvalidNdcFormat [37])], 0).
Proof. vm_compute. reflexivity. Qed.
