(* ===== verification/LsHtable.v ===== *)
(** The hash table: src/ls_htable.c, on a store of bucket arrays and linked nodes,
    refined to a finite map.

    The table is generic in its keys ([Hashable], the function pointers [hash] and
    [cmp] with the laws the header asks of them), in its values ([void] pointers) and
    in the cleaner functions, whose effect is a state transformer over a client state
    that the table itself never reads. *)

From S2P Require Import Prelude LsError LsStr Store.
Open Scope Z_scope.

(** What a client provides: a hash, a comparison, and, for the theorems, the value
    [canon k] that a key stands for. *)
Class Hashable (K KC : Type) `{Countable KC} := {
  key_hash : K -> Z;
  key_cmp : K -> K -> Z;
  key_ok : K -> Prop;
  canon : K -> KC }.

Class HashableLaws (K KC : Type) `{Hashable K KC} := {
  key_hash_range k : 0 <= key_hash k < 2 ^ 32;
  key_cmp_canon k k' : key_ok k -> key_ok k' -> key_cmp k k' = 0 <-> canon k = canon k';
  key_hash_canon k k' : key_ok k -> key_ok k' -> canon k = canon k' -> key_hash k = key_hash k' }.

Definition HASH_NUM_BUCKETS : Z := 509.

Section htable.
Context {K V CL S : Type} `{EqDecision K}.

Record ls_hnode := HNode {
  hn_next : ptr;
  hn_key : K;
  hn_value : option V;
  hn_bucket : Z;          (* int *)
  hn_khash : Z;           (* unsigned int *)
  hn_cleaner : option CL }.

Record ls_htable := HTable {
  ht_hash : K -> Z;
  ht_cmp : K -> K -> Z;
  ht_count : Z;
  ht_bcount : Z;
  ht_resize_count : Z;
  ht_buckets : loc }.

Record hstate := HState {
  hs_tables : store ls_htable;
  hs_arrays : store (list ptr);
  hs_nodes : store ls_hnode;
  hs_oom : list bool;
  hs_client : S }.

#[export] Instance hstate_tables : HasStore hstate ls_htable := {
  the_store := hs_tables;
  with_store st s := HState st (hs_arrays s) (hs_nodes s) (hs_oom s) (hs_client s) }.
#[export] Instance hstate_arrays : HasStore hstate (list ptr) := {
  the_store := hs_arrays;
  with_store st s := HState (hs_tables s) st (hs_nodes s) (hs_oom s) (hs_client s) }.
#[export] Instance hstate_nodes : HasStore hstate ls_hnode := {
  the_store := hs_nodes;
  with_store st s := HState (hs_tables s) (hs_arrays s) st (hs_oom s) (hs_client s) }.
#[export] Instance hstate_alloc : HasAllocator hstate := {
  oom_script := hs_oom;
  with_oom o s := HState (hs_tables s) (hs_arrays s) (hs_nodes s) o (hs_client s) }.

Definition set_client (c : S) (s : hstate) : hstate :=
  HState (hs_tables s) (hs_arrays s) (hs_nodes s) (hs_oom s) c.

(** Callbacks: [cleaner(replace, destroy_key, key, data)] and the walk function. *)
Context (call : CL -> bool -> bool -> K -> option V -> C S unit).

Definition client {A} (m : C S A) : C hstate A := zoom hs_client set_client m.

Definition call_cleaner (c : option CL) (replace destroy_key : bool) (key : K)
    (data : option V) : C hstate unit :=
  match c with
  | Some c => client (call c replace destroy_key key data)
  | None => mret tt
  end.

(** [buckets[i]] as a value and as the target of an assignment. *)
Definition bucket_get (a : loc) (i : Z) : C hstate ptr :=
  arr ← load a;
  if decide (i < 0) then c_fault OutOfBounds
  else match (arr : list ptr) !! Z.to_nat i with
       | Some p => mret p
       | None => c_fault OutOfBounds
       end.

Definition bucket_set (a : loc) (i : Z) (p : ptr) : C hstate unit :=
  _ ← bucket_get a i; update a (fun arr : list ptr => <[Z.to_nat i := p]> arr).

(** A bound on the iterations of a loop along a bucket: it visits each node once. *)
Definition node_fuel (s : hstate) : nat := Datatypes.S (size (st_objs (hs_nodes s))).

Fixpoint find_loop (fuel : nat) (tab : ls_htable) (key : K) (khash : Z) (p : ptr)
    : C hstate ptr :=
  match fuel, p with
  | O, _ => c_fault OutOfFuel
  | _, None => mret None
  | Datatypes.S fuel, Some l =>
      n ← load l;
      if bool_decide (khash = hn_khash n) && bool_decide (ht_cmp tab key (hn_key n) = 0)
      then mret (Some l)
      else find_loop fuel tab key khash (hn_next n)
  end.

Definition bucket_from_khash (tab : ls_htable) (khash : Z) : Z := khash mod ht_bcount tab.

Definition find_node (t : loc) (key : K) (bucket khash : Z) : C hstate ptr :=
  tab ← load t;
  let khash' := if decide (bucket < 0) then ht_hash tab key else khash in
  let bucket' := if decide (bucket < 0) then i32 (bucket_from_khash tab khash') else bucket in
  p ← bucket_get (ht_buckets tab) bucket';
  fuel ← c_gets node_fuel;
  find_loop fuel tab key khash' p.

(** One iteration of the resizing: the node [l], read as [n], goes to the head of its
    new bucket. *)
Definition move_node (t l : loc) (n : ls_hnode) : C hstate unit :=
  tab ← load t;
  let bucket := hn_khash n mod ht_bcount tab in
  head ← bucket_get (ht_buckets tab) bucket;
  save l (HNode head (hn_key n) (hn_value n) (i32 bucket) (hn_khash n) (hn_cleaner n));;
  bucket_set (ht_buckets tab) bucket (Some l).

(** The inner loop of the resizing: [while (node != 0)]. *)
Fixpoint move_chain (fuel : nat) (t : loc) (node : ptr) : C hstate unit :=
  match fuel, node with
  | O, _ => c_fault OutOfFuel
  | _, None => mret tt
  | Datatypes.S fuel, Some l =>
      n ← load l;
      move_node t l n;;
      move_chain fuel t (hn_next n)
  end.

(** The outer loop: [for (c = 0; c < old_bcount; ++c)], [n] iterations left. *)
Fixpoint move_buckets (n : nat) (c : Z) (t old : loc) : C hstate unit :=
  match n with
  | O => mret tt
  | Datatypes.S n =>
      node ← bucket_get old c;
      fuel ← c_gets node_fuel;
      move_chain fuel t node;;
      move_buckets n (c + 1) t old
  end.

Definition resize_hashtable (t : loc) (buckets : Z) : C hstate (res Z unit) :=
  tab ← load t;
  new_buckets ← new (replicate (Z.to_nat buckets) (None : ptr));
  match new_buckets with
  | None => mret (Err LS_ERR_NO_MEMORY)
  | Some nb =>
      save t (HTable (ht_hash tab) (ht_cmp tab) (ht_count tab) buckets
                (u32 (ht_resize_count tab + 1)) nb);;
      move_buckets (Z.to_nat (ht_bcount tab)) 0 t (ht_buckets tab);;
      release (A := list ptr) (ht_buckets tab);;
      mret (Ok tt)
  end.

Definition ls_hnode_get_key (l : loc) : C hstate K := n ← load l; mret (hn_key n).
Definition ls_hnode_get_value (l : loc) : C hstate (option V) := n ← load l; mret (hn_value n).

Definition ls_hnode_put_value (l : loc) (data : option V) (cleaner : option CL)
    : C hstate unit :=
  n ← load l;
  save l (HNode (hn_next n) (hn_key n) data (hn_bucket n) (hn_khash n) cleaner);;
  match hn_value n with
  | Some _ => call_cleaner (hn_cleaner n) true false (hn_key n) (hn_value n)
  | None => mret tt
  end.

(** [for (p = head; p->next != node; p = p->next)] *)
Fixpoint find_prev (fuel : nat) (p : ptr) (node : loc) : C hstate loc :=
  match fuel with
  | O => c_fault OutOfFuel
  | Datatypes.S fuel =>
      l ← c_deref p;
      n ← load l;
      if decide (hn_next (n : ls_hnode) = Some node) then mret l
      else find_prev fuel (hn_next n) node
  end.

(** Take [node], read as [n], out of its bucket's list. *)
Definition unchain (tab : ls_htable) (node : loc) (n : ls_hnode) : C hstate unit :=
  head ← bucket_get (ht_buckets tab) (hn_bucket n);
  if decide (head = Some node) then
    bucket_set (ht_buckets tab) (hn_bucket n) (hn_next n)
  else
    fuel ← c_gets node_fuel;
    p ← find_prev fuel head node;
    update p (fun a => HNode (hn_next n) (hn_key a) (hn_value a) (hn_bucket a)
                         (hn_khash a) (hn_cleaner a)).

Definition ls_htable_remove_node (t node : loc) : C hstate unit :=
  tab ← load t;
  n ← load node;
  unchain tab node n;;
  call_cleaner (hn_cleaner n) false true (hn_key n) (hn_value n);;
  release (A := ls_hnode) node;;
  update t (fun a => HTable (ht_hash a) (ht_cmp a) (u32 (ht_count a - 1)) (ht_bcount a)
                       (ht_resize_count a) (ht_buckets a)).

Definition ls_htable_create (buckets : Z) (hash : K -> Z) (cmp : K -> K -> Z)
    : C hstate (res Z loc) :=
  let buckets := if decide (buckets <= 0) then HASH_NUM_BUCKETS else buckets in
  ret_table ← new (HTable hash cmp 0 0 0 1%positive);
  match ret_table with
  | None => mret (Err LS_ERR_NO_MEMORY)
  | Some t =>
      arr ← new (replicate (Z.to_nat buckets) (None : ptr));
      match arr with
      | None => release (A := ls_htable) t;; mret (Err LS_ERR_NO_MEMORY)
      | Some a => save t (HTable hash cmp 0 buckets 0 a);; mret (Ok t)
      end
  end.

(** [while (cur)]: call the cleaner of each node and free it. *)
Fixpoint free_chain (fuel : nat) (cur : ptr) : C hstate unit :=
  match fuel, cur with
  | O, _ => c_fault OutOfFuel
  | _, None => mret tt
  | Datatypes.S fuel, Some l =>
      n ← load l;
      call_cleaner (hn_cleaner n) false true (hn_key n) (hn_value n);;
      release (A := ls_hnode) l;;
      free_chain fuel (hn_next n)
  end.

(** The loop over the buckets of [ls_htable_destroy] and of [ls_htable_clear], which
    also resets each bucket. *)
Fixpoint free_buckets (n : nat) (i : Z) (a : loc) (reset : bool) : C hstate unit :=
  match n with
  | O => mret tt
  | Datatypes.S n =>
      cur ← bucket_get a i;
      fuel ← c_gets node_fuel;
      free_chain fuel cur;;
      (if reset then bucket_set a i None else mret tt);;
      free_buckets n (i + 1) a reset
  end.

Definition ls_htable_destroy (t : loc) : C hstate unit :=
  tab ← load t;
  free_buckets (Z.to_nat (ht_bcount tab)) 0 (ht_buckets tab) false;;
  release (A := list ptr) (ht_buckets tab);;
  release (A := ls_htable) t.

Definition ls_htable_clear (t : loc) : C hstate unit :=
  tab ← load t;
  free_buckets (Z.to_nat (ht_bcount tab)) 0 (ht_buckets tab) true;;
  update t (fun a => HTable (ht_hash a) (ht_cmp a) 0 (ht_bcount a)
                       (ht_resize_count a) (ht_buckets a)).

Definition ls_htable_get_count (t : loc) : C hstate Z := tab ← load t; mret (ht_count tab).

Definition ls_htable_get_node (t : loc) (key : K) : C hstate ptr := find_node t key (-1) 0.

Definition ls_htable_get (t : loc) (key : K) : C hstate (option V) :=
  node ← find_node t key (-1) 0;
  match node with
  | Some l => n ← load l; mret (hn_value n)
  | None => mret None
  end.

(** Does one more entry need a larger table? *)
Definition must_grow (tab : ls_htable) : bool :=
  bool_decide (u32 (ht_count tab + 1) > Z.shiftr (u32 (ht_bcount tab * 3)) 2).

Definition grown (tab : ls_htable) : Z := u32 (u32 (Z.shiftl (ht_bcount tab) 1) + 1).

(** A new entry: a node at the head of its bucket. *)
Definition link_node (t : loc) (key : K) (value : option V) (cleaner : option CL) (khash : Z)
    : C hstate (res Z unit) :=
  tab ← load t;
  let bucket := bucket_from_khash tab khash in
  head ← bucket_get (ht_buckets tab) bucket;
  node ← new (HNode head key value (i32 bucket) khash cleaner);
  match node with
  | None => mret (Err LS_ERR_NO_MEMORY)
  | Some l =>
      bucket_set (ht_buckets tab) bucket (Some l);;
      update t (fun a => HTable (ht_hash a) (ht_cmp a) (u32 (ht_count a + 1))
                           (ht_bcount a) (ht_resize_count a) (ht_buckets a));;
      mret (Ok tt)
  end.

Definition ls_htable_put (t : loc) (key : K) (value : option V) (cleaner : option CL)
    : C hstate (res Z unit) :=
  tab ← load t;
  let khash := ht_hash tab key in
  node ← find_node t key (i32 (bucket_from_khash tab khash)) khash;
  match node with
  | Some l =>
      n ← load l;
      call_cleaner (hn_cleaner n) true (bool_decide (hn_key n <> key)) (hn_key n) (hn_value n);;
      update l (fun a => HNode (hn_next a) key value (hn_bucket a) (hn_khash a) cleaner);;
      mret (Ok tt)
  | None =>
      r ← (if must_grow tab then resize_hashtable t (grown tab) else mret (Ok tt));
      match r with
      | Err e => mret (Err e)
      | Ok _ => link_node t key value cleaner khash
      end
  end.

Definition ls_htable_remove (t : loc) (key : K) : C hstate unit :=
  node ← find_node t key (-1) 0;
  match node with
  | Some l => ls_htable_remove_node t l
  | None => mret tt
  end.

(** The first non-empty bucket from [i] on, [n] buckets left. *)
Fixpoint first_from (n : nat) (i : Z) (a : loc) : C hstate ptr :=
  match n with
  | O => mret None
  | Datatypes.S n =>
      p ← bucket_get a i;
      match p with
      | Some l => mret (Some l)
      | None => first_from n (i + 1) a
      end
  end.

Definition ls_htable_get_first_node (t : loc) : C hstate ptr :=
  tab ← load t; first_from (Z.to_nat (ht_bcount tab)) 0 (ht_buckets tab).

Definition ls_htable_get_next_node (t cur : loc) : C hstate ptr :=
  tab ← load t;
  n ← load cur;
  match hn_next (n : ls_hnode) with
  | Some l => mret (Some l)
  | None =>
      let i := hn_bucket n + 1 in
      first_from (Z.to_nat (ht_bcount tab - i)) i (ht_buckets tab)
  end.

(** [while (running && cur)]; the result is [running] and the count. *)
Fixpoint walk_chain (fuel : nat) (func : K -> option V -> C S bool) (count : Z) (cur : ptr)
    : C hstate (bool * Z) :=
  match fuel, cur with
  | O, _ => c_fault OutOfFuel
  | _, None => mret (true, count)
  | Datatypes.S fuel, Some l =>
      n ← load l;
      running ← client (func (hn_key n) (hn_value n));
      if running : bool then walk_chain fuel func (u32 (count + 1)) (hn_next n)
      else mret (false, u32 (count + 1))
  end.

Fixpoint walk_buckets (n : nat) (i : Z) (t : loc) (func : K -> option V -> C S bool)
    (count : Z) : C hstate Z :=
  match n with
  | O => mret count
  | Datatypes.S n =>
      tab ← load t;
      cur ← bucket_get (ht_buckets tab) i;
      fuel ← c_gets node_fuel;
      r ← walk_chain fuel func count cur;
      if r.1 : bool then walk_buckets n (i + 1) t func r.2 else mret r.2
  end.

Definition ls_htable_walk (t : loc) (func : K -> option V -> C S bool) : C hstate Z :=
  tab ← load t; walk_buckets (Z.to_nat (ht_bcount tab)) 0 t func 0.
End htable.
Arguments ls_hnode : clear implicits.
Arguments ls_htable : clear implicits.
Arguments hstate : clear implicits.

(** ** Lists of buckets *)
Section buckets.
Context {A : Type}.
Implicit Types (cs : list (list A)) (c : list A).

Lemma concat_split cs i c : cs !! i = Some c ->
  concat cs = concat (take i cs) ++ c ++ concat (drop (S i) cs).
Proof.
  intros H. rewrite <- (take_drop_middle _ _ _ H) at 1.
  by rewrite concat_app.
Qed.

Lemma concat_insert cs i c c' : cs !! i = Some c ->
  concat (<[i := c']> cs) = concat (take i cs) ++ c' ++ concat (drop (S i) cs).
Proof.
  intros H. rewrite insert_take_drop by (by eapply lookup_lt_Some).
  by rewrite concat_app.
Qed.

Lemma concat_insert_perm cs i c e : cs !! i = Some c ->
  concat (<[i := e :: c]> cs) ≡ₚ e :: concat cs.
Proof.
  intros H. rewrite (concat_insert _ _ _ _ H), (concat_split _ _ _ H). cbn.
  by rewrite <- Permutation_middle.
Qed.

Lemma elem_of_concat_lookup cs i c e : cs !! i = Some c -> e ∈ c -> e ∈ concat cs.
Proof.
  intros H He. rewrite (concat_split _ _ _ H), !elem_of_app. auto.
Qed.

Lemma elem_of_concat_inv cs e : e ∈ concat cs -> exists i c, cs !! i = Some c /\ e ∈ c.
Proof.
  induction cs as [|c cs IH]; cbn; [by intros ?%elem_of_nil|].
  intros [H|H]%elem_of_app; [by exists 0%nat, c|].
  destruct (IH H) as (i & c' & Hc & He). by exists (S i), c'.
Qed.

(** Where an element with its own key stands in a list determines what follows it. *)
Lemma list_app_inj_key {B} (f : A -> B) xs1 x ys1 : forall xs2 ys2,
  xs1 ++ x :: ys1 = xs2 ++ x :: ys2 -> NoDup (f <$> xs2 ++ x :: ys2) -> ys1 = ys2.
Proof.
  induction xs1 as [|a xs1 IH]; intros [|b xs2] ys2; cbn.
  - by intros [= ->].
  - intros [= -> ->] [Hn _]%NoDup_cons. destruct Hn. rewrite fmap_app.
    apply elem_of_app. right. by left.
  - intros [= -> <-] [Hn _]%NoDup_cons. destruct Hn. rewrite fmap_app.
    apply elem_of_app. right. by left.
  - intros [= -> E] [_ Hn]%NoDup_cons. by eapply IH.
Qed.

Lemma concat_replicate_nil n : concat (replicate n ([] : list A)) = [].
Proof. by induction n. Qed.
End buckets.

Section table_proofs.
Context {K KC V CL S : Type} `{EqKC : !EqDecision KC, CoKC : !Countable KC}.
Context `{HK : !Hashable K KC, HL : !HashableLaws K KC, EqK : !EqDecision K}.
Context (call : CL -> bool -> bool -> K -> option V -> C S unit).
Abbreviation node := (ls_hnode K V CL).
Abbreviation state := (hstate K V CL S).
Abbreviation tables s := (st_objs (hs_tables s)).
Abbreviation arrays s := (st_objs (hs_arrays s)).
Abbreviation nodes s := (st_objs (hs_nodes s)).
Abbreviation cells := (list (list (loc * node))).
Implicit Types (s : state) (cs : cells) (t : loc).

(** What an entry says, apart from where it is linked. *)
Abbreviation entry := (K * option V * option CL)%type.
Definition entry_of (n : node) : entry := (hn_key n, hn_value n, hn_cleaner n).
Definition key_of (e : entry) : K := e.1.1.
Definition entry_value (e : entry) : option V := e.1.2.

(** A bucket array with the nodes that hang from it. *)
Definition buckets_at (g : gmap loc node) (arr : list ptr) (cs : cells) : Prop :=
  Forall2 (chain hn_next g) arr cs.

(** Every node is in the bucket its hash asks for. *)
Definition placed (bcount : Z) (cs : cells) : Prop :=
  forall i c l n, cs !! i = Some c -> (l, n) ∈ c ->
    hn_bucket n = Z.of_nat i /\ hn_khash n = key_hash (hn_key n) /\
    hn_khash n mod bcount = Z.of_nat i /\ key_ok (hn_key n).

Definition entries (cs : cells) : list entry := entry_of ∘ snd <$> concat cs.

(** The finite map that a table stands for. *)
Definition map_of (es : list entry) : gmap KC entry :=
  list_to_map ((fun e => (canon (key_of e), e)) <$> es).

Definition keys_distinct (es : list entry) : Prop := NoDup (canon ∘ key_of <$> es).

Record table_at (t : loc) (tab : ls_htable K) (arr : list ptr) (cs : cells) (s : state)
    : Prop := {
  ta_table : tables s !! t = Some tab;
  ta_array : arrays s !! ht_buckets tab = Some arr;
  ta_chains : buckets_at (nodes s) arr cs;
  ta_hash : ht_hash tab = key_hash;
  ta_cmp : ht_cmp tab = key_cmp;
  ta_bcount : 0 < ht_bcount tab <= 2 ^ 30 /\ Z.of_nat (length arr) = ht_bcount tab;
  ta_placed : placed (ht_bcount tab) cs;
  ta_keys : keys_distinct (entries cs);
  ta_count : ht_count tab = Z.of_nat (length (concat cs)) /\ ht_count tab < 2 ^ 32;
  ta_wf : store_wf (hs_tables s) /\ store_wf (hs_arrays s) /\ store_wf (hs_nodes s) }.

(** The table [t] stands for [m]; the rest of the heap is [B]. *)
Record heap_base := HeapBase {
  hb_tables : gmap loc (ls_htable K); hb_arrays : gmap loc (list ptr); hb_nodes : gmap loc node }.

Definition rest_of (t : loc) (tab : ls_htable K) (cs : cells) (s : state) : heap_base :=
  HeapBase (delete t (tables s)) (delete (ht_buckets tab) (arrays s))
    (without (concat cs).*1 (nodes s)).

Definition table_rep (B : heap_base) (t : loc) (m : gmap KC entry) (s : state) : Prop :=
  exists tab arr cs, table_at t tab arr cs s /\ rest_of t tab cs s = B /\ map_of (entries cs) = m.

(** The invariant is about the table's own objects only. *)
Lemma table_rep_stores B t m s s' : table_rep B t m s ->
  hs_tables s' = hs_tables s -> hs_arrays s' = hs_arrays s -> hs_nodes s' = hs_nodes s ->
  table_rep B t m s'.
Proof.
  intros (tab & arr & cs & [] & HB & Hm) E1 E2 E3. exists tab, arr, cs.
  split_and!; [split; by rewrite ?E1, ?E2, ?E3| |done]. unfold rest_of in *. by rewrite E1, E2, E3.
Qed.

(** *** Consequences of the invariant *)
Lemma buckets_lookup g arr cs l n : buckets_at g arr cs -> (l, n) ∈ concat cs -> g !! l = Some n.
Proof.
  intros Hb (i & c & Hc & Hin)%elem_of_concat_inv.
  destruct (Forall2_lookup_r _ _ _ _ _ Hb Hc) as (p & _ & Hp). by eapply chain_lookup.
Qed.

Lemma map_of_perm es es' : keys_distinct es -> es ≡ₚ es' -> map_of es = map_of es'.
Proof.
  intros Hd Hp. apply list_to_map_proper; [|by rewrite Hp].
  rewrite <- list_fmap_compose. exact Hd.
Qed.

Lemma keys_distinct_perm es es' : es ≡ₚ es' -> keys_distinct es -> keys_distinct es'.
Proof. unfold keys_distinct. by intros ->. Qed.

Lemma map_of_lookup es e : keys_distinct es -> e ∈ es -> map_of es !! canon (key_of e) = Some e.
Proof.
  intros Hd He. apply elem_of_list_to_map.
  - rewrite <- list_fmap_compose. exact Hd.
  - apply list_elem_of_fmap. by exists e.
Qed.

Lemma map_of_lookup_None es k : (forall e, e ∈ es -> canon (key_of e) <> k) ->
  map_of es !! k = None.
Proof.
  intros Hk. apply not_elem_of_list_to_map_1. rewrite <- list_fmap_compose.
  intros (e & -> & He)%list_elem_of_fmap. by eapply Hk.
Qed.

Lemma map_of_size es : keys_distinct es -> size (map_of es) = length es.
Proof.
  intros Hd. unfold map_of.
  rewrite <- length_map_to_list, map_to_list_to_map, length_fmap; [done|].
  rewrite <- list_fmap_compose. exact Hd.
Qed.

(** Nodes of different buckets are different objects: they have different keys. *)
Lemma buckets_nodup g arr cs : buckets_at g arr cs -> keys_distinct (entries cs) ->
  NoDup (concat cs).*1.
Proof.
  intros Hb Hd. unfold keys_distinct, entries in Hd. rewrite <- list_fmap_compose in Hd.
  apply NoDup_fmap_1 in Hd as Hnd.
  assert (Hinj : forall x y, x ∈ concat cs -> y ∈ concat cs -> x.1 = y.1 -> x = y).
  { intros [l n] [l' n'] Hx Hy [= <-]. f_equal.
    pose proof (buckets_lookup _ _ _ _ _ Hb Hx). pose proof (buckets_lookup _ _ _ _ _ Hb Hy).
    congruence. }
  clear Hd Hb. induction (concat cs) as [|x es IH]; cbn; [constructor|].
  apply NoDup_cons in Hnd as [Hx Hnd]. constructor.
  - intros (y & E & Hy)%list_elem_of_fmap. apply Hx.
    by rewrite (Hinj x y ltac:(by left) ltac:(by right) E).
  - apply IH; [done|]. intros; apply Hinj; [by right..|done].
Qed.

(** *** Buckets and finding *)
Lemma bucket_get_runs a i arr p s (Q : ptr -> state -> Prop) :
  arrays s !! a = Some arr -> 0 <= i -> arr !! Z.to_nat i = Some p -> Q p s ->
  runs (bucket_get a i) s Q.
Proof.
  intros Ha Hi Hp HQ. unfold bucket_get. run_step. eapply runs_load; [done|].
  rewrite decide_False by lia. rewrite Hp. by run_step.
Qed.

Lemma bucket_set_runs a i arr p p' s (Q : unit -> state -> Prop) :
  arrays s !! a = Some arr -> 0 <= i -> arr !! Z.to_nat i = Some p' ->
  Q tt (with_store (st_set a (<[Z.to_nat i := p]> arr) (hs_arrays s)) s) ->
  runs (bucket_set a i p) s Q.
Proof.
  intros Ha Hi Hp HQ. unfold bucket_set. run_step. eapply bucket_get_runs; [done..|].
  by eapply runs_update.
Qed.

(** The bucket of a key. *)
Definition slot (bcount : Z) (k : K) : nat := Z.to_nat (key_hash k mod bcount).

Lemma slot_range bcount k : 0 < bcount <= 2 ^ 30 ->
  Z.of_nat (slot bcount k) = key_hash k mod bcount /\
  0 <= key_hash k mod bcount < bcount /\
  i32 (key_hash k mod bcount) = key_hash k mod bcount.
Proof.
  intros Hb. pose proof (Z.mod_pos_bound (key_hash k) bcount) as Hm.
  split_and!; [unfold slot; lia|lia|lia|]. apply swrap_id; lia.
Qed.

Lemma table_slot t tab arr cs s k : table_at t tab arr cs s ->
  exists p c, arr !! slot (ht_bcount tab) k = Some p /\ cs !! slot (ht_bcount tab) k = Some c /\
    chain hn_next (nodes s) p c.
Proof.
  intros Ht. destruct (ta_bcount _ _ _ _ _ Ht) as [Hb Hl].
  destruct (slot_range _ k Hb) as (Hs & Hr & _).
  destruct (lookup_lt_is_Some_2 arr (slot (ht_bcount tab) k)) as [p Hp]; [lia|].
  destruct (Forall2_lookup_l _ _ _ _ _ (ta_chains _ _ _ _ _ Ht) Hp) as (c & Hc & Hch). eauto.
Qed.

(** What looking for [key] in [es] gives. *)
Definition found (key : K) (es : list (loc * node)) (r : ptr) : Prop :=
  match r with
  | Some l => exists n, (l, n) ∈ es /\ canon (hn_key n) = canon key
  | None => forall l n, (l, n) ∈ es -> canon (hn_key n) <> canon key
  end.

Lemma find_loop_runs tab key p c fuel s : ht_cmp tab = key_cmp -> key_ok key ->
  (forall l n, (l, n) ∈ c -> key_ok (hn_key n) /\ hn_khash n = key_hash (hn_key n)) ->
  chain hn_next (nodes s) p c -> (length c < fuel)%nat ->
  runs (find_loop fuel tab key (key_hash key) p) s (fun r s' => s' = s /\ found key c r).
Proof.
  intros Hcmp Hk. revert p c. induction fuel as [|fuel IH]; intros p c Hc Hch Hf; [lia|].
  destruct c as [|[l n] c].
  - cbn in Hch. subst p. cbn. run. split; [done|]. by intros l n ?%elem_of_nil.
  - destruct Hch as (-> & Hl & Hch). cbn [find_loop]. st_run.
    destruct (Hc l n) as [Hkn Hhn]; [by left|]. rewrite Hhn, Hcmp.
    destruct (bool_decide (key_cmp key (hn_key n) = 0)) eqn:Ecmp.
    + apply bool_decide_eq_true in Ecmp. apply key_cmp_canon in Ecmp; [|done..].
      rewrite bool_decide_eq_true_2 by (by apply key_hash_canon). cbn [andb]. run.
      split; [done|]. exists n. split; [by left|done].
    + rewrite andb_false_r. apply bool_decide_eq_false in Ecmp.
      eapply runs_conseq; [apply (IH _ c)|].
      * intros l' n' Hin. apply (Hc l'). by right.
      * done.
      * cbn in Hf. lia.
      * intros [l'|] s' [-> Hr]; split; try done.
        -- destruct Hr as (n' & Hin & Hn'). exists n'. split; [by right|done].
        -- intros l' n' [[= -> ->]|Hin]%elem_of_cons; [|by eapply Hr].
           intros E. apply Ecmp. by apply key_cmp_canon.
Qed.

Lemma placed_slot bcount cs l n k : 0 < bcount <= 2 ^ 30 -> placed bcount cs ->
  (l, n) ∈ concat cs -> key_ok k -> canon (hn_key n) = canon k ->
  exists c, cs !! slot bcount k = Some c /\ (l, n) ∈ c.
Proof.
  intros Hb Hp (i & c & Hc & Hin)%elem_of_concat_inv Hk E.
  destruct (Hp _ _ _ _ Hc Hin) as (Hbk & Hh & Hm & Hok).
  exists c. split; [|done]. rewrite <- Hc. f_equal. unfold slot.
  rewrite <- (key_hash_canon (hn_key n) k), <- Hh, Hm by done. lia.
Qed.

Lemma find_node_runs t tab arr cs s key bucket khash : table_at t tab arr cs s -> key_ok key ->
  bucket < 0 \/ (bucket = key_hash key mod ht_bcount tab /\ khash = key_hash key) ->
  runs (find_node t key bucket khash) s (fun r s' => s' = s /\ found key (concat cs) r).
Proof.
  intros Ht Hk Hbk. destruct (ta_bcount _ _ _ _ _ Ht) as [Hb Hl].
  destruct (slot_range _ key Hb) as (Hs & Hr & Hi).
  destruct (table_slot _ _ _ _ _ key Ht) as (p & c & Hp & Hc & Hch).
  unfold find_node. run_step. eapply runs_load; [apply Ht|].
  assert (E : (if decide (bucket < 0) then ht_hash tab key else khash) = key_hash key).
  { rewrite (ta_hash _ _ _ _ _ Ht). case_decide; [done|]. by destruct Hbk as [?|[_ ?]]; [lia|]. }
  assert (E' : (if decide (bucket < 0) then i32 (bucket_from_khash tab (key_hash key)) else bucket)
    = key_hash key mod ht_bcount tab).
  { unfold bucket_from_khash. rewrite Hi. case_decide; [done|].
    by destruct Hbk as [?|[? _]]; [lia|]. }
  cbv zeta. rewrite E, E'.
  run_step. eapply bucket_get_runs; [apply Ht|lia|exact Hp|]. run_step. run_step.
  eapply runs_conseq; [eapply (find_loop_runs _ _ _ c); [apply Ht|done| |done|]|].
  - intros l n Hin. destruct (ta_placed _ _ _ _ _ Ht _ _ _ _ Hc Hin) as (_ & ? & _ & ?). done.
  - apply chain_fuel in Hch. unfold node_fuel. lia.
  - intros [l|] s' [-> Hf]; split; try done.
    + destruct Hf as (n & Hin & E2). exists n. split; [by eapply elem_of_concat_lookup|done].
    + intros l n Hin E2. destruct (placed_slot _ _ _ _ key Hb (ta_placed _ _ _ _ _ Ht) Hin Hk E2)
        as (c' & Hc' & Hin'). simplify_eq. by eapply Hf.
Qed.

(** What [found] says about the map. *)
Lemma found_map key cs r : keys_distinct (entries cs) -> found key (concat cs) r ->
  match r with
  | Some l => exists n, (l, n) ∈ concat cs /\ canon (hn_key n) = canon key /\
                map_of (entries cs) !! canon key = Some (entry_of n)
  | None => map_of (entries cs) !! canon key = None
  end.
Proof.
  intros Hd. destruct r as [l|]; cbn.
  - intros (n & Hin & E). exists n. split_and!; [done..|].
    rewrite <- E. apply (map_of_lookup (entries cs) (entry_of n)); [done|].
    apply list_elem_of_fmap. by exists (l, n).
  - intros Hf. apply map_of_lookup_None. intros e ([l n] & -> & Hin)%list_elem_of_fmap.
    by eapply Hf.
Qed.

(** *** Changing the nodes under a bucket array *)
Lemma elem_of_concat_fst cs i c l : cs !! i = Some c -> l ∈ c.*1 -> l ∈ (concat cs).*1.
Proof.
  intros Hc ([l0 n] & -> & Hin)%list_elem_of_fmap. apply list_elem_of_fmap.
  exists (l0, n). split; [done|]. by eapply elem_of_concat_lookup.
Qed.

Lemma buckets_ext g g' arr cs : buckets_at g arr cs ->
  (forall l, l ∈ (concat cs).*1 -> g' !! l = g !! l) -> buckets_at g' arr cs.
Proof.
  intros Hb Hext. apply Forall2_same_length_lookup. split; [by eapply Forall2_length|].
  intros i p c Hp Hc. eapply chain_ext; [by eapply Forall2_lookup_lr|].
  intros l Hl. apply Hext. by eapply elem_of_concat_fst.
Qed.

(** A node linked in at the head of its bucket. *)
Lemma buckets_push g arr cs i p c l n : buckets_at g arr cs ->
  arr !! i = Some p -> cs !! i = Some c -> l ∉ (concat cs).*1 -> hn_next n = p ->
  buckets_at (<[l := n]> g) (<[i := Some l]> arr) (<[i := (l, n) :: c]> cs).
Proof.
  intros Hb Hp Hc Hl Hn.
  assert (Hb' : buckets_at (<[l := n]> g) arr cs).
  { eapply buckets_ext; [done|]. intros l' Hl'. apply lookup_insert_ne. by intros ->. }
  apply Forall2_insert; [done|]. cbn. rewrite Hn. split_and!; [done|by rewrite lookup_insert_eq|].
  by eapply Forall2_lookup_lr.
Qed.

Definition node_at (bcount : Z) (i : nat) (n : node) : Prop :=
  hn_bucket n = Z.of_nat i /\ hn_khash n = key_hash (hn_key n) /\
  hn_khash n mod bcount = Z.of_nat i /\ key_ok (hn_key n).

Lemma placed_push bcount cs i c l n : placed bcount cs -> cs !! i = Some c ->
  node_at bcount i n -> placed bcount (<[i := (l, n) :: c]> cs).
Proof.
  intros Hp Hc Hn j c' l' n' Hc' Hin. destruct (decide (i = j)) as [<-|Hne].
  - rewrite list_lookup_insert_eq in Hc' by (by eapply lookup_lt_Some). simplify_eq.
    apply elem_of_cons in Hin as [[= -> ->]|Hin]; [done|by eapply Hp].
  - rewrite list_lookup_insert_ne in Hc' by done. by eapply Hp.
Qed.

(** *** Resizing *)
Definition tagged (c : list (loc * node)) : list (loc * entry) := prod_map id entry_of <$> c.

Lemma tagged_fst c : (tagged c).*1 = c.*1.
Proof. unfold tagged. rewrite <- list_fmap_compose. by apply list_fmap_ext; intros ? [] _. Qed.

Lemma tagged_snd c : (tagged c).*2 = entry_of ∘ snd <$> c.
Proof. unfold tagged. rewrite <- list_fmap_compose. by apply list_fmap_ext; intros ? [] _. Qed.

Definition hashed (c : list (loc * node)) : Prop :=
  forall l n, (l, n) ∈ c -> key_ok (hn_key n) /\ hn_khash n = key_hash (hn_key n).

(** The state during a resize: the new array, and nodes that are still to be moved. *)
Record moving (t : loc) (tab : ls_htable K) (todo : list (loc * node)) (arr : list ptr)
    (cs : cells) (s : state) : Prop := {
  mv_table : tables s !! t = Some tab;
  mv_array : arrays s !! ht_buckets tab = Some arr;
  mv_len : 0 < ht_bcount tab <= 2 ^ 30 /\ Z.of_nat (length arr) = ht_bcount tab;
  mv_chains : buckets_at (nodes s) arr cs;
  mv_placed : placed (ht_bcount tab) cs;
  mv_nodup : NoDup (todo.*1 ++ (concat cs).*1);
  mv_hashed : hashed todo;
  mv_wf : store_wf (hs_nodes s) }.

Record moved (tab : ls_htable K) (done_ : list (loc * node)) (cs cs' : cells) (s s' : state)
    : Prop := {
  md_perm : tagged (concat cs') ≡ₚ tagged done_ ++ tagged (concat cs);
  md_tables : hs_tables s' = hs_tables s;
  md_oom : hs_oom s' = hs_oom s;
  md_client : hs_client s' = hs_client s;
  md_next : st_next (hs_arrays s') = st_next (hs_arrays s) /\
            delete (ht_buckets tab) (arrays s') = delete (ht_buckets tab) (arrays s);
  md_frame : forall l, l ∉ done_.*1 -> nodes s' !! l = nodes s !! l }.

Lemma moved_refl tab cs s : moved tab [] cs cs s s.
Proof. by split. Qed.

Lemma moved_trans tab d1 d2 cs1 cs2 cs3 s1 s2 s3 :
  moved tab d1 cs1 cs2 s1 s2 -> moved tab d2 cs2 cs3 s2 s3 ->
  moved tab (d1 ++ d2) cs1 cs3 s1 s3.
Proof.
  intros [P1 T1 O1 C1 [N1 A1] F1] [P2 T2 O2 C2 [N2 A2] F2]. split; try congruence.
  - rewrite P2, P1. unfold tagged. rewrite fmap_app. solve_Permutation.
  - split; congruence.
  - intros l Hl. rewrite fmap_app, not_elem_of_app in Hl.
    rewrite F2, F1 by tauto. done.
Qed.

Lemma move_node_runs t tab l n todo arr cs s :
  moving t tab ((l, n) :: todo) arr cs s -> nodes s !! l = Some n ->
  runs (move_node t l n) s (fun _ s' =>
    exists arr' cs', moving t tab todo arr' cs' s' /\ moved tab [(l, n)] cs cs' s s').
Proof.
  intros [Ht Ha [Hb Hl] Hch Hp Hnd Hh Hwf] Hn. unfold move_node.
  destruct (Hh l n) as [Hok Hkh]; [by left|]. rewrite Hkh.
  destruct (slot_range _ (hn_key n) Hb) as (Hs & Hr & Hi).
  destruct (lookup_lt_is_Some_2 arr (slot (ht_bcount tab) (hn_key n))) as [p Hpp]; [lia|].
  destruct (Forall2_lookup_l _ _ _ _ _ Hch Hpp) as (c & Hc & Hcc).
  cbn [fst fmap list_fmap] in Hnd. apply NoDup_cons in Hnd as [Hnl Hnd].
  rewrite not_elem_of_app in Hnl.
  run_step. eapply runs_load; [done|]. cbv zeta.
  run_step. eapply bucket_get_runs; [done|lia|exact Hpp|].
  run_step. eapply runs_save; [cbn; by rewrite Hn|].
  eapply bucket_set_runs; [done|lia|exact Hpp|].
  rewrite Hi. fold (slot (ht_bcount tab) (hn_key n)).
  set (n' := HNode p _ _ _ _ _).
  assert (Hna : node_at (ht_bcount tab) (slot (ht_bcount tab) (hn_key n)) n').
  { unfold node_at. cbn. by rewrite Hs. }
  exists (<[slot (ht_bcount tab) (hn_key n) := Some l]> arr),
    (<[slot (ht_bcount tab) (hn_key n) := (l, n') :: c]> cs).
  split.
  - split; cbn.
    + done.
    + by rewrite lookup_insert_eq.
    + by rewrite length_insert.
    + apply (buckets_push _ _ _ _ p); [done..|apply Hnl|done].
    + by apply placed_push.
    + rewrite (concat_insert_perm _ _ _ _ Hc). cbn. rewrite <- Permutation_middle.
      constructor; [|done]. by rewrite not_elem_of_app.
    + intros l' n'' Hin. apply (Hh l'). by right.
    + apply store_wf_set; [by rewrite Hn|done].
  - split; cbn; try done.
    + unfold tagged. by rewrite (concat_insert_perm _ _ _ _ Hc).
    + by rewrite delete_insert_eq.
    + intros l' Hl'. rewrite lookup_insert_ne; [done|]. intros ->. apply Hl'. by left.
Qed.

Lemma move_chain_runs t tab c todo fuel : forall p arr cs s,
  moving t tab (c ++ todo) arr cs s -> chain hn_next (nodes s) p c -> (length c < fuel)%nat ->
  runs (move_chain fuel t p) s (fun _ s' =>
    exists arr' cs', moving t tab todo arr' cs' s' /\ moved tab c cs cs' s s').
Proof.
  revert fuel. induction c as [|[l n] c IH]; intros [|fuel] p arr cs s Hm Hch Hf; try (cbn in Hf; lia).
  - cbn in Hch. subst p. cbn. run. eauto using moved_refl.
  - pose proof (chain_nodup _ _ _ _ Hch) as Hnd.
    destruct Hch as (-> & Hl & Hch). cbn [move_chain]. st_run.
    eapply runs_conseq; [by eapply move_node_runs|].
    intros _ s1 (arr1 & cs1 & Hm1 & Hd1).
    eapply runs_conseq.
    { apply (IH fuel _ arr1 cs1); [done| |cbn in Hf; lia].
      eapply chain_ext; [done|]. intros l' Hl'. apply (md_frame _ _ _ _ _ _ Hd1).
      cbn. intros ->%list_elem_of_singleton. by apply NoDup_cons in Hnd as [? _]. }
    intros _ s2 (arr2 & cs2 & Hm2 & Hd2). exists arr2, cs2. split; [done|].
    by apply (moved_trans _ [(l, n)] c _ cs1 _ _ s1).
Qed.

Lemma move_buckets_runs t tab old oarr rest : old <> ht_buckets tab ->
  forall n c arr cs s, arrays s !! old = Some oarr -> 0 <= c ->
  buckets_at (nodes s) (drop (Z.to_nat c) oarr) rest -> n = length rest ->
  moving t tab (concat rest) arr cs s ->
  runs (move_buckets n c t old) s (fun _ s' =>
    exists arr' cs', moving t tab [] arr' cs' s' /\ moved tab (concat rest) cs cs' s s').
Proof.
  intros Hold. induction rest as [|ch rest IH]; intros n c arr cs s Ho Hc Hb -> Hm.
  - cbn. run. eauto using moved_refl.
  - cbn [move_buckets length]. destruct (drop (Z.to_nat c) oarr) as [|p d] eqn:Ed;
      apply Forall2_cons_inv_r in Hb as (p' & d' & Hch & Hb & E); [done|].
    injection E as <- <-.
    run_step. eapply bucket_get_runs; [done|done| |].
    { rewrite <- (Nat.add_0_r (Z.to_nat c)), <- lookup_drop, Ed. done. }
    run_step. run_step. run_step.
    eapply runs_conseq; [eapply (move_chain_runs _ _ ch); [exact Hm|done|]|].
    { apply chain_fuel in Hch. unfold node_fuel. lia. }
    intros _ s1 (arr1 & cs1 & Hm1 & Hd1).
    destruct (md_next _ _ _ _ _ _ Hd1) as [_ Hoth].
    eapply runs_conseq; [eapply (IH _ (c + 1) arr1 cs1)|].
    + rewrite <- Ho. apply (f_equal (lookup old)) in Hoth. by rewrite !lookup_delete_ne in Hoth.
    + lia.
    + replace (Z.to_nat (c + 1)) with (1 + Z.to_nat c)%nat by lia.
      rewrite Nat.add_comm, <- drop_drop, Ed. cbn.
      eapply buckets_ext; [done|]. intros l Hl. apply (md_frame _ _ _ _ _ _ Hd1). intros Hl'.
      pose proof (mv_nodup _ _ _ _ _ _ Hm) as Hnd. cbn in Hnd.
      rewrite fmap_app in Hnd. apply NoDup_app in Hnd as (Hnd & _ & _).
      apply NoDup_app in Hnd as (_ & Hdis & _). by eapply Hdis.
    + done.
    + done.
    + intros _ s2 (arr2 & cs2 & Hm2 & Hd2). exists arr2, cs2. split; [done|].
      cbn. by eapply moved_trans.
Qed.

Lemma entries_tagged cs : entries cs = (tagged (concat cs)).*2.
Proof. by rewrite tagged_snd. Qed.

Lemma chain_replicate_nil (g : gmap loc node) n : buckets_at g (replicate n None) (replicate n []).
Proof. apply Forall2_replicate. done. Qed.

Lemma placed_replicate_nil bcount n : placed bcount (replicate n []).
Proof.
  intros i c l x Hc Hin. apply lookup_replicate in Hc as [-> _]. by apply elem_of_nil in Hin.
Qed.

(** What an operation leaves of the caller's view: the same table, heap and client. *)
Definition same_table (t : loc) (tab : ls_htable K) (cs : cells) (s : state)
    (tab' : ls_htable K) (cs' : cells) (s' : state) : Prop :=
  rest_of t tab' cs' s' = rest_of t tab cs s /\ entries cs' ≡ₚ entries cs /\
  ht_count tab' = ht_count tab /\ hs_client s' = hs_client s.

Lemma table_at_oom t tab arr cs s : table_at t tab arr cs s -> table_at t tab arr cs (pop_oom s).
Proof. by intros [? ? ? ? ? ? ? ? ? ?]. Qed.

(** The table with a new array of buckets, before and after its nodes were moved to it. *)
Definition resized (buckets : Z) (tab : ls_htable K) (s : state) : ls_htable K :=
  HTable (ht_hash tab) (ht_cmp tab) (ht_count tab) buckets (u32 (ht_resize_count tab + 1)) (st_next (hs_arrays s)).

Definition resizing (t : loc) (buckets : Z) (tab : ls_htable K) (s : state) : state :=
  HState (st_set t (resized buckets tab s) (hs_tables s)) (st_add (replicate (Z.to_nat buckets) None) (hs_arrays s))
    (hs_nodes s) (tail (hs_oom s)) (hs_client s).

Lemma resize_start t tab arr cs s buckets : table_at t tab arr cs s -> 0 < buckets <= 2 ^ 30 ->
  moving t (resized buckets tab s) (concat cs) (replicate (Z.to_nat buckets) None) (replicate (Z.to_nat buckets) [])
    (resizing t buckets tab s).
Proof.
  intros Ht Hbk. pose proof (ta_wf _ _ _ _ _ Ht) as (Hwt & Hwa & Hwn).
  pose proof (buckets_nodup _ _ _ (ta_chains _ _ _ _ _ Ht) (ta_keys _ _ _ _ _ Ht)) as Hnd. split; cbn.
  - by rewrite lookup_insert_eq.
  - by rewrite lookup_insert_eq.
  - rewrite length_replicate. split; lia.
  - apply chain_replicate_nil.
  - apply placed_replicate_nil.
  - rewrite concat_replicate_nil, app_nil_r. done.
  - intros l n (i & c & Hc & Hin)%elem_of_concat_inv.
    destruct (ta_placed _ _ _ _ _ Ht _ _ _ _ Hc Hin) as (_ & ? & _ & ?). done.
  - done.
Qed.

Lemma resize_end t tab arr cs s buckets arr2 cs2 s2 : table_at t tab arr cs s ->
  moving t (resized buckets tab s) [] arr2 cs2 s2 ->
  moved (resized buckets tab s) (concat cs) (replicate (Z.to_nat buckets) []) cs2 (resizing t buckets tab s) s2 ->
  let s3 := with_store (st_del (ht_buckets tab) (hs_arrays s2)) s2 in
  arrays s2 !! ht_buckets tab = Some arr /\ table_at t (resized buckets tab s) arr2 cs2 s3 /\
  same_table t tab cs s (resized buckets tab s) cs2 s3.
Proof.
  intros Ht [Hm1 Hm2 Hm3 Hm4 Hm5 Hm6 Hm7 Hm8] [P T O Cc [N A] F]. pose proof (ta_wf _ _ _ _ _ Ht) as (Hwt & Hwa & Hwn).
  pose proof (store_wf_fresh _ Hwa) as Hfr. cbn in T, O, Cc, N, A, F. rewrite concat_replicate_nil, app_nil_r in P.
  set (nb := st_next (hs_arrays s)) in *.
  assert (Hne : ht_buckets tab <> nb).
  { intros E. pose proof (ta_array _ _ _ _ _ Ht) as Ha. congruence. }
  assert (Hlook : forall l, l <> nb -> arrays s2 !! l = arrays s !! l).
  { intros l Hl. apply (f_equal (lookup l)) in A. by rewrite !lookup_delete_ne, lookup_insert_ne in A. }
  assert (Pe : entries cs2 ≡ₚ entries cs) by (by rewrite !entries_tagged, P).
  split_and!; [rewrite Hlook by done; apply Ht|split|split_and!]; try done; cbn.
  - by rewrite lookup_delete_ne.
  - apply Ht.
  - apply Ht.
  - eapply keys_distinct_perm; [by symmetry|]. apply Ht.
  - destruct (ta_count _ _ _ _ _ Ht) as [-> ?]. split; [|done]. f_equal.
    apply Permutation_length in P. unfold tagged in P. by rewrite !length_fmap in P.
  - rewrite T. split_and!; [by apply store_wf_set; [rewrite (ta_table _ _ _ _ _ Ht)|]| |done].
    apply store_wf_del. intros l. rewrite N. destruct (decide (l = nb)) as [->|Hln]; [unfold nb; lia|].
    rewrite Hlook by done. intros Hl%Hwa. cbn. fold nb in Hl |- *. lia.
  - unfold rest_of. cbn. f_equal.
    + rewrite T. cbn. by rewrite delete_insert_eq.
    + rewrite (delete_delete _ nb), A. cbn. by rewrite delete_insert_id.
    + apply map_eq. intros l. rewrite !lookup_without.
      assert (E : l ∈ (concat cs2).*1 <-> l ∈ (concat cs).*1) by (rewrite <- !tagged_fst; by rewrite P).
      repeat case_decide; try tauto. by apply F.
Qed.

Lemma resize_runs t tab arr cs s buckets : table_at t tab arr cs s -> 0 < buckets <= 2 ^ 30 ->
  runs (resize_hashtable t buckets) s (fun r s' => exists tab' arr' cs',
    table_at t tab' arr' cs' s' /\ same_table t tab cs s tab' cs' s' /\
    match r with
    | Ok _ => ht_bcount tab' = buckets
    | Err e => e = LS_ERR_NO_MEMORY /\ tab' = tab
    end).
Proof.
  intros Ht Hbk. unfold resize_hashtable. run_step. eapply runs_load; [apply Ht|]. run_step. apply runs_new.
  { run. exists tab, arr, cs. split_and!; try done. by apply table_at_oom. }
  pose proof (store_wf_fresh _ (proj1 (proj2 (ta_wf _ _ _ _ _ Ht)))) as Hfr.
  assert (Hne : ht_buckets tab <> st_next (hs_arrays s)).
  { intros E. pose proof (ta_array _ _ _ _ _ Ht) as Ha. congruence. }
  run_step. eapply runs_save; [cbn; by rewrite (ta_table _ _ _ _ _ Ht)|]. run_step.
  change (with_store _ _) with (resizing t buckets tab s).
  eapply runs_conseq; [eapply (move_buckets_runs t (resized buckets tab s) (ht_buckets tab) arr cs); [done|..]|].
  - cbn. rewrite lookup_insert_ne by done. apply Ht.
  - lia.
  - apply Ht.
  - destruct (ta_bcount _ _ _ _ _ Ht) as [_ <-]. rewrite Nat2Z.id. by eapply Forall2_length, Ht.
  - by eapply resize_start.
  - intros _ s2 (arr2 & cs2 & Hm & Hd). destruct (resize_end _ _ _ _ _ _ _ _ _ Ht Hm Hd) as (Ho & Ht2 & Hs).
    run_step. eapply runs_release; [cbn; by rewrite Ho|]. run_step. by exists (resized buckets tab s), arr2, cs2.
Qed.

(** *** Calls of cleaner functions *)
Definition hcall : Type := CL * bool * bool * K * option V.

Fixpoint run_calls (xs : list hcall) : C S unit :=
  match xs with
  | [] => mret tt
  | (c, r, d, k, v) :: xs => call c r d k v;; run_calls xs
  end.

Definition entry_call (replace destroy : bool) (e : entry) : list hcall :=
  match e.2 with Some c => [(c, replace, destroy, e.1.1, e.1.2)] | None => [] end.

Lemma run_calls_app xs ys x y z : run_calls xs x = Done (tt, y) ->
  run_calls ys y = Done (tt, z) -> run_calls (xs ++ ys) x = Done (tt, z).
Proof.
  revert x. induction xs as [|[[[[c r] d] k] v] xs IH]; cbn; intros x Hx Hy.
  - by injection Hx as ->.
  - apply bind_done_inv in Hx as ([] & x1 & Hc & Hx). rewrite (bind_done _ _ _ _ _ Hc). eauto.
Qed.

Lemma run_calls_app_inv xs ys x z : run_calls (xs ++ ys) x = Done (tt, z) ->
  exists y, run_calls xs x = Done (tt, y) /\ run_calls ys y = Done (tt, z).
Proof.
  revert x. induction xs as [|[[[[c r] d] k] v] xs IH]; cbn; intros x H.
  - by exists x.
  - apply bind_done_inv in H as ([] & x1 & Hc & (y & Hx & Hy)%IH).
    exists y. split; [|done]. by rewrite (bind_done _ _ _ _ _ Hc).
Qed.

Lemma runs_call_cleaner n replace destroy c' s (Q : unit -> state -> Prop) :
  run_calls (entry_call replace destroy (entry_of n)) (hs_client s) = Done (tt, c') ->
  Q tt (set_client c' s) ->
  runs (call_cleaner call (hn_cleaner n) replace destroy (hn_key n) (hn_value n)) s Q.
Proof.
  unfold entry_call, call_cleaner. cbn. destruct (hn_cleaner n) as [c|]; cbn.
  - intros ([] & x & Hc & [= ->])%bind_done_inv HQ. apply runs_zoom. by eapply runs_done.
  - intros [= <-] HQ. apply runs_ret. by destruct s.
Qed.

(** *** Entries and the map *)

Lemma table_rep_lookup B t m s k : table_rep B t m s -> key_ok k ->
  exists r tab cs, find_node t k (-1) 0 s = Done (r, s) /\
    match r with
    | Some l => exists n, nodes s !! l = Some n /\ (l, n) ∈ concat cs /\
                  m !! canon k = Some (entry_of n)
    | None => m !! canon k = None
    end /\ tables s !! t = Some tab.
Proof.
  intros (tab & arr & cs & Ht & HB & <-) Hk.
  destruct (runs_inv _ _ _ (find_node_runs _ _ _ _ _ k (-1) 0 Ht Hk ltac:(lia)))
    as (r & s' & E & -> & Hf).
  apply found_map in Hf; [|apply Ht]. exists r, tab, cs. split; [done|].
  split; [|apply Ht]. destruct r as [l|]; [|done]. destruct Hf as (n & Hin & _ & Hm).
  exists n. split_and!; [|done..]. eapply buckets_lookup; [apply Ht|done].
Qed.

Lemma ls_htable_get_done B t m s k : table_rep B t m s -> key_ok k ->
  ls_htable_get t k s = Done (m !! canon k ≫= entry_value, s).
Proof.
  intros Hr Hk. destruct (table_rep_lookup _ _ _ _ _ Hr Hk) as (r & tab & cs & E & Hl & _).
  unfold ls_htable_get. rewrite (bind_done _ _ _ _ _ E). destruct r as [l|].
  - destruct Hl as (n & Hn & _ & Hm). unfold load, c_get, mbind, C_bind. cbn.
    rewrite Hn, Hm. done.
  - by rewrite Hl.
Qed.

Lemma map_of_insert es e : map_of (e :: es) = <[canon (key_of e) := e]> (map_of es).
Proof. done. Qed.

Lemma link_node_runs t tab arr cs s key value cl : table_at t tab arr cs s -> key_ok key ->
  map_of (entries cs) !! canon key = None -> ht_count tab + 1 < 2 ^ 32 ->
  runs (link_node t key value cl (key_hash key)) s (fun r s' => hs_client s' = hs_client s /\
    exists tab' arr' cs', table_at t tab' arr' cs' s' /\
      rest_of t tab' cs' s' = rest_of t tab cs s /\
      match r with
      | Ok _ => entries cs' ≡ₚ (key, value, cl) :: entries cs
      | Err e => e = LS_ERR_NO_MEMORY /\ entries cs' = entries cs
      end).
Proof.
  intros Ht Hk Hnew Hcnt. pose proof (ta_wf _ _ _ _ _ Ht) as (Hwt & Hwa & Hwn).
  pose proof (store_wf_fresh _ Hwn) as Hfr.
  destruct (ta_bcount _ _ _ _ _ Ht) as [Hb Hlen].
  destruct (slot_range _ key Hb) as (Hs & Hr & Hi).
  destruct (table_slot _ _ _ _ _ key Ht) as (p & c & Hp & Hc & Hch).
  unfold link_node, bucket_from_khash. run_step. eapply runs_load; [apply Ht|].
  run_step. eapply bucket_get_runs; [apply Ht|lia|exact Hp|].
  run_step. apply runs_new.
  { run. split; [done|]. exists tab, arr, cs. split_and!; [by apply table_at_oom|done..]. }
  cbn. set (l := st_next (hs_nodes s)) in *. set (n := HNode _ _ _ _ _ _).
  assert (Hl : l ∉ (concat cs).*1).
  { intros ([l' n'] & E & Hin)%list_elem_of_fmap. cbn in E. subst l'.
    pose proof (buckets_lookup _ _ _ _ _ (ta_chains _ _ _ _ _ Ht) Hin). congruence. }
  run_step. eapply bucket_set_runs; [apply Ht|lia|exact Hp|].
  fold (slot (ht_bcount tab) key).
  run_step. eapply runs_update; [apply Ht|]. run_step. split; [done|].
  set (sl := slot (ht_bcount tab) key) in *.
  assert (Pe : entries (<[sl := (l, n) :: c]> cs) ≡ₚ (key, value, cl) :: entries cs).
  { unfold entries. by rewrite (concat_insert_perm _ _ _ _ Hc). }
  eexists _, (<[sl := Some l]> arr), (<[sl := (l, n) :: c]> cs).
  split_and!; [split|..|exact Pe]; cbn.
  - apply lookup_insert_eq.
  - cbn. apply lookup_insert_eq.
  - apply (buckets_push _ _ _ _ p); [apply Ht|done..].
  - apply Ht.
  - apply Ht.
  - by rewrite length_insert.
  - apply placed_push; [apply Ht|done|]. unfold node_at. cbn. by rewrite Hi, Hs.
  - unfold keys_distinct. rewrite Pe. cbn. constructor; [|apply Ht].
    intros (e & E & He)%list_elem_of_fmap. cbn in E.
    rewrite E, (map_of_lookup _ _ (ta_keys _ _ _ _ _ Ht) He) in Hnew. done.
  - destruct (ta_count _ _ _ _ _ Ht) as [Ecnt _].
    rewrite uwrap_id, (concat_insert_perm _ _ _ _ Hc) by (unfold in_range; lia). cbn. lia.
  - split_and!; [apply store_wf_set|apply store_wf_set|by apply store_wf_add]; try done.
    + cbn. by rewrite (ta_table _ _ _ _ _ Ht).
    + cbn. by rewrite (ta_array _ _ _ _ _ Ht).
  - unfold rest_of. cbn. f_equal; [by rewrite delete_insert_eq..|].
    rewrite (without_ext _ (l :: (concat cs).*1)); [by rewrite without_cons_new|].
    intros l'. by rewrite (concat_insert_perm _ _ _ _ Hc).
Qed.

(** *** One entry changed or taken out *)
Lemma nodes_split cs (l : loc) (n : node) : (l, n) ∈ concat cs -> exists i c pre post,
  cs !! i = Some c /\ c = pre ++ (l, n) :: post.
Proof.
  intros (i & c & Hc & (pre & post & ->)%list_elem_of_split)%elem_of_concat_inv. eauto 6.
Qed.

(** A bucket's list replaced by one over the same or fewer objects. *)
Lemma bucket_change (g g' : gmap loc node) arr cs i p c c' :
  buckets_at g arr cs -> keys_distinct (entries cs) -> cs !! i = Some c ->
  chain hn_next g' p c' -> (forall l, l ∉ c.*1 -> g' !! l = g !! l) ->
  buckets_at g' (<[i := p]> arr) (<[i := c']> cs).
Proof.
  intros Hb Hd Hc Hch Hext. pose proof (buckets_nodup _ _ _ Hb Hd) as Hnd.
  apply Forall2_same_length_lookup. split.
  { rewrite !length_insert. by eapply Forall2_length. }
  intros j q cj Hq Hcj. destruct (decide (i = j)) as [<-|Hne].
  - rewrite list_lookup_insert_eq in Hcj by (by eapply lookup_lt_Some).
    destruct (Forall2_lookup_r _ _ _ _ _ Hb Hc) as (p0 & Hp0 & _).
    rewrite list_lookup_insert_eq in Hq by (by eapply lookup_lt_Some).
    by simplify_eq.
  - rewrite list_lookup_insert_ne in Hq by done. rewrite list_lookup_insert_ne in Hcj by done.
    eapply chain_ext; [by eapply Forall2_lookup_lr|]. intros l Hl. apply Hext. intros Hl'.
    assert (Hdis : forall (xs : cells) i j ci cj, i <> j -> xs !! i = Some ci -> xs !! j = Some cj ->
      NoDup (concat xs).*1 -> l ∈ ci.*1 -> l ∈ cj.*1 -> False); [|by eapply (Hdis cs i j)].
    clear. induction xs as [|x xs IH]; intros i j ci cj Hne Hi Hj Hnd Hl Hl'; [done|].
    cbn in Hnd. rewrite fmap_app in Hnd. apply NoDup_app in Hnd as (_ & Hd & Hnd).
    destruct i as [|i], j as [|j]; simplify_eq/=.
    + apply (Hd l Hl). by eapply elem_of_concat_fst.
    + apply (Hd l Hl'). by eapply elem_of_concat_fst.
    + eapply (IH i j); eauto.
Qed.

Lemma placed_change bcount cs i c c' : placed bcount cs -> cs !! i = Some c ->
  (forall l n, (l, n) ∈ c' -> node_at bcount i n) -> placed bcount (<[i := c']> cs).
Proof.
  intros Hp Hc Hn j cj l n Hcj Hin. destruct (decide (i = j)) as [<-|Hne].
  - rewrite list_lookup_insert_eq in Hcj by (by eapply lookup_lt_Some). simplify_eq. by eapply Hn.
  - rewrite list_lookup_insert_ne in Hcj by done. by eapply Hp.
Qed.

Lemma map_of_middle es1 e es2 : keys_distinct (es1 ++ e :: es2) ->
  map_of (es1 ++ e :: es2) = <[canon (key_of e) := e]> (map_of (es1 ++ es2)) /\
  keys_distinct (es1 ++ es2) /\ map_of (es1 ++ es2) !! canon (key_of e) = None.
Proof.
  intros Hd. assert (Hp : es1 ++ e :: es2 ≡ₚ e :: es1 ++ es2) by (by rewrite Permutation_middle).
  split; [by rewrite (map_of_perm _ _ Hd Hp)|]. apply (keys_distinct_perm _ _ Hp) in Hd.
  unfold keys_distinct in Hd. cbn in Hd. apply NoDup_cons in Hd as [Hn Hd]. split; [done|].
  apply map_of_lookup_None. intros e' He' E. apply Hn. rewrite <- E.
  by apply (list_elem_of_fmap_2 (canon ∘ key_of)).
Qed.

(** The entries around one node. *)
Lemma entries_change cs i c pre l n post c' : cs !! i = Some c -> c = pre ++ (l, n) :: post ->
  entries cs = (entry_of ∘ snd <$> concat (take i cs) ++ pre) ++
                 entry_of n :: (entry_of ∘ snd <$> post ++ concat (drop (Datatypes.S i) cs)) /\
  entries (<[i := c']> cs) = (entry_of ∘ snd <$> concat (take i cs)) ++ (entry_of ∘ snd <$> c') ++
                 (entry_of ∘ snd <$> concat (drop (Datatypes.S i) cs)) /\
  (concat cs).*1 = (concat (take i cs) ++ pre).*1 ++ l :: (post ++ concat (drop (Datatypes.S i) cs)).*1.
Proof.
  intros Hc ->. unfold entries. rewrite (concat_insert _ _ _ _ Hc), (concat_split _ _ _ Hc).
  rewrite !fmap_app. cbn. by rewrite <- !app_assoc.
Qed.

Lemma table_set_entry t tab arr cs s l n n' : table_at t tab arr cs s -> (l, n) ∈ concat cs ->
  hn_next n' = hn_next n -> hn_bucket n' = hn_bucket n -> hn_khash n' = hn_khash n ->
  key_ok (hn_key n') -> canon (hn_key n') = canon (hn_key n) ->
  exists cs', table_at t tab arr cs' (with_store (st_set l n' (hs_nodes s)) s) /\
    rest_of t tab cs' (with_store (st_set l n' (hs_nodes s)) s) = rest_of t tab cs s /\
    map_of (entries cs') = <[canon (hn_key n) := entry_of n']> (map_of (entries cs)).
Proof.
  intros Ht Hin Hnx Hbk Hkh Hok Hcan.
  destruct (nodes_split _ _ _ Hin) as (i & c & pre & post & Hc & Ec).
  pose proof (buckets_lookup _ _ _ _ _ (ta_chains _ _ _ _ _ Ht) Hin) as Hl.
  destruct (Forall2_lookup_r _ _ _ _ _ (ta_chains _ _ _ _ _ Ht) Hc) as (p & Hp & Hch).
  pose proof Hch as Hch'. rewrite Ec in Hch'.
  destruct (chain_middle_nodup _ _ _ _ _ _ _ Hch') as [Hpre Hpost].
  set (c' := pre ++ (l, n') :: post).
  destruct (entries_change cs i c pre l n post c' Hc Ec) as (E1 & E2 & E3).
  assert (Hloc : (concat (<[i := c']> cs)).*1 = (concat cs).*1).
  { rewrite (concat_insert _ _ _ _ Hc), (concat_split _ _ _ Hc), Ec. unfold c'.
    by rewrite !fmap_app. }
  assert (E2' : entries (<[i := c']> cs) =
    (entry_of ∘ snd <$> concat (take i cs) ++ pre) ++ entry_of n' ::
    (entry_of ∘ snd <$> post ++ concat (drop (Datatypes.S i) cs))).
  { rewrite E2. unfold c'. rewrite !fmap_app. cbn. by rewrite <- !app_assoc. }
  pose proof (ta_keys _ _ _ _ _ Ht) as Hd.
  assert (Hd' : keys_distinct (entries (<[i := c']> cs))).
  { rewrite E2'. rewrite E1 in Hd. unfold keys_distinct in *.
    rewrite fmap_app in *. cbn in *. by rewrite Hcan. }
  exists (<[i := c']> cs). split_and!.
  - split; cbn; try apply Ht; try done.
    + rewrite <- (list_insert_id arr i p) by done.
      eapply (bucket_change (nodes s)); [apply Ht|apply Ht|done| |].
      * unfold c'. eapply chain_relink; [done..|]. rewrite Hnx. by eapply chain_drop.
      * intros l' Hl'. apply lookup_insert_ne. intros ->. apply Hl'. rewrite Ec, fmap_app.
        apply elem_of_app. right. by left.
    + eapply placed_change; [apply Ht|done|]. intros l' n''. unfold c'.
      pose proof (ta_placed _ _ _ _ _ Ht _ _ l n Hc) as Hpl.
      rewrite elem_of_app, elem_of_cons. intros [Hin'|[[= -> ->]|Hin']].
      * eapply (ta_placed _ _ _ _ _ Ht); [done|]. rewrite Ec. apply elem_of_app. by left.
      * destruct Hpl as (B1 & B2 & B3 & B4).
        { rewrite Ec. apply elem_of_app. right. by left. }
        unfold node_at. rewrite Hbk, Hkh, B2. split_and!; [done| |by rewrite <- B2|done].
        by apply key_hash_canon.
      * eapply (ta_placed _ _ _ _ _ Ht); [done|]. rewrite Ec. apply elem_of_app. right. by right.
    + destruct (ta_count _ _ _ _ _ Ht) as [-> ?]. apply (f_equal length) in Hloc.
      rewrite !length_fmap in Hloc. by rewrite Hloc.
    + destruct (ta_wf _ _ _ _ _ Ht) as (? & ? & ?). split_and!; [done..|].
      apply store_wf_set; [by rewrite Hl|done].
  - unfold rest_of. cbn. f_equal. rewrite Hloc. apply without_insert_in.
    rewrite E3. apply elem_of_app. right. by left.
  - rewrite E2'. rewrite E2' in Hd'. destruct (map_of_middle _ _ _ Hd') as (-> & _ & _).
    rewrite E1 in Hd |- *. destruct (map_of_middle _ _ _ Hd) as (-> & _ & _).
    unfold key_of. cbn. rewrite Hcan. by rewrite insert_insert_eq.
Qed.

Lemma find_prev_runs l n pre : forall lp np post p fuel s,
  chain hn_next (nodes s) p (pre ++ (lp, np) :: (l, n) :: post) -> (length pre < fuel)%nat ->
  runs (find_prev fuel p l) s (fun r s' => s' = s /\ r = lp).
Proof.
  induction pre as [|[l0 n0] pre IH]; intros lp np post p fuel s Hch Hf;
    (destruct fuel as [|fuel]; [cbn in Hf; lia|]).
  - destruct Hch as (-> & Hlp & Hn & _). cbn [find_prev]. st_run.
    rewrite decide_True by done. by run.
  - pose proof (chain_nodup _ _ _ _ Hch) as Hnd. destruct Hch as (-> & Hl0 & Hch).
    cbn [find_prev]. st_run. rewrite decide_False.
    + eapply IH; [done|]. cbn in Hf. lia.
    + intros E. rewrite E in Hch. cbn in Hnd. apply NoDup_cons in Hnd as [_ Hnd].
      destruct pre as [|[l1 n1] pre]; cbn in Hch, Hnd; destruct Hch as ([= ->] & _ & _);
        apply NoDup_cons in Hnd as [Hnd _]; apply Hnd; [by left|].
      rewrite fmap_app. apply elem_of_app. right. right. by left.
Qed.

(** A node that comes after another one is not where the chain starts. *)
Lemma chain_head_before {N} (next : N -> option loc) g p pre x l n post :
  chain next g p (pre ++ x :: (l, n) :: post) -> p <> Some l.
Proof.
  intros Hch ->. pose proof (chain_nodup _ _ _ _ Hch) as Hnd.
  destruct pre as [|[l1 n1] pre]; [destruct x as [l1 n1]|]; cbn in Hch, Hnd;
    destruct Hch as ([= ->] & _ & _); apply NoDup_cons in Hnd as [Hnd _]; apply Hnd.
  - by left.
  - rewrite fmap_app. apply elem_of_app. right. right. by left.
Qed.

(** Unchaining leaves the bucket's other nodes, in order; only one link changes. *)
Lemma unchain_runs t tab arr cs s i c pre l n post :
  table_at t tab arr cs s -> cs !! i = Some c -> c = pre ++ (l, n) :: post ->
  runs (unchain tab l n) s (fun _ s' => exists p c' g,
    s' = HState (hs_tables s) (st_set (ht_buckets tab) (<[i := p]> arr) (hs_arrays s))
           (Store g (st_next (hs_nodes s))) (hs_oom s) (hs_client s) /\
    chain hn_next g p c' /\ tagged c' = tagged (pre ++ post) /\
    (forall l' n', (l', n') ∈ c' -> node_at (ht_bcount tab) i n') /\
    (forall l', is_Some (g !! l') <-> is_Some (nodes s !! l')) /\
    (forall l', l' ∉ c.*1 -> g !! l' = nodes s !! l') /\ g !! l = nodes s !! l).
Proof.
  intros Ht Hc Ec. destruct (Forall2_lookup_r _ _ _ _ _ (ta_chains _ _ _ _ _ Ht) Hc) as (p & Hp & Hch).
  assert (Hpl : forall l' n', (l', n') ∈ c -> node_at (ht_bcount tab) i n').
  { intros l' n' Hin. exact (ta_placed _ _ _ _ _ Ht _ _ _ _ Hc Hin). }
  assert (Hin : (l, n) ∈ c) by (rewrite Ec; apply elem_of_app; right; by left).
  pose proof (Hpl _ _ Hin) as (Hbk & _ & _ & _).
  pose proof (chain_lookup _ _ _ _ _ _ Hch Hin) as Hl.
  rewrite Ec in Hch. unfold unchain. rewrite Hbk.
  run_step. eapply bucket_get_runs; [apply Ht|lia|by rewrite Nat2Z.id|].
  destruct pre as [|[lp np] pre _] using rev_ind.
  - destruct Hch as (-> & _ & Hch). rewrite decide_True by done.
    eapply bucket_set_runs; [apply Ht|lia|by rewrite Nat2Z.id|]. rewrite Nat2Z.id.
    exists (hn_next n), post, (nodes s). split_and!; try done; cbn.
    { by destruct s as [? ? [] ? ?]. }
    intros l' n' Hin'. apply (Hpl l'). rewrite Ec. by right.
  - rewrite <- app_assoc in Hch. cbn in Hch.
    destruct (chain_middle_nodup _ _ _ _ _ _ _ Hch) as [Hn1 Hn2]. cbn in Hn2.
    apply not_elem_of_cons in Hn2 as [Hne Hn2].
    assert (Hlp : nodes s !! lp = Some np).
    { eapply chain_lookup; [exact Hch|]. apply elem_of_app. right. by left. }
    pose proof (chain_head_before _ _ _ _ _ _ _ _ Hch) as Hp'.
    rewrite decide_False by done. run_step. run_step. run_step.
    eapply runs_conseq.
    { eapply find_prev_runs; [exact Hch|]. apply chain_fuel in Hch.
      rewrite length_app in Hch. unfold node_fuel. cbn in Hch. lia. }
    intros r s' [-> ->]. eapply runs_update; [exact Hlp|].
    set (np' := HNode _ _ _ _ _ _).
    exists p, (pre ++ (lp, np') :: post), (<[lp := np']> (nodes s)). split_and!.
    + rewrite list_insert_id by done. unfold st_set. rewrite (insert_id (arrays s)) by apply Ht.
      by destruct s as [? [] ? ? ?].
    + eapply chain_relink; [done..|]. cbn.
      change (hn_next np') with (hn_next n). apply (chain_drop hn_next _ p (pre ++ [(lp, np)]) l n).
      by rewrite <- app_assoc.
    + unfold tagged. rewrite !fmap_app. cbn. by rewrite <- app_assoc.
    + intros l' n'. rewrite elem_of_app, elem_of_cons. intros [Hi|[[= -> ->]|Hi]].
      * apply (Hpl l'). rewrite Ec, !elem_of_app. auto.
      * apply (Hpl lp np). rewrite Ec, !elem_of_app. left. right. by left.
      * apply (Hpl l'). rewrite Ec, !elem_of_app. right. by right.
    + intros l'. destruct (decide (l' = lp)) as [->|Hx].
      * rewrite lookup_insert_eq, Hlp. split; eauto.
      * by rewrite lookup_insert_ne.
    + intros l' Hl'. apply lookup_insert_ne. intros ->. apply Hl'.
      rewrite Ec, !fmap_app, !elem_of_app. left. right. by left.
    + by apply lookup_insert_ne.
Qed.

(** The cells without one node. *)
Lemma removed_cells t tab arr cs s i c pre l n post ch : table_at t tab arr cs s ->
  cs !! i = Some c -> c = pre ++ (l, n) :: post -> tagged ch = tagged (pre ++ post) ->
  let cs' := <[i := ch]> cs in
  (concat cs).*1 ≡ₚ l :: (concat cs').*1 /\ (l ∉ (concat cs').*1) /\ keys_distinct (entries cs') /\
  map_of (entries cs') = delete (canon (hn_key n)) (map_of (entries cs)) /\
  entries cs ≡ₚ entry_of n :: entries cs'.
Proof.
  intros Ht Hc Ec Htag cs'. pose proof (ta_keys _ _ _ _ _ Ht) as Hd.
  pose proof (buckets_nodup _ _ _ (ta_chains _ _ _ _ _ Ht) Hd) as Hnd.
  destruct (entries_change cs i c pre l n post ch Hc Ec) as (E1 & E2 & E3). fold cs' in E2.
  assert (Etag : entry_of ∘ snd <$> ch = (entry_of ∘ snd <$> pre) ++ (entry_of ∘ snd <$> post)).
  { rewrite <- !tagged_snd, Htag. unfold tagged. by rewrite !fmap_app. }
  assert (E2' : entries cs' = (entry_of ∘ snd <$> concat (take i cs) ++ pre) ++
    (entry_of ∘ snd <$> post ++ concat (drop (Datatypes.S i) cs))).
  { rewrite E2, Etag, !fmap_app. by rewrite <- !app_assoc. }
  assert (Eloc : ch.*1 = pre.*1 ++ post.*1).
  { rewrite <- tagged_fst, Htag, tagged_fst. by rewrite fmap_app. }
  assert (Hlocs : (concat cs').*1 =
    (concat (take i cs) ++ pre).*1 ++ (post ++ concat (drop (Datatypes.S i) cs)).*1).
  { unfold cs'. rewrite (concat_insert _ _ _ _ Hc), !fmap_app, Eloc. by rewrite <- !app_assoc. }
  assert (Hp : (concat cs).*1 ≡ₚ l :: (concat cs').*1) by (rewrite Hlocs, E3; by rewrite Permutation_middle).
  rewrite E1 in Hd. destruct (map_of_middle _ _ _ Hd) as (Em & Hd' & Hnone).
  split_and!; [done| |by rewrite E2'|rewrite E2', E1, Em, delete_insert_id; done|rewrite E2', E1; by rewrite Permutation_middle].
  rewrite Hp in Hnd. by apply NoDup_cons in Hnd as [? _].
Qed.

Lemma remove_node_runs t tab arr cs s l n c' : table_at t tab arr cs s -> (l, n) ∈ concat cs ->
  run_calls (entry_call false true (entry_of n)) (hs_client s) = Done (tt, c') ->
  runs (ls_htable_remove_node call t l) s (fun _ s' => hs_client s' = c' /\
    exists tab' arr' cs', table_at t tab' arr' cs' s' /\
      rest_of t tab' cs' s' = rest_of t tab cs s /\
      map_of (entries cs') = delete (canon (hn_key n)) (map_of (entries cs)) /\
      entries cs ≡ₚ entry_of n :: entries cs').
Proof.
  intros Ht Hin Hcall. destruct (nodes_split _ _ _ Hin) as (i & c & pre & post & Hc & Ec).
  pose proof (buckets_lookup _ _ _ _ _ (ta_chains _ _ _ _ _ Ht) Hin) as Hl.
  unfold ls_htable_remove_node. run_step. eapply runs_load; [apply Ht|].
  run_step. eapply runs_load; [done|]. run_step.
  eapply runs_conseq; [by eapply unchain_runs|].
  intros _ s1 (p & ch & g & -> & Hch & Htag & Hpl & Hdom & Hext & Hgl).
  run_step. eapply runs_call_cleaner; [done|]. run_step.
  eapply runs_release; [cbn; by rewrite Hgl, Hl|].
  eapply runs_update; [apply Ht|]. split; [done|].
  destruct (removed_cells _ _ _ _ _ _ _ _ _ _ _ ch Ht Hc Ec Htag) as (Hp & Hlout & Hd & Em & Ep).
  set (tab' := HTable (ht_hash tab) (ht_cmp tab) (u32 (ht_count tab - 1)) (ht_bcount tab)
    (ht_resize_count tab) (ht_buckets tab)).
  exists tab', (<[i := p]> arr), (<[i := ch]> cs). split_and!; [split; try apply Ht| |done|done]; cbn.
  - by rewrite lookup_insert_eq.
  - by rewrite lookup_insert_eq.
  - eapply buckets_ext; [eapply (bucket_change (nodes s)); [apply Ht|apply Ht|done|exact Hch|done]|].
    intros l' Hl'. apply lookup_delete_ne. by intros ->.
  - rewrite length_insert. apply Ht.
  - eapply placed_change; [apply Ht|done|exact Hpl].
  - done.
  - destruct (ta_count _ _ _ _ _ Ht) as [Ecnt Hmax]. apply Permutation_length in Hp.
    cbn [length] in Hp. rewrite !length_fmap in Hp. rewrite uwrap_id by (unfold in_range; lia). lia.
  - destruct (ta_wf _ _ _ _ _ Ht) as (? & ? & ?). split_and!.
    + apply store_wf_set; [by rewrite (ta_table _ _ _ _ _ Ht)|done].
    + apply store_wf_set; [by rewrite (ta_array _ _ _ _ _ Ht)|done].
    + apply store_wf_del. intros l' Hl'. cbn in *. apply Hdom in Hl'. eauto.
  - unfold rest_of. cbn. f_equal; [by rewrite delete_insert_eq..|].
    rewrite without_delete. apply map_eq. intros l'. rewrite !lookup_without.
    assert (El : l' ∈ l :: (concat (<[i := ch]> cs)).*1 <-> l' ∈ (concat cs).*1) by (by rewrite Hp).
    repeat case_decide; try tauto. apply Hext. intros Hx. by apply (elem_of_concat_fst _ _ _ _ Hc) in Hx.
Qed.

(** *** The operations on the abstract map *)
Lemma table_at_client t tab arr cs s c' :
  table_at t tab arr cs s -> table_at t tab arr cs (set_client c' s).
Proof. by intros [? ? ? ? ? ? ? ? ? ?]. Qed.

Definition put_calls (m : gmap KC entry) (key : K) : list hcall :=
  match m !! canon key with
  | Some e => entry_call true (bool_decide (e.1.1 <> key)) e
  | None => []
  end.

Lemma must_grow_bound (tab : ls_htable K) count : 0 < ht_bcount tab <= 2 ^ 30 -> ht_count tab = count ->
  0 <= count < 2 ^ 28 -> must_grow tab = true -> 0 < grown tab <= 2 ^ 30.
Proof.
  intros Hb <- Hc. unfold must_grow, grown. rewrite bool_decide_eq_true.
  rewrite Z.shiftr_div_pow2, Z.shiftl_mul_pow2 by lia.
  rewrite (uwrap_id 32 (ht_count tab + 1)), (uwrap_id 32 (ht_bcount tab * 3)),
    (uwrap_id 32 (ht_bcount tab * 2 ^ 1)) by (unfold in_range; lia).
  intros Hg. assert (ht_bcount tab * 3 < 2 ^ 2 * 2 ^ 28).
  { pose proof (Z.div_mod (ht_bcount tab * 3) (2 ^ 2)).
    pose proof (Z.mod_pos_bound (ht_bcount tab * 3) (2 ^ 2)). lia. }
  rewrite uwrap_id by (unfold in_range; lia). lia.
Qed.

Lemma table_count t tab arr cs s : table_at t tab arr cs s ->
  ht_count tab = Z.of_nat (size (map_of (entries cs))).
Proof.
  intros Ht. rewrite map_of_size by apply Ht. unfold entries. rewrite length_fmap. apply Ht.
Qed.

Lemma ls_htable_put_runs B t m s key value cl c' :
  table_rep B t m s -> key_ok key -> Z.of_nat (size m) < 2 ^ 28 ->
  run_calls (put_calls m key) (hs_client s) = Done (tt, c') ->
  runs (ls_htable_put call t key value cl) s (fun r s' =>
    match r with
    | Ok _ => table_rep B t (<[canon key := (key, value, cl)]> m) s' /\ hs_client s' = c'
    | Err e => e = LS_ERR_NO_MEMORY /\ m !! canon key = None /\
               table_rep B t m s' /\ hs_client s' = hs_client s
    end).
Proof.
  intros (tab & arr & cs & Ht & HB & Hm) Hk Hsz Hcalls.
  pose proof (table_count _ _ _ _ _ Ht) as Hcnt. rewrite Hm in Hcnt.
  destruct (ta_bcount _ _ _ _ _ Ht) as [Hb _]. destruct (slot_range _ key Hb) as (_ & Hr & Hi).
  unfold ls_htable_put. run_step. eapply runs_load; [apply Ht|]. cbv zeta.
  unfold bucket_from_khash. rewrite (ta_hash _ _ _ _ _ Ht), Hi. run_step.
  eapply runs_conseq; [eapply find_node_runs; [done|done|by right]|].
  intros [l|] s1 [-> Hf]; apply found_map in Hf; try apply Ht; rewrite Hm in Hf.
  - destruct Hf as (n & Hin & Hcan & Hmk).
    pose proof (buckets_lookup _ _ _ _ _ (ta_chains _ _ _ _ _ Ht) Hin) as Hl.
    unfold put_calls in Hcalls. rewrite Hmk in Hcalls.
    run_step. eapply runs_load; [done|]. run_step.
    eapply runs_call_cleaner; [exact Hcalls|]. run_step. eapply runs_update; [done|]. run_step.
    destruct (table_set_entry _ _ _ _ (set_client c' s) l n
      (HNode (hn_next n) key value (hn_bucket n) (hn_khash n) cl)
      (table_at_client _ _ _ _ _ _ Ht) Hin) as (cs' & Ht' & HB' & Hm'); [done..|].
    split; [|done]. exists tab, arr, cs'. split_and!; [exact Ht'|by rewrite <- HB|].
    by rewrite Hm', Hm, Hcan.
  - run_step. eapply (runs_conseq _ _ (fun r s' => exists tab' arr' cs',
      table_at t tab' arr' cs' s' /\ same_table t tab cs s tab' cs' s' /\
      match r with Ok _ => True | Err e => e = LS_ERR_NO_MEMORY end)).
    { destruct (must_grow tab) eqn:Eg.
      - eapply runs_conseq; [eapply resize_runs; [done|]|].
        { eapply must_grow_bound; [done..| |done]. lia. }
        intros [[]|e] s1 (tab' & arr' & cs' & ? & ? & ?); exists tab', arr', cs'; naive_solver.
      - run. exists tab, arr, cs. done. }
    intros r s1 (tab1 & arr1 & cs1 & Ht1 & (HB1 & Pe1 & Hc1 & Hcl1) & Hr1).
    assert (Hm1 : map_of (entries cs1) = m).
    { rewrite <- Hm. apply map_of_perm; [apply Ht1|done]. }
    destruct r as [[]|e].
    + eapply runs_conseq; [eapply link_node_runs; [done|done|by rewrite Hm1|lia]|].
      unfold put_calls in Hcalls. rewrite Hf in Hcalls. injection Hcalls as <-.
      intros [[]|e] s2 (Hcl2 & tab2 & arr2 & cs2 & Ht2 & HB2 & He2).
      * split; [|by rewrite Hcl2]. exists tab2, arr2, cs2. split_and!; [done|by rewrite HB2, HB1|].
        rewrite (map_of_perm _ _ (ta_keys _ _ _ _ _ Ht2) He2), map_of_insert, Hm1. done.
      * destruct He2 as [-> He2]. split_and!; [done..| |by rewrite Hcl2].
        exists tab2, arr2, cs2. by rewrite HB2, HB1, He2.
    + run_step. split_and!; [done..| |done]. exists tab1, arr1, cs1. by rewrite HB1.
Qed.

Definition remove_calls (m : gmap KC entry) (key : K) : list hcall :=
  match m !! canon key with Some e => entry_call false true e | None => [] end.

Lemma ls_htable_remove_runs B t m s key c' : table_rep B t m s -> key_ok key ->
  run_calls (remove_calls m key) (hs_client s) = Done (tt, c') ->
  runs (ls_htable_remove call t key) s (fun _ s' =>
    table_rep B t (delete (canon key) m) s' /\ hs_client s' = c').
Proof.
  intros (tab & arr & cs & Ht & HB & Hm) Hk Hcalls. unfold ls_htable_remove. run_step.
  eapply runs_conseq; [eapply find_node_runs; [done|done|by left]|].
  intros r s1 [-> Hf]. apply found_map in Hf; [|apply Ht]. rewrite Hm in Hf.
  unfold remove_calls in Hcalls. destruct r as [l|].
  - destruct Hf as (n & Hin & Hcan & Hmk). rewrite Hmk in Hcalls.
    eapply runs_conseq; [by eapply remove_node_runs|].
    intros _ s2 (Hcl & tab2 & arr2 & cs2 & Ht2 & HB2 & Hm2 & _). split; [|done].
    exists tab2, arr2, cs2. by rewrite HB2, Hm2, Hm, Hcan.
  - rewrite Hf in Hcalls. injection Hcalls as <-. run_step. split; [|done].
    exists tab, arr, cs. split_and!; [done..|]. by rewrite delete_id.
Qed.

Lemma ls_htable_get_count_done B t m s : table_rep B t m s ->
  ls_htable_get_count t s = Done (Z.of_nat (size m), s).
Proof.
  intros (tab & arr & cs & Ht & _ & <-). unfold ls_htable_get_count, load, c_get, mbind, C_bind.
  cbn. rewrite (ta_table _ _ _ _ _ Ht). cbn. by rewrite (table_count _ _ _ _ _ Ht).
Qed.

(** *** Creation, destruction and clearing *)
Definition heap_of (s : state) : heap_base := HeapBase (tables s) (arrays s) (nodes s).

Definition heap_wf (s : state) : Prop :=
  store_wf (hs_tables s) /\ store_wf (hs_arrays s) /\ store_wf (hs_nodes s).

Lemma ls_htable_create_runs buckets s : heap_wf s -> buckets <= 2 ^ 30 ->
  runs (ls_htable_create buckets key_hash key_cmp) s (fun r s' =>
    hs_client s' = hs_client s /\
    match r with
    | Ok t => table_rep (heap_of s) t ∅ s'
    | Err e => e = LS_ERR_NO_MEMORY /\ heap_of s' = heap_of s /\ heap_wf s'
    end).
Proof.
  intros (Hwt & Hwa & Hwn) Hb. pose proof (store_wf_fresh _ Hwt) as Hft.
  pose proof (store_wf_fresh _ Hwa) as Hfa. unfold ls_htable_create. cbv zeta.
  set (b := if decide (buckets <= 0) then HASH_NUM_BUCKETS else buckets).
  assert (Hb' : 0 < b <= 2 ^ 30) by (unfold b, HASH_NUM_BUCKETS; case_decide; lia).
  clearbody b. run_step. apply runs_new; [by run|]. cbn. run_step. apply runs_new.
  - cbn. run_step. eapply runs_release; [cbn; by rewrite lookup_insert_eq|]. run. cbn.
    split_and!; try done.
    + unfold heap_of. cbn. by rewrite delete_insert_id.
    + unfold heap_wf; cbn; eauto 6 with spud.
  - cbn. run_step. eapply runs_save; [cbn; by rewrite lookup_insert_eq|]. run. cbn.
    split; [done|]. set (t := st_next (hs_tables s)) in *. set (a := st_next (hs_arrays s)) in *.
    eexists (HTable key_hash key_cmp 0 b 0 a), (replicate (Z.to_nat b) None), (replicate (Z.to_nat b) []).
    split_and!; [split|..]; cbn; unfold entries; rewrite ?concat_replicate_nil.
    + by rewrite lookup_insert_eq.
    + by rewrite lookup_insert_eq.
    + apply chain_replicate_nil.
    + done.
    + done.
    + rewrite length_replicate. lia.
    + apply placed_replicate_nil.
    + constructor.
    + done.
    + split_and!; eauto with spud.
    + unfold rest_of, heap_of. cbn. rewrite concat_replicate_nil.
      by rewrite insert_insert_eq, !delete_insert_id.
    + done.
Qed.

Definition clean_calls (es : list entry) : list hcall := es ≫= entry_call false true.

Lemma clean_calls_app es1 es2 : clean_calls (es1 ++ es2) = clean_calls es1 ++ clean_calls es2.
Proof. apply bind_app. Qed.

Lemma free_chain_runs c : forall p fuel s c', chain hn_next (nodes s) p c ->
  (length c < fuel)%nat ->
  run_calls (clean_calls (entry_of ∘ snd <$> c)) (hs_client s) = Done (tt, c') ->
  runs (free_chain call fuel p) s (fun _ s' =>
    s' = HState (hs_tables s) (hs_arrays s) (Store (without c.*1 (nodes s)) (st_next (hs_nodes s)))
           (hs_oom s) c').
Proof.
  induction c as [|[l n] c IH]; intros p fuel s c' Hch Hf Hcalls;
    (destruct fuel as [|fuel]; [cbn in Hf; lia|]).
  - cbn in Hch. subst p. cbn. apply runs_ret. injection Hcalls as <-. by destruct s as [? ? [] ? ?].
  - pose proof (chain_nodup _ _ _ _ Hch) as Hnd. cbn in Hnd. apply NoDup_cons in Hnd as [Hnl _].
    destruct Hch as (-> & Hl & Hch). cbn [fmap list_fmap] in Hcalls.
    apply (run_calls_app_inv (entry_call false true (entry_of n))) in Hcalls as (y & Hy & Hz).
    cbn [free_chain]. run_step. eapply runs_load; [done|]. run_step.
    eapply runs_call_cleaner; [exact Hy|]. run_step.
    eapply runs_release; [cbn; by rewrite Hl|].
    eapply runs_conseq; [eapply (IH _ _ _ c')|].
    + cbn. by apply chain_delete.
    + cbn in Hf. lia.
    + exact Hz.
    + intros _ s' ->. cbn. f_equal. f_equal. by rewrite without_delete.
Qed.

Definition reset_array (reset : bool) (i n : nat) (arr : list ptr) : list ptr :=
  if reset then take i arr ++ replicate n None ++ drop (i + n) arr else arr.

Lemma free_buckets_runs a reset rest : forall i arr s c',
  arrays s !! a = Some arr -> 0 <= i ->
  buckets_at (nodes s) (drop (Z.to_nat i) arr) rest -> NoDup (concat rest).*1 ->
  run_calls (clean_calls (entries rest)) (hs_client s) = Done (tt, c') ->
  runs (free_buckets call (length rest) i a reset) s (fun _ s' =>
    s' = HState (hs_tables s)
           (Store (<[a := reset_array reset (Z.to_nat i) (length rest) arr]> (arrays s))
                  (st_next (hs_arrays s)))
           (Store (without (concat rest).*1 (nodes s)) (st_next (hs_nodes s))) (hs_oom s) c').
Proof.
  induction rest as [|ch rest IH]; intros i arr s c' Ha Hi Hb Hnd Hcalls.
  - cbn. apply runs_ret. injection Hcalls as <-.
    assert (E : reset_array reset (Z.to_nat i) 0 arr = arr).
    { unfold reset_array. destruct reset; [|done]. cbn. by rewrite Nat.add_0_r, take_drop. }
    rewrite E, insert_id by done. by destruct s as [? [] [] ? ?].
  - destruct (drop (Z.to_nat i) arr) as [|p d] eqn:Ed;
      apply Forall2_cons_inv_r in Hb as (p' & d' & Hch & Hb & E); [done|]. injection E as <- <-.
    assert (Hp : arr !! Z.to_nat i = Some p).
    { rewrite <- (Nat.add_0_r (Z.to_nat i)), <- lookup_drop, Ed. done. }
    assert (Hil : (Z.to_nat i < length arr)%nat) by (by eapply lookup_lt_Some).
    unfold entries in Hcalls. cbn [concat] in Hcalls.
    rewrite fmap_app, clean_calls_app in Hcalls. apply run_calls_app_inv in Hcalls as (y & Hy & Hz).
    cbn in Hnd. rewrite fmap_app in Hnd. apply NoDup_app in Hnd as (_ & Hdis & Hnd).
    cbn [free_buckets length]. run_step. eapply bucket_get_runs; [done..|]. run_step. run_step.
    run_step. eapply runs_conseq; [eapply free_chain_runs; [done| |done]|].
    { apply chain_fuel in Hch. unfold node_fuel. lia. }
    intros _ s1 ->.
    set (arr1 := if reset then <[Z.to_nat i := None]> arr else arr).
    run_step. eapply (runs_conseq _ _ (fun _ s' => s' = HState (hs_tables s)
      (Store (<[a := arr1]> (arrays s)) (st_next (hs_arrays s)))
      (Store (without ch.*1 (nodes s)) (st_next (hs_nodes s))) (hs_oom s) y)).
    { unfold arr1. destruct reset.
      - eapply bucket_set_runs; [done..|]. cbn. done.
      - apply runs_ret. cbn. rewrite insert_id by done. by destruct (hs_arrays s). }
    intros _ s2 ->.
    assert (Hd1 : drop (Z.to_nat (i + 1)) arr1 = d).
    { replace (Z.to_nat (i + 1)) with (Z.to_nat i + 1)%nat by lia.
      unfold arr1. destruct reset; rewrite <- ?drop_drop.
      - rewrite drop_drop, drop_insert_lt by lia. by rewrite <- drop_drop, Ed.
      - by rewrite Ed. }
    eapply runs_conseq; [eapply (IH (i + 1) arr1)|].
    + cbn. by rewrite lookup_insert_eq.
    + lia.
    + cbn. rewrite Hd1. eapply buckets_ext; [done|]. intros l Hl. rewrite lookup_without.
      case_decide; [|done]. by destruct (Hdis l).
    + done.
    + exact Hz.
    + intros _ s3 ->. cbn. f_equal; [|by rewrite without_app, fmap_app].
      rewrite insert_insert_eq. do 2 f_equal. unfold reset_array, arr1. destruct reset; [|done].
      replace (Z.to_nat (i + 1)) with (Datatypes.S (Z.to_nat i)) by lia.
      rewrite (take_S_r _ _ None) by (by apply list_lookup_insert_eq).
      rewrite take_insert_ge by lia. rewrite <- app_assoc. cbn. do 3 f_equal.
      rewrite drop_insert_lt by lia. f_equal. lia.
Qed.

Lemma table_free_args t tab arr cs s : table_at t tab arr cs s ->
  buckets_at (nodes s) (drop (Z.to_nat 0) arr) cs /\ NoDup (concat cs).*1 /\
  Z.to_nat (ht_bcount tab) = length cs /\ length arr = length cs.
Proof.
  intros Ht. pose proof (Forall2_length _ _ _ (ta_chains _ _ _ _ _ Ht)) as Hlen.
  pose proof (ta_bcount _ _ _ _ _ Ht) as [_ Hb]. split_and!; [apply Ht| |lia|done].
  eapply buckets_nodup; apply Ht.
Qed.

Lemma ls_htable_destroy_runs t tab arr cs s c' : table_at t tab arr cs s ->
  run_calls (clean_calls (entries cs)) (hs_client s) = Done (tt, c') ->
  runs (ls_htable_destroy call t) s (fun _ s' =>
    heap_of s' = rest_of t tab cs s /\ hs_client s' = c').
Proof.
  intros Ht Hcalls. destruct (table_free_args _ _ _ _ _ Ht) as (Hb & Hnd & Hn & Hlen).
  unfold ls_htable_destroy. run_step. eapply runs_load; [apply Ht|]. rewrite Hn. run_step.
  eapply runs_conseq; [eapply free_buckets_runs; [apply Ht|done|exact Hb|done|done]|].
  intros _ s1 ->. run_step. eapply runs_release; [cbn; by rewrite lookup_insert_eq|].
  eapply runs_release; [cbn; by rewrite (ta_table _ _ _ _ _ Ht)|].
  unfold heap_of, rest_of. cbn. by rewrite delete_insert_eq.
Qed.

Lemma ls_htable_clear_runs B t m s tab arr cs c' : table_at t tab arr cs s ->
  rest_of t tab cs s = B -> m = map_of (entries cs) ->
  run_calls (clean_calls (entries cs)) (hs_client s) = Done (tt, c') ->
  runs (ls_htable_clear call t) s (fun _ s' => table_rep B t ∅ s' /\ hs_client s' = c').
Proof.
  intros Ht HB Hm Hcalls. destruct (table_free_args _ _ _ _ _ Ht) as (Hb & Hnd & Hn & Hlen).
  unfold ls_htable_clear. run_step. eapply runs_load; [apply Ht|]. rewrite Hn. run_step.
  eapply runs_conseq; [eapply free_buckets_runs; [apply Ht|done|exact Hb|done|done]|].
  intros _ s1 ->. eapply runs_update; [apply Ht|]. split; [|done].
  set (tab' := HTable (ht_hash tab) (ht_cmp tab) 0 (ht_bcount tab)
    (ht_resize_count tab) (ht_buckets tab)).
  assert (Earr : reset_array true (Z.to_nat 0) (length cs) arr = replicate (length cs) None).
  { unfold reset_array. cbn. by rewrite drop_ge, app_nil_r by lia. }
  exists tab', (replicate (length cs) None), (replicate (length cs) []).
  split_and!; [split|..]; try apply Ht; unfold entries; rewrite ?concat_replicate_nil; cbn.
  - by rewrite lookup_insert_eq.
  - rewrite lookup_insert_eq. f_equal. exact Earr.
  - apply chain_replicate_nil.
  - rewrite length_replicate, <- Hlen. apply Ht.
  - apply placed_replicate_nil.
  - constructor.
  - done.
  - destruct (ta_wf _ _ _ _ _ Ht) as (? & ? & Hwn). split_and!.
    + apply store_wf_set; [by rewrite (ta_table _ _ _ _ _ Ht)|done].
    + intros l. cbn. destruct (decide (l = ht_buckets tab)) as [->|Hne].
      * intros _. eapply (proj1 (proj2 (ta_wf _ _ _ _ _ Ht))).
        by rewrite (ta_array _ _ _ _ _ Ht).
      * rewrite lookup_insert_ne by done. eauto.
    + intros l. cbn. rewrite lookup_without. case_decide; [by intros [? ?]|]. eauto.
  - rewrite <- HB. unfold rest_of. cbn. rewrite concat_replicate_nil. cbn.
    by rewrite !delete_insert_eq.
  - done.
Qed.

(** *** Iteration *)

(** The walk as a loop over the entries. *)
Fixpoint walk_entries (func : K -> option V -> C S bool) (count : Z) (es : list entry)
    : C S (bool * Z) :=
  match es with
  | [] => mret (true, count)
  | e :: es =>
      running ← func e.1.1 e.1.2;
      if running : bool then walk_entries func (u32 (count + 1)) es
      else mret (false, u32 (count + 1))
  end.

Lemma walk_entries_app func es1 : forall es2 count x,
  walk_entries func count (es1 ++ es2) x =
    match walk_entries func count es1 x with
    | Done (true, count', x') => walk_entries func count' es2 x'
    | o => o
    end.
Proof.
  induction es1 as [|e es1 IH]; intros es2 count x; [done|].
  cbn [walk_entries app]. unfold mbind, C_bind.
  destruct (func e.1.1 e.1.2 x) as [[[] x']|f]; [apply IH|done..].
Qed.

Lemma load_node_done l n s : nodes s !! l = Some n -> load l s = Done (n, s).
Proof. intros Hl. exact (load_done (HS := hstate_nodes) l n s Hl). Qed.
Lemma load_table_done t tab s : tables s !! t = Some tab -> load t s = Done (tab, s).
Proof. intros Hl. exact (load_done (HS := hstate_tables) t tab s Hl). Qed.

Lemma walk_chain_done func c : forall p fuel count s, chain hn_next (nodes s) p c ->
  (length c < fuel)%nat ->
  walk_chain fuel func count p s =
    client (walk_entries func count (entry_of ∘ snd <$> c)) s.
Proof.
  induction c as [|[l n] c IH]; intros p fuel count s Hch Hf;
    (destruct fuel as [|fuel]; [cbn in Hf; lia|]).
  - cbn in Hch. subst p. cbn. unfold client, zoom. cbn. by destruct s.
  - destruct Hch as (-> & Hl & Hch). cbn [walk_chain fmap list_fmap walk_entries].
    rewrite (bind_done _ _ _ _ _ (load_node_done _ _ _ Hl)).
    unfold client, zoom, mbind, C_bind. cbn [compose snd entry_of fst].
    destruct (func (hn_key n) (hn_value n) (hs_client s)) as [[[] x]|f]; [| |done].
    + rewrite (IH _ fuel _ (set_client x s)); [|done|cbn in Hf; lia].
      unfold client, zoom. cbn. by destruct (walk_entries _ _ _ _) as [[? ?]|].
    + done.
Qed.

Definition walk_result (o : outcome (bool * Z * S)) : outcome (Z * S) :=
  match o with Done (_, count, x) => Done (count, x) | Fault f => Fault f end.

Lemma walk_buckets_done t tab arr cs func rest : forall i count s,
  table_at t tab arr cs s -> 0 <= i -> buckets_at (nodes s) (drop (Z.to_nat i) arr) rest ->
  walk_buckets (length rest) i t func count s =
    client (fun x => walk_result (walk_entries func count (entries rest) x)) s.
Proof.
  induction rest as [|ch rest IH]; intros i count s Ht Hi Hb.
  - cbn. unfold client, zoom. cbn. by destruct s.
  - destruct (drop (Z.to_nat i) arr) as [|p d] eqn:Ed;
      apply Forall2_cons_inv_r in Hb as (p' & d' & Hch & Hb & E); [done|]. injection E as <- <-.
    assert (Hp : arr !! Z.to_nat i = Some p).
    { rewrite <- (Nat.add_0_r (Z.to_nat i)), <- lookup_drop, Ed. done. }
    cbn [walk_buckets length].
    rewrite (bind_done _ _ _ _ _ (load_table_done _ _ _ (ta_table _ _ _ _ _ Ht))).
    destruct (runs_inv _ _ _ (bucket_get_runs _ i _ p s (fun p' s' => p' = p /\ s' = s)
      (ta_array _ _ _ _ _ Ht) Hi Hp (conj eq_refl eq_refl))) as (p1 & s1 & Eg & -> & ->).
    rewrite (bind_done _ _ _ _ _ Eg), (bind_done _ _ _ (node_fuel s) s) by done.
    unfold mbind, C_bind.
    rewrite (walk_chain_done _ ch) by
      (try done; apply chain_fuel in Hch; unfold node_fuel; lia).
    assert (E2 : entries (ch :: rest) = (entry_of ∘ snd <$> ch) ++ entries rest).
    { unfold entries. cbn. by rewrite fmap_app. }
    rewrite E2. unfold client, zoom. rewrite walk_entries_app.
    destruct (walk_entries func count _ (hs_client s)) as [[[[] count'] x]|f]; [|done..].
    cbn [fst snd].
    rewrite (IH (i + 1) count' (set_client x s)).
    + unfold client, zoom. cbn. by destruct (walk_result _) as [[? ?]|].
    + by apply table_at_client.
    + lia.
    + replace (Z.to_nat (i + 1)) with (Z.to_nat i + 1)%nat by lia.
      by rewrite <- drop_drop, Ed.
Qed.

Lemma ls_htable_walk_done t tab arr cs func s : table_at t tab arr cs s ->
  ls_htable_walk t func s =
    client (fun x => walk_result (walk_entries func 0 (entries cs) x)) s.
Proof.
  intros Ht. destruct (table_free_args _ _ _ _ _ Ht) as (Hb & _ & Hn & _).
  unfold ls_htable_walk. rewrite (bind_done _ _ _ tab s).
  2:{ unfold load, c_live, c_get, mbind, C_bind. cbn. by rewrite (ta_table _ _ _ _ _ Ht). }
  rewrite Hn. by apply (walk_buckets_done _ tab arr cs).
Qed.

(** The first and next node enumerate the buckets in order. *)
Lemma first_from_runs t tab arr cs s rest : forall i,
  table_at t tab arr cs s -> 0 <= i -> buckets_at (nodes s) (drop (Z.to_nat i) arr) rest ->
  runs (first_from (length rest) i (ht_buckets tab)) s
    (fun r s' => s' = s /\ r = fst <$> head (concat rest)).
Proof.
  induction rest as [|ch rest IH]; intros i Ht Hi Hb.
  - cbn. by run.
  - destruct (drop (Z.to_nat i) arr) as [|p d] eqn:Ed;
      apply Forall2_cons_inv_r in Hb as (p' & d' & Hch & Hb & E); [done|]. injection E as <- <-.
    assert (Hp : arr !! Z.to_nat i = Some p).
    { rewrite <- (Nat.add_0_r (Z.to_nat i)), <- lookup_drop, Ed. done. }
    cbn [first_from length]. run_step. eapply bucket_get_runs; [apply Ht|done..|].
    destruct ch as [|[l n] ch]; cbn in Hch.
    + subst p. apply IH; [done|lia|].
      replace (Z.to_nat (i + 1)) with (Z.to_nat i + 1)%nat by lia.
      by rewrite <- drop_drop, Ed.
    + destruct Hch as (-> & _). by run.
Qed.

Lemma get_first_node_runs t tab arr cs s : table_at t tab arr cs s ->
  runs (ls_htable_get_first_node t) s (fun r s' => s' = s /\ r = fst <$> head (concat cs)).
Proof.
  intros Ht. destruct (table_free_args _ _ _ _ _ Ht) as (Hb & _ & Hn & _).
  unfold ls_htable_get_first_node. run_step. eapply runs_load; [apply Ht|]. rewrite Hn.
  by eapply first_from_runs.
Qed.

Lemma get_next_node_runs t tab arr cs s xs l n ys : table_at t tab arr cs s ->
  concat cs = xs ++ (l, n) :: ys ->
  runs (ls_htable_get_next_node t l) s (fun r s' => s' = s /\ r = fst <$> head ys).
Proof.
  intros Ht E. destruct (table_free_args _ _ _ _ _ Ht) as (Hb & Hnd & Hn & Hlen).
  assert (Hin : (l, n) ∈ concat cs) by (rewrite E; apply elem_of_app; right; by left).
  destruct (nodes_split _ _ _ Hin) as (i & c & pre & post & Hc & Ec).
  pose proof (buckets_lookup _ _ _ _ _ (ta_chains _ _ _ _ _ Ht) Hin) as Hl.
  destruct (Forall2_lookup_r _ _ _ _ _ (ta_chains _ _ _ _ _ Ht) Hc) as (p & Hp & Hch).
  assert (Eys : ys = post ++ concat (drop (Datatypes.S i) cs)).
  { pose proof E as E'. rewrite (concat_split _ _ _ Hc), Ec in E'.
    rewrite <- !app_assoc in E'. rewrite app_assoc in E'. cbn in E'.
    symmetry. eapply (list_app_inj_key fst (concat (take i cs) ++ pre)); [exact E'|].
    by rewrite <- E. }
  unfold ls_htable_get_next_node. run_step. eapply runs_load; [apply Ht|].
  run_step. eapply runs_load; [done|]. rewrite Ec in Hch. apply chain_drop in Hch.
  destruct post as [|[l' n'] post]; cbn in Hch.
  - rewrite Hch. cbv zeta.
    destruct (ta_placed _ _ _ _ _ Ht _ _ l n Hc) as (-> & _).
    { rewrite Ec. apply elem_of_app. right. by left. }
    rewrite Eys. cbn [app].
    replace (Z.to_nat (ht_bcount tab - (Z.of_nat i + 1))) with (length (drop (Datatypes.S i) cs)).
    2:{ rewrite length_drop. lia. }
    eapply first_from_runs; [done|lia|].
    replace (Z.to_nat (Z.of_nat i + 1)) with (Datatypes.S i) by lia.
    apply Forall2_drop. apply Ht.
  - destruct Hch as (-> & _). run. by rewrite Eys.
Qed.
End table_proofs.

(** ** Sessions: the table refines a finite map

    The client records what is done to it: the calls of cleaner functions and the
    visits of walk callbacks. *)
Section sessions.
Context {K KC V CL : Type} `{EqKC : !EqDecision KC, CoKC : !Countable KC}.
Context `{HK : !Hashable K KC, HL : !HashableLaws K KC, EqK : !EqDecision K}.

Abbreviation entry := (K * option V * option CL)%type.

Inductive event : Type :=
  | Cleaned (c : CL) (replace destroy_key : bool) (key : K) (data : option V)
  | Visited (key : K) (data : option V).

Definition record_call (c : CL) (r d : bool) (k : K) (v : option V) : C (list event) unit :=
  c_modify (fun es => es ++ [Cleaned c r d k v]).

(** A walk callback that goes on while [go] says so. *)
Definition record_visit (go : K -> option V -> bool) (k : K) (v : option V)
    : C (list event) bool :=
  c_modify (fun es => es ++ [Visited k v]);; mret (go k v).

Inductive table_op : Type :=
  | Put (key : K) (value : option V) (cleaner : option CL)
  | Get (key : K)
  | Remove (key : K)
  | Clear
  | Count
  | Walk (go : K -> option V -> bool).

Inductive table_result : Type :=
  | RUnit | RNoMem | RVal (v : option V) | RNum (n : Z).

Abbreviation state := (hstate K V CL (list event)).

Definition run_table_op (t : loc) (op : table_op) : C state table_result :=
  match op with
  | Put k v c => r ← ls_htable_put record_call t k v c; mret (if is_ok r then RUnit else RNoMem)
  | Get k => v ← ls_htable_get t k; mret (RVal v)
  | Remove k => ls_htable_remove record_call t k;; mret RUnit
  | Clear => ls_htable_clear record_call t;; mret RUnit
  | Count => n ← ls_htable_get_count t; mret (RNum n)
  | Walk go => n ← ls_htable_walk t (record_visit go); mret (RNum n)
  end.

Fixpoint run_table_ops (t : loc) (ops : list table_op) : C state (list table_result) :=
  match ops with
  | [] => mret []
  | op :: ops => r ← run_table_op t op; rs ← run_table_ops t ops; mret (r :: rs)
  end.

Definition table_session (buckets : Z) (ops : list table_op)
    : C state (option (list table_result)) :=
  r ← ls_htable_create buckets key_hash key_cmp;
  match r with
  | Err _ => mret None
  | Ok t => rs ← run_table_ops t ops; ls_htable_destroy record_call t;; mret (Some rs)
  end.

(** The specification.  [cleaned r d e] is the call the cleaner of an entry gets. *)
Definition cleaned (replace destroy : bool) (e : entry) : list event :=
  match e.2 with Some c => [Cleaned c replace destroy e.1.1 e.1.2] | None => [] end.

Definition visited (e : entry) : event := Visited e.1.1 e.1.2.

Fixpoint visits (go : K -> option V -> bool) (es : list entry) : list entry :=
  match es with
  | [] => []
  | e :: es => e :: (if go e.1.1 e.1.2 then visits go es else [])
  end.

Inductive map_step : gmap KC entry -> table_op -> table_result -> list event ->
    gmap KC entry -> Prop :=
  | ms_put_new m k v c : m !! canon k = None ->
      map_step m (Put k v c) RUnit [] (<[canon k := (k, v, c)]> m)
  | ms_put_replace m k v c e : m !! canon k = Some e ->
      map_step m (Put k v c) RUnit (cleaned true (bool_decide (e.1.1 <> k)) e)
        (<[canon k := (k, v, c)]> m)
  | ms_put_nomem m k v c : m !! canon k = None -> map_step m (Put k v c) RNoMem [] m
  | ms_get m k : map_step m (Get k) (RVal (m !! canon k ≫= entry_value)) [] m
  | ms_remove m k e : m !! canon k = Some e ->
      map_step m (Remove k) RUnit (cleaned false true e) (delete (canon k) m)
  | ms_remove_absent m k : m !! canon k = None -> map_step m (Remove k) RUnit [] m
  | ms_clear m es : es ≡ₚ (map_to_list m).*2 ->
      map_step m Clear RUnit (es ≫= cleaned false true) ∅
  | ms_count m : map_step m Count (RNum (Z.of_nat (size m))) [] m
  | ms_walk m go es : es ≡ₚ (map_to_list m).*2 ->
      map_step m (Walk go) (RNum (Z.of_nat (length (visits go es))))
        (visited <$> visits go es) m.

Inductive map_steps : gmap KC entry -> list table_op -> list table_result -> list event ->
    gmap KC entry -> Prop :=
  | mss_nil m : map_steps m [] [] [] m
  | mss_cons m op r ev m1 ops rs evs m2 :
      map_step m op r ev m1 -> map_steps m1 ops rs evs m2 ->
      map_steps m (op :: ops) (r :: rs) (ev ++ evs) m2.

Definition op_keys_ok (op : table_op) : Prop :=
  match op with Put k _ _ | Get k | Remove k => key_ok k | _ => True end.

(** *** The recording client *)
Definition to_event (x : hcall (K := K) (V := V) (CL := CL)) : event :=
  let '(c, r, d, k, v) := x in Cleaned c r d k v.

Lemma run_calls_record xs : forall es,
  run_calls record_call xs es = Done (tt, es ++ (to_event <$> xs)).
Proof.
  induction xs as [|[[[[c r] d] k] v] xs IH]; intros es; cbn; [by rewrite app_nil_r|].
  unfold mbind, C_bind. cbn. by rewrite IH, <- app_assoc.
Qed.

Lemma to_event_entry_call r d e : to_event <$> entry_call r d e = cleaned r d e.
Proof. unfold entry_call, cleaned. by destruct e.2. Qed.

Lemma to_event_clean_calls es : to_event <$> clean_calls es = es ≫= cleaned false true.
Proof.
  induction es as [|e es IH]; [done|]. unfold clean_calls in *. cbn.
  by rewrite fmap_app, to_event_entry_call, <- IH.
Qed.

Lemma walk_entries_record go es : forall count x, 0 <= count ->
  count + Z.of_nat (length es) < 2 ^ 32 ->
  exists b, walk_entries (record_visit go) count es x =
    Done (b, count + Z.of_nat (length (visits go es)), x ++ (visited <$> visits go es)).
Proof.
  induction es as [|e es IH]; intros count x Hc Hl; cbn [walk_entries visits].
  - exists true. cbn. rewrite app_nil_r. unfold mret, C_ret. do 3 f_equal. lia.
  - cbn in Hl. rewrite uwrap_id by (unfold in_range; lia).
    rewrite (bind_done _ _ _ (go e.1.1 e.1.2) (x ++ [Visited e.1.1 e.1.2])) by done.
    destruct (go e.1.1 e.1.2).
    + destruct (IH (count + 1) (x ++ [Visited e.1.1 e.1.2])) as [b ->]; [lia..|].
      exists b. rewrite <- app_assoc. cbn [length]. do 3 f_equal. lia.
    + exists false. done.
Qed.

(** *** Each operation, against the specification *)
Lemma map_to_list_entries (es : list entry) : keys_distinct es ->
  es ≡ₚ (map_to_list (map_of es)).*2.
Proof.
  intros Hd. unfold map_of. rewrite map_to_list_to_map.
  - rewrite <- list_fmap_compose. by rewrite list_fmap_id.
  - rewrite <- list_fmap_compose. exact Hd.
Qed.

Lemma run_table_op_runs B t m s op : table_rep B t m s -> op_keys_ok op ->
  Z.of_nat (size m) < 2 ^ 28 ->
  runs (run_table_op t op) s (fun r s' => exists ev m',
    hs_client s' = hs_client s ++ ev /\ map_step m op r ev m' /\
    table_rep B t m' s' /\ (size m' <= S (size m))%nat).
Proof.
  intros Hr Hok Hsz. destruct op as [k v c|k|k| | |go]; cbn [run_table_op].
  - run_step. eapply runs_conseq.
    { eapply ls_htable_put_runs; [done|done|done|]. apply run_calls_record. }
    intros [[]|e] s'; cbn beta iota delta [is_ok].
    + intros [Hr' Hcl]. run_step. rewrite Hcl. unfold put_calls. destruct (m !! canon k) as [e|] eqn:E.
      * rewrite to_event_entry_call. eexists _, _. split_and!; [done|by constructor|done|].
        rewrite map_size_insert_Some by eauto. lia.
      * eexists [], _. rewrite !app_nil_r. split_and!; [done|by constructor|done|].
        rewrite map_size_insert_None by done. lia.
    + intros (-> & Hn & Hr' & Hcl). run_step. rewrite Hcl. exists [], m. rewrite app_nil_r.
      split_and!; [done|by constructor|done|lia].
  - run_step. eapply runs_done; [by eapply ls_htable_get_done|]. run_step.
    exists [], m. rewrite app_nil_r. split_and!; [done|by constructor|done|lia].
  - run_step. eapply runs_conseq.
    { eapply ls_htable_remove_runs; [done|done|]. apply run_calls_record. }
    intros _ s' [Hr' Hcl]. run_step. rewrite Hcl. unfold remove_calls.
    destruct (m !! canon k) as [e|] eqn:E.
    + rewrite to_event_entry_call. eexists _, _. split_and!; [done|by constructor|done|].
      rewrite map_size_delete_Some by eauto. lia.
    + rewrite delete_id in Hr' by done. eexists [], m. rewrite !app_nil_r.
      split_and!; [done|by constructor|done|lia].
  - destruct Hr as (tab & arr & cs & Ht & HB & Hm). run_step. eapply runs_conseq.
    { eapply ls_htable_clear_runs; [done..|]. apply run_calls_record. }
    intros _ s' [Hr' Hcl]. run_step. rewrite Hcl. rewrite to_event_clean_calls.
    eexists _, ∅. split_and!; [done| |done|rewrite map_size_empty; lia].
    constructor. rewrite <- Hm. apply map_to_list_entries. apply Ht.
  - run_step. eapply runs_done; [by eapply ls_htable_get_count_done|]. run_step.
    exists [], m. rewrite app_nil_r. split_and!; [done|by constructor|done|lia].
  - pose proof Hr as (tab & arr & cs & Ht & HB & Hm). run_step.
    pose proof (table_count _ _ _ _ _ Ht) as Hcnt.
    assert (Hlen : Z.of_nat (length (entries cs)) < 2 ^ 28).
    { rewrite <- map_of_size by apply Ht. by rewrite Hm. }
    destruct (walk_entries_record go (entries cs) 0 (hs_client s)) as [b Eb]; [lia..|].
    eapply runs_done.
    { rewrite (ls_htable_walk_done _ _ _ _ _ _ Ht). unfold client, zoom. rewrite Eb. done. }
    run_step. eexists _, m. split_and!; [done| | |lia].
    + rewrite Z.add_0_l. constructor. rewrite <- Hm. apply map_to_list_entries. apply Ht.
    + exists tab, arr, cs. split_and!; [by apply table_at_client|done..].
Qed.

Lemma run_table_ops_runs B t ops : forall m s, table_rep B t m s -> Forall op_keys_ok ops ->
  Z.of_nat (size m + length ops) < 2 ^ 28 ->
  runs (run_table_ops t ops) s (fun rs s' => exists evs m',
    hs_client s' = hs_client s ++ evs /\ map_steps m ops rs evs m' /\ table_rep B t m' s').
Proof.
  induction ops as [|op ops IH]; intros m s Hr Hok Hsz; cbn [run_table_ops].
  - run_step. exists [], m. rewrite app_nil_r. split_and!; [done|constructor|done].
  - inversion Hok as [|? ? Hop Hops]; subst. cbn in Hsz. run_step.
    eapply runs_conseq; [eapply run_table_op_runs; [done|done|lia]|].
    intros r s1 (ev & m1 & Hcl1 & Hs1 & Hr1 & Hsz1). run_step.
    eapply runs_conseq; [eapply IH; [done|done|lia]|].
    intros rs s2 (evs & m2 & Hcl2 & Hs2 & Hr2). run_step.
    exists (ev ++ evs), m2. rewrite Hcl2, Hcl1, <- app_assoc.
    split_and!; [done|by econstructor|done].
Qed.

(** C9: the hash table refines a finite map from key values to (key, value, cleaner).
    Created with any number of buckets up to 2^30, used by any operations in any order, fewer
    than 2^28 of them (beyond which its 32-bit counts could wrap around), and
    destroyed, under any pattern of memory exhaustion, it never faults and every loop
    ends; the results are those of the map; each cleaner is called exactly when its
    entry is replaced, removed, cleared or left at destruction, with the documented
    flags; a walk visits every entry once until its callback stops it; and no table,
    bucket array or node is left allocated. *)
Theorem htable_session_refines_map buckets ops (s : state) :
  heap_wf s -> buckets <= 2 ^ 30 -> Forall op_keys_ok ops ->
  Z.of_nat (length ops) < 2 ^ 28 ->
  runs (table_session buckets ops) s (fun r s' => heap_of s' = heap_of s /\
    match r with
    | None => hs_client s' = hs_client s
    | Some rs => exists evs m es, map_steps ∅ ops rs evs m /\
        es ≡ₚ (map_to_list m).*2 /\
        hs_client s' = hs_client s ++ evs ++ (es ≫= cleaned false true)
    end).
Proof.
  intros Hwf Hb Hok Hl. unfold table_session. run_step.
  eapply runs_conseq; [by apply ls_htable_create_runs|]. intros [t|e] s1 [Hcl1 H1].
  - run_step. eapply runs_conseq; [eapply run_table_ops_runs; [exact H1|done|]|].
    { rewrite map_size_empty. lia. }
    intros rs s2 (evs & m & Hcl2 & Hs & tab & arr & cs & Ht & HB & Hm). run_step.
    eapply runs_conseq; [eapply ls_htable_destroy_runs; [done|apply run_calls_record]|].
    intros _ s3 [Hh Hcl3]. run_step. split; [by rewrite Hh|].
    exists evs, m, (entries cs). split_and!; [done| |].
    + rewrite <- Hm. apply map_to_list_entries. apply Ht.
    + by rewrite Hcl3, Hcl2, Hcl1, to_event_clean_calls, <- app_assoc.
  - destruct H1 as (-> & Hh & _). run. by rewrite Hh.
Qed.
End sessions.
