(* ===== verification/LsHash.v ===== *)
(** The hash and comparison functions of src/ls_htable.c, as the keys the hash table is
    used with: strings, strings up to case, and integers; and the node-by-node iteration
    of a table. *)

From S2P Require Import Prelude LsStr LsMem Store LsHtable.
Open Scope Z_scope.

(** A [char] is signed: its byte read back as a signed 8-bit integer. *)
Definition schar (c : Z) : Z := swrap 8 c.

(** [h = (h << 5) - h + x] in unsigned long. *)
Definition hash_step (h x : Z) : Z := u64 (u64 (u64 (Z.shiftl h 5) - h) + x).

Definition ls_str_hashcode (s : cstr) : Z :=
  u32 (fold_left (fun h c => hash_step h (schar c)) s 0).

Definition ls_strcase_hashcode (s : cstr) : Z :=
  u32 (fold_left (fun h c => hash_step h (LsStr.Libc.tolower (schar c))) s 0).

Definition ls_str_compare : cstr -> cstr -> Z := LsStr.Libc.strcmp.
Definition ls_strcase_compare : cstr -> cstr -> Z := LsStr.Libc.strcasecmp.

(** The key is the pointer itself, an unsigned 64-bit integer. *)
Definition ls_int_hashcode (key : Z) : Z :=
  let a := Z.land key 0xffffffff in
  let a := u64 (u64 (a + 0x7ed55d16) + u64 (Z.shiftl a 12)) in
  let a := Z.lxor (Z.lxor a 0xc761c23c) (Z.shiftr a 19) in
  let a := u64 (u64 (a + 0x165667b1) + u64 (Z.shiftl a 5)) in
  let a := Z.lxor (u64 (a + 0xd3a2646c)) (u64 (Z.shiftl a 9)) in
  let a := u64 (u64 (a + 0xfd7046c5) + u64 (Z.shiftl a 3)) in
  let a := Z.lxor (Z.lxor a 0xb55a4f09) (Z.shiftr a 16) in
  u32 a.

Definition ls_int_compare (key1 key2 : Z) : Z :=
  let i1 := swrap 64 key1 in
  let i2 := swrap 64 key2 in
  if decide (i1 < i2) then -1 else if decide (i1 = i2) then 0 else 1.

(** The cleaner for tables of ls_data_malloc()ed values under static keys. *)
Definition ls_htable_free_data_cleaner {K} (replace destroy_key : bool) (key : K)
    (data : option LsMem.loc) : C mem unit := ls_data_free data.

(** ** What the string hashes compute *)

(** The base-31 polynomial of a list of characters. *)
Fixpoint poly31 (acc : Z) (xs : list Z) : Z :=
  match xs with [] => acc | x :: xs => poly31 (31 * acc + x) xs end.

Lemma hash_step_mod h x : hash_step h x = u64 (31 * h + x).
Proof.
  unfold hash_step, uwrap. rewrite Z.shiftl_mul_pow2, Zplus_mod_idemp_l by lia.
  replace ((h * 2 ^ 5) mod 2 ^ 64 - h + x) with ((h * 2 ^ 5) mod 2 ^ 64 + (x - h)) by lia.
  rewrite Zplus_mod_idemp_l. f_equal. lia.
Qed.

Lemma poly31_u64 xs : forall a, u64 (poly31 (u64 a) xs) = u64 (poly31 a xs).
Proof.
  induction xs as [|x xs IH]; intros a; cbn [poly31].
  - by apply uwrap_idemp.
  - rewrite <- (IH (31 * u64 a + x)), <- (IH (31 * a + x)). do 2 f_equal. unfold uwrap.
    rewrite <- Zplus_mod_idemp_l, Zmult_mod_idemp_r, Zplus_mod_idemp_l. done.
Qed.

Lemma fold_hash_poly {A} (f : A -> Z) s : forall h,
  u64 (fold_left (fun h c => hash_step h (f c)) s h) = u64 (poly31 h (f <$> s)).
Proof.
  induction s as [|c s IH]; intros h; cbn [fold_left fmap list_fmap poly31]; [done|].
  rewrite IH, hash_step_mod. apply poly31_u64.
Qed.

Lemma u32_u64 z : u32 (u64 z) = u32 z.
Proof. unfold uwrap. apply Z.mod_mod_divide. by exists (2 ^ 32). Qed.

Lemma str_hashcode_eq s :
  ls_str_hashcode s = poly31 0 (schar <$> s) mod 2 ^ 32 /\
  ls_strcase_hashcode s = poly31 0 (LsStr.Libc.tolower ∘ schar <$> s) mod 2 ^ 32.
Proof.
  unfold ls_str_hashcode, ls_strcase_hashcode.
  rewrite <- u32_u64, (fold_hash_poly schar), u32_u64.
  rewrite <- (u32_u64 (fold_left _ _ _)), (fold_hash_poly (LsStr.Libc.tolower ∘ schar)), u32_u64.
  done.
Qed.

(** [ls_str_hashcode] is the base-31 polynomial of the (signed) characters modulo
    2^32, although it computes with shifts in 64 bits and truncates at the end;
    [ls_strcase_hashcode] is the same of the lower-cased characters. *)
Theorem str_hashcode_poly s :
  ls_str_hashcode s = poly31 0 (schar <$> s) mod 2 ^ 32 /\
  ls_strcase_hashcode s = poly31 0 (LsStr.Libc.tolower ∘ schar <$> s) mod 2 ^ 32.
Proof. apply str_hashcode_eq. Qed.

Lemma tolower_schar c : 0 < c < 256 ->
  LsStr.Libc.tolower (schar c) = schar (LsStr.Libc.tolower c).
Proof.
  intros Hc. unfold schar, swrap, LsStr.Libc.tolower.
  destruct (decide (c < 128)).
  - rewrite Z.mod_small by lia. replace (c + 2 ^ (8 - 1) - 2 ^ (8 - 1)) with c by lia.
    case_decide; rewrite Z.mod_small by lia; lia.
  - replace ((c + 2 ^ (8 - 1)) mod 2 ^ 8) with (c - 128).
    2:{ apply (Z.mod_unique_pos _ _ 1); lia. }
    rewrite !decide_False by lia. by replace ((c + 2 ^ (8 - 1)) mod 2 ^ 8) with (c - 128) by
      (apply (Z.mod_unique_pos _ _ 1); lia).
Qed.

(** ** The hash and comparison pairs are lawful *)
Module StrKey.
#[export] Instance str_hashable : Hashable cstr (list Z) := {
  key_hash := ls_str_hashcode; key_cmp := ls_str_compare; key_ok := cstr_wf; canon := id }.
#[export] Instance str_laws : HashableLaws cstr (list Z).
Proof.
  split.
  - intros k. by apply uwrap_range.
  - intros k k' Hk Hk'. cbn. unfold ls_str_compare, LsStr.Libc.strcmp.
    rewrite cmp_by_zero by auto with spud. by rewrite !list_fmap_id.
  - by intros k k' _ _ [= ->].
Qed.
End StrKey.

Module StrCaseKey.
#[export] Instance strcase_hashable : Hashable cstr (list Z) := {
  key_hash := ls_strcase_hashcode; key_cmp := ls_strcase_compare; key_ok := cstr_wf;
  canon := fmap LsStr.Libc.tolower }.

Lemma strcase_hash_canon s : cstr_wf s ->
  ls_strcase_hashcode s = ls_str_hashcode (LsStr.Libc.tolower <$> s).
Proof.
  intros Hs. destruct (str_hashcode_eq s) as [_ ->].
  destruct (str_hashcode_eq (LsStr.Libc.tolower <$> s)) as [-> _]. do 2 f_equal.
  rewrite <- list_fmap_compose. apply Forall_fmap_ext_1.
  eapply Forall_impl; [exact Hs|]. intros c Hc. by apply tolower_schar.
Qed.

#[export] Instance strcase_laws : HashableLaws cstr (list Z).
Proof.
  split.
  - intros k. by apply uwrap_range.
  - intros k k' Hk Hk'. cbn. unfold ls_strcase_compare, LsStr.Libc.strcasecmp.
    by rewrite cmp_by_zero by auto with spud.
  - intros k k' Hk Hk' E. cbn in *. by rewrite !strcase_hash_canon, E.
Qed.
End StrCaseKey.

Module IntKey.
#[export] Instance int_hashable : Hashable Z Z := {
  key_hash := ls_int_hashcode; key_cmp := ls_int_compare; key_ok := in_range 64; canon := id }.
Lemma swrap64_inj a b : in_range 64 a -> in_range 64 b -> swrap 64 a = swrap 64 b -> a = b.
Proof.
  unfold in_range, swrap. intros Ha Hb E.
  assert (E' : (a + 2 ^ (64 - 1)) mod 2 ^ 64 = (b + 2 ^ (64 - 1)) mod 2 ^ 64) by lia.
  pose proof (Z.div_mod (a + 2 ^ (64 - 1)) (2 ^ 64) ltac:(lia)).
  pose proof (Z.div_mod (b + 2 ^ (64 - 1)) (2 ^ 64) ltac:(lia)).
  pose proof (Z.mod_pos_bound (a + 2 ^ (64 - 1)) (2 ^ 64) ltac:(lia)).
  pose proof (Z.mod_pos_bound (b + 2 ^ (64 - 1)) (2 ^ 64) ltac:(lia)). nia.
Qed.
#[export] Instance int_laws : HashableLaws Z Z.
Proof.
  split.
  - intros k. by apply uwrap_range.
  - intros k k' Hk Hk'. cbn. unfold ls_int_compare. split.
    + repeat case_decide; try done. intros _. by apply swrap64_inj.
    + intros [= ->]. by rewrite decide_False, decide_True by lia.
  - by intros k k' _ _ [= ->].
Qed.
End IntKey.

(** ** Node-by-node iteration *)
Section iteration.
Context {K KC V CL S : Type} `{EqKC : !EqDecision KC, CoKC : !Countable KC}.
Context `{HK : !Hashable K KC, HL : !HashableLaws K KC, EqK : !EqDecision K}.
Abbreviation state := (hstate K V CL S).
Abbreviation entry := (K * option V * option CL)%type.

(** [for (n = first; n; n = next(n))], collecting keys and values with the accessors. *)
Fixpoint nodes_from (fuel : nat) (t : loc) (p : ptr) : C state (list (K * option V)) :=
  match fuel, p with
  | O, _ => c_fault OutOfFuel
  | _, None => mret []
  | Datatypes.S fuel, Some l =>
      k ← ls_hnode_get_key l;
      v ← ls_hnode_get_value l;
      p' ← ls_htable_get_next_node t l;
      r ← nodes_from fuel t p';
      mret ((k, v) :: r)
  end.

Definition all_nodes (fuel : nat) (t : loc) : C state (list (K * option V)) :=
  p ← ls_htable_get_first_node t; nodes_from fuel t p.

Lemma nodes_from_runs t tab arr cs (s : state) ys : forall xs fuel,
  table_at t tab arr cs s -> concat cs = xs ++ ys -> (length ys < fuel)%nat ->
  runs (nodes_from fuel t (fst <$> head ys)) s (fun r s' => s' = s /\
    r = (fun e => (e.1.1, e.1.2)) <$> (entry_of ∘ snd <$> ys)).
Proof.
  induction ys as [|[l n] ys IH]; intros xs [|fuel] Ht E Hf; try (cbn in Hf; lia).
  - cbn. by run.
  - assert (Hl : st_objs (hs_nodes s) !! l = Some n).
    { eapply buckets_lookup; [apply Ht|]. rewrite E. apply elem_of_app. right. by left. }
    cbn [nodes_from head fmap option_fmap option_map fst]. unfold ls_hnode_get_key, ls_hnode_get_value.
    run_step. run_step. eapply runs_load; [done|]. run_step.
    run_step. run_step. eapply runs_load; [done|]. run_step. run_step.
    eapply runs_conseq; [by eapply get_next_node_runs|]. intros r s' [-> ->]. run_step.
    eapply runs_conseq; [eapply (IH (xs ++ [(l, n)]))|].
    + done.
    + by rewrite E, <- app_assoc.
    + cbn in Hf. lia.
    + intros r s' [-> ->]. by run_step.
Qed.

(** C35: going from the first node to the next until there is none visits every entry
    of the table exactly once (the keys and values seen are those of the map, in some
    order), ends, and changes nothing. *)
Theorem htable_iteration_complete B t (m : gmap KC entry) (s : state) :
  table_rep B t m s ->
  runs (all_nodes (Datatypes.S (size m)) t) s (fun r s' => s' = s /\
    r ≡ₚ (fun e : entry => (e.1.1, e.1.2)) <$> (map_to_list m).*2).
Proof.
  intros (tab & arr & cs & Ht & HB & <-). unfold all_nodes. run_step.
  eapply runs_conseq; [by eapply get_first_node_runs|]. intros p s1 [-> ->].
  eapply runs_conseq; [eapply (nodes_from_runs _ _ _ _ _ _ [])|].
  - done.
  - done.
  - rewrite map_of_size by apply Ht. unfold entries. rewrite length_fmap. lia.
  - intros r s' [-> ->]. split; [done|]. f_equiv. apply map_to_list_entries. apply Ht.
Qed.
End iteration.

(** ** Examples: tables keyed by strings up to case and by integers *)
Definition hstate_init {K V CL} (o : list bool) : hstate K V CL (list (event (K := K) (V := V) (CL := CL))) :=
  HState store_empty store_empty store_empty o [].

Lemma hstate_init_wf {K V CL} o : heap_wf (hstate_init (K := K) (V := V) (CL := CL) o).
Proof. split_and!; apply store_wf_empty. Qed.

Module SessionExample.
Import StrCaseKey.

Definition key_ab : cstr := [97; 98].
Definition key_AB : cstr := [65; 66].
Definition key_c : cstr := [99].

(** Two buckets: the second key forces a resize; one key replaces the other. *)
Definition ops : list (table_op (K := cstr) (V := N) (CL := N)) :=
  [Put key_ab (Some 1%N) (Some 10%N); Put key_c (Some 2%N) None; Put key_AB (Some 3%N) (Some 11%N);
   Get key_ab; Count; Remove key_c; Walk (fun _ _ => true)].

Example session_run :
  (match table_session (KC := list Z) 1 ops (hstate_init []) with
   | Done (r, s) => Some (r, hs_client s)
   | Fault _ => None
   end) =
  Some (Some [RUnit; RUnit; RUnit; RVal (Some 3%N); RNum 2; RUnit; RNum 1],
        [Cleaned 10%N true true key_ab (Some 1%N);
         Visited key_AB (Some 3%N);
         Cleaned 11%N false true key_AB (Some 3%N)]).
Proof. vm_compute. reflexivity. Qed.
End SessionExample.

Lemma htable_session_refines_map_witness :
  let s := hstate_init (K := cstr) (V := N) (CL := N) [false; false; false; true] in
  runs (table_session (HK := StrCaseKey.strcase_hashable) 1 SessionExample.ops) s
    (fun r s' => heap_of s' = heap_of s /\
      match r with
      | None => hs_client s' = hs_client s
      | Some rs => exists evs (m : gmap (list Z) _) es,
          map_steps (HK := StrCaseKey.strcase_hashable) ∅ SessionExample.ops rs evs m /\
          es ≡ₚ (map_to_list m).*2 /\
          hs_client s' = hs_client s ++ evs ++ (es ≫= cleaned false true)
      end).
Proof.
  intros s. refine (htable_session_refines_map (HL := StrCaseKey.strcase_laws)
    1 SessionExample.ops s (hstate_init_wf _) _ _ _).
  - lia.
  - repeat constructor; done.
  - reflexivity.
Defined.

(** *** A table of four integers, in the two buckets it was made with and those it grew *)
Module IterationExample.
Import IntKey.
Abbreviation state := (hstate Z N N unit).
Abbreviation entry := (Z * option N * option N)%type.
Implicit Types (m : gmap Z entry).

Definition no_cleaner (c : N) (replace destroy_key : bool) (key : Z) (data : option N) : C unit unit := mret tt.

Definition after {A} (m : C state A) (s : state) : state := match m s with Done (_, s') => s' | Fault _ => s end.

Definition empty_table : state :=
  after (ls_htable_create 2 key_hash key_cmp) (HState store_empty store_empty store_empty [] tt).
Definition put_one (key : Z) (value : N) (s : state) : state :=
  after (ls_htable_put no_cleaner 1 key (Some value) None) s.
Definition filled : state := put_one 40 4 (put_one 7 3 (put_one 3 2 (put_one 1 1 empty_table))).
Definition filled_map : gmap Z entry :=
  <[40 := (40, Some 4%N, None)]> (<[7 := (7, Some 3%N, None)]> (<[3 := (3, Some 2%N, None)]> (<[1 := (1, Some 1%N, None)]> ∅))).

Lemma empty_rep : table_rep (HeapBase ∅ ∅ ∅) 1 (∅ : gmap Z entry) empty_table.
Proof.
  set (s0 := HState store_empty store_empty store_empty [] tt : state).
  pose proof (ls_htable_create_runs (HK := int_hashable) 2 s0) as H.
  specialize (H ltac:(split_and!; apply store_wf_empty) ltac:(lia)).
  assert (Hok : (match ls_htable_create 2 key_hash key_cmp s0 with
                 | Done (Ok l, _) => bool_decide (l = 1%positive) | _ => false end) = true) by (vm_compute; reflexivity).
  unfold runs in H. unfold empty_table, after. fold s0.
  destruct (ls_htable_create _ _ _ s0) as [[[l|e] s]|f]; [|done..]. apply bool_decide_eq_true_1 in Hok as ->. apply H.
Qed.

Lemma put_one_rep m key value s : table_rep (HeapBase ∅ ∅ ∅) 1 m s -> in_range 64 key ->
  Z.of_nat (size m) < 2 ^ 28 -> m !! key = None ->
  (match ls_htable_put no_cleaner 1 key (Some value) None s with Done (Ok _, _) => true | _ => false end) = true ->
  table_rep (HeapBase ∅ ∅ ∅) 1 (<[key := (key, Some value, None)]> m) (put_one key value s).
Proof.
  intros Ht Hk Hsz Hm Hok.
  pose proof (ls_htable_put_runs no_cleaner _ 1 m s key (Some value) None (hs_client s) Ht Hk Hsz) as H.
  unfold put_calls in H. cbn [canon int_hashable id] in H. rewrite Hm in H. specialize (H eq_refl).
  unfold runs in H. unfold put_one, after.
  destruct (ls_htable_put _ _ _ _ _ _) as [[[[]|e] s']|f]; [by destruct H|done|done].
Qed.

Lemma filled_rep : table_rep (HeapBase ∅ ∅ ∅) 1 filled_map filled.
Proof.
  unfold filled, filled_map.
  do 4 (apply put_one_rep; [|by split|vm_compute; reflexivity..]). apply empty_rep.
Qed.

(** The entries, in the order of the buckets. *)
Example filled_nodes : (match all_nodes 5 1 filled with Done (r, _) => r | Fault _ => [] end) =
  [(40, Some 4%N); (3, Some 2%N); (7, Some 3%N); (1, Some 1%N)].
Proof. vm_compute. reflexivity. Qed.
End IterationExample.

Lemma htable_iteration_complete_witness :
  runs (all_nodes 5 1%positive) IterationExample.filled (fun r s' => s' = IterationExample.filled /\
    r ≡ₚ [(1, Some 1%N); (3, Some 2%N); (7, Some 3%N); (40, Some 4%N)]).
Proof.
  eapply runs_conseq.
  - exact (htable_iteration_complete (HK := IntKey.int_hashable) (HeapBase ∅ ∅ ∅) 1%positive
      IterationExample.filled_map IterationExample.filled IterationExample.filled_rep).
  - intros r s' [-> Hr]. split; [reflexivity|]. etransitivity; [exact Hr|]. vm_compute.
    solve_Permutation.
Defined.
