(* ===== verification/GHeap.v ===== *)
(** The generalised heap of src/vendor/gheap/gheap.h: a max-heap in an array, each item
    with [fanout] children, laid out in pages of [page_chunks] chunks.  The item mover
    copies an item; the comparer is a boolean function. *)

From S2P Require Import Prelude.
Open Scope Z_scope.

(** The part of [struct gheap_ctx] that fixes the shape of the heap. *)
Record layout := Layout { fanout : Z; page_chunks : Z }.

(** The index functions compute in [size_t]: each operation that may leave its range is
    wrapped where the code makes it. *)
Section indices.
Context (ctx : layout).
Abbreviation page_size := (u64 (fanout ctx * page_chunks ctx)).
Abbreviation page_leaves := (u64 (u64 (u64 (fanout ctx - 1) * page_chunks ctx) + 1)).

Definition gheap_get_parent_index (u : Z) : Z :=
  let u := u64 (u - 1) in
  if decide (page_chunks ctx = 1) then u / fanout ctx
  else if decide (u < fanout ctx) then 0
  else
    let v := u mod page_size in
    if decide (v >= fanout ctx) then u64 (u64 (u - v) + v / fanout ctx)
    else
      let v := u64 (u / page_size - 1) in
      let u := u64 (v / page_leaves + 1) in
      u64 (u64 (u64 (u64 (u * page_size) + v mod page_leaves) - page_leaves) + 1).

Definition gheap_get_child_index (u : Z) : Z :=
  if decide (page_chunks ctx = 1) then
    if decide (u > (SIZE_MAX - 1) / fanout ctx) then SIZE_MAX else u64 (u64 (u * fanout ctx) + 1)
  else if decide (u = 0) then 1
  else
    let u := u64 (u - 1) in
    let v := u64 (u mod page_size + 1) in
    if decide (v < page_size / fanout ctx) then
      let v := u64 (v * u64 (fanout ctx - 1)) in
      if decide (u > u64 (SIZE_MAX - 2 - v)) then SIZE_MAX else u64 (u64 (u + v) + 2)
    else
      let v := u64 (v + u64 (u64 (u64 (u / page_size + 1) * page_leaves) - page_size)) in
      if decide (v > (SIZE_MAX - 1) / page_size) then SIZE_MAX else u64 (u64 (v * page_size) + 1).
End indices.

Section gheap.
Context (ctx : layout) {A : Type} (less : A -> A -> bool).

(** [base[i]] read and written. *)
Definition item_get (i : Z) : C (list A) A := fun l =>
  if decide (i < 0) then Fault OutOfBounds
  else match l !! Z.to_nat i with Some a => Done (a, l) | None => Fault OutOfBounds end.

Definition item_set (i : Z) (a : A) : C (list A) unit := fun l =>
  if decide (i < 0) then Fault OutOfBounds
  else match l !! Z.to_nat i with
       | Some _ => Done (tt, <[Z.to_nat i := a]> l)
       | None => Fault OutOfBounds
       end.

(** The loop of [_gheap_sift_up]. *)
Fixpoint sift_up_loop (fuel : nat) (root_index hole_index : Z) (item : A) : C (list A) Z :=
  match fuel with
  | O => c_fault OutOfFuel
  | S fuel =>
      if decide (hole_index > root_index) then
        let parent_index := gheap_get_parent_index ctx hole_index in
        c_assert (bool_decide (parent_index >= root_index));;
        parent ← item_get parent_index;
        if negb (less parent item) then mret hole_index
        else
          item_set hole_index parent;;
          sift_up_loop fuel root_index parent_index item
      else mret hole_index
  end.

(** A path in the heap is no longer than the index it starts from. *)
Definition gheap_sift_up (root_index hole_index : Z) (item : A) : C (list A) unit :=
  c_assert (bool_decide (hole_index >= root_index));;
  hole_index ← sift_up_loop (S (Z.to_nat hole_index)) root_index hole_index item;
  item_set hole_index item.

(** The loop over the children: [n] iterations left, at child [i]. *)
Fixpoint max_child_loop (n : nat) (i child_index max_child_index : Z) : C (list A) Z :=
  match n with
  | O => mret max_child_index
  | S n =>
      a ← item_get (child_index + i);
      b ← item_get max_child_index;
      max_child_loop n (i + 1) child_index
        (if negb (less a b) then child_index + i else max_child_index)
  end.

Definition gheap_move_up_max_child (children_count hole_index child_index : Z) : C (list A) Z :=
  c_assert (bool_decide (children_count > 0));;
  c_assert (bool_decide (children_count <= fanout ctx));;
  c_assert (bool_decide (child_index = gheap_get_child_index ctx hole_index));;
  max_child_index ← max_child_loop (Z.to_nat (children_count - 1)) 1 child_index child_index;
  a ← item_get max_child_index;
  item_set hole_index a;;
  mret max_child_index.

(** The [while (1)] of [_gheap_sift_down]; the value is the hole it ends with. *)
Fixpoint sift_down_loop (fuel : nat) (heap_size last_full_index hole_index : Z) : C (list A) Z :=
  match fuel with
  | O => c_fault OutOfFuel
  | S fuel =>
      let child_index := gheap_get_child_index ctx hole_index in
      if decide (child_index >= last_full_index) then
        if decide (child_index < heap_size) then
          c_assert (bool_decide (child_index = last_full_index));;
          gheap_move_up_max_child (heap_size - child_index) hole_index child_index
        else mret hole_index
      else
        c_assert (bool_decide (heap_size - child_index >= fanout ctx));;
        hole_index ← gheap_move_up_max_child (fanout ctx) hole_index child_index;
        sift_down_loop fuel heap_size last_full_index hole_index
  end.

Definition gheap_sift_down (heap_size hole_index : Z) (item : A) : C (list A) unit :=
  c_assert (bool_decide (heap_size > 0));;
  c_assert (bool_decide (hole_index < heap_size));;
  let last_full_index := heap_size - (heap_size - 1) mod fanout ctx in
  hole ← sift_down_loop (S (Z.to_nat heap_size)) heap_size last_full_index hole_index;
  gheap_sift_up hole_index hole item.

(** [for (u = 1; u < heap_size; ++u)], [n] iterations left. *)
Fixpoint is_heap_until_loop (n : nat) (u heap_size : Z) : C (list A) Z :=
  match n with
  | O => mret heap_size
  | S n =>
      a ← item_get (gheap_get_parent_index ctx u);
      b ← item_get u;
      if less a b then mret u else is_heap_until_loop n (u + 1) heap_size
  end.

Definition gheap_is_heap_until (heap_size : Z) : C (list A) Z :=
  is_heap_until_loop (Z.to_nat (heap_size - 1)) 1 heap_size.

Definition gheap_is_heap (heap_size : Z) : C (list A) bool :=
  u ← gheap_is_heap_until heap_size; mret (bool_decide (u = heap_size)).

Definition assert_heap (heap_size : Z) : C (list A) unit :=
  b ← gheap_is_heap heap_size; c_assert b.

(** [do { ... } while (i-- > 0)] with [i = n]. *)
Fixpoint make_heap_loop (n : nat) (heap_size : Z) : C (list A) unit :=
  tmp ← item_get (Z.of_nat n);
  gheap_sift_down heap_size (Z.of_nat n) tmp;;
  match n with O => mret tt | S n => make_heap_loop n heap_size end.

Definition gheap_make_heap (heap_size : Z) : C (list A) unit :=
  (if decide (heap_size > 1) then
     let i := if decide (page_chunks ctx = 1) then (heap_size - 2) / fanout ctx
              else heap_size - 2 in
     make_heap_loop (Z.to_nat i) heap_size
   else mret tt);;
  assert_heap heap_size.

Definition gheap_push_heap (heap_size : Z) : C (list A) unit :=
  c_assert (bool_decide (heap_size > 0));;
  assert_heap (heap_size - 1);;
  (if decide (heap_size > 1) then
     let u := heap_size - 1 in
     tmp ← item_get u;
     gheap_sift_up 0 u tmp
   else mret tt);;
  assert_heap heap_size.

(** [gheap_swap_max_item] with [item] pointing to [base[item_index]], as
    [_gheap_pop_max_item] calls it. *)
Definition gheap_swap_max_item (heap_size item_index : Z) : C (list A) unit :=
  c_assert (bool_decide (heap_size > 0));;
  assert_heap heap_size;;
  tmp ← item_get item_index;
  a ← item_get 0;
  item_set item_index a;;
  gheap_sift_down heap_size 0 tmp;;
  assert_heap heap_size.

Definition gheap_pop_max_item (heap_size : Z) : C (list A) unit :=
  gheap_swap_max_item heap_size heap_size.

Definition gheap_pop_heap (heap_size : Z) : C (list A) unit :=
  c_assert (bool_decide (heap_size > 0));;
  assert_heap heap_size;;
  (if decide (heap_size > 1) then gheap_pop_max_item (heap_size - 1) else mret tt);;
  assert_heap (heap_size - 1).
End gheap.

(** ** Layouts

    What the heap needs of the index functions: they are a tree on the naturals. *)
Class HeapLayout (ctx : layout) := {
  layout_fanout : 1 < fanout ctx < 2 ^ 31;
  parent_range u : 0 < u -> 0 <= gheap_get_parent_index ctx u < u;
  (* the children of [v] are the [fanout] indices from [child v] on *)
  child_parent u v : 0 < u < 2 ^ 32 -> 0 <= v < 2 ^ 32 ->
    gheap_get_parent_index ctx u = v <->
    gheap_get_child_index ctx v <= u < gheap_get_child_index ctx v + fanout ctx;
  child_after v : 0 <= v < 2 ^ 32 -> v < gheap_get_child_index ctx v;
  (* siblings start at 1 modulo [fanout] *)
  child_mod v : 0 <= v < 2 ^ 32 -> gheap_get_child_index ctx v mod fanout ctx = 1 mod fanout ctx }.

(** [paged_binary_heap_ctx] of src/tube_manager.c. *)
Definition paged_binary_heap_ctx : layout := Layout 2 512.

(** ** Strict weak orders *)
Class StrictWeak {A} (less : A -> A -> bool) := {
  less_asym a b : less a b = true -> less b a = false;
  less_trans a b c : less a b = false -> less b c = false -> less a c = false }.

Lemma less_irrefl {A} (less : A -> A -> bool) `{!StrictWeak less} a : less a a = false.
Proof. destruct (less a a) eqn:E; [|done]. by rewrite (less_asym a a E) in E. Qed.

#[export] Instance ltb_strict_weak : StrictWeak Z.ltb.
Proof. split; intros *; rewrite ?Z.ltb_lt, ?Z.ltb_ge; lia. Qed.

(** ** Items of an array *)
Section items.
Context {A : Type}.
Implicit Types (l : list A) (i j : Z).

Definition at_ l i : option A := l !! Z.to_nat i.
Definition put l i (a : A) : list A := <[Z.to_nat i := a]> l.

Lemma at_lt l i : 0 <= i < Z.of_nat (length l) -> exists a, at_ l i = Some a.
Proof. intros H. apply lookup_lt_is_Some_2. lia. Qed.

Lemma at_put_eq l i a : 0 <= i < Z.of_nat (length l) -> at_ (put l i a) i = Some a.
Proof. intros H. apply list_lookup_insert_eq. lia. Qed.

Lemma at_put_ne l i j a : 0 <= i -> 0 <= j -> i <> j -> at_ (put l i a) j = at_ l j.
Proof. intros Hi Hj H. apply list_lookup_insert_ne. lia. Qed.

Lemma put_length l i a : length (put l i a) = length l.
Proof. apply length_insert. Qed.

Lemma put_put l i a b : put (put l i a) i b = put l i b.
Proof. apply list_insert_insert_eq. Qed.

Lemma runs_item_get i a l (Q : A -> list A -> Prop) :
  0 <= i -> at_ l i = Some a -> Q a l -> runs (item_get i) l Q.
Proof. intros Hi Ha HQ. unfold runs, item_get. rewrite decide_False by lia. unfold at_ in Ha.
  by rewrite Ha. Qed.

Lemma runs_item_set i a l (Q : unit -> list A -> Prop) :
  0 <= i < Z.of_nat (length l) -> Q tt (put l i a) -> runs (item_set i a) l Q.
Proof.
  intros Hi HQ. destruct (at_lt l i Hi) as [b Hb]. unfold runs, item_set.
  rewrite decide_False by lia. unfold at_ in Hb. by rewrite Hb.
Qed.

(** Moving an item into a hole moves the hole. *)
Lemma put_move l i j a x : 0 <= i -> 0 <= j -> i <> j -> at_ l j = Some a ->
  i < Z.of_nat (length l) -> put (put l i a) j x ≡ₚ put l i x.
Proof.
  intros Hi Hj Hne Ha Hlen.
  pose proof (at_put_eq l i x ltac:(lia)) as H1.
  rewrite <- (at_put_ne l i j x) in Ha by lia.
  pose proof (Permutation_insert_swap _ _ _ _ _ H1 Ha) as HP.
  unfold put in *. by rewrite list_insert_insert_eq in HP.
Qed.

Lemma put_at l i a : at_ l i = Some a -> put l i a = l.
Proof. apply list_insert_id. Qed.
End items.

(** ** The heap order *)
Section heap_order.
Context (ctx : layout) `{HL : !HeapLayout ctx} {A : Type} (less : A -> A -> bool).
Context `{HW : !StrictWeak less}.
Implicit Types (l : list A).
Abbreviation parent := (gheap_get_parent_index ctx).
Abbreviation child := (gheap_get_child_index ctx).

(** Among the first [n] items, every item whose parent is at [r] or later is not above
    its parent. *)
Definition heap_from (l : list A) (n r : Z) : Prop := forall u a b,
  0 < u < n -> r <= parent u -> at_ l (parent u) = Some a -> at_ l u = Some b ->
  less a b = false.

Definition is_heap (l : list A) (n : Z) : Prop := heap_from l n 0.

(** [h] is [r] or a descendant of [r]. *)
Inductive desc (r : Z) : Z -> Prop :=
  | desc_refl : desc r r
  | desc_step u : 0 < u -> desc r (parent u) -> desc r u.

Lemma desc_ge r h : desc r h -> r <= h.
Proof.
  induction 1 as [|u Hu _ IH]; [lia|]. pose proof (parent_range (ctx := ctx) u Hu). lia.
Qed.

(** The array [l] has a hole at [h]: the order holds around it, and across it. *)
Record holed (l : list A) (n r h : Z) : Prop := {
  ho_order u a b : 0 < u < n -> u <> h -> parent u <> h -> r <= parent u ->
    at_ l (parent u) = Some a -> at_ l u = Some b -> less a b = false;
  ho_across u a b : 0 < u < n -> parent u = h -> 0 < h -> r <= parent h ->
    at_ l (parent h) = Some a -> at_ l u = Some b -> less a b = false;
  ho_desc : desc r h;
  ho_range : 0 <= r /\ h < n /\ n <= Z.of_nat (length l) /\ n <= 2 ^ 31 }.

Definition above_children (l : list A) (n h : Z) (x : A) : Prop := forall u b,
  0 < u < n -> parent u = h -> at_ l u = Some b -> less x b = false.

Lemma holed_fill l n r h x : holed l n r h -> above_children l n h x ->
  (h = r \/ (0 < h /\ exists a, at_ l (parent h) = Some a /\ less a x = false)) ->
  heap_from (put l h x) n r.
Proof.
  intros [Ho Ha Hd (Hr & Hn & Hl & Hb)] Hc Hp u a b Hu Hru Hat Hbt.
  pose proof (desc_ge _ _ Hd) as Hrh. pose proof (parent_range (ctx := ctx) u ltac:(lia)) as Hpu.
  destruct (decide (u = h)) as [->|Hne].
  - rewrite at_put_eq in Hbt by lia. rewrite at_put_ne in Hat by lia. simplify_eq.
    destruct Hp as [->|(_ & a' & Ha' & Hlt)]; [lia|]. by simplify_eq.
  - rewrite at_put_ne in Hbt by lia. destruct (decide (parent u = h)) as [E|Hpne].
    + rewrite E, at_put_eq in Hat by lia. simplify_eq. by eapply Hc.
    + rewrite at_put_ne in Hat by lia. by eapply Ho.
Qed.

(** The parent moves into the hole. *)
Lemma holed_up l n r h x p a : holed l n r h -> above_children l n h x -> r < h ->
  p = parent h -> at_ l p = Some a -> less a x = true ->
  holed (put l h a) n r p /\ above_children (put l h a) n p x.
Proof.
  intros [Ho Hx Hd (Hr & Hn & Hl & Hb)] Hc Hrh -> Hat Hlt.
  assert (Hh : 0 < h) by lia. pose proof (parent_range (ctx := ctx) h Hh) as Hph.
  assert (Hdp : desc r (parent h)) by (inversion Hd; subst; [lia|done]).
  pose proof (desc_ge _ _ Hdp) as Hrp.
  split; [split|]; [| |done|rewrite put_length; lia|].
  - intros u c b Hu Hup Hpp Hru Hct Hbt.
    pose proof (parent_range (ctx := ctx) u ltac:(lia)) as Hpu.
    destruct (decide (u = h)) as [->|Hne]; [done|].
    rewrite at_put_ne in Hbt by lia. destruct (decide (parent u = h)) as [E|Hpne].
    + rewrite E, at_put_eq in Hct by lia. simplify_eq. by eapply Hx.
    + rewrite at_put_ne in Hct by lia. by eapply Ho.
  - intros u c b Hu Hup Hp0 Hrpp Hct Hbt.
    pose proof (parent_range (ctx := ctx) (parent h) Hp0) as Hpph.
    rewrite at_put_ne in Hct by lia.
    assert (Hca : less c a = false).
    { eapply (Ho (parent h)); [lia|lia|lia|done|done|done]. }
    destruct (decide (u = h)) as [->|Hne].
    + rewrite at_put_eq in Hbt by lia. by simplify_eq.
    + rewrite at_put_ne in Hbt by lia. eapply (less_trans _ a); [done|].
      eapply (Ho u); [lia|done|lia|lia|by rewrite Hup|done].
  - intros u b Hu Hup Hbt. destruct (decide (u = h)) as [->|Hne].
    + rewrite at_put_eq in Hbt by lia. simplify_eq. by apply less_asym.
    + rewrite at_put_ne in Hbt by lia. apply (less_trans _ a); [by apply less_asym|].
      eapply (Ho u); [lia|done|lia|lia|by rewrite Hup|done].
Qed.

(** The largest child moves into the hole. *)
Lemma holed_down l n r h m a : holed l n r h -> 0 < m < n -> parent m = h ->
  at_ l m = Some a -> above_children l n h a ->
  holed (put l h a) n r m.
Proof.
  intros [Ho Hx Hd (Hr & Hn & Hl & Hb)] Hm Hpm Hat Hmax.
  pose proof (desc_ge _ _ Hd) as Hrh. pose proof (parent_range (ctx := ctx) m ltac:(lia)) as Hpr.
  split; [| |by apply desc_step; [lia|rewrite Hpm]|rewrite put_length; lia].
  - intros u c b Hu Hum Hpum Hru Hct Hbt.
    pose proof (parent_range (ctx := ctx) u ltac:(lia)) as Hpu.
    destruct (decide (u = h)) as [->|Hne].
    + rewrite at_put_eq in Hbt by lia. rewrite at_put_ne in Hct by lia. simplify_eq.
      eapply (Hx m); [lia|done|lia|done|done|done].
    + rewrite at_put_ne in Hbt by lia. destruct (decide (parent u = h)) as [E|Hpne].
      * rewrite E, at_put_eq in Hct by lia. simplify_eq. by eapply Hmax.
      * rewrite at_put_ne in Hct by lia. by eapply (Ho u).
  - intros u c b Hu Hpu Hm0 Hrm Hct Hbt.
    pose proof (parent_range (ctx := ctx) u ltac:(lia)) as Hpur.
    rewrite Hpm, at_put_eq in Hct by lia. simplify_eq.
    rewrite at_put_ne in Hbt by lia. eapply (Ho u); [lia|lia|lia|lia|done|done].
Qed.

(** ** The operations *)

(** What an operation on the first [n] items does to the array: it permutes them. *)
Record shuffled (n : Z) (l l' : list A) : Prop := {
  sh_perm : l' ≡ₚ l;
  sh_rest i : n <= i -> at_ l' i = at_ l i }.

Lemma shuffled_length n l l' : shuffled n l l' -> length l' = length l.
Proof. intros [H _]. by apply Permutation_length. Qed.

(** The loop climbs no further than [root]; the order may be one from [r], above it. *)
Lemma sift_up_loop_runs n r root item fuel : forall h l, holed l n r h -> desc root h -> r <= root ->
  above_children l n h item -> h < Z.of_nat fuel ->
  runs (sift_up_loop ctx less fuel root h item) l (fun h' l' =>
    holed l' n r h' /\ above_children l' n h' item /\ root <= h' /\
    (h' = root \/ (0 < h' /\ exists a, at_ l' (parent h') = Some a /\ less a item = false)) /\
    put l' h' item ≡ₚ put l h item /\ (forall i, 0 <= i < root \/ n <= i -> at_ l' i = at_ l i)).
Proof.
  induction fuel as [|fuel IH]; intros h l Hh Hd Hroot Hc Hf; pose proof Hh as [_ _ _ (Hr & Hn & Hl & Hb)];
    pose proof (desc_ge _ _ Hd) as Hrh; [lia|].
  cbn [sift_up_loop]. destruct (decide (h > root)) as [Hgt|Hle]; cbv zeta.
  2:{ run. split_and!; [done|done|lia|left; lia|done|done]. }
  assert (Hdp : desc root (parent h)) by (inversion Hd; subst; [lia|done]).
  pose proof (desc_ge _ _ Hdp) as Hrp. pose proof (parent_range (ctx := ctx) h ltac:(lia)) as Hp.
  run_step. apply runs_assert; [by apply bool_decide_eq_true_2; lia|].
  destruct (at_lt l (parent h)) as [a Ha]; [lia|].
  run_step. eapply runs_item_get; [lia|done|]. destruct (less a item) eqn:El; cbn [negb].
  - run_step. apply runs_item_set; [lia|].
    destruct (holed_up _ _ _ _ item _ a Hh Hc ltac:(lia) eq_refl Ha El) as [Hh' Hc'].
    eapply runs_conseq; [apply (IH _ _ Hh' Hdp Hroot Hc'); lia|].
    intros h' l' (H1 & H2 & H3 & H4 & H5 & H6). split_and!; [done..| |].
    + rewrite H5. apply put_move; [lia|lia|lia|done|lia].
    + intros i Hi. rewrite H6 by done. apply at_put_ne; lia.
  - run. split_and!; [done|done|done| |done|done]. right. split; [lia|eauto].
Qed.

Lemma sift_up_runs n r root h item l : holed l n r h -> desc root h -> r <= root ->
  above_children l n h item ->
  (root = r \/ (0 < root /\ exists a, at_ l (parent root) = Some a /\ less a item = false)) ->
  runs (gheap_sift_up ctx less root h item) l (fun _ l' =>
    heap_from l' n r /\ l' ≡ₚ put l h item /\ (forall i, n <= i -> at_ l' i = at_ l i)).
Proof.
  intros Hh Hd Hroot Hc Hp. pose proof Hh as [_ _ _ (Hr & Hn & Hl & Hb)].
  pose proof (desc_ge _ _ Hd) as Hrh. unfold gheap_sift_up.
  run_step. apply runs_assert; [by apply bool_decide_eq_true_2; lia|].
  run_step. eapply runs_conseq; [apply (sift_up_loop_runs n r root); [done|done|done|done|lia]|].
  intros h' l' (Hh' & Hc' & Hge & Hp' & HP & Hrest).
  pose proof Hh' as [_ _ _ (_ & Hn' & Hl' & _)].
  apply runs_item_set; [lia|]. split_and!; [|done|].
  - apply holed_fill; [done|done|]. destruct Hp' as [->|Hp']; [|by right].
    destruct Hp as [->|(H0 & a & Ha & Hlt)]; [by left|]. right. split; [done|]. exists a.
    split; [|done]. pose proof (parent_range (ctx := ctx) root H0). by rewrite Hrest by lia.
  - intros i Hi. rewrite at_put_ne by lia. apply Hrest. by right.
Qed.

Lemma max_child_loop_runs l c k : forall n i m a, 0 <= c -> 0 <= i -> 0 <= k ->
  c + i + Z.of_nat n = c + k -> c + k <= Z.of_nat (length l) ->
  c <= m < c + i -> at_ l m = Some a ->
  (forall j b, c <= j < c + i -> at_ l j = Some b -> less a b = false) ->
  runs (max_child_loop less n i c m) l (fun m' l' => l' = l /\ c <= m' < c + k /\
    exists a', at_ l m' = Some a' /\
      forall j b, c <= j < c + k -> at_ l j = Some b -> less a' b = false).
Proof.
  induction n as [|n IH]; intros i m a Hc Hi Hk Hn Hl Hm Ha Hmax; cbn [max_child_loop].
  - run. replace k with i by lia. eauto.
  - destruct (at_lt l (c + i)) as [b Hb]; [lia|].
    run_step. eapply runs_item_get; [lia|done|]. run_step. eapply runs_item_get; [lia|done|].
    destruct (less b a) eqn:El; cbn [negb].
    + apply (IH (i + 1) m a); try lia; [done|]. intros j b' Hj Hb'.
      destruct (decide (j = c + i)) as [->|Hne]; [simplify_eq; by apply less_asym|].
      apply (Hmax j); [lia|done].
    + apply (IH (i + 1) (c + i) b); try lia; [done|]. intros j b' Hj Hb'.
      destruct (decide (j = c + i)) as [->|Hne]; [simplify_eq; by apply less_irrefl|].
      apply (less_trans _ a); [done|]. apply (Hmax j); [lia|done].
Qed.

Lemma move_up_max_child_runs l n r h k : holed l n r h ->
  let c := child h in
  0 < k <= fanout ctx -> c + k <= n -> (k = fanout ctx \/ c + k = n) ->
  runs (gheap_move_up_max_child ctx less k h c) l (fun m l' =>
    c <= m < c + k /\ (forall r, holed l n r h -> holed l' n r m) /\
    (forall x, put l' m x ≡ₚ put l h x) /\ (forall i, 0 <= i -> i <> h -> at_ l' i = at_ l i)).
Proof.
  intros Hh c Hk Hcn Hfull. pose proof Hh as [_ _ Hd (Hr & Hn & Hl & Hb)].
  pose proof (desc_ge _ _ Hd) as Hrh.
  pose proof (child_after (ctx := ctx) h ltac:(lia)) as Hca.
  assert (Hch : forall u, 0 < u < n -> parent u = h <-> c <= u < c + k).
  { intros u Hu. rewrite (child_parent (ctx := ctx)) by lia. fold c. lia. }
  unfold gheap_move_up_max_child.
  run_step. apply runs_assert; [by apply bool_decide_eq_true_2; lia|].
  run_step. apply runs_assert; [by apply bool_decide_eq_true_2; lia|].
  run_step. apply runs_assert; [by apply bool_decide_eq_true_2|].
  destruct (at_lt l c) as [a0 Ha0]; [lia|]. run_step.
  eapply runs_conseq; [apply (max_child_loop_runs l c k _ 1 c a0); try lia; [done|]|].
  { intros j b Hj Hbt. replace j with c in Hbt by lia. simplify_eq. by apply less_irrefl. }
  intros m l' (-> & Hm & a & Ha & Hmax). run_step. eapply runs_item_get; [lia|done|].
  run_step. apply runs_item_set; [lia|]. run_step. split_and!; [lia|lia| | |].
  - intros r' Hh'. apply holed_down; [done|lia|apply Hch; lia|done|].
    intros u b Hu Hpu Hbt. apply (Hmax u); [by apply Hch|done].
  - intros x. apply put_move; [lia|lia|lia|done|lia].
  - intros i Hi Hne. apply at_put_ne; lia.
Qed.

Lemma mul_gap F q : 1 < F -> (q <= -1 -> F * q <= - F) /\ (q >= 1 -> F * q >= F) /\
  (q = 0 -> F * q = 0).
Proof. intros H. split_and!; intros; nia. Qed.

Lemma sift_down_loop_runs n r fuel : forall h l, holed l n r h -> n - h < Z.of_nat fuel -> 0 <= h ->
  runs (sift_down_loop ctx less fuel n (n - (n - 1) mod fanout ctx) h) l (fun h' l' =>
    (forall r, holed l n r h -> holed l' n r h') /\ (forall u, 0 < u < n -> parent u <> h') /\
    (forall x, put l' h' x ≡ₚ put l h x) /\ (forall i, 0 <= i < h \/ n <= i -> at_ l' i = at_ l i)).
Proof.
  induction fuel as [|fuel IH]; intros h l Hh Hf Hh0;
    pose proof Hh as [_ _ Hd (Hr & Hn & Hl & Hb)]; [lia|].
  pose proof (layout_fanout (ctx := ctx)) as HF.
  pose proof (child_after (ctx := ctx) h ltac:(lia)) as Hca.
  pose proof (child_mod (ctx := ctx) h ltac:(lia)) as Hcm.
  set (F := fanout ctx) in *. set (L := n - (n - 1) mod F).
  assert (HL1 : n - F < L <= n).
  { unfold L. pose proof (Z.mod_pos_bound (n - 1) F ltac:(lia)). lia. }
  assert (HLm : forall c, c mod F = 1 mod F -> exists q, c = L + F * q).
  { intros c Hc. rewrite (Z.mod_small 1) in Hc by lia.
    exists (c / F - (n - 1) / F). unfold L.
    pose proof (Z.div_mod c F ltac:(lia)). pose proof (Z.div_mod (n - 1) F ltac:(lia)). nia. }
  destruct (HLm _ Hcm) as [q Hq]. pose proof (mul_gap F q ltac:(lia)) as Hgap.
  cbn [sift_down_loop]. cbv zeta. fold L. destruct (decide (child h >= L)) as [HcL|HcL].
  - destruct (decide (child h < n)) as [Hcn|Hcn].
    + assert (child h = L) as EL by lia.
      run_step. apply runs_assert; [by apply bool_decide_eq_true_2|].
      eapply runs_conseq; [apply (move_up_max_child_runs _ n r); [done|fold F; lia|lia|right; lia]|].
      intros m l' (Hm & Hh' & HP & Hrest). split_and!; [done| |done|intros i Hi; apply Hrest; lia].
      intros u Hu Hpu. apply (child_parent (ctx := ctx)) in Hpu; [|lia|lia].
      pose proof (child_after (ctx := ctx) m ltac:(lia)).
      destruct (HLm _ (child_mod (ctx := ctx) m ltac:(lia))) as [q' Hq'].
      pose proof (mul_gap F q' ltac:(lia)). lia.
    + run. split_and!; [done| |done|done]. intros u Hu Hpu.
      apply (child_parent (ctx := ctx)) in Hpu; lia.
  - assert (child h + F <= L) by lia.
    run_step. apply runs_assert; [by apply bool_decide_eq_true_2; lia|].
    run_step. eapply runs_conseq; [apply (move_up_max_child_runs _ n r); [done|fold F; lia|fold F; lia|by left]|].
    intros m l' (Hm & Hh' & HP & Hrest).
    eapply runs_conseq; [apply (IH m l' (Hh' r Hh)); lia|].
    intros h' l'' (H1 & H2 & H3 & H4). split_and!; [|done| |].
    + intros r' Hr'. by apply H1, Hh'.
    + intros x. by rewrite H3.
    + intros i Hi. rewrite H4, Hrest; [done|lia..].
Qed.

Lemma holed_root l n r h : holed l n r h -> 0 <= h -> holed l n h h.
Proof.
  intros [Ho _ Hd (Hr & Hn & Hl & Hb)] Hh. pose proof (desc_ge _ _ Hd).
  split; [| |constructor|lia].
  - intros u a b Hu Hne Hpne Hle. apply Ho; [done|done|done|lia].
  - intros u a b Hu Hpu Hh0 Hle. pose proof (parent_range (ctx := ctx) h Hh0). lia.
Qed.

(** Sifting down from [h] keeps the order from [r] when the item is not above the parent
    of [h]. *)
Lemma sift_down_under_runs n r h item l : holed l n r h -> 0 <= h ->
  (h = r \/ (0 < h /\ exists a, at_ l (parent h) = Some a /\ less a item = false)) ->
  runs (gheap_sift_down ctx less n h item) l (fun _ l' =>
    heap_from l' n r /\ l' ≡ₚ put l h item /\ (forall i, n <= i -> at_ l' i = at_ l i)).
Proof.
  intros Hh Hh0 Hp. pose proof Hh as [_ _ Hd (Hr & Hn & Hl & Hb)]. pose proof (desc_ge _ _ Hd).
  unfold gheap_sift_down.
  run_step. apply runs_assert; [by apply bool_decide_eq_true_2; lia|].
  run_step. apply runs_assert; [by apply bool_decide_eq_true_2; lia|]. cbv zeta.
  run_step. eapply runs_conseq; [apply (sift_down_loop_runs n r); [done|lia|lia]|].
  intros h' l' (Hh' & Hleaf & HP & Hrest).
  pose proof (Hh' h (holed_root _ _ _ _ Hh Hh0)) as [_ _ Hd' _].
  eapply runs_conseq; [apply (sift_up_runs n r); [by apply Hh'|done|done| |]|].
  - intros u b Hu Hpu _. by destruct (Hleaf u).
  - destruct Hp as [->|(Hpos & a & Ha & Hlt)]; [by left|]. right. split; [done|]. exists a.
    split; [|done]. pose proof (parent_range (ctx := ctx) h Hpos). by rewrite Hrest by lia.
  - intros _ l'' (H1 & H2 & H3). split_and!; [done|by rewrite H2|].
    intros i Hi. rewrite H3 by done. apply Hrest. by right.
Qed.

Lemma sift_down_runs n h item l : holed l n h h -> 0 <= h ->
  runs (gheap_sift_down ctx less n h item) l (fun _ l' =>
    heap_from l' n h /\ l' ≡ₚ put l h item /\ (forall i, n <= i -> at_ l' i = at_ l i)).
Proof. intros Hh Hh0. apply sift_down_under_runs; [done|done|by left]. Qed.

Lemma is_heap_until_loop_runs n l : is_heap l n -> n <= Z.of_nat (length l) -> forall k u,
  0 < u -> Z.of_nat k = Z.max 0 (n - u) ->
  runs (is_heap_until_loop ctx less k u n) l (fun v l' => v = n /\ l' = l).
Proof.
  intros Hh Hl. induction k as [|k IH]; intros u Hu Hk; cbn [is_heap_until_loop]; [by run|].
  pose proof (parent_range (ctx := ctx) u Hu) as Hp.
  destruct (at_lt l (parent u)) as [a Ha]; [lia|]. destruct (at_lt l u) as [b Hb]; [lia|].
  run_step. eapply runs_item_get; [lia|done|]. run_step. eapply runs_item_get; [lia|done|].
  rewrite (Hh u a b) by (done || lia). apply IH; lia.
Qed.

Lemma assert_heap_runs n l (Q : unit -> list A -> Prop) : is_heap l n ->
  n <= Z.of_nat (length l) -> 0 <= n -> Q tt l -> runs (assert_heap ctx less n) l Q.
Proof.
  intros Hh Hl Hn HQ. unfold assert_heap, gheap_is_heap, gheap_is_heap_until.
  run_step. run_step. eapply runs_conseq; [apply is_heap_until_loop_runs; [done|done|lia|lia]|].
  intros v l' [-> ->]. run_step. apply runs_assert; [by apply bool_decide_eq_true_2|done].
Qed.

Lemma desc_zero h : 0 <= h -> desc 0 h.
Proof.
  intros H. induction h as [h IH] using (well_founded_ind (Z.lt_wf 0)).
  destruct (decide (h = 0)) as [->|Hne]; [constructor|].
  pose proof (parent_range (ctx := ctx) h ltac:(lia)).
  apply desc_step; [lia|]. apply IH; lia.
Qed.

(** The root of a heap is a maximum. *)
Lemma heap_root_max l n a u b : is_heap l n -> n <= Z.of_nat (length l) ->
  at_ l 0 = Some a -> 0 <= u < n -> at_ l u = Some b -> less a b = false.
Proof.
  intros Hh Hl Ha. revert b. induction u as [u IH] using (well_founded_ind (Z.lt_wf 0)).
  intros b Hu Hb. destruct (decide (u = 0)) as [->|Hne].
  - simplify_eq. by apply less_irrefl.
  - pose proof (parent_range (ctx := ctx) u ltac:(lia)) as Hp.
    destruct (at_lt l (parent u)) as [c Hc]; [lia|].
    apply (less_trans _ c); [apply (IH (parent u)); [lia|lia|done]|].
    apply (Hh u); [lia|lia|done|done].
Qed.

Lemma is_heap_le l n m : is_heap l n -> m <= n -> is_heap l m.
Proof. intros H Hm u a b Hu. apply H. lia. Qed.

Lemma push_heap_runs n l : is_heap l (n - 1) -> 0 < n <= Z.of_nat (length l) -> n <= 2 ^ 31 ->
  runs (gheap_push_heap ctx less n) l (fun _ l' => is_heap l' n /\ shuffled n l l').
Proof.
  intros Hh Hn Hb. unfold gheap_push_heap.
  run_step. apply runs_assert; [by apply bool_decide_eq_true_2; lia|].
  run_step. apply assert_heap_runs; [done|lia|lia|].
  run_step. eapply (runs_conseq _ _ (fun _ l' => is_heap l' n /\ shuffled n l l')).
  2:{ intros _ l' [Hh' Hs]. apply assert_heap_runs; [done| |lia|done].
      rewrite (shuffled_length _ _ _ Hs). lia. }
  destruct (decide (n > 1)) as [Hgt|Hle]; cbv zeta.
  - destruct (at_lt l (n - 1)) as [x Hx]; [lia|]. run_step. eapply runs_item_get; [lia|done|].
    eapply runs_conseq; [apply (sift_up_runs n 0); [|apply desc_zero; lia|done| |by left]|].
    + split; [| |apply desc_zero; lia|lia].
      * intros u a b Hu Hne Hpne Hru. apply Hh; [lia|done].
      * intros u a b Hu Hpu. pose proof (parent_range (ctx := ctx) u ltac:(lia)). lia.
    + intros u b Hu Hpu. pose proof (parent_range (ctx := ctx) u ltac:(lia)). lia.
    + intros _ l' (H1 & H2 & H3). split; [done|]. split; [|done]. by rewrite H2, put_at.
  - run. split; [|by split]. intros u a b Hu. lia.
Qed.

(** The maximum of the first [n] items changes places with item [k] behind them. *)
Lemma swap_max_item_runs n k l : is_heap l n -> 0 < n <= k -> k < Z.of_nat (length l) -> n <= 2 ^ 31 ->
  runs (gheap_swap_max_item ctx less n k) l (fun _ l' =>
    is_heap l' n /\ l' ≡ₚ l /\ at_ l' k = at_ l 0 /\
    (forall i, n <= i -> i <> k -> at_ l' i = at_ l i)).
Proof.
  intros Hh Hn Hk Hb. unfold gheap_swap_max_item.
  destruct (at_lt l k) as [x Hx]; [lia|]. destruct (at_lt l 0) as [a Ha]; [lia|].
  run_step. apply runs_assert; [by apply bool_decide_eq_true_2; lia|].
  run_step. apply assert_heap_runs; [done|lia|lia|].
  run_step. eapply runs_item_get; [lia|done|]. run_step. eapply runs_item_get; [lia|done|].
  run_step. apply runs_item_set; [lia|]. run_step.
  eapply runs_conseq; [apply (sift_down_runs n 0)|].
  - split; [| |constructor|rewrite put_length; lia].
    + intros u c b Hu Hne Hpne Hru Hc Hbt.
      pose proof (parent_range (ctx := ctx) u ltac:(lia)).
      rewrite at_put_ne in Hc, Hbt by lia. by eapply Hh.
    + intros u c b Hu Hpu. lia.
  - lia.
  - intros _ l' (H1 & H2 & H3).
    assert (Hp : l' ≡ₚ l) by (rewrite H2, put_move by (done || lia); by rewrite put_at).
    apply assert_heap_runs; [done|rewrite Hp; lia|lia|]. split_and!; [done|done| |].
    + rewrite H3 by lia. by rewrite at_put_eq by lia.
    + intros i Hi Hne. rewrite H3 by lia. apply at_put_ne; lia.
Qed.

Lemma pop_heap_runs n l : is_heap l n -> 0 < n <= Z.of_nat (length l) -> n <= 2 ^ 31 ->
  runs (gheap_pop_heap ctx less n) l (fun _ l' =>
    is_heap l' (n - 1) /\ shuffled n l l' /\ at_ l' (n - 1) = at_ l 0).
Proof.
  intros Hh Hn Hb. unfold gheap_pop_heap.
  run_step. apply runs_assert; [by apply bool_decide_eq_true_2; lia|].
  run_step. apply assert_heap_runs; [done|lia|lia|].
  run_step. eapply (runs_conseq _ _ (fun _ l' =>
    is_heap l' (n - 1) /\ shuffled n l l' /\ at_ l' (n - 1) = at_ l 0)).
  2:{ intros _ l' (Hh' & Hs & Hat). apply assert_heap_runs; [done| |lia|done].
      rewrite (shuffled_length _ _ _ Hs). lia. }
  destruct (decide (n > 1)) as [Hgt|Hle].
  2:{ run. replace n with 1 by lia. split_and!; [|by split|done]. intros u a b Hu. lia. }
  eapply runs_conseq; [apply (swap_max_item_runs (n - 1) (n - 1)); [|lia..]|].
  { apply (is_heap_le l n); [done|lia]. }
  intros _ l' (H1 & H2 & H3 & H4). split_and!; [done| |done]. split; [done|].
  intros i Hi. apply H4; lia.
Qed.

(** Sifting down every index from the last one makes a heap. *)
Lemma make_heap_loop_runs n : 0 < n <= 2 ^ 31 -> forall k l,
  heap_from l n (Z.of_nat k + 1) -> Z.of_nat k < n -> n <= Z.of_nat (length l) ->
  runs (make_heap_loop ctx less k n) l (fun _ l' => is_heap l' n /\ shuffled n l l').
Proof.
  intros Hn. induction k as [|k IH]; intros l Hh Hk Hl; cbn [make_heap_loop].
  - destruct (at_lt l (Z.of_nat 0)) as [x Hx]; [lia|].
    run_step. eapply runs_item_get; [lia|done|]. run_step.
    eapply runs_conseq; [apply (sift_down_runs n)|].
    + split; [| |constructor|lia].
      * intros u a b Hu Hne Hpne Hru. apply Hh; [done|]. cbn in *. lia.
      * intros; lia.
    + lia.
    + intros _ l' (H1 & H2 & H3). run_step. split; [done|]. split; [by rewrite H2, put_at|done].
  - destruct (at_lt l (Z.of_nat (S k))) as [x Hx]; [lia|].
    run_step. eapply runs_item_get; [lia|done|]. run_step.
    eapply runs_conseq; [apply (sift_down_runs n)|].
    + split; [| |constructor|lia].
      * intros u a b Hu Hne Hpne Hru. apply Hh; [done|]. lia.
      * intros u a b Hu Hpu Hh0 Hle.
        pose proof (parent_range (ctx := ctx) (Z.of_nat (S k)) Hh0). lia.
    + lia.
    + intros _ l' (H1 & H2 & H3).
      assert (Hs : shuffled n l l') by (split; [by rewrite H2, put_at|done]).
      eapply runs_conseq; [apply IH|].
      * intros u a b Hu Hru. apply H1; [done|]. lia.
      * lia.
      * rewrite (shuffled_length _ _ _ Hs). done.
      * intros _ l'' [H4 [H5 H6]]. split; [done|]. destruct Hs as [H7 H8].
        split; [by rewrite H5|]. intros i Hi. by rewrite H6, H8.
Qed.

Lemma make_heap_runs n l : 0 <= n <= Z.of_nat (length l) -> n <= 2 ^ 31 ->
  runs (gheap_make_heap ctx less n) l (fun _ l' => is_heap l' n /\ shuffled n l l').
Proof.
  intros Hn Hb. unfold gheap_make_heap. run_step. eapply (runs_conseq _ _ (fun _ l' => is_heap l' n /\ shuffled n l l')).
  2:{ intros _ l' [Hh' Hs]. apply assert_heap_runs; [done| |lia|done].
      rewrite (shuffled_length _ _ _ Hs). lia. }
  destruct (decide (n > 1)) as [Hgt|Hle]; cbv zeta.
  - pose proof (layout_fanout (ctx := ctx)) as HF. destruct (decide (page_chunks ctx = 1)) as [Hpc|Hpc].
    + pose proof (Z.div_pos (n - 2) (fanout ctx) ltac:(lia) ltac:(lia)).
      pose proof (Z.div_le_upper_bound (n - 2) (fanout ctx) (n - 2) ltac:(lia) ltac:(nia)).
      apply make_heap_loop_runs; [lia| |lia|lia]. intros u a b Hu Hru. rewrite Z2Nat.id in Hru by lia.
      pose proof (Z.div_le_mono (u - 1) (n - 2) (fanout ctx) ltac:(lia) ltac:(lia)) as Hle.
      unfold gheap_get_parent_index in Hru. cbv zeta in Hru.
      rewrite decide_True, uwrap_id in Hru by (done || (unfold in_range; lia)). lia.
    + apply make_heap_loop_runs; [lia| |lia|lia].
      intros u a b Hu Hru. pose proof (parent_range (ctx := ctx) u ltac:(lia)). lia.
  - run. split; [|by split]. intros u a b Hu. lia.
Qed.

End heap_order.

Section shuffles.
Context {A : Type}.

Lemma at_take (l : list A) n i : 0 <= i < n -> at_ (take (Z.to_nat n) l) i = at_ l i.
Proof. intros Hi. unfold at_. apply lookup_take_lt. lia. Qed.

(** A shuffle of the first [n] slots is a shuffle of the items. *)
Lemma shuffled_take n (l l' : list A) : 0 <= n -> shuffled n l l' ->
  take (Z.to_nat n) l' ≡ₚ take (Z.to_nat n) l.
Proof.
  intros Hn [Hp Hr]. apply (Permutation_app_inv_r (drop (Z.to_nat n) l')).
  rewrite take_drop. assert (E : drop (Z.to_nat n) l' = drop (Z.to_nat n) l).
  { apply list_eq. intros i. rewrite !lookup_drop.
    specialize (Hr (n + Z.of_nat i) ltac:(lia)). unfold at_ in Hr.
    by replace (Z.to_nat n + i)%nat with (Z.to_nat (n + Z.of_nat i)) by lia. }
  by rewrite E, take_drop.
Qed.
End shuffles.
