(* ===== verification/GHeapLayout.v ===== *)
(** Every layout of src/vendor/gheap/gheap.h is a tree: the index functions are inverse to
    each other, by way of the chunks, whatever the fanout and the size of the pages. *)

From S2P Require Import Prelude GHeap.
Open Scope Z_scope.

Section chunks.
Context (F PC : Z) (HF : 1 < F) (HPC : 1 <= PC).
Abbreviation P := (F * PC).
Abbreviation L := ((F - 1) * PC + 1).
Abbreviation ctx := (Layout F PC).

(** The parent of the items of chunk [g], and the chunk that holds the children of [v]. *)
Definition chunk_parent (g : Z) : Z :=
  if decide (g = 0) then 0
  else if decide (g mod PC <> 0) then (g / PC) * P + g mod PC
  else let k := g / PC - 1 in k / L * P + PC + k mod L.

Definition child_chunk (v : Z) : Z :=
  if decide (v = 0) then 0
  else
    let w := (v - 1) mod P + 1 in
    let q := (v - 1) / P in
    if decide (w < PC) then q * PC + w else (w - PC + q * L + 1) * PC.

Lemma div_mod_at q d r : 0 <= r < d -> (q * d + r) / d = q /\ (q * d + r) mod d = r.
Proof.
  intros Hr. rewrite Z.div_add_l by lia. rewrite Z.div_small by lia. split; [lia|].
  rewrite Z.add_comm, Z.mod_add by lia. by apply Z.mod_small.
Qed.

Lemma page_gap : 0 < P /\ 1 <= L /\ P - L + 1 = PC /\ PC <= P.
Proof. nia. Qed.

Lemma child_of_parent g : 0 <= g -> child_chunk (chunk_parent g) = g.
Proof.
  intros Hg. pose proof page_gap as (HP & HL & HPL & _). unfold chunk_parent.
  destruct (decide (g = 0)) as [->|Hg0]; [done|].
  pose proof (Z.div_mod g PC ltac:(lia)) as Eg. pose proof (Z.mod_pos_bound g PC ltac:(lia)) as Hw.
  assert (Hq : 0 <= g / PC) by (apply Z.div_pos; lia).
  set (q := g / PC) in *. set (w := g mod PC) in *.
  destruct (decide (w <> 0)) as [Hw0|Hw0].
  - unfold child_chunk. rewrite decide_False by nia. cbv zeta.
    replace (q * P + w - 1) with (q * P + (w - 1)) by lia.
    destruct (div_mod_at q P (w - 1)) as [-> ->]; [lia|]. rewrite decide_True by lia. lia.
  - assert (w = 0) as E0 by lia. rewrite E0 in Eg. assert (1 <= q) by nia.
    cbv zeta. pose proof (Z.div_mod (q - 1) L ltac:(lia)) as Ek.
    pose proof (Z.mod_pos_bound (q - 1) L ltac:(lia)) as Hb.
    assert (Ha : 0 <= (q - 1) / L) by (apply Z.div_pos; lia).
    set (a := (q - 1) / L) in *. set (b := (q - 1) mod L) in *.
    unfold child_chunk. rewrite decide_False by nia. cbv zeta.
    replace (a * P + PC + b - 1) with (a * P + (PC + b - 1)) by lia.
    destruct (div_mod_at a P (PC + b - 1)) as [-> ->]; [lia|]. rewrite decide_False by lia. nia.
Qed.

Lemma parent_of_child v : 0 <= v -> chunk_parent (child_chunk v) = v.
Proof.
  intros Hv. pose proof page_gap as (HP & HL & HPL & _). unfold child_chunk.
  destruct (decide (v = 0)) as [->|Hv0]; [done|].
  pose proof (Z.div_mod (v - 1) P ltac:(lia)) as Ev. pose proof (Z.mod_pos_bound (v - 1) P ltac:(lia)) as Hs.
  assert (Hq : 0 <= (v - 1) / P) by (apply Z.div_pos; lia).
  set (q := (v - 1) / P) in *. set (s := (v - 1) mod P) in *. cbv zeta.
  destruct (decide (s + 1 < PC)) as [Hw|Hw]; unfold chunk_parent.
  - rewrite decide_False by nia. destruct (div_mod_at q PC (s + 1)) as [-> ->]; [lia|].
    rewrite decide_True by lia. lia.
  - set (m := s + 1 - PC + q * L + 1). rewrite decide_False by nia.
    assert (E : m * PC / PC = m /\ (m * PC) mod PC = 0).
    { rewrite Z.div_mul, Z.mod_mul by lia. done. }
    destruct E as [-> ->]. rewrite decide_False by lia. cbv zeta.
    replace (m - 1) with (q * L + (s + 1 - PC)) by lia.
    destruct (div_mod_at q L (s + 1 - PC)) as [-> ->]; lia.
Qed.

Lemma child_chunk_above v : 0 <= v -> 0 <= child_chunk v /\ v <= F * child_chunk v.
Proof.
  intros Hv. pose proof page_gap as (HP & HL & HPL & _). unfold child_chunk.
  destruct (decide (v = 0)) as [->|Hv0]; [lia|].
  pose proof (Z.div_mod (v - 1) P ltac:(lia)) as Ev. pose proof (Z.mod_pos_bound (v - 1) P ltac:(lia)) as Hs.
  assert (Hq : 0 <= (v - 1) / P) by (apply Z.div_pos; lia).
  set (q := (v - 1) / P) in *. set (s := (v - 1) mod P) in *. cbv zeta.
  destruct (decide (s + 1 < PC)) as [Hw|Hw]; [nia|].
  replace (F * ((s + 1 - PC + q * L + 1) * PC)) with (P * (s + 1 - PC + q * L + 1)) by lia.
  assert (q <= q * L) by nia. split; [nia|]. assert (q + 1 <= s + 1 - PC + q * L + 1) by lia. nia.
Qed.

Lemma chunk_parent_pos g : 0 <= g -> 0 <= chunk_parent g.
Proof.
  intros Hg. pose proof page_gap as (HP & HL & _ & _). unfold chunk_parent.
  destruct (decide (g = 0)); [lia|]. assert (0 <= g / PC) by (apply Z.div_pos; lia).
  pose proof (Z.mod_pos_bound g PC ltac:(lia)). case_decide; [nia|]. cbv zeta.
  pose proof (Z.div_mod g PC ltac:(lia)). assert (1 <= g / PC) by nia.
  pose proof (Z.mod_pos_bound (g / PC - 1) L ltac:(lia)).
  assert (0 <= (g / PC - 1) / L) by (apply Z.div_pos; lia). nia.
Qed.

(** ** The index functions of the source by way of the chunks

    Nothing is lost in [size_t] as long as a page fits: that is the assertion of the code. *)
Context (HP : P <= SIZE_MAX).

Lemma page_wraps : u64 P = P /\ u64 (u64 (u64 (F - 1) * PC) + 1) = L.
Proof.
  pose proof page_gap as (H0 & H1 & H2 & H3). unfold SIZE_MAX in HP.
  autorewrite with wrap. split; apply uwrap_id; unfold in_range; lia.
Qed.

Lemma parent_chunked u : 0 < u <= SIZE_MAX -> gheap_get_parent_index ctx u = chunk_parent ((u - 1) / F).
Proof.
  intros Hu. pose proof page_gap as (HP0 & HL & HPL & _). pose proof page_wraps as [EP EL].
  pose proof (Z.div_pos (u - 1) F ltac:(lia) ltac:(lia)) as Hg.
  pose proof (chunk_parent_pos ((u - 1) / F) Hg) as Hc.
  destruct (child_chunk_above (chunk_parent ((u - 1) / F)) Hc) as [_ Hle].
  rewrite child_of_parent in Hle by done. pose proof (Z.mul_div_le (u - 1) F ltac:(lia)) as Hm.
  rewrite <- (uwrap_id 64 (chunk_parent _)) by (unfold in_range, SIZE_MAX in *; lia).
  clear Hc Hle Hm.
  unfold gheap_get_parent_index. cbn [fanout page_chunks]. rewrite EP, EL, (uwrap_id 64 (u - 1)).
  2:{ unfold in_range, SIZE_MAX in *. lia. }
  cbv zeta. unfold chunk_parent.
  destruct (decide (PC = 1)) as [E|Hne].
  - rewrite E, Z.mod_1_r, Z.div_1_r. rewrite <- (uwrap_id 64 ((u - 1) / F)) at 1.
    2:{ pose proof (Z.div_le_upper_bound (u - 1) F u ltac:(lia) ltac:(nia)). unfold in_range, SIZE_MAX in *. lia. }
    f_equal. destruct (decide ((u - 1) / F = 0)) as [E0|E0]; [lia|].
    rewrite decide_False by lia. cbv zeta. pose proof (Z.div_mod ((u - 1) / F - 1) F ltac:(lia)).
    replace ((F - 1) * 1 + 1) with F by lia. lia.
  - destruct (decide (u - 1 < F)) as [Hlt|Hge].
    { rewrite Z.div_small by lia. by rewrite decide_True. }
    pose proof (Z.div_mod (u - 1) P ltac:(lia)) as Eu. pose proof (Z.mod_pos_bound (u - 1) P ltac:(lia)) as Hr.
    assert (Hq : 0 <= (u - 1) / P) by (apply Z.div_pos; lia).
    assert (Hq1 : (u - 1) / P <= u - 1) by (apply Z.div_le_upper_bound; [lia|nia]).
    set (q := (u - 1) / P) in *. set (r := (u - 1) mod P) in *.
    assert (Eg : (u - 1) / F = q * PC + r / F).
    { rewrite Eu. replace (P * q + r) with (q * PC * F + r) by lia. by rewrite Z.div_add_l by lia. }
    assert (Hrf : 0 <= r / F < PC).
    { split; [by apply Z.div_pos; lia|]. apply Z.div_lt_upper_bound; lia. }
    rewrite Eg. destruct (div_mod_at q PC (r / F)) as [-> ->]; [lia|].
    assert (Hgp : q * PC + r / F <> 0).
    { rewrite <- Eg. pose proof (Z.div_le_lower_bound (u - 1) F 1 ltac:(lia) ltac:(lia)). lia. }
    rewrite (decide_False (P := q * PC + r / F = 0)) by done.
    destruct (decide (r >= F)) as [Hrge|Hrlt].
    + autorewrite with wrap. f_equal.
      pose proof (Z.div_le_lower_bound r F 1 ltac:(lia) ltac:(lia)). rewrite decide_True by lia. lia.
    + assert (Hq0 : 1 <= q).
      { destruct (decide (q = 0)) as [E0|]; [|lia]. rewrite E0 in Eu. lia. }
      rewrite (uwrap_id 64 (q - 1)).
      2:{ unfold in_range, SIZE_MAX in *. lia. }
      pose proof (Z.div_pos (q - 1) L ltac:(lia) ltac:(lia)).
      assert ((q - 1) / L <= q - 1) by (apply Z.div_le_upper_bound; [lia|nia]).
      rewrite uwrap_mul_l, (uwrap_add_l 64 (_ * P)), uwrap_sub_l, uwrap_add_l.
      f_equal. rewrite (Z.div_small r F) by lia. rewrite decide_False by lia. cbv zeta. lia.
Qed.

(** With pages of one chunk, the chunk of the children is the parent's number. *)
Lemma child_chunk_plain v : 0 <= v -> PC = 1 -> F * child_chunk v = v * F.
Proof.
  intros Hv E. unfold child_chunk. destruct (decide (v = 0)) as [->|Hv0]; [lia|]. cbv zeta. rewrite E.
  pose proof (Z.mod_pos_bound (v - 1) (F * 1) ltac:(lia)).
  rewrite decide_False by lia. pose proof (Z.div_mod (v - 1) (F * 1) ltac:(lia)). nia.
Qed.

(** The child index, or the largest number when that cannot be represented. *)
Lemma child_chunked v : 0 <= v < SIZE_MAX ->
  gheap_get_child_index ctx v = Z.min SIZE_MAX (F * child_chunk v + 1).
Proof.
  intros Hv. pose proof page_gap as (HP0 & HL & HPL & HPC'). pose proof page_wraps as [EP EL].
  unfold gheap_get_child_index. cbn [fanout page_chunks]. rewrite EP, EL.
  destruct (decide (PC = 1)) as [E|Hne].
  - assert (Ec : F * child_chunk v + 1 = v * F + 1) by (by rewrite child_chunk_plain by lia).
    rewrite Ec. pose proof (Z.mul_div_le (SIZE_MAX - 1) F ltac:(lia)).
    pose proof (Z.mul_succ_div_gt (SIZE_MAX - 1) F ltac:(lia)).
    case_decide; [nia|]. autorewrite with wrap. assert (v * F <= SIZE_MAX - 1) by nia.
    rewrite uwrap_id by (unfold in_range, SIZE_MAX in *; nia). lia.
  - unfold child_chunk. destruct (decide (v = 0)) as [->|Hv0]; [unfold SIZE_MAX; lia|].
    rewrite (uwrap_id 64 (v - 1)) by (unfold in_range, SIZE_MAX in *; lia). cbv zeta.
    pose proof (Z.div_mod (v - 1) P ltac:(lia)) as Ev. pose proof (Z.mod_pos_bound (v - 1) P ltac:(lia)) as Hs.
    assert (Hq : 0 <= (v - 1) / P) by (apply Z.div_pos; lia).
    replace (P / F) with PC by (rewrite Z.mul_comm, Z.div_mul; lia).
    set (q := (v - 1) / P) in *. set (s := (v - 1) mod P) in *.
    rewrite (uwrap_id 64 (s + 1)) by (unfold in_range, SIZE_MAX in *; lia).
    destruct (decide (s + 1 < PC)) as [Hw|Hw].
    + assert (Hb : 0 <= (s + 1) * (F - 1) <= P - 2) by nia.
      replace (u64 ((s + 1) * u64 (F - 1))) with ((s + 1) * (F - 1)).
      2:{ rewrite (uwrap_id 64 (F - 1)) by (unfold in_range, SIZE_MAX in *; nia).
          rewrite uwrap_id; [done|]. unfold in_range, SIZE_MAX in *. lia. }
      rewrite (uwrap_id 64 (SIZE_MAX - 2 - _)) by (unfold in_range, SIZE_MAX in *; lia).
      replace (F * (q * PC + (s + 1)) + 1) with (v - 1 + (s + 1) * (F - 1) + 2) by nia.
      case_decide; [lia|]. autorewrite with wrap.
      rewrite uwrap_id by (unfold in_range, SIZE_MAX in *; lia). lia.
    + set (m := s + 1 - PC + q * L + 1). assert (Hm : 0 <= m <= v) by (unfold m; nia).
      replace (u64 (s + 1 + u64 (u64 (u64 (q + 1) * L) - P))) with m.
      2:{ autorewrite with wrap. rewrite uwrap_id; [unfold m; lia|].
          replace (s + 1 + ((q + 1) * L - P)) with m by (unfold m; lia). unfold in_range, SIZE_MAX in *. lia. }
      replace (F * (m * PC) + 1) with (m * P + 1) by lia.
      pose proof (Z.mul_div_le (SIZE_MAX - 1) P ltac:(lia)).
      pose proof (Z.mul_succ_div_gt (SIZE_MAX - 1) P ltac:(lia)).
      case_decide; [nia|]. autorewrite with wrap. assert (m * P <= SIZE_MAX - 1) by nia.
      rewrite uwrap_id by (unfold in_range, SIZE_MAX in *; nia). lia.
Qed.

Lemma chunk_exact u v : 0 < u -> 0 <= v -> chunk_parent ((u - 1) / F) = v <-> (u - 1) / F = child_chunk v.
Proof.
  intros Hu Hv. pose proof (Z.div_pos (u - 1) F ltac:(lia) ltac:(lia)).
  split; [intros <-|intros ->]; [by rewrite child_of_parent|by apply parent_of_child].
Qed.

(** ** The tree *)
Lemma parent_below u : 0 < u <= SIZE_MAX -> 0 <= gheap_get_parent_index ctx u < u.
Proof.
  intros Hu. pose proof (Z.div_pos (u - 1) F ltac:(lia) ltac:(lia)) as Hg.
  rewrite parent_chunked by done. set (g := (u - 1) / F) in *.
  pose proof (chunk_parent_pos g Hg) as Hp. split; [done|].
  destruct (child_chunk_above _ Hp) as [_ Hle].
  rewrite child_of_parent in Hle by lia. pose proof (Z.mul_div_le (u - 1) F ltac:(lia)). lia.
Qed.

(** Beyond [size_t] there is nothing; this makes the order of the indices total. *)
Lemma parent_beyond u : SIZE_MAX < u -> 0 <= gheap_get_parent_index ctx u < u.
Proof.
  intros Hu. unfold gheap_get_parent_index. cbn [fanout page_chunks]. cbv zeta.
  assert (Hw : forall z, 0 <= u64 z < u).
  { intros z. pose proof (uwrap_range 64 z ltac:(lia)) as Hz. unfold in_range, SIZE_MAX in *. lia. }
  repeat case_decide; try apply Hw; [|unfold SIZE_MAX in Hu; lia].
  pose proof (Hw (u - 1)) as H'. split; [by apply Z.div_pos; lia|].
  assert (u64 (u - 1) / F <= u64 (u - 1)) by (apply Z.div_le_upper_bound; [lia|nia]). lia.
Qed.

Lemma child_above v : 0 <= v < SIZE_MAX -> v < gheap_get_child_index ctx v <= SIZE_MAX.
Proof.
  intros Hv. rewrite child_chunked by done. destruct (child_chunk_above v ltac:(lia)). lia.
Qed.

Lemma children_of u v : 0 < u < SIZE_MAX -> 0 <= v < SIZE_MAX ->
  gheap_get_parent_index ctx u = v <->
  gheap_get_child_index ctx v <= u < gheap_get_child_index ctx v + F.
Proof.
  intros Hu Hv. rewrite parent_chunked, child_chunked by lia. rewrite chunk_exact by lia.
  pose proof (Z.div_mod (u - 1) F ltac:(lia)). pose proof (Z.mod_pos_bound (u - 1) F ltac:(lia)).
  split; [intros <-; lia|]. intros Hr.
  assert (F * ((u - 1) / F - child_chunk v) < F) by lia.
  assert (- F < F * ((u - 1) / F - child_chunk v)) by lia. nia.
Qed.


(** The children of the first items are within reach. *)
Lemma child_chunk_below v : 0 <= v -> F * child_chunk v <= v * P.
Proof.
  intros Hv. pose proof page_gap as (HP0 & HL & HPL & HPC'). unfold child_chunk.
  destruct (decide (v = 0)) as [->|Hv0]; [lia|].
  pose proof (Z.div_mod (v - 1) P ltac:(lia)) as Ev. pose proof (Z.mod_pos_bound (v - 1) P ltac:(lia)) as Hs.
  assert (Hq : 0 <= (v - 1) / P) by (apply Z.div_pos; lia).
  set (q := (v - 1) / P) in *. set (s := (v - 1) mod P) in *. cbv zeta.
  destruct (decide (s + 1 < PC)) as [Hw|Hw]; [nia|].
  assert (s + 1 - PC + q * L + 1 <= v) by nia. nia.
Qed.

Lemma child_near v : 0 <= v < 2 ^ 32 -> P <= 2 ^ 31 -> gheap_get_child_index ctx v = F * child_chunk v + 1.
Proof.
  intros Hv HP'. pose proof (child_chunk_below v ltac:(lia)). rewrite child_chunked.
  - apply Z.min_r. unfold SIZE_MAX. nia.
  - unfold SIZE_MAX. lia.
Qed.
End chunks.

Lemma layout_tree ctx : 1 < fanout ctx < 2 ^ 31 -> 1 <= page_chunks ctx ->
  fanout ctx * page_chunks ctx <= 2 ^ 31 -> HeapLayout ctx.
Proof.
  destruct ctx as [F PC]. cbn [fanout page_chunks]. intros HF HPC HP.
  assert (HP' : F * PC <= SIZE_MAX) by (unfold SIZE_MAX; lia). split; cbn [fanout].
  - done.
  - intros u Hu. destruct (Z_le_gt_dec u SIZE_MAX); [apply parent_below|apply parent_beyond]; lia.
  - intros u v Hu Hv. apply children_of; unfold SIZE_MAX; lia.
  - intros v Hv. apply child_above; unfold SIZE_MAX; lia.
  - intros v Hv. rewrite child_near by lia. by rewrite Z.mul_comm, Z.add_comm, Z.mod_add by lia.
Qed.

#[export] Instance paged_binary_layout : HeapLayout paged_binary_heap_ctx.
Proof. by apply layout_tree. Qed.

(** C22: whatever the fanout, of two or more, and the pages, of a size that fits [size_t] (the
    code asserts it), the index functions of gheap.h make a tree of all the indices of an
    array, up to the largest: an item's parent comes before it, and the items whose parent is
    [v] are the [fanout] ones from the child index of [v] on, which come after [v].  Of the
    [size_t] arithmetic nothing shows: where the child index is not SIZE_MAX, which is what
    the code returns when it cannot be represented, it starts a chunk of [fanout] items. *)
Theorem every_layout ctx : 1 < fanout ctx -> 1 <= page_chunks ctx ->
  fanout ctx * page_chunks ctx <= SIZE_MAX ->
  (forall u, 0 < u <= SIZE_MAX -> 0 <= gheap_get_parent_index ctx u < u) /\
  (forall v, 0 <= v < SIZE_MAX -> let c := gheap_get_child_index ctx v in
     v < c <= SIZE_MAX /\ (c < SIZE_MAX -> (c - 1) mod fanout ctx = 0) /\
     forall u, 0 < u < SIZE_MAX -> gheap_get_parent_index ctx u = v <-> c <= u < c + fanout ctx).
Proof.
  destruct ctx as [F PC]. cbn [fanout page_chunks]. intros HF HPC HP.
  split; [by apply parent_below|]. intros v Hv. split; [by apply child_above|split].
  - rewrite child_chunked by done. intros Hc. rewrite Z.min_r by lia.
    replace (F * child_chunk F PC v + 1 - 1) with (child_chunk F PC v * F) by lia. apply Z.mod_mul; lia.
  - intros u Hu. by apply children_of.
Qed.

(** In four-item chunks and pages of sixteen: the children of item 5 are on its page, those
    of item 20 on the sixth page, and those of an item half way through [size_t] nowhere. *)
Lemma every_layout_witness : let ctx := Layout 4 16 in
  gheap_get_child_index ctx 5 = 21 /\ gheap_get_child_index ctx 20 = 321 /\
  gheap_get_parent_index ctx 324 = 20 /\ gheap_get_child_index ctx (2 ^ 63) = SIZE_MAX /\
  (forall u, 0 < u <= SIZE_MAX -> 0 <= gheap_get_parent_index ctx u < u) /\
  (forall v, 0 <= v < SIZE_MAX -> let c := gheap_get_child_index ctx v in
     v < c <= SIZE_MAX /\ (c < SIZE_MAX -> (c - 1) mod fanout ctx = 0) /\
     forall u, 0 < u < SIZE_MAX -> gheap_get_parent_index ctx u = v <-> c <= u < c + fanout ctx).
Proof.
  intros ctx. split_and!; [vm_compute; reflexivity..| |]; apply (every_layout ctx); done.
Defined.
