(* ===== verification/GHeapSort.v ===== *)
(** The operations of src/vendor/gheap/gheap.h that the timer queue does not use: sorting,
    the repair of a heap one of whose items has changed, and the removal of an item. *)

From S2P Require Import Prelude GHeap GHeapLayout.
Open Scope Z_scope.

Section operations.
Context (ctx : layout) {A : Type} (less : A -> A -> bool).

(** [for (i = heap_size; i > 1; --i)], [n] iterations left. *)
Fixpoint sort_heap_loop (n : nat) (i : Z) : C (list A) unit :=
  match n with
  | O => mret tt
  | S n => gheap_pop_max_item ctx less (i - 1);; sort_heap_loop n (i - 1)
  end.

Definition gheap_sort_heap (heap_size : Z) : C (list A) unit :=
  sort_heap_loop (Z.to_nat (heap_size - 1)) heap_size.

Definition gheap_restore_heap_after_item_increase (heap_size modified_item_index : Z) : C (list A) unit :=
  c_assert (bool_decide (heap_size > 0));;
  c_assert (bool_decide (modified_item_index < heap_size));;
  assert_heap ctx less modified_item_index;;
  (if decide (modified_item_index > 0) then
     tmp ← item_get modified_item_index;
     gheap_sift_up ctx less 0 modified_item_index tmp
   else mret tt);;
  assert_heap ctx less heap_size.

Definition gheap_restore_heap_after_item_decrease (heap_size modified_item_index : Z) : C (list A) unit :=
  c_assert (bool_decide (heap_size > 0));;
  c_assert (bool_decide (modified_item_index < heap_size));;
  assert_heap ctx less modified_item_index;;
  tmp ← item_get modified_item_index;
  gheap_sift_down ctx less heap_size modified_item_index tmp;;
  assert_heap ctx less heap_size.

Definition gheap_remove_from_heap (heap_size item_index : Z) : C (list A) unit :=
  c_assert (bool_decide (heap_size > 0));;
  c_assert (bool_decide (item_index < heap_size));;
  assert_heap ctx less heap_size;;
  let new_heap_size := heap_size - 1 in
  (if decide (item_index < new_heap_size) then
     tmp ← item_get new_heap_size;
     a ← item_get item_index;
     item_set new_heap_size a;;
     hole ← item_get new_heap_size;
     if less tmp hole then gheap_sift_down ctx less new_heap_size item_index tmp
     else gheap_sift_up ctx less 0 item_index tmp
   else mret tt);;
  assert_heap ctx less new_heap_size.

(** [gheap_swap_max_item] with an item outside the array; the value is what it becomes. *)
Definition gheap_swap_max_item_with (heap_size : Z) (item : A) : C (list A) A :=
  c_assert (bool_decide (heap_size > 0));;
  assert_heap ctx less heap_size;;
  let tmp := item in
  a ← item_get 0;
  gheap_sift_down ctx less heap_size 0 tmp;;
  assert_heap ctx less heap_size;;
  mret a.

(** [gheap_make_heap] and then [gheap_sort_heap]: heapsort. *)
Definition heapsort (n : Z) : C (list A) unit :=
  gheap_make_heap ctx less n;; gheap_sort_heap n.
End operations.

Section correctness.
Context (ctx : layout) `{HL : !HeapLayout ctx} {A : Type} (less : A -> A -> bool).
Context `{HW : !StrictWeak less}.
Implicit Types (l : list A).

(** Items [m], ..., [n - 1] are in order, and none of them is below an item before them. *)
Definition sorted_from l (m n : Z) : Prop := forall i j a b,
  0 <= i < j -> m <= j < n -> at_ l i = Some a -> at_ l j = Some b -> less b a = false.

Definition sorted l n : Prop := sorted_from l 0 n.

Lemma sorted_from_one l n : 0 <= n -> sorted_from l 1 n -> sorted l n.
Proof. intros Hn Hs i j a b Hi Hj. apply Hs; lia. Qed.

Lemma shuffled_item n l l' i a : 0 <= i < n -> shuffled n l l' -> at_ l' i = Some a ->
  exists i', 0 <= i' < n /\ at_ l i' = Some a.
Proof.
  intros Hi Hs Ha. rewrite <- (at_take l' n) in Ha by done.
  apply list_elem_of_lookup_2 in Ha. rewrite (shuffled_take n l l') in Ha by (done || lia).
  apply list_elem_of_lookup in Ha as [k Hk]. apply lookup_take_Some in Hk as [Hk Hlt].
  exists (Z.of_nat k). split; [lia|]. unfold at_. by rewrite Nat2Z.id.
Qed.

Lemma pop_max_item_sorts n m l : is_heap ctx less l (m + 1) -> sorted_from l (m + 1) n ->
  0 < m -> m < n <= Z.of_nat (length l) -> n <= 2 ^ 31 ->
  runs (gheap_pop_max_item ctx less m) l (fun _ l' =>
    is_heap ctx less l' m /\ sorted_from l' m n /\ shuffled n l l').
Proof.
  intros Hh Hs Hm Hn Hb.
  eapply runs_conseq; [apply (swap_max_item_runs ctx less m m l); [|lia..]|].
  { apply (is_heap_le ctx less l (m + 1)); [done|lia]. }
  intros _ l' (H1 & H2 & H3 & H4).
  assert (Hsh : shuffled (m + 1) l l') by (split; [done|intros i Hi; apply H4; lia]).
  split_and!; [done| |split; [done|intros i Hi; apply H4; lia]].
  intros i j a b Hi Hj Ha Hb'. destruct (decide (j = m)) as [->|Hne].
  - rewrite H3 in Hb'. destruct (shuffled_item (m + 1) l l' i a ltac:(lia) Hsh Ha) as (i' & Hi' & Ha').
    apply (heap_root_max ctx less l (m + 1) b i' a); [done|lia|done|lia|done].
  - rewrite H4 in Hb' by lia. destruct (decide (i <= m)) as [Hle|Hgt].
    + destruct (shuffled_item (m + 1) l l' i a ltac:(lia) Hsh Ha) as (i' & Hi' & Ha').
      apply (Hs i' j); [lia|lia|done|done].
    + rewrite H4 in Ha by lia. apply (Hs i j); [lia|lia|done|done].
Qed.

Lemma sort_heap_loop_runs n k : n <= 2 ^ 31 -> forall m l,
  is_heap ctx less l m -> sorted_from l m n -> Z.of_nat k = m - 1 -> m <= n <= Z.of_nat (length l) ->
  runs (sort_heap_loop ctx less k m) l (fun _ l' => sorted l' n /\ shuffled n l l').
Proof.
  intros Hb. induction k as [|k IH]; intros m l Hh Hs Hk Hn; cbn [sort_heap_loop].
  - run. split; [|by split]. apply sorted_from_one; [lia|]. by replace 1 with m by lia.
  - run_step. eapply runs_conseq.
    { apply (pop_max_item_sorts n (m - 1)); [by replace (m - 1 + 1) with m by lia..|lia|lia|done]. }
    intros _ l1 (H1 & H2 & H3). pose proof (shuffled_length _ _ _ H3) as Hl.
    eapply runs_conseq; [apply (IH (m - 1) l1); [done|done|lia|lia]|].
    intros _ l2 [H4 [H5 H6]]. destruct H3 as [H7 H8]. split; [done|]. split; [by rewrite H5|].
    intros i Hi. by rewrite H6, H8.
Qed.

(** [gheap_sort_heap] on a heap. *)
Lemma sort_heap_runs n l : is_heap ctx less l n -> 0 <= n <= Z.of_nat (length l) -> n <= 2 ^ 31 ->
  runs (gheap_sort_heap ctx less n) l (fun _ l' => sorted l' n /\ shuffled n l l').
Proof.
  intros Hh Hn Hb. unfold gheap_sort_heap. destruct (decide (n <= 0)) as [H0|H0].
  - replace (Z.to_nat (n - 1)) with 0%nat by lia. cbn [sort_heap_loop]. run.
    split; [intros i j a b Hi Hj; lia|by split].
  - apply sort_heap_loop_runs; [done|done| |lia|lia]. intros i j a b Hi Hj. lia.
Qed.

(** C21: [make_heap] and [sort_heap] sort any array: it ends up in ascending order, a permutation
    of what it was, whatever is behind its first [n] items untouched; no assertion fails and
    no item outside is read. *)
Theorem heapsort_sorts n l : 0 <= n <= Z.of_nat (length l) -> n <= 2 ^ 31 ->
  runs (heapsort ctx less n) l (fun _ l' => sorted l' n /\ shuffled n l l').
Proof.
  intros Hn Hb. unfold heapsort. run_step.
  eapply runs_conseq; [by apply make_heap_runs|]. intros _ l1 [H1 H2].
  pose proof (shuffled_length _ _ _ H2) as Hl.
  eapply runs_conseq; [apply (sort_heap_runs n l1); [done|lia|done]|].
  intros _ l2 [H3 [H4 H5]]. destruct H2 as [H6 H7]. split; [done|]. split; [by rewrite H4|].
  intros i Hi. by rewrite H5, H7.
Qed.

(** ** One item has changed *)

Lemma changed_hole n k x0 l : is_heap ctx less (put l k x0) n -> 0 <= k < n ->
  n <= Z.of_nat (length l) -> n <= 2 ^ 31 -> holed ctx less l n 0 k.
Proof.
  intros Hh Hk Hn Hb. split; [| |by apply (desc_zero ctx); lia|lia].
  - intros u a b Hu Hne Hpne _ Ha Hb'. pose proof (parent_range (ctx := ctx) u ltac:(lia)).
    apply (Hh u); [lia|lia|by rewrite at_put_ne by lia|by rewrite at_put_ne by lia].
  - intros u a b Hu Hpu Hk0 Hp Ha Hb'. pose proof (parent_range (ctx := ctx) k Hk0).
    pose proof (parent_range (ctx := ctx) u ltac:(lia)). apply (less_trans _ x0).
    + apply (Hh k); [lia|lia|by rewrite at_put_ne by lia|by rewrite at_put_eq by lia].
    + apply (Hh u); [lia|lia|by rewrite Hpu, at_put_eq by lia|by rewrite at_put_ne by lia].
Qed.

Lemma changed_above n k x0 x l : is_heap ctx less (put l k x0) n -> 0 <= k < n ->
  n <= Z.of_nat (length l) -> less x x0 = false -> above_children ctx less l n k x.
Proof.
  intros Hh Hk Hn Hx u b Hu Hpu Hb. pose proof (parent_range (ctx := ctx) u ltac:(lia)).
  apply (less_trans _ x0); [done|].
  apply (Hh u); [lia|lia|by rewrite Hpu, at_put_eq by lia|by rewrite at_put_ne by lia].
Qed.

Lemma changed_under n k x0 x l : is_heap ctx less (put l k x0) n -> 0 <= k < n ->
  n <= Z.of_nat (length l) -> less x0 x = false ->
  k = 0 \/ (0 < k /\ exists a, at_ l (gheap_get_parent_index ctx k) = Some a /\ less a x = false).
Proof.
  intros Hh Hk Hn Hx. destruct (decide (k = 0)) as [E|Hk0]; [by left|]. right. split; [lia|].
  pose proof (parent_range (ctx := ctx) k ltac:(lia)).
  destruct (at_lt l (gheap_get_parent_index ctx k)) as [a Ha]; [lia|]. exists a. split; [done|].
  apply (less_trans _ x0); [|done].
  apply (Hh k); [lia|lia|by rewrite at_put_ne by lia|by rewrite at_put_eq by lia].
Qed.

Lemma changed_before n k x0 l : is_heap ctx less (put l k x0) n -> 0 <= k < n -> is_heap ctx less l k.
Proof.
  intros Hh Hk u a b Hu _ Ha Hb. pose proof (parent_range (ctx := ctx) u ltac:(lia)).
  apply (Hh u); [lia|lia|by rewrite at_put_ne by lia|by rewrite at_put_ne by lia].
Qed.

(** An item that is not less than it was: the heap is repaired upwards. *)
Theorem increase_repairs n k x0 x l : 0 <= k < n -> n <= Z.of_nat (length l) -> n <= 2 ^ 31 ->
  is_heap ctx less (put l k x0) n -> at_ l k = Some x -> less x x0 = false ->
  runs (gheap_restore_heap_after_item_increase ctx less n k) l (fun _ l' =>
    is_heap ctx less l' n /\ shuffled n l l').
Proof.
  intros Hk Hn Hb Hh Hx Hle. unfold gheap_restore_heap_after_item_increase.
  run_step. apply runs_assert; [by apply bool_decide_eq_true_2; lia|].
  run_step. apply runs_assert; [by apply bool_decide_eq_true_2; lia|].
  run_step. apply (assert_heap_runs ctx less); [exact (changed_before n k x0 l Hh Hk)|lia|lia|].
  run_step. eapply (runs_conseq _ _ (fun _ l' => is_heap ctx less l' n /\ shuffled n l l')).
  2:{ intros _ l' [H1 H2]. pose proof (shuffled_length _ _ _ H2). by apply (assert_heap_runs ctx less); [|lia|lia|]. }
  destruct (decide (k > 0)) as [Hk0|Hk0].
  - run_step. eapply runs_item_get; [lia|done|].
    eapply runs_conseq; [apply (sift_up_runs ctx less n 0);
      [by eapply changed_hole|by apply (desc_zero ctx); lia|done|by eapply changed_above|by left]|].
    intros _ l' (H1 & H2 & H3). split; [done|]. split; [by rewrite H2, put_at|done].
  - run. split; [|by split]. replace k with 0 in * by lia. intros u a b Hu _ Ha Hb'.
    pose proof (parent_range (ctx := ctx) u ltac:(lia)).
    destruct (decide (gheap_get_parent_index ctx u = 0)) as [E|Hne].
    + rewrite E in Ha. simplify_eq.
      by apply (changed_above n 0 x0 x l Hh Hk Hn Hle u b).
    + apply (Hh u); [lia|lia|by rewrite at_put_ne by lia|by rewrite at_put_ne by lia].
Qed.

(** An item that is not more than it was: the heap is repaired downwards. *)
Theorem decrease_repairs n k x0 x l : 0 <= k < n -> n <= Z.of_nat (length l) -> n <= 2 ^ 31 ->
  is_heap ctx less (put l k x0) n -> at_ l k = Some x -> less x0 x = false ->
  runs (gheap_restore_heap_after_item_decrease ctx less n k) l (fun _ l' =>
    is_heap ctx less l' n /\ shuffled n l l').
Proof.
  intros Hk Hn Hb Hh Hx Hle. unfold gheap_restore_heap_after_item_decrease.
  run_step. apply runs_assert; [by apply bool_decide_eq_true_2; lia|].
  run_step. apply runs_assert; [by apply bool_decide_eq_true_2; lia|].
  run_step. apply (assert_heap_runs ctx less); [exact (changed_before n k x0 l Hh Hk)|lia|lia|].
  run_step. eapply runs_item_get; [lia|done|]. run_step.
  eapply runs_conseq; [apply (sift_down_under_runs ctx less n 0);
    [by eapply changed_hole|lia|by eapply changed_under]|].
  intros _ l' (H1 & H2 & H3). assert (Hsh : shuffled n l l') by (split; [by rewrite H2, put_at|done]).
  pose proof (shuffled_length _ _ _ Hsh). by apply (assert_heap_runs ctx less); [|lia|lia|].
Qed.

(** The maximum of a heap changes places with an item outside. *)
Theorem swap_outside n x a l : is_heap ctx less l n -> 0 < n <= Z.of_nat (length l) -> n <= 2 ^ 31 ->
  at_ l 0 = Some a ->
  runs (gheap_swap_max_item_with ctx less n x) l (fun r l' =>
    r = a /\ (forall i b, 0 <= i < n -> at_ l i = Some b -> less a b = false) /\
    is_heap ctx less l' n /\ l' ≡ₚ put l 0 x /\ (forall i, n <= i -> at_ l' i = at_ l i)).
Proof.
  intros Hh Hn Hb Ha. unfold gheap_swap_max_item_with.
  run_step. apply runs_assert; [by apply bool_decide_eq_true_2; lia|].
  run_step. apply (assert_heap_runs ctx less); [done|lia|lia|].
  run_step. eapply runs_item_get; [lia|done|]. run_step.
  assert (Hh' : is_heap ctx less (put l 0 a) n) by (by rewrite put_at).
  eapply runs_conseq; [apply (sift_down_runs ctx less n 0); [by eapply changed_hole; [|lia..]|lia]|].
  intros _ l' (H1 & H2 & H3). assert (Hl : length l' = length l) by (rewrite H2; apply put_length).
  run_step. apply (assert_heap_runs ctx less); [done|lia|lia|]. run_step. split_and!; [done| |done|done|done].
  intros i b Hi Hbi. apply (heap_root_max ctx less l n a i b); (lia || done).
Qed.

(** ** Removal *)

Lemma without_last n k x0 l : is_heap ctx less l n -> at_ l k = Some x0 -> 0 <= k < n - 1 ->
  n <= Z.of_nat (length l) -> is_heap ctx less (put (put l (n - 1) x0) k x0) (n - 1).
Proof.
  intros Hh Hx Hk Hn u a b Hu _ Ha Hb. pose proof (parent_range (ctx := ctx) u ltac:(lia)).
  assert (E : forall i, 0 <= i < n - 1 -> at_ (put (put l (n - 1) x0) k x0) i = at_ l i).
  { intros i Hi. destruct (decide (i = k)) as [->|Hne].
    - rewrite at_put_eq by (rewrite put_length; lia). done.
    - by rewrite !at_put_ne by lia. }
  rewrite E in Ha, Hb by lia. apply (Hh u); (lia || done).
Qed.

(** Removing item [k] of a heap leaves a heap of the others, with the removed item right
    behind it; nothing further behind is touched and no assertion fails. *)
Theorem removal_correct n k x0 l : is_heap ctx less l n -> 0 <= k < n -> n <= Z.of_nat (length l) ->
  n <= 2 ^ 31 -> at_ l k = Some x0 ->
  runs (gheap_remove_from_heap ctx less n k) l (fun _ l' =>
    is_heap ctx less l' (n - 1) /\ at_ l' (n - 1) = Some x0 /\ shuffled n l l').
Proof.
  intros Hh Hk Hn Hb Hx. unfold gheap_remove_from_heap.
  run_step. apply runs_assert; [by apply bool_decide_eq_true_2; lia|].
  run_step. apply runs_assert; [by apply bool_decide_eq_true_2; lia|].
  run_step. apply (assert_heap_runs ctx less); [done|lia|lia|]. cbv zeta.
  run_step. eapply (runs_conseq _ _ (fun _ l' =>
    is_heap ctx less l' (n - 1) /\ at_ l' (n - 1) = Some x0 /\ shuffled n l l')).
  2:{ intros _ l' (H1 & H2 & H3). pose proof (shuffled_length _ _ _ H3).
      by apply (assert_heap_runs ctx less); [|lia|lia|]. }
  destruct (decide (k < n - 1)) as [Hlt|Hge].
  2:{ run. split_and!; [by apply (is_heap_le ctx less l n); [|lia]| |by split]. by replace (n - 1) with k by lia. }
  destruct (at_lt l (n - 1)) as [x Hxl]; [lia|]. pose proof (without_last n k x0 l Hh Hx ltac:(lia) Hn) as Hh'.
  run_step. eapply runs_item_get; [lia|done|]. run_step. eapply runs_item_get; [lia|done|].
  run_step. apply runs_item_set; [lia|]. set (l1 := put l (n - 1) x0) in *.
  assert (Hl1 : length l1 = length l) by apply put_length.
  run_step. eapply runs_item_get; [lia|by apply at_put_eq; lia|].
  assert (Hend : forall l', heap_from ctx less l' (n - 1) 0 /\ l' ≡ₚ put l1 k x /\
    (forall i, n - 1 <= i -> at_ l' i = at_ l1 i) ->
    is_heap ctx less l' (n - 1) /\ at_ l' (n - 1) = Some x0 /\ shuffled n l l').
  { intros l' (H1 & H2 & H3). split_and!; [done|rewrite H3 by lia; by apply at_put_eq; lia|]. split.
    - rewrite H2. unfold l1. rewrite put_move by (done || lia). by rewrite put_at.
    - intros i Hi. rewrite H3 by lia. by apply at_put_ne; lia. }
  destruct (less x x0) eqn:El.
  - eapply runs_conseq; [apply (sift_down_under_runs ctx less (n - 1) 0)|intros ? l2 Hl2; by apply Hend].
    + eapply changed_hole; [done|lia..].
    + lia.
    + eapply changed_under; [done|lia|lia|by apply less_asym].
  - eapply runs_conseq; [apply (sift_up_runs ctx less (n - 1) 0)|intros ? l2 Hl2; by apply Hend].
    + eapply changed_hole; [done|lia..].
    + apply (desc_zero ctx). lia.
    + done.
    + eapply changed_above; [done|lia|lia|done].
    + by left.
Qed.
End correctness.

(** The layout of gheap's own tests, and a run. *)
#[export] Instance small_layout : HeapLayout (Layout 3 2).
Proof. by apply layout_tree. Qed.

Example heapsort_run : heapsort (Layout 3 2) Z.ltb 9 [5; 1; 9; 3; 7; 7; 2; 8; 0; 100] =
  Done (tt, [0; 1; 2; 3; 5; 7; 7; 8; 9; 100]).
Proof. vm_compute. reflexivity. Qed.

Lemma heapsort_sorts_witness :
  runs (heapsort (Layout 3 2) Z.ltb 4) [2; 9; 4; 1; 7] (fun _ l' =>
    sorted Z.ltb l' 4 /\ shuffled 4 [2; 9; 4; 1; 7] l').
Proof. refine (heapsort_sorts (Layout 3 2) Z.ltb 4 [2; 9; 4; 1; 7] _ _); cbn; lia. Defined.

Lemma nine_heap : is_heap (Layout 3 2) Z.ltb [9; 7; 4; 1] 4.
Proof.
  intros u a b Hu _. assert (u = 1 \/ u = 2 \/ u = 3) as [->|[->| ->]] by lia;
    vm_compute; intros; by simplify_eq.
Qed.

Lemma removal_correct_witness :
  runs (gheap_remove_from_heap (Layout 3 2) Z.ltb 4 1) [9; 7; 4; 1] (fun _ l' =>
    is_heap (Layout 3 2) Z.ltb l' 3 /\ at_ l' 3 = Some 7 /\ shuffled 4 [9; 7; 4; 1] l').
Proof. refine (removal_correct (Layout 3 2) Z.ltb 4 1 7 [9; 7; 4; 1] nine_heap _ _ _ _); (lia || done). Defined.
