(* ===== verification/PQueue.v ===== *)
(** The priority queue of src/vendor/gheap/gpriority_queue.h over the heap of GHeap.v.

    The queue is generic in the component that owns it: the owner says how to reach the
    queue in its state, how items compare in that state, and what the deleter does. *)

From S2P Require Import Prelude Store GHeap GHeapLayout.
Open Scope Z_scope.

(** [struct gpriority_queue].  [pq_slots] are the slots of the block at [base] that have
    been written, [pq_alloc] is how many the block has room for. *)
Record gpriority_queue (A : Type) := PQ {
  pq_slots : list A;
  pq_alloc : Z;
  pq_size : Z;
  pq_capacity : Z }.
Arguments PQ {A}.
Arguments pq_slots {A}.
Arguments pq_alloc {A}.
Arguments pq_size {A}.
Arguments pq_capacity {A}.

(** How the owner keeps its queue; [None] when there is none (not created, or freed). *)
Class HasQueue (S A : Type) := {
  the_queue : S -> option (gpriority_queue A);
  with_queue : option (gpriority_queue A) -> S -> S }.

Section pqueue.
Context (ctx : layout) {S A : Type} {HQ : HasQueue S A} {HA : HasAllocator S}.
Context (less : S -> A -> A -> bool) (item_deleter : A -> C S unit).

(** [ctx->item_size]: the items are pointers. *)
Definition item_size : Z := 8.

Definition load_queue : C S (gpriority_queue A) := s ← c_get; c_live (the_queue s).
Definition save_queue (q : gpriority_queue A) : C S unit := c_modify (with_queue (Some q)).

(** A heap operation on the slots of the queue. *)
Definition on_slots {B} (m : (A -> A -> bool) -> C (list A) B) : C S B :=
  q ← load_queue;
  s ← c_get;
  match m (less s) (pq_slots q) with
  | Done (b, l) => save_queue (PQ l (pq_alloc q) (pq_size q) (pq_capacity q));; mret b
  | Fault f => c_fault f
  end.

Definition gpriority_queue_create : C S bool :=
  fail ← oom;
  if fail : bool then mret false
  else
    fail ← oom;
    if fail : bool then mret false
    else save_queue (PQ [] 1 0 1);; mret true.

(** [a] is the array at the address given: reading past its end is a fault. *)
Definition gpriority_queue_create_from_array (a : list A) (n : Z) : C S bool :=
  fail ← oom;
  if fail : bool then mret false
  else
    c_assert (bool_decide (n <= SIZE_MAX / item_size));;
    fail ← oom;
    if fail : bool then mret false
    else
      (if decide (n <= Z.of_nat (length a)) then mret tt else c_fault OutOfBounds);;
      save_queue (PQ (take (Z.to_nat n) a) n n n);;
      on_slots (fun less => gheap_make_heap ctx less n);;
      mret true.

(** The deleter called on the slots [i], [i + 1], ..., [n] of them. *)
Fixpoint delete_items (n : nat) (i : Z) : C S unit :=
  match n with
  | O => mret tt
  | Datatypes.S n =>
      item ← on_slots (fun _ => item_get i);
      item_deleter item;;
      delete_items n (i + 1)
  end.

Definition gpriority_queue_delete : C S unit :=
  q ← load_queue;
  delete_items (Z.to_nat (pq_size q)) 0;;
  c_modify (with_queue None).

Definition gpriority_queue_empty : C S bool :=
  q ← load_queue; mret (bool_decide (pq_size q = 0)).

Definition gpriority_queue_size : C S Z := q ← load_queue; mret (pq_size q).

(** The top is returned as a pointer to the first slot; this reads it. *)
Definition gpriority_queue_top : C S (option A) :=
  q ← load_queue;
  if decide (pq_size q = 0) then mret None
  else a ← on_slots (fun _ => item_get 0); mret (Some a).

(** The growth of the block in [gpriority_queue_push]. *)
Definition grow_queue (q : gpriority_queue A) : C S bool :=
  if decide (pq_capacity q > SIZE_MAX / 2 / item_size) then mret false
  else
    let capacity := pq_capacity q * 2 in
    save_queue (PQ (pq_slots q) (pq_alloc q) (pq_size q) capacity);;
    fail ← oom;
    if fail : bool then mret false
    else
      (if decide (pq_size q <= Z.of_nat (length (pq_slots q))) then mret tt
       else c_fault OutOfBounds);;
      save_queue (PQ (take (Z.to_nat (pq_size q)) (pq_slots q)) capacity (pq_size q) capacity);;
      mret true.

(** A write of slot [i]: it must be in the block. *)
Definition set_slot (q : gpriority_queue A) (i : Z) (a : A) : outcome (list A) :=
  if decide (i < pq_alloc q) then
    if decide (i < Z.of_nat (length (pq_slots q))) then Done (put (pq_slots q) i a)
    else Done (pq_slots q ++ [a])
  else Fault OutOfBounds.

Definition gpriority_queue_push (item : A) : C S bool :=
  q ← load_queue;
  go ← (if decide (pq_size q = pq_capacity q) then grow_queue q else mret true);
  if negb go then mret false
  else
    q ← load_queue;
    c_assert (bool_decide (pq_size q < pq_capacity q));;
    match set_slot q (pq_size q) item with
    | Fault f => c_fault f
    | Done l =>
        save_queue (PQ l (pq_alloc q) (pq_size q + 1) (pq_capacity q));;
        on_slots (fun less => gheap_push_heap ctx less (pq_size q + 1));;
        mret true
    end.

Definition gpriority_queue_pop : C S unit :=
  q ← load_queue;
  c_assert (bool_decide (pq_size q > 0));;
  on_slots (fun less => gheap_pop_heap ctx less (pq_size q));;
  q ← load_queue;
  save_queue (PQ (pq_slots q) (pq_alloc q) (pq_size q - 1) (pq_capacity q));;
  item ← on_slots (fun _ => item_get (pq_size q - 1));
  item_deleter item.
End pqueue.

(** ** The queue as a bag of items *)
Section bag.
Context (ctx : layout) `{HL : !HeapLayout ctx} {A : Type} (less : A -> A -> bool).
Context `{HW : !StrictWeak less}.

(** [q] is in order and holds the items [ms]. *)
Record queue_ok (q : gpriority_queue A) (ms : list A) : Prop := {
  qo_block : pq_alloc q = pq_capacity q /\ 1 <= pq_capacity q /\
             Z.of_nat (length (pq_slots q)) <= pq_alloc q;
  qo_size : 0 <= pq_size q <= Z.of_nat (length (pq_slots q));
  qo_heap : is_heap ctx less (pq_slots q) (pq_size q);
  qo_items : take (Z.to_nat (pq_size q)) (pq_slots q) ≡ₚ ms }.

Lemma queue_ok_length q ms : queue_ok q ms -> pq_size q = Z.of_nat (length ms).
Proof.
  intros [Hb Hs _ Hi]. apply Permutation_length in Hi. rewrite length_take in Hi. lia.
Qed.

Lemma is_heap_ext l l' n : is_heap ctx less l n -> (forall i, 0 <= i < n -> at_ l' i = at_ l i) ->
  is_heap ctx less l' n.
Proof.
  intros Hh E u a b Hu Hp Ha Hb. pose proof (parent_range (ctx := ctx) u ltac:(lia)).
  rewrite E in Ha, Hb by lia. by eapply Hh.
Qed.

Lemma queue_ok_perm q ms ms' : queue_ok q ms -> ms ≡ₚ ms' -> queue_ok q ms'.
Proof. intros [Hb Hs Hh Hi] Hp. split; [done..|]. by rewrite Hi. Qed.

(** The queue after growing, with the same items in the same slots. *)
Lemma queue_ok_grow q ms : queue_ok q ms -> pq_size q = pq_capacity q ->
  queue_ok (PQ (take (Z.to_nat (pq_size q)) (pq_slots q)) (pq_capacity q * 2) (pq_size q)
              (pq_capacity q * 2)) ms.
Proof.
  intros [Hb Hs Hh Hi] Hc. split; cbn.
  - rewrite length_take. lia.
  - rewrite length_take. lia.
  - eapply is_heap_ext; [exact Hh|]. intros i Hii. by apply at_take.
  - by rewrite take_take, Nat.min_id.
Qed.

(** Writing the new item behind the others. *)
Lemma set_slot_done q ms x : queue_ok q ms -> pq_size q < pq_alloc q -> exists l,
  set_slot q (pq_size q) x = Done l /\
  (forall i, 0 <= i < pq_size q -> at_ l i = at_ (pq_slots q) i) /\
  at_ l (pq_size q) = Some x /\ pq_size q < Z.of_nat (length l) <= pq_alloc q.
Proof.
  intros [Hb Hs Hh Hi] Hlt. unfold set_slot. rewrite decide_True by done.
  case_decide as Hl; eexists; (split; [done|]).
  - rewrite put_length. split_and!; [|by apply at_put_eq; lia|lia|lia].
    intros i Hii. apply at_put_ne; lia.
  - rewrite length_app. cbn. split_and!; [| |lia|lia].
    + intros i Hii. unfold at_. apply lookup_app_l. lia.
    + unfold at_. rewrite lookup_app_r by lia.
      replace (Z.to_nat (pq_size q) - length (pq_slots q))%nat with 0%nat by lia. done.
Qed.

Lemma take_items (l l0 : list A) n x : 0 <= n -> (forall i, 0 <= i < n -> at_ l i = at_ l0 i) ->
  at_ l n = Some x -> n <= Z.of_nat (length l0) ->
  take (Z.to_nat (n + 1)) l = take (Z.to_nat n) l0 ++ [x].
Proof.
  intros Hn E Hx Hl. replace (Z.to_nat (n + 1)) with (S (Z.to_nat n)) by lia.
  rewrite (take_S_r _ _ x) by done. f_equal. apply list_eq. intros i.
  destruct (decide (i < Z.to_nat n)%nat) as [Hi|Hi].
  - rewrite !lookup_take_lt by done. specialize (E (Z.of_nat i) ltac:(lia)).
    unfold at_ in E. by rewrite Nat2Z.id in E.
  - rewrite !lookup_take_ge by lia. done.
Qed.
End bag.

(** What the operations need of the owner's state. *)
Class QueueLaws (S A : Type) {HQ : HasQueue S A} {HA : HasAllocator S}
    (less : S -> A -> A -> bool) := {
  the_with_queue (q : option (gpriority_queue A)) (s : S) : the_queue (with_queue q s) = q;
  with_with_queue (q q' : option (gpriority_queue A)) (s : S) :
    with_queue q (with_queue q' s) = with_queue q s;
  with_the_queue (s : S) : with_queue (the_queue s) s = s;
  less_with_queue (q : option (gpriority_queue A)) (s : S) : less (with_queue q s) = less s;
  the_queue_oom o (s : S) : the_queue (A := A) (with_oom o s) = the_queue s;
  less_oom o (s : S) : less (with_oom o s) = less s;
  oom_with_queue (q : option (gpriority_queue A)) (s : S) : oom_script (with_queue q s) = oom_script s;
  with_oom_queue o (q : option (gpriority_queue A)) (s : S) :
    with_oom o (with_queue q s) = with_queue q (with_oom o s) }.

Section pqueue_proofs.
Context (ctx : layout) `{HL : !HeapLayout ctx} {S A : Type} {HQ : HasQueue S A} {HA : HasAllocator S}.
Context (less : S -> A -> A -> bool) (item_deleter : A -> C S unit).
Context `{Laws : !QueueLaws S A less}.
Implicit Types (s : S) (q : gpriority_queue A).

Lemma runs_load_queue q s (Q : gpriority_queue A -> S -> Prop) :
  the_queue s = Some q -> Q q s -> runs load_queue s Q.
Proof. intros Hq HQ'. unfold load_queue. run_step. run_step. by eapply runs_live. Qed.

Lemma runs_on_slots {B} (m : (A -> A -> bool) -> C (list A) B) q s (Q : B -> S -> Prop) :
  the_queue s = Some q ->
  runs (m (less s)) (pq_slots q) (fun b l =>
    Q b (with_queue (Some (PQ l (pq_alloc q) (pq_size q) (pq_capacity q))) s)) ->
  runs (on_slots less m) s Q.
Proof.
  intros Hq Hm. unfold on_slots. run_step. eapply runs_load_queue; [done|].
  run_step. run_step. destruct (runs_inv _ _ _ Hm) as (b & l & -> & HQ').
  run_step. unfold save_queue. run. done.
Qed.

(** The allocator has memory for a while. *)
Definition has_memory s : Prop := hd false (oom_script s) = false.

(** The room for one more item: the queue as it is, or grown. *)
Lemma room_runs q ms s :
  the_queue s = Some q -> queue_ok ctx (less s) q ms -> pq_size q + 1 <= 2 ^ 31 -> has_memory s ->
  runs (if decide (pq_size q = pq_capacity q) then grow_queue q else mret true) s
    (fun b s1 => b = true /\ exists q1 s0, s1 = with_queue (Some q1) s0 /\
      (s0 = s \/ s0 = pop_oom s) /\ queue_ok ctx (less s) q1 ms /\ pq_size q1 = pq_size q /\
      pq_size q1 < pq_capacity q1).
Proof.
  intros Hq Hok Hsz Hmem. case_decide as Hfull.
  - unfold grow_queue, save_queue. rewrite decide_False.
    2:{ unfold SIZE_MAX, item_size. change ((2 ^ 64 - 1) / 2 / 8) with 1152921504606846975. lia. }
    cbv zeta. run_step. run_step. run_step. apply runs_oom.
    rewrite oom_with_queue, Hmem. run_step. rewrite decide_True by apply Hok. run.
    split; [done|]. eexists _, (pop_oom s). split_and!.
    + unfold pop_oom. rewrite with_oom_queue, with_with_queue, oom_with_queue. done.
    + by right.
    + by apply queue_ok_grow.
    + done.
    + cbn. destruct (qo_block _ _ _ _ Hok) as (? & ? & ?). lia.
  - run. split; [done|]. exists q, s. destruct (qo_block _ _ _ _ Hok) as (Ha & ? & ?).
    pose proof (qo_size _ _ _ _ Hok).
    split_and!; [|by left|done|done|lia]. by rewrite <- Hq, with_the_queue.
Qed.

Lemma push_runs q ms x s : StrictWeak (less s) ->
  the_queue s = Some q -> queue_ok ctx (less s) q ms -> pq_size q + 1 <= 2 ^ 31 -> has_memory s ->
  runs (gpriority_queue_push ctx less x) s (fun b s' => b = true /\ exists q' s1,
    s' = with_queue (Some q') s1 /\ (s1 = s \/ s1 = pop_oom s) /\
    queue_ok ctx (less s) q' (x :: ms)).
Proof.
  intros HW Hq Hok Hsz Hmem. unfold gpriority_queue_push.
  run_step. eapply runs_load_queue; [done|]. run_step.
  eapply runs_conseq; [by apply (room_runs q ms)|].
  intros b s1 (-> & q1 & s0 & -> & Hs0 & Hok1 & Hsz1 & Hlt). cbn [negb].
  assert (Hless : less s0 = less s).
  { destruct Hs0 as [->| ->]; [done|]. apply less_oom. }
  run_step. eapply runs_load_queue; [by rewrite the_with_queue|].
  run_step. apply runs_assert; [by apply bool_decide_eq_true_2|].
  destruct (qo_block _ _ _ _ Hok1) as (Hblk & Hcap & Hlen1).
  destruct (set_slot_done _ _ _ _ x Hok1 ltac:(lia)) as (l & -> & El & Hx & Hll).
  pose proof (qo_size _ _ _ _ Hok1) as Hs1.
  run_step. unfold save_queue. run_step. run_step.
  eapply runs_on_slots; [by rewrite the_with_queue|]. rewrite less_with_queue, less_with_queue, Hless.
  cbn [pq_slots pq_alloc pq_size pq_capacity].
  eapply runs_conseq; [apply (push_heap_runs ctx (less s) (pq_size q1 + 1))|].
  - replace (pq_size q1 + 1 - 1) with (pq_size q1) by lia.
    apply (is_heap_ext ctx (less s) (pq_slots q1)); [exact (qo_heap _ _ _ _ Hok1)|exact El].
  - lia.
  - lia.
  - intros _ l' [Hh Hsh]. run_step. split; [done|].
    pose proof (shuffled_length _ _ _ Hsh) as Hlen.
    eexists _, s0. split_and!; [by rewrite !with_with_queue|done|].
    split; cbn; [lia|lia|done|].
    rewrite (shuffled_take (pq_size q1 + 1) l l' ltac:(lia) Hsh), (take_items l (pq_slots q1) _ x) by (done || lia).
    rewrite (qo_items _ _ _ _ Hok1). by rewrite Permutation_app_comm.
Qed.

(** Popping gives a maximal item to the deleter. *)
Lemma pop_runs q ms s (Q : unit -> S -> Prop) : StrictWeak (less s) ->
  the_queue s = Some q -> queue_ok ctx (less s) q ms -> ms <> [] -> pq_size q <= 2 ^ 31 ->
  (forall q' a ms', ms ≡ₚ a :: ms' -> (forall b, b ∈ ms -> less s a b = false) ->
     at_ (pq_slots q) 0 = Some a -> queue_ok ctx (less s) q' ms' ->
     at_ (pq_slots q') (pq_size q') = Some a ->
     runs (item_deleter a) (with_queue (Some q') s) Q) ->
  runs (gpriority_queue_pop ctx less item_deleter) s Q.
Proof.
  intros HW Hq Hok Hne Hsz Hdel. pose proof (queue_ok_length _ _ _ _ Hok) as Hlen.
  destruct Hok as [(Hb1 & Hb2 & Hb3) Hs Hh Hi].
  assert (0 < pq_size q) by (destruct ms; [done|]; cbn in Hlen; lia).
  unfold gpriority_queue_pop. run_step. eapply runs_load_queue; [done|].
  run_step. apply runs_assert; [by apply bool_decide_eq_true_2; lia|].
  run_step. eapply runs_on_slots; [done|].
  eapply runs_conseq; [apply (pop_heap_runs ctx (less s) (pq_size q)); [done|lia|lia]|].
  intros _ l (Hh' & Hsh & Hat). pose proof (shuffled_length _ _ _ Hsh) as Hll.
  run_step. eapply runs_load_queue; [by rewrite the_with_queue|].
  run_step. unfold save_queue. run_step. run_step.
  eapply runs_on_slots; [by rewrite the_with_queue|]. cbn [pq_slots pq_alloc pq_size pq_capacity].
  destruct (at_lt (pq_slots q) 0) as [a Ha]; [lia|].
  eapply runs_item_get; [lia|by rewrite Hat|]. rewrite !with_with_queue.
  set (n := pq_size q) in *.
  assert (Htake : take (Z.to_nat n) l = take (Z.to_nat (n - 1)) l ++ [a]).
  { replace (Z.to_nat n) with (Z.to_nat (n - 1 + 1)) by lia. apply take_items; [lia|done| |lia].
    by rewrite Hat. }
  apply (Hdel _ a (take (Z.to_nat (n - 1)) l)); [| |done| |cbn; by rewrite Hat].
  - rewrite <- Hi, <- (shuffled_take n (pq_slots q) l ltac:(lia) Hsh), Htake. apply Permutation_app_comm.
  - intros b Hbin. rewrite <- Hi in Hbin. apply list_elem_of_lookup in Hbin as [i Hib].
    apply lookup_take_Some in Hib as [Hib Hin].
    apply (heap_root_max ctx (less s) (pq_slots q) n a (Z.of_nat i)); [done|lia|done|lia|].
    unfold at_. by rewrite Nat2Z.id.
  - split; cbn; [lia|lia|done|done].
Qed.
End pqueue_proofs.

(** ** Sessions of a queue whose deleter records the items it is given *)
Section pq_sessions.
Context (ctx : layout) `{HL : !HeapLayout ctx} {A : Type} (less : A -> A -> bool).
Context `{HW : !StrictWeak less}.

Record owner := Owner {
  ow_queue : option (gpriority_queue A);
  ow_oom : list bool;
  ow_deleted : list A }.

#[export] Instance owner_queue : HasQueue owner A := {
  the_queue := ow_queue;
  with_queue q s := Owner q (ow_oom s) (ow_deleted s) }.
#[export] Instance owner_alloc : HasAllocator owner := {
  oom_script := ow_oom;
  with_oom o s := Owner (ow_queue s) o (ow_deleted s) }.
#[export] Instance owner_laws : QueueLaws owner A (fun _ => less).
Proof. split; try done. by intros []. Qed.

Definition record_deleted (a : A) : C owner unit :=
  c_modify (fun s => Owner (ow_queue s) (ow_oom s) (ow_deleted s ++ [a])).

Abbreviation push := (gpriority_queue_push ctx (fun _ : owner => less)).
Abbreviation pop := (gpriority_queue_pop ctx (fun _ : owner => less) record_deleted).

Inductive pq_op := Push (a : A) | Pop.

(** [Pop] looks at the top and pops it, if there is one. *)
Definition run_pq_op (op : pq_op) : C owner (option A) :=
  match op with
  | Push a => _ ← push a; mret None
  | Pop =>
      t ← gpriority_queue_top (fun _ : owner => less);
      match t with None => mret None | Some a => pop;; mret (Some a) end
  end.

Fixpoint run_pq_ops (ops : list pq_op) : C owner (list (option A)) :=
  match ops with
  | [] => mret []
  | op :: ops => r ← run_pq_op op; rs ← run_pq_ops ops; mret (r :: rs)
  end.

(** The operations, and then the end of the queue. *)
Definition pq_rest (ops : list pq_op) : C owner (list (option A)) :=
  rs ← run_pq_ops ops;
  gpriority_queue_delete (fun _ : owner => less) record_deleted;;
  mret rs.

Definition pq_session (ops : list pq_op) : C owner (list (option A)) :=
  b ← gpriority_queue_create;
  if b : bool then pq_rest ops else mret [].

(** The specification: a bag; the top is an item that none is above. *)
Inductive bag_steps : list A -> list pq_op -> list (option A) -> list A -> list A -> Prop :=
  | bs_nil ms ms' : ms ≡ₚ ms' -> bag_steps ms [] [] [] ms'
  | bs_push ms a ops rs del ms' : bag_steps (a :: ms) ops rs del ms' ->
      bag_steps ms (Push a :: ops) (None :: rs) del ms'
  | bs_pop_empty ops rs del ms' : bag_steps [] ops rs del ms' ->
      bag_steps [] (Pop :: ops) (None :: rs) del ms'
  | bs_pop ms a ms1 ops rs del ms' : ms ≡ₚ a :: ms1 ->
      (forall b, b ∈ ms -> less a b = false) -> bag_steps ms1 ops rs del ms' ->
      bag_steps ms (Pop :: ops) (Some a :: rs) (a :: del) ms'.

Lemma queue_ok_top (q : gpriority_queue A) ms : queue_ok ctx less q ms -> ms <> [] ->
  exists a, at_ (pq_slots q) 0 = Some a /\ 0 < pq_size q.
Proof.
  intros Hok Hne. pose proof (queue_ok_length ctx less q ms Hok) as Hlen.
  assert (0 < pq_size q) by (destruct ms; [done|]; cbn in Hlen; lia).
  destruct (at_lt (pq_slots q) 0) as [a Ha]; [|eauto].
  pose proof (qo_size _ _ _ _ Hok). lia.
Qed.

Lemma run_pq_ops_runs ops : forall q ms s, the_queue s = Some q -> queue_ok ctx less q ms ->
  ow_oom s = [] -> Z.of_nat (length ms + length ops) <= 2 ^ 31 ->
  runs (run_pq_ops ops) s (fun rs s' => exists q' ms' del,
    the_queue s' = Some q' /\ queue_ok ctx less q' ms' /\ ow_oom s' = [] /\
    ow_deleted s' = ow_deleted s ++ del /\ bag_steps ms ops rs del ms').
Proof.
  induction ops as [|[a|] ops IH]; intros q ms s Hq Hok Ho Hlen; cbn [run_pq_ops].
  - run_step. exists q, ms, []. rewrite app_nil_r. split_and!; try done. by constructor.
  - pose proof (queue_ok_length ctx less q ms Hok) as Hsz. cbn in Hlen.
    run_step. cbn [run_pq_op]. run_step. eapply runs_conseq.
    { apply (push_runs ctx (fun _ => less) q ms a s HW Hq Hok); [lia|].
      unfold has_memory. cbn. by rewrite Ho. }
    intros b s1 (-> & q1 & s0 & -> & Hs0 & Hok1). run_step. run_step.
    assert (E : ow_oom s0 = [] /\ ow_deleted s0 = ow_deleted s).
    { destruct Hs0 as [->| ->]; [done|]. unfold pop_oom. cbn. by rewrite Ho. }
    destruct E as [Eo Ed].
    eapply runs_conseq; [apply (IH q1 (a :: ms)); [done|done|done|cbn; lia]|].
    intros rs s2 (q2 & ms2 & del & H1 & H2 & H3 & H4 & H5). run_step.
    exists q2, ms2, del. split_and!; try done; [by rewrite H4; cbn; rewrite Ed|by constructor].
  - pose proof (queue_ok_length ctx less q ms Hok) as Hsz. cbn in Hlen.
    run_step. cbn [run_pq_op]. unfold gpriority_queue_top.
    run_step. run_step. eapply runs_load_queue; [done|]. destruct ms as [|m ms].
    + rewrite decide_True by done. run_step. run_step.
      run_step. eapply runs_conseq; [apply (IH q []); [done|done|done|cbn; lia]|].
      intros rs s2 (q2 & ms2 & del & H1 & H2 & H3 & H4 & H5). run_step.
      exists q2, ms2, del. split_and!; try done. by constructor.
    + destruct (queue_ok_top q (m :: ms) Hok) as (a & Ha & Hpos); [done|].
      rewrite decide_False by lia. run_step.
      eapply (runs_on_slots (fun _ => less)); [done|]. eapply runs_item_get; [lia|done|].
      run_step. set (s1 := with_queue _ s).
      assert (Hs1 : s1 = s).
      { unfold s1. destruct q, s. cbn in *. by rewrite Hq. }
      rewrite Hs1. run_step.
      eapply (pop_runs ctx (fun _ => less) record_deleted q (m :: ms)); [done|done|done|done|lia|].
      intros q' a' ms' Hp Hmax Ha' Hok' _. simplify_eq.
      unfold record_deleted. run_step. run_step. run_step.
      assert (Hl' : length (m :: ms) = S (length ms')) by (by rewrite Hp).
      cbn in Hl', Hlen.
      eapply runs_conseq; [apply (IH q' ms'); [done|done|done|lia]|].
      intros rs s2 (q2 & ms2 & del & H1 & H2 & H3 & H4 & H5). run_step.
      exists q2, ms2, (a :: del). split_and!; try done; [by rewrite H4; cbn; rewrite <- app_assoc|].
      by econstructor.
Qed.

Lemma delete_items_runs n : forall i q s, the_queue s = Some q -> 0 <= i ->
  (Z.to_nat i + n <= length (pq_slots q))%nat ->
  runs (delete_items (fun _ : owner => less) record_deleted n i) s (fun _ s' =>
    s' = Owner (Some q) (ow_oom s)
           (ow_deleted s ++ take n (drop (Z.to_nat i) (pq_slots q)))).
Proof.
  induction n as [|n IH]; intros i q s Hq Hi Hl; cbn [delete_items].
  - run_step. rewrite take_0, app_nil_r. destruct s. cbn in *. by rewrite <- Hq.
  - destruct (at_lt (pq_slots q) i) as [a Ha]; [lia|].
    run_step. eapply (runs_on_slots (fun _ => less)); [done|]. eapply runs_item_get; [lia|done|].
    run_step. unfold record_deleted. run_step.
    eapply runs_conseq; [apply (IH (i + 1) q)|].
    + cbn. by destruct q.
    + lia.
    + lia.
    + intros _ s' ->. cbn. f_equal. rewrite <- app_assoc. f_equal.
      replace (Z.to_nat (i + 1)) with (S (Z.to_nat i)) by lia.
      by rewrite (drop_S _ _ _ Ha).
Qed.

(** A session from a queue that holds the items [ms]. *)
Lemma pq_rest_runs ops q ms s : the_queue s = Some q -> queue_ok ctx less q ms -> ow_oom s = [] ->
  ow_deleted s = [] -> Z.of_nat (length ms + length ops) <= 2 ^ 31 ->
  runs (pq_rest ops) s (fun rs s' => ow_queue s' = None /\
    exists del ms', bag_steps ms ops rs del ms' /\ ow_deleted s' ≡ₚ del ++ ms' /\
      take (length del) (ow_deleted s') = del).
Proof.
  intros Hq Hok Ho Hd Hl. unfold pq_rest.
  run_step. eapply runs_conseq; [by apply (run_pq_ops_runs ops q ms)|].
  intros rs s1 (q1 & ms1 & del & Hq1 & Hok1 & Ho1 & Hd1 & Hb). rewrite Hd in Hd1. cbn in Hd1.
  run_step. unfold gpriority_queue_delete. run_step. eapply runs_load_queue; [done|].
  run_step. pose proof (qo_size _ _ _ _ Hok1).
  eapply runs_conseq; [apply (delete_items_runs _ 0 q1); [done|lia|lia]|].
  intros _ s2 ->. run_step. run_step. split; [done|].
  exists del, ms1. cbn. rewrite drop_0, Hd1. split_and!; [done| |by rewrite take_app_length].
  by rewrite (qo_items _ _ _ _ Hok1).
Qed.

(** C20: with memory, the priority queue is a bag whose top is always a maximal item:
    after any pushes and pops the items are those pushed and not popped, every pop
    returns and deletes an item that no other is above, and deleting the queue hands
    each remaining item to the deleter once.  No assertion of the heap fails. *)
Theorem pq_session_priority ops : Z.of_nat (length ops) <= 2 ^ 31 ->
  runs (pq_session ops) (Owner None [] []) (fun rs s' => ow_queue s' = None /\
    exists del ms, bag_steps [] ops rs del ms /\ ow_deleted s' ≡ₚ del ++ ms /\
      take (length del) (ow_deleted s') = del).
Proof.
  intros Hl. unfold pq_session, gpriority_queue_create.
  run_step. run_step. apply runs_oom. change (hd false _) with false. run_step.
  apply runs_oom. change (hd false _) with false. unfold save_queue. run_step.
  run_step. run_step. apply (pq_rest_runs ops (PQ [] 1 0 1) []); [done| |done|done|cbn; lia].
  split; cbn; [lia|lia| |done]. intros u a b Hu. lia.
Qed.

(** A session of a queue that is made from the first [n] items of an array. *)
Definition pq_array_session (a : list A) (n : Z) (ops : list pq_op) : C owner (list (option A)) :=
  b ← gpriority_queue_create_from_array ctx (fun _ : owner => less) a n;
  if b : bool then pq_rest ops else mret [].

(** Such a queue holds those items: with memory its sessions are those of the bag of
    them. *)
Theorem pq_array_session_priority a n ops : 1 <= n <= Z.of_nat (length a) ->
  n + Z.of_nat (length ops) <= 2 ^ 31 ->
  runs (pq_array_session a n ops) (Owner None [] []) (fun rs s' => ow_queue s' = None /\
    exists del ms, bag_steps (take (Z.to_nat n) a) ops rs del ms /\ ow_deleted s' ≡ₚ del ++ ms /\
      take (length del) (ow_deleted s') = del).
Proof.
  intros Hn Hl. unfold pq_array_session, gpriority_queue_create_from_array.
  run_step. run_step. apply runs_oom. change (hd false _) with false.
  run_step. apply runs_assert; [apply bool_decide_eq_true_2|].
  { unfold SIZE_MAX, item_size. change ((2 ^ 64 - 1) / 8) with 2305843009213693951. lia. }
  run_step. apply runs_oom. change (hd false _) with false. run_step.
  rewrite decide_True by lia. unfold save_queue. run_step. run_step. run_step.
  assert (Hlen : Z.of_nat (length (take (Z.to_nat n) a)) = n) by (rewrite length_take; lia).
  run_step. eapply (runs_on_slots (fun _ => less)); [done|]. cbn [pq_slots pq_alloc pq_size pq_capacity].
  eapply runs_conseq; [apply (make_heap_runs ctx less n); lia|].
  intros _ l [Hh Hs]. pose proof (shuffled_length _ _ _ Hs). run_step.
  eapply (pq_rest_runs ops (PQ l n n n)); [done| |done|done|lia].
  split; cbn; [lia|lia|done|]. rewrite (shuffled_take n _ l) by (done || lia).
  by rewrite take_take, Nat.min_id.
Qed.
End pq_sessions.

Lemma pq_session_priority_witness :
  let ops := [Push 3; Push 9; Pop; Push 5; Push 1; Pop; Pop] in
  runs (pq_session paged_binary_heap_ctx Z.ltb ops) (Owner None [] []) (fun rs s' =>
    ow_queue s' = None /\ exists del ms, bag_steps Z.ltb [] ops rs del ms /\
      ow_deleted s' ≡ₚ del ++ ms /\ take (length del) (ow_deleted s') = del).
Proof.
  intros ops.
  refine (pq_session_priority paged_binary_heap_ctx (HW := ltb_strict_weak) Z.ltb ops _).
  discriminate.
Defined.

Example pq_session_run :
  (match pq_session paged_binary_heap_ctx Z.ltb [Push 3; Push 9; Pop; Push 5; Push 1; Pop; Pop]
           (Owner None [] []) with
   | Done (rs, s) => Some (rs, ow_deleted s)
   | Fault _ => None
   end) = Some ([None; None; Some 9; None; None; Some 5; Some 3], [9; 5; 3; 1]).
Proof. vm_compute. reflexivity. Qed.

(** A push that fails for want of memory has already doubled the capacity, but not
    the block: the next push does not grow the queue and writes past its end. *)
Theorem pq_push_after_nomem_overflows :
  let s := Owner (Some (PQ [7] 1 1 1)) [true] [] in
  exists s', gpriority_queue_push paged_binary_heap_ctx (fun _ => Z.ltb) 8 s = Done (false, s') /\
    gpriority_queue_push paged_binary_heap_ctx (fun _ => Z.ltb) 8 s' = Fault OutOfBounds.
Proof. exists (Owner (Some (PQ [7] 1 1 2)) [] []). split; vm_compute; reflexivity. Qed.

(** A queue made from an empty array has room for nothing, and never will: its capacity
    of 0 is doubled when an item is pushed, and the assertion that there is room fails. *)
Theorem pq_empty_array_push_asserts :
  let queue := fun x => b ← gpriority_queue_create_from_array paged_binary_heap_ctx (fun _ => Z.ltb) [] 0;
                 if b : bool then gpriority_queue_push paged_binary_heap_ctx (fun _ : owner (A := Z) => Z.ltb) x
                 else mret false in
  forall x, queue x (Owner None [] []) = Fault AssertFail.
Proof. reflexivity. Qed.
