(* ===== verification/Spud.v ===== *)
(** SPUD messages: src/spud.c and include/spud.h.

    A packet is a list of bytes.  The CBOR library (cn-cbor, not part of this
    repository) is a parameter, and so is the source of random bytes. *)

From S2P Require Import Prelude LsError LsHtable.
Open Scope Z_scope.

Abbreviation bytes := (list Z).
Definition is_byte (b : Z) : Prop := 0 <= b < 256.

(** ** Constants and data *)
Definition SPUD_TUBE_ID_SIZE : Z := 8.
Definition SPUD_ID_STRING_SIZE : Z := 2 * SPUD_TUBE_ID_SIZE.
Definition SpudMagicCookie : bytes := [0xd8; 0x00; 0x00; 0xd8].
Definition SPUD_MAGIC_COOKIE_SIZE : Z := Z.of_nat (length SpudMagicCookie).

Inductive spud_command : Set := SPUD_DATA | SPUD_OPEN | SPUD_CLOSE | SPUD_ACK.

#[export] Instance spud_command_eq_dec : EqDecision spud_command.
Proof. solve_decision. Defined.

Definition command_code (c : spud_command) : Z :=
  match c with
  | SPUD_DATA => Z.shiftl 0 6
  | SPUD_OPEN => Z.shiftl 1 6
  | SPUD_CLOSE => Z.shiftl 2 6
  | SPUD_ACK => Z.shiftl 3 6
  end.

Definition SPUD_ADEC : Z := 0x20.
Definition SPUD_PDEC : Z := 0x10.
Definition SPUD_COMMAND : Z := 0xC0.

Record spud_tube_id := TubeId { octet : bytes }.

#[export] Instance spud_tube_id_eq_dec : EqDecision spud_tube_id.
Proof. solve_decision. Defined.

Definition tube_id_wf (id : spud_tube_id) : Prop :=
  Z.of_nat (length (octet id)) = SPUD_TUBE_ID_SIZE /\ Forall is_byte (octet id).

Record spud_header := SpudHeader { magic : bytes; hdr_tube_id : spud_tube_id; hdr_flags : Z }.

Definition header_wf (h : spud_header) : Prop :=
  Z.of_nat (length (magic h)) = SPUD_MAGIC_COOKIE_SIZE /\ tube_id_wf (hdr_tube_id h) /\
  is_byte (hdr_flags h).

(** [sizeof(spud_header)]: bytes only, so no padding. *)
Definition SIZEOF_SPUD_HEADER : Z := SPUD_MAGIC_COOKIE_SIZE + SPUD_TUBE_ID_SIZE + 1.

(** The header as it lies in memory, and the cast of the start of a packet to it. *)
Definition header_bytes (h : spud_header) : bytes :=
  magic h ++ octet (hdr_tube_id h) ++ [hdr_flags h].

Definition header_of_bytes (b : bytes) : spud_header :=
  SpudHeader (take (Z.to_nat SPUD_MAGIC_COOKIE_SIZE) b)
    (TubeId (take (Z.to_nat SPUD_TUBE_ID_SIZE) (drop (Z.to_nat SPUD_MAGIC_COOKIE_SIZE) b)))
    (default 0 (b !! Z.to_nat (SPUD_MAGIC_COOKIE_SIZE + SPUD_TUBE_ID_SIZE))).

(** memcmp(a, b, n) == 0, for buffers of at least [n] bytes. *)
Definition memcmp_eq (a b : bytes) (n : Z) : bool :=
  bool_decide (take (Z.to_nat n) a = take (Z.to_nat n) b).

(** [payload] is the packet, of [length payload] bytes. *)
Definition spud_is_spud (payload : bytes) : bool :=
  if decide (Z.of_nat (length payload) < SIZEOF_SPUD_HEADER) then false
  else memcmp_eq payload SpudMagicCookie SPUD_MAGIC_COOKIE_SIZE.

Definition spud_set_id (hdr : option spud_header) (id : option spud_tube_id)
    : res Z spud_header :=
  match hdr, id with
  | Some h, Some i => Ok (SpudHeader (magic h) i (hdr_flags h))
  | _, _ => Err LS_ERR_INVALID_ARG
  end.

(** The answer of the random source: eight bytes, or an errno from opening the device
    (a short read is an error without a code). *)
Inductive rand_answer := RandBytes (b : bytes) | RandErrno (e : Z) | RandShort.

Definition get_rand_buf (a : rand_answer) : res Z bytes :=
  match a with
  | RandBytes b => Ok b
  | RandErrno e => Err (- e)
  | RandShort => Err LS_ERR_NONE
  end.

(** [id] tells whether there is room for the new tube ID. *)
Definition spud_create_id (a : rand_answer) (id : bool) : res Z spud_tube_id :=
  if id then
    match get_rand_buf a with
    | Ok b => Ok (TubeId b)
    | Err e => Err e
    end
  else Err LS_ERR_INVALID_ARG.

Definition spud_init (a : rand_answer) (id : option spud_tube_id) : res Z spud_header :=
  let hdr := SpudHeader SpudMagicCookie (TubeId []) 0 in
  match id with
  | Some _ => spud_set_id (Some hdr) id
  | None =>
      match spud_create_id a true with
      | Ok i => Ok (SpudHeader (magic hdr) i (hdr_flags hdr))
      | Err e => Err e
      end
  end.

Definition spud_is_id_equal (a b : option spud_tube_id) : bool :=
  match a, b with
  | Some x, Some y => memcmp_eq (octet x) (octet y) SPUD_TUBE_ID_SIZE
  | _, _ => false
  end.

Definition spud_copy_id (src : spud_tube_id) : spud_tube_id :=
  TubeId (take (Z.to_nat SPUD_TUBE_ID_SIZE) (octet src)).

(** One [%02x]: two lower-case hexadecimal digits, as bytes. *)
Definition hex_digit (d : Z) : Z := if decide (d < 10) then 48 + d else 97 + (d - 10).
Definition hex02 (b : Z) : bytes := [hex_digit (b / 16); hex_digit (b mod 16)].

(** [len] is the size of the buffer; the value is the string written, or NULL. *)
Definition spud_id_to_string (len : Z) (id : spud_tube_id) : option bytes :=
  if decide (len < SPUD_ID_STRING_SIZE + 1) then None
  else Some (octet id ≫= hex02).

Section messages.
(** The CBOR library: values, the decoder (with its error number) and the encoder. *)
Context {cbor : Type} (cn_cbor_decode : bytes -> cbor + Z).

Record spud_message := SpudMessage { msg_header : option spud_header; msg_cbor : option cbor }.

Definition spud_parse (payload : option bytes) (msg : bool) : res Z spud_message :=
  match payload with
  | Some b =>
      if negb msg || negb (spud_is_spud b) then Err LS_ERR_INVALID_ARG
      else
        let header := header_of_bytes b in
        if decide (Z.of_nat (length b) > SIZEOF_SPUD_HEADER) then
          match cn_cbor_decode (drop (Z.to_nat SIZEOF_SPUD_HEADER) b) with
          | inl c => Ok (SpudMessage (Some header) (Some c))
          | inr e => Err (LS_ERR_USER + e)
          end
        else Ok (SpudMessage (Some header) None)
  | None => Err LS_ERR_INVALID_ARG
  end.

(** The message and the CBOR values handed to cn_cbor_free(). *)
Definition spud_unparse (msg : spud_message) : spud_message * list cbor :=
  (SpudMessage None None, match msg_cbor msg with Some c => [c] | None => [] end).

(** ** Parsing *)
Lemma header_bytes_length h : header_wf h ->
  length (header_bytes h) = Z.to_nat SIZEOF_SPUD_HEADER.
Proof.
  intros (Hm & (Hi & _) & _). unfold header_bytes. rewrite !length_app. cbn.
  change (Z.to_nat SIZEOF_SPUD_HEADER) with 13%nat.
  change SPUD_MAGIC_COOKIE_SIZE with 4 in *. change SPUD_TUBE_ID_SIZE with 8 in *. lia.
Qed.

Lemma header_of_header_bytes h rest : header_wf h ->
  header_of_bytes (header_bytes h ++ rest) = h.
Proof.
  intros (Hm & (Hi & _) & _). destruct h as [m [o] f]. unfold header_bytes, header_of_bytes. cbn in *.
  rewrite <- !app_assoc.
  assert (Em : Z.to_nat SPUD_MAGIC_COOKIE_SIZE = length m) by lia.
  assert (Eo : Z.to_nat SPUD_TUBE_ID_SIZE = length o) by lia.
  rewrite Em, Eo, take_app_length, drop_app_length, take_app_length.
  assert (Ef : Z.to_nat (SPUD_MAGIC_COOKIE_SIZE + SPUD_TUBE_ID_SIZE) = (length m + length o)%nat).
  { change SPUD_MAGIC_COOKIE_SIZE with 4 in *. change SPUD_TUBE_ID_SIZE with 8 in *. lia. }
  rewrite Ef, app_assoc, lookup_app_r by (rewrite length_app; lia).
  by rewrite length_app, Nat.sub_diag.
Qed.

Lemma spud_is_spud_bytes h rest : header_wf h -> magic h = SpudMagicCookie ->
  spud_is_spud (header_bytes h ++ rest) = true.
Proof.
  intros Hh Hm. unfold spud_is_spud. rewrite decide_False.
  - unfold memcmp_eq, header_bytes. rewrite Hm. by apply bool_decide_eq_true_2.
  - rewrite length_app, header_bytes_length by done. lia.
Qed.

Lemma spud_parse_built h body : header_wf h -> magic h = SpudMagicCookie ->
  spud_parse (Some (header_bytes h ++ body)) true =
    match body with
    | [] => Ok (SpudMessage (Some h) None)
    | _ :: _ =>
        match cn_cbor_decode body with
        | inl c => Ok (SpudMessage (Some h) (Some c))
        | inr e => Err (LS_ERR_USER + e)
        end
    end.
Proof.
  intros Hh Hm. unfold spud_parse. rewrite spud_is_spud_bytes by done. cbn [negb orb].
  rewrite header_of_header_bytes by done. rewrite length_app, header_bytes_length by done.
  rewrite <- (header_bytes_length h Hh), drop_app_length, header_bytes_length by done.
  assert (0 <= SIZEOF_SPUD_HEADER) by done.
  destruct body as [|b body]; cbn [length].
  - by rewrite decide_False by lia.
  - by rewrite decide_True by lia.
Qed.

(** C30: parsing undoes building.  A packet made of a well-formed header with the magic
    cookie and a body parses to that header, with the body's CBOR value, or without one
    when there is no body; a body that is not CBOR is refused with the decoder's error
    above [LS_ERR_USER]. *)
Theorem spud_parse_build h body : header_wf h -> magic h = SpudMagicCookie ->
  spud_parse (Some (header_bytes h ++ body)) true =
    match body with
    | [] => Ok (SpudMessage (Some h) None)
    | _ :: _ =>
        match cn_cbor_decode body with
        | inl c => Ok (SpudMessage (Some h) (Some c))
        | inr e => Err (LS_ERR_USER + e)
        end
    end.
Proof. apply spud_parse_built. Qed.

(** C31: [spud_parse] accepts exactly the packets of at least 13 bytes that begin with
    the magic cookie and whose remaining bytes, if there are any, are CBOR; the message
    then holds the bytes of the packet: the header's bytes are its first 13. *)
Theorem spud_parse_accepts b : Forall is_byte b ->
  (is_ok (spud_parse (Some b) true) = true <->
    13 <= Z.of_nat (length b) /\ take 4 b = SpudMagicCookie /\
    (13 < Z.of_nat (length b) -> exists c, cn_cbor_decode (drop 13 b) = inl c)) /\
  (forall m, spud_parse (Some b) true = Ok m -> exists h, msg_header m = Some h /\ header_wf h /\
     header_bytes h = take 13 b).
Proof.
  intros Hb. unfold spud_parse, spud_is_spud, memcmp_eq.
  change SIZEOF_SPUD_HEADER with 13. change SPUD_MAGIC_COOKIE_SIZE with 4.
  change (Z.to_nat 4) with 4%nat. change (Z.to_nat 13) with 13%nat.
  change (take 4 SpudMagicCookie) with SpudMagicCookie.
  destruct (decide (Z.of_nat (length b) < 13)) as [Hlt|Hge].
  { cbn. split; [|done]. split; [done|lia]. }
  assert (Hh : header_wf (header_of_bytes b) /\ header_bytes (header_of_bytes b) = take 13 b).
  { unfold header_of_bytes, header_bytes. cbn.
    change (Z.to_nat SPUD_MAGIC_COOKIE_SIZE) with 4%nat.
    change (Z.to_nat SPUD_TUBE_ID_SIZE) with 8%nat.
    change (Z.to_nat (SPUD_MAGIC_COOKIE_SIZE + SPUD_TUBE_ID_SIZE)) with 12%nat.
    destruct (lookup_lt_is_Some_2 b 12) as [f Hf]; [lia|]. rewrite Hf. cbn. split.
    - unfold header_wf, tube_id_wf. cbn. rewrite !length_take, length_drop.
      change SPUD_MAGIC_COOKIE_SIZE with 4. change SPUD_TUBE_ID_SIZE with 8.
      split_and!; [lia|lia|by apply Forall_take, Forall_drop|].
      by apply (Forall_lookup_1 _ _ _ _ Hb Hf).
    - change 13%nat with (4 + 9)%nat. rewrite <- (take_drop 4 (take (4 + 9) b)), take_take.
      rewrite skipn_firstn_comm. cbn [Nat.sub Nat.add Nat.min]. f_equal.
      rewrite (take_S_r (drop 4 b) 8 f); [done|]. by rewrite lookup_drop. }
  destruct (bool_decide_reflect (take 4 b = SpudMagicCookie)) as [Hm|Hm]; cbn [negb orb].
  - destruct (decide (Z.of_nat (length b) > 13)) as [Hgt|Hle].
    + destruct (cn_cbor_decode (drop 13 b)) as [c|e] eqn:E; cbn.
      * split; [split; [|done]; intros _; split_and!; [lia|done|eauto]|].
        intros m [= <-]. eauto.
      * split; [|done]. split; [done|]. intros (_ & _ & Hc). destruct Hc as [c Hc]; [lia|done].
    + cbn. split; [split; [|done]; intros _; split_and!; [lia|done|lia]|].
      intros m [= <-]. eauto.
  - cbn. split; [|done]. split; [done|]. by intros (_ & ? & _).
Qed.
End messages.

(** ** Tube IDs *)
Lemma memcmp_ids a b : tube_id_wf a -> tube_id_wf b ->
  memcmp_eq (octet a) (octet b) SPUD_TUBE_ID_SIZE = bool_decide (a = b).
Proof.
  intros [Ha _] [Hb _]. unfold memcmp_eq. rewrite !take_ge by lia.
  apply bool_decide_ext. destruct a, b. cbn. split; [by intros ->|by intros [= ->]].
Qed.

Lemma spud_copy_id_same id : tube_id_wf id -> spud_copy_id id = id.
Proof. intros [H _]. destruct id as [o]. unfold spud_copy_id. cbn in *. by rewrite take_ge by lia. Qed.

Lemma hex_digit_inj a b : 0 <= a < 16 -> 0 <= b < 16 -> hex_digit a = hex_digit b -> a = b.
Proof. unfold hex_digit. intros Ha Hb. repeat case_decide; lia. Qed.

Lemma hex02_inj a b : is_byte a -> is_byte b -> hex02 a = hex02 b -> a = b.
Proof.
  unfold is_byte, hex02. intros Ha Hb [= E1 E2].
  apply hex_digit_inj in E1; [|zlia..]. apply hex_digit_inj in E2; [|zlia..]. zlia.
Qed.

Lemma hex_bytes_inj xs : forall ys, Forall is_byte xs -> Forall is_byte ys ->
  xs ≫= hex02 = ys ≫= hex02 -> xs = ys.
Proof.
  induction xs as [|x xs IH]; intros [|y ys] Hx Hy; cbn; try done.
  intros E. inversion Hx; inversion Hy; subst.
  assert (Exy : hex02 x = hex02 y) by (unfold hex02; congruence).
  apply hex02_inj in Exy as ->; [|done..]. f_equal. apply IH; [done..|]. congruence.
Qed.

(** [spud_is_id_equal] is equality of IDs and false for NULL; the text of an ID is
    16 characters, needs a buffer of 17, and determines the ID. *)
Theorem tube_id_equal_and_text a b : tube_id_wf a -> tube_id_wf b ->
  spud_is_id_equal (Some a) (Some b) = bool_decide (a = b) /\
  spud_is_id_equal None (Some b) = false /\ spud_is_id_equal (Some a) None = false /\
  (forall len, len < 17 -> spud_id_to_string len a = None) /\
  (forall len, 17 <= len -> exists s t, spud_id_to_string len a = Some s /\
     spud_id_to_string len b = Some t /\ length s = 16%nat /\ (s = t <-> a = b)).
Proof.
  intros Ha Hb. split_and!; [by apply memcmp_ids|done|done| |].
  - intros len Hl. unfold spud_id_to_string. by rewrite decide_True by done.
  - intros len Hl. unfold spud_id_to_string.
    rewrite !decide_False by (change (SPUD_ID_STRING_SIZE + 1) with 17; lia).
    eexists _, _. split_and!; [done..| |].
    + destruct Ha as [Hl8 _]. change SPUD_TUBE_ID_SIZE with 8 in Hl8.
      assert (Hlen : forall xs, length (xs ≫= hex02) = (2 * length xs)%nat).
      { induction xs as [|x xs IH]; [done|]. cbn. rewrite IH. lia. }
      rewrite Hlen. lia.
    + destruct a as [xs], b as [ys], Ha as [_ Ha], Hb as [_ Hb]. cbn in *.
      split; [intros E; f_equal; by apply hex_bytes_inj|by intros [= ->]].
Qed.

(** *** IDs as keys of the table of tubes (src/tube_manager.c) *)

(** A [const spud_tube_id*]: where the ID is, and the ID there. *)
Record id_ptr := IdPtr { ip_addr : Z; ip_id : spud_tube_id }.

#[export] Instance id_ptr_eq_dec : EqDecision id_ptr.
Proof. solve_decision. Defined.

(** The ID's bytes read as a little-endian [uint64_t]. *)
Fixpoint le_combine (b : bytes) : Z :=
  match b with [] => 0 | x :: b => x + 256 * le_combine b end.

Definition id_u64 (id : spud_tube_id) : Z := le_combine (octet id).

Definition hash_id (p : id_ptr) : Z :=
  let key := id_u64 (ip_id p) in
  let key := u64 (u64 (Z.lnot key) + u64 (Z.shiftl key 18)) in
  let key := Z.lxor key (Z.shiftr key 31) in
  let key := u64 (key * 21) in
  let key := Z.lxor key (Z.shiftr key 11) in
  let key := u64 (key + u64 (Z.shiftl key 6)) in
  let key := Z.lxor key (Z.shiftr key 22) in
  u32 key.

Definition compare_id (key1 key2 : id_ptr) : Z :=
  let k1 := id_u64 (ip_id key1) in
  let k2 := id_u64 (ip_id key2) in
  if decide (k1 < k2) then -1 else if decide (k1 = k2) then 0 else 1.

(** Conversion must not unfold the hash, whose size doubles at each of its steps. *)
Strategy 1000 [hash_id compare_id].

Lemma le_combine_inj xs : forall ys, length xs = length ys -> Forall is_byte xs ->
  Forall is_byte ys -> le_combine xs = le_combine ys -> xs = ys.
Proof.
  induction xs as [|x xs IH]; intros [|y ys] Hl Hx Hy; cbn; try done.
  inversion Hx as [|? ? Hbx Hx']; inversion Hy as [|? ? Hby Hy']; subst.
  unfold is_byte in *. intros E.
  assert (x = y /\ le_combine xs = le_combine ys) as [-> E'] by lia.
  f_equal. apply IH; [|done..]. by injection Hl.
Qed.

Lemma id_u64_inj a b : tube_id_wf a -> tube_id_wf b -> id_u64 a = id_u64 b -> a = b.
Proof.
  intros [Ha Hba] [Hb Hbb] E. destruct a, b. cbn in *. f_equal. apply le_combine_inj; [lia|done..].
Qed.

#[export] Instance id_hashable : Hashable id_ptr Z := {
  key_hash := hash_id; key_cmp := compare_id;
  key_ok p := tube_id_wf (ip_id p); canon p := id_u64 (ip_id p) }.

#[export] Instance id_hashable_laws : HashableLaws id_ptr Z.
Proof.
  split.
  - intros k. by apply uwrap_range.
  - intros k k' Hk Hk'. cbn. unfold compare_id. repeat case_decide; split; try done; lia.
  - intros k k' Hk Hk' E. cbn in *. unfold hash_id. by rewrite E.
Qed.

(** ** The flags byte *)
Definition header_flags (cmd : spud_command) (adec pdec : bool) : Z :=
  let flags := Z.lor 0 (command_code cmd) in
  let flags := if adec then Z.lor flags SPUD_ADEC else flags in
  if pdec then Z.lor flags SPUD_PDEC else flags.

Definition flags_command (flags : Z) : Z := Z.land flags SPUD_COMMAND.

Lemma header_flags_byte cmd adec pdec : is_byte (header_flags cmd adec pdec).
Proof. by destruct cmd, adec, pdec. Qed.

Lemma flags_command_header cmd adec pdec :
  flags_command (header_flags cmd adec pdec) = command_code cmd.
Proof. by destruct cmd, adec, pdec. Qed.

Lemma header_flags_inj cmd adec pdec cmd' adec' pdec' :
  header_flags cmd adec pdec = header_flags cmd' adec' pdec' ->
  cmd = cmd' /\ adec = adec' /\ pdec = pdec'.
Proof. by destruct cmd, adec, pdec, cmd', adec', pdec'. Qed.

Definition command_of_code (code : Z) : option spud_command :=
  if decide (code = command_code SPUD_DATA) then Some SPUD_DATA
  else if decide (code = command_code SPUD_OPEN) then Some SPUD_OPEN
  else if decide (code = command_code SPUD_CLOSE) then Some SPUD_CLOSE
  else if decide (code = command_code SPUD_ACK) then Some SPUD_ACK
  else None.

Lemma command_of_code_of cmd : command_of_code (command_code cmd) = Some cmd.
Proof. by destruct cmd. Qed.

(** Every flags byte has a command. *)
Lemma command_total f : is_byte f -> exists cmd, command_of_code (flags_command f) = Some cmd.
Proof.
  intros Hf. assert (Hall : forallb (fun n => bool_decide (is_Some (command_of_code (flags_command (Z.of_nat n)))))
    (seq 0 256) = true) by by vm_compute.
  rewrite forallb_forall in Hall. specialize (Hall (Z.to_nat f)). unfold is_byte in Hf.
  rewrite in_seq, Z2Nat.id in Hall by lia. apply bool_decide_eq_true_1 in Hall; [|lia]. exact Hall.
Qed.

(** What a packet that was parsed names: an ID of eight bytes, and a command. *)
Lemma spud_parse_names {cbor} (decode : bytes -> cbor + Z) b m : Forall is_byte b ->
  spud_parse decode (Some b) true = Ok m -> exists h cmd, m = SpudMessage (Some h) (msg_cbor m) /\
    tube_id_wf (hdr_tube_id h) /\ spud_copy_id (hdr_tube_id h) = hdr_tube_id h /\
    command_of_code (flags_command (hdr_flags h)) = Some cmd.
Proof.
  intros Hb. unfold spud_parse, spud_is_spud. case_decide as Hl; [done|]. cbn [negb orb].
  destruct (memcmp_eq _ _ _); [|done]. cbn [negb].
  assert (Hlen : (13 <= length b)%nat) by (change SIZEOF_SPUD_HEADER with 13 in Hl; lia).
  set (h := header_of_bytes b).
  assert (Hid : tube_id_wf (hdr_tube_id h)).
  { unfold h, header_of_bytes, tube_id_wf. cbn [hdr_tube_id octet].
    change (Z.to_nat SPUD_TUBE_ID_SIZE) with 8%nat. change (Z.to_nat SPUD_MAGIC_COOKIE_SIZE) with 4%nat.
    split; [rewrite length_take, length_drop; change SPUD_TUBE_ID_SIZE with 8; lia|].
    by apply Forall_take, Forall_drop. }
  assert (Hf : is_byte (hdr_flags h)).
  { unfold h, header_of_bytes. cbn [hdr_flags].
    change (Z.to_nat (SPUD_MAGIC_COOKIE_SIZE + SPUD_TUBE_ID_SIZE)) with 12%nat.
    destruct (b !! 12%nat) as [x|] eqn:E; [by eapply Forall_lookup_1|done]. }
  assert (Hcp : spud_copy_id (hdr_tube_id h) = hdr_tube_id h).
  { destruct (hdr_tube_id h) as [o] eqn:E. unfold spud_copy_id. cbn in *. f_equal.
    apply take_ge. destruct Hid as [Hid _]. cbn in Hid. change SPUD_TUBE_ID_SIZE with 8 in *. lia. }
  destruct (command_total _ Hf) as [cmd Hcmd].
  case_decide; [destruct (decode _)|]; intros [= <-]; eauto 10.
Qed.

(** ** Witnesses *)
Definition id_ex : spud_tube_id := TubeId [1; 2; 3; 4; 5; 6; 7; 255].

Lemma id_ex_wf : tube_id_wf id_ex.
Proof. split; [done|]. repeat constructor; done. Qed.

(** A decoder that knows one value: the empty map. *)
Definition decode_ex (b : bytes) : bytes + Z :=
  if decide (b = [0xa0]) then inl b else inr 1.

Lemma spud_parse_build_witness :
  let h := SpudHeader SpudMagicCookie id_ex (header_flags SPUD_OPEN false false) in
  spud_parse decode_ex (Some (header_bytes h ++ [0xa0])) true =
    Ok (SpudMessage (Some h) (Some [0xa0])).
Proof.
  intros h. refine (eq_trans (spud_parse_build decode_ex h [0xa0] _ _) _).
  - split_and!; [done|apply id_ex_wf|apply header_flags_byte].
  - reflexivity.
  - reflexivity.
Defined.

Lemma spud_parse_accepts_witness :
  let b := header_bytes (SpudHeader SpudMagicCookie id_ex 0) in
  (is_ok (spud_parse decode_ex (Some b) true) = true <->
    13 <= Z.of_nat (length b) /\ take 4 b = SpudMagicCookie /\
    (13 < Z.of_nat (length b) -> exists c, decode_ex (drop 13 b) = inl c)) /\
  (forall m, spud_parse decode_ex (Some b) true = Ok m -> exists h, msg_header m = Some h /\
     header_wf h /\ header_bytes h = take 13 b).
Proof. intros b. refine (spud_parse_accepts decode_ex b _). repeat constructor; done. Defined.

Lemma tube_id_equal_and_text_witness :
  let b := TubeId [0; 0; 0; 0; 0; 0; 0; 0] in
  spud_is_id_equal (Some id_ex) (Some b) = bool_decide (id_ex = b) /\
  spud_is_id_equal None (Some b) = false /\ spud_is_id_equal (Some id_ex) None = false /\
  (forall len, len < 17 -> spud_id_to_string len id_ex = None) /\
  (forall len, 17 <= len -> exists s t, spud_id_to_string len id_ex = Some s /\
     spud_id_to_string len b = Some t /\ length s = 16%nat /\ (s = t <-> id_ex = b)).
Proof.
  intros b. refine (tube_id_equal_and_text id_ex b id_ex_wf _).
  split; [done|]. repeat constructor; done.
Defined.
