(* ===== verification/LsSockaddr.v ===== *)
(** Socket addresses: src/ls_sockaddr.c.  A [struct sockaddr] is a value of one of the
    families the code distinguishes; ports are in host byte order ([ntohs] and [htons]
    are applied at every access), addresses are their bytes in network order.
    getaddrinfo() and inet_ntop() belong to the C library and are parameters. *)

From S2P Require Import Prelude LsError LsStr.
Open Scope Z_scope.

Definition AF_INET : Z := 2.
Definition AF_INET6 : Z := 10.
Definition SIZEOF_SOCKADDR_IN : Z := 16.
Definition SIZEOF_SOCKADDR_IN6 : Z := 28.
Definition INET_ADDRSTRLEN : Z := 16.
Definition INET6_ADDRSTRLEN : Z := 46.

Inductive sockaddr : Set :=
  | sockaddr_in (sin_addr : list Z) (sin_port : Z)
  | sockaddr_in6 (sin6_addr : list Z) (sin6_port sin6_flowinfo sin6_scope_id : Z)
  | sockaddr_other (family : Z).

#[export] Instance sockaddr_eq_dec : EqDecision sockaddr.
Proof. solve_decision. Defined.

Definition sa_family (sa : sockaddr) : Z :=
  match sa with
  | sockaddr_in _ _ => AF_INET
  | sockaddr_in6 _ _ _ _ => AF_INET6
  | sockaddr_other f => f
  end.

Definition addr_bytes_wf (n : nat) (b : list Z) : Prop :=
  length b = n /\ Forall (fun x => 0 <= x < 256) b.

Definition sockaddr_wf (sa : sockaddr) : Prop :=
  match sa with
  | sockaddr_in a p => addr_bytes_wf 4 a /\ in_range 16 p
  | sockaddr_in6 a p _ _ => addr_bytes_wf 16 a /\ in_range 16 p
  | sockaddr_other f => in_range 16 f /\ f <> AF_INET /\ f <> AF_INET6
  end.

(** The result is a [size_t]: [return -1] is [SIZE_MAX]. *)
Definition ls_sockaddr_get_length (addr : sockaddr) : Z :=
  match addr with
  | sockaddr_in _ _ => SIZEOF_SOCKADDR_IN
  | sockaddr_in6 _ _ _ _ => SIZEOF_SOCKADDR_IN6
  | sockaddr_other _ => SIZE_MAX
  end.

Definition ls_sockaddr_get_port (addr : sockaddr) : Z :=
  match addr with
  | sockaddr_in _ p => p
  | sockaddr_in6 _ p _ _ => p
  | sockaddr_other _ => -1
  end.

Definition ls_sockaddr_set_port (addr : sockaddr) (port : Z) : outcome sockaddr :=
  match addr with
  | sockaddr_in a _ => Done (sockaddr_in a (u16 port))
  | sockaddr_in6 a _ f s => Done (sockaddr_in6 a (u16 port) f s)
  | sockaddr_other _ => Fault AssertFail
  end.

Definition ls_sockaddr_v6_any (port : Z) : sockaddr := sockaddr_in6 (replicate 16 0) (u16 port) 0 0.
Definition ls_sockaddr_v4_any (port : Z) : sockaddr := sockaddr_in (replicate 4 0) (u16 port).

(** A copy of [ls_sockaddr_get_length src] bytes: of an unknown family that is SIZE_MAX
    bytes, which no object has. *)
Definition ls_sockaddr_copy (src : sockaddr) : outcome sockaddr :=
  if decide (ls_sockaddr_get_length src = SIZE_MAX) then Fault OutOfBounds else Done src.

(** memcmp() of two 16-byte addresses: the difference at the first byte that differs. *)
Fixpoint memcmp (a b : list Z) : Z :=
  match a, b with
  | x :: a, y :: b => if decide (x = y) then memcmp a b else x - y
  | _, _ => 0
  end.

Definition ls_addr_cmp6 (a b : list Z) : Z := memcmp a b.

(** [s_addr]: the four bytes in network order, read as a little-endian integer. *)
Fixpoint s_addr (b : list Z) : Z := match b with [] => 0 | x :: b => x + 256 * s_addr b end.

Definition ls_sockaddr_cmp (sa sb : option sockaddr) : Z :=
  match sa, sb with
  | None, None => 0
  | None, Some _ => -1
  | Some _, None => 1
  | Some a, Some b =>
      let diff := sa_family a - sa_family b in
      if decide (diff <> 0) then diff
      else match a, b with
           | sockaddr_in a_addr a_port, sockaddr_in b_addr b_port =>
               (* an unsigned difference stored in an int *)
               let diff := i32 (u32 (s_addr a_addr - s_addr b_addr)) in
               if decide (diff <> 0) then diff else a_port - b_port
           | sockaddr_in6 a_addr a_port _ _, sockaddr_in6 b_addr b_port _ _ =>
               let diff := ls_addr_cmp6 a_addr b_addr in
               if decide (diff <> 0) then diff else a_port - b_port
           | _, _ => 0
           end
  end.

(** *** Name resolution *)
Inductive gai_answer :=
  | gai_error (status : Z)
  | gai_list (res : list (sockaddr * Z)).   (* the addresses with their ai_addrlen *)

(** The loop over the answers: [found] is the IPv4 address seen so far. *)
Fixpoint first_addr_loop (res : list (sockaddr * Z)) (found : option (sockaddr * Z))
    : option (sockaddr * Z) :=
  match res with
  | [] => found
  | p :: res =>
      if decide (sa_family p.1 = AF_INET6) then Some p
      else match found with
           | None => first_addr_loop res (if decide (sa_family p.1 = AF_INET) then Some p else None)
           | Some _ => first_addr_loop res found
           end
  end.

Definition get_first_addr (answer : gai_answer) (addr_len : Z) : res Z sockaddr :=
  match answer with
  | gai_error status => Err (ls_err_gai status)
  | gai_list res =>
      match first_addr_loop res None with
      | Some (a, ai_addrlen) => if decide (addr_len < ai_addrlen) then Err LS_ERR_OVERFLOW else Ok a
      | None => Err LS_ERR_NOT_FOUND
      end
  end.

Section resolver.
(** getaddrinfo() with the hints' flags. *)
Context (getaddrinfo : option cstr -> option cstr -> bool -> gai_answer).

Definition ls_sockaddr_get_remote_ip_addr (fqdn port : option cstr) (addr_len : Z) : res Z sockaddr :=
  get_first_addr (getaddrinfo fqdn port false) addr_len.

Definition ls_sockaddr_parse (src : option cstr) (addr_len : Z) : res Z sockaddr :=
  get_first_addr (getaddrinfo src None true) addr_len.
End resolver.

Section to_string.
(** inet_ntop() and the decimal text of a port. *)
Context (inet_ntop : Z -> list Z -> option cstr) (dec : Z -> cstr).

Definition ls_sockaddr_to_string (sa : option sockaddr) (destlen : Z) (addport : bool)
    : outcome cstr :=
  if decide (destlen > 0) then
    match sa with
    | None => Done []
    | Some (sockaddr_in a p) =>
        if decide (destlen < INET_ADDRSTRLEN + 8) then Done []
        else match inet_ntop AF_INET a with
             | None => Fault AssertFail
             | Some s => Done (if addport then s ++ [58] ++ dec p else s)
             end
    | Some (sockaddr_in6 a p _ _) =>
        if decide (destlen < INET6_ADDRSTRLEN + 10) then Done []
        else match inet_ntop AF_INET6 a with
             | None => Fault AssertFail
             | Some s => Done (if addport then [91] ++ s ++ [93; 58] ++ dec p else s)
             end
    | Some (sockaddr_other _) => Done []
    end
  else Fault AssertFail.
End to_string.

(** ** Theorems *)

(** Resolution takes the first IPv6 address of the answer, or, when there is none,
    the first IPv4 address; it fails with [LS_ERR_NOT_FOUND] when there is neither and
    with [LS_ERR_OVERFLOW] when the chosen address does not fit the caller's buffer. *)
Theorem get_first_addr_choice res addr_len :
  let v6 := filter (fun p => sa_family p.1 = AF_INET6) res in
  let v4 := filter (fun p => sa_family p.1 = AF_INET) res in
  get_first_addr (gai_list res) addr_len =
    match head (v6 ++ v4) with
    | None => Err LS_ERR_NOT_FOUND
    | Some (a, len) => if decide (addr_len < len) then Err LS_ERR_OVERFLOW else Ok a
    end.
Proof.
  intros v6 v4. unfold get_first_addr.
  assert (H : forall found, (forall p, found = Some p -> sa_family p.1 = AF_INET) ->
    first_addr_loop res found = match head v6 with
                                | Some p => Some p
                                | None => match found with Some p => Some p | None => head v4 end
                                end).
  { unfold v6, v4. clear. induction res as [|p res IH]; intros found Hf;
      [by destruct found|]. cbn [first_addr_loop].
    rewrite !filter_cons. destruct (decide (sa_family p.1 = AF_INET6)) as [E|E]; [done|].
    destruct found as [q|].
    - rewrite IH by done. done.
    - destruct (decide (sa_family p.1 = AF_INET)) as [E4|E4].
      + rewrite IH by (by intros ? [= <-]). done.
      + by rewrite IH by done. }
  rewrite (H None) by done. unfold v6, v4.
  by destruct (filter (fun p => sa_family p.1 = AF_INET6) res).
Qed.

Lemma s_addr_range a : addr_bytes_wf 4 a -> 0 <= s_addr a < 2 ^ 32.
Proof.
  intros [Hl Hb]. destruct a as [|a0 [|a1 [|a2 [|a3 [|]]]]]; try done.
  repeat match goal with H : Forall _ (_ :: _) |- _ => inversion H; clear H; subst end.
  cbn. lia.
Qed.

Lemma s_addr_inj a b : addr_bytes_wf 4 a -> addr_bytes_wf 4 b -> s_addr a = s_addr b -> a = b.
Proof.
  intros [Hl Hb] [Hl' Hb']. destruct a as [|a0 [|a1 [|a2 [|a3 [|]]]]]; try done.
  destruct b as [|b0 [|b1 [|b2 [|b3 [|]]]]]; try done.
  repeat match goal with H : Forall _ (_ :: _) |- _ => inversion H; clear H; subst end.
  cbn. intros E. repeat f_equal; lia.
Qed.

Lemma memcmp_zero a : forall b, length a = length b -> memcmp a b = 0 <-> a = b.
Proof.
  induction a as [|x a IH]; intros [|y b] Hl; cbn; try done.
  case_decide as E.
  - subst. rewrite IH by (by injection Hl). split; [by intros ->|by intros [= ->]].
  - split; [lia|]. by intros [= ? _].
Qed.

Lemma i32_u32_zero d : - 2 ^ 32 < d < 2 ^ 32 -> i32 (u32 d) = 0 <-> d = 0.
Proof.
  intros H. unfold uwrap, swrap. change (2 ^ (32 - 1)) with 2147483648.
  change (2 ^ 32) with 4294967296 in *. zlia.
Qed.

(** Two addresses compare equal exactly when they are both NULL, or have the same
    family and, for IPv4 and IPv6, the same address and port (the flow and scope of an
    IPv6 address are not looked at). *)
Theorem ls_sockaddr_cmp_zero a b : sockaddr_wf a -> sockaddr_wf b ->
  (ls_sockaddr_cmp (Some a) (Some b) = 0 <->
    match a, b with
    | sockaddr_in x p, sockaddr_in y q => x = y /\ p = q
    | sockaddr_in6 x p _ _, sockaddr_in6 y q _ _ => x = y /\ p = q
    | sockaddr_other f, sockaddr_other g => f = g
    | _, _ => False
    end) /\
  ls_sockaddr_cmp None None = 0 /\ ls_sockaddr_cmp None (Some b) < 0 < ls_sockaddr_cmp (Some a) None.
Proof.
  intros Ha Hb. split_and!; [|done|done|done]. unfold ls_sockaddr_cmp, ls_addr_cmp6.
  destruct a as [x p|x p f s|g], b as [y q|y q f' s'|g']; cbn in Ha, Hb; cbn [sa_family]; cbv zeta;
    unfold AF_INET, AF_INET6 in *.
  - rewrite decide_False by lia. destruct Ha as [Ha Hp], Hb as [Hb Hq].
    pose proof (s_addr_range _ Ha). pose proof (s_addr_range _ Hb).
    pose proof (i32_u32_zero (s_addr x - s_addr y) ltac:(lia)) as Hz.
    case_decide as E; split.
    + done.
    + intros [-> ->]. destruct E. apply Hz. lia.
    + intros Epq. split; [|lia]. apply s_addr_inj; [done..|].
      destruct (decide (i32 (u32 (s_addr x - s_addr y)) = 0)) as [E0|]; [apply Hz in E0; lia|done].
    + intros [-> ->]. lia.
  - rewrite decide_True by lia. split; [lia|done].
  - split; [|done]. case_decide; lia.
  - rewrite decide_True by lia. split; [lia|done].
  - rewrite decide_False by lia. destruct Ha as [[Ha _] Hp], Hb as [[Hb _] Hq].
    pose proof (memcmp_zero x y ltac:(congruence)) as Hz.
    case_decide as E; split.
    + done.
    + intros [-> ->]. destruct E. by apply Hz.
    + intros Epq. split; [|lia]. apply Hz. lia.
    + intros [-> ->]. lia.
  - split; [|done]. case_decide; lia.
  - split; [|done]. case_decide; lia.
  - split; [|done]. case_decide; lia.
  - case_decide; lia.
Qed.

(** The comparison is not an order on IPv4 addresses: the unsigned difference of two
    addresses is stored in an [int]. *)
Lemma ls_sockaddr_cmp_not_antisymmetric :
  let a := sockaddr_in [0; 0; 0; 128] 1 in
  let b := sockaddr_in [0; 0; 0; 0] 1 in
  ls_sockaddr_cmp (Some a) (Some b) < 0 /\ ls_sockaddr_cmp (Some b) (Some a) < 0.
Proof. done. Qed.

(** The length, port and copy functions agree on the two IP families: setting a
    port of 16 bits and getting it gives it back and changes nothing else, and copying
    is the identity; on any other family the length is SIZE_MAX (so that a copy runs out
    of every object) and setting the port fails its assertion. *)
Theorem ls_sockaddr_port_roundtrip sa port : in_range 16 port ->
  match sa with
  | sockaddr_other _ =>
      ls_sockaddr_get_length sa = SIZE_MAX /\ ls_sockaddr_copy sa = Fault OutOfBounds /\
      ls_sockaddr_set_port sa port = Fault AssertFail /\ ls_sockaddr_get_port sa = -1
  | _ => ls_sockaddr_copy sa = Done sa /\ exists sa', ls_sockaddr_set_port sa port = Done sa' /\
      ls_sockaddr_get_port sa' = port /\ sa_family sa' = sa_family sa /\
      ls_sockaddr_get_length sa' = ls_sockaddr_get_length sa /\
      ls_sockaddr_set_port sa' (ls_sockaddr_get_port sa) = ls_sockaddr_set_port sa (ls_sockaddr_get_port sa)
  end.
Proof.
  intros Hp. destruct sa as [a p|a p f s|g]; [| |done]; cbn; rewrite (uwrap_id 16 port) by done;
    (split; [done|]); eexists; (split; [done|]); done.
Qed.

Lemma ls_sockaddr_cmp_zero_witness :
  let a := sockaddr_in [127; 0; 0; 1] 1402 in
  let b := sockaddr_in6 (replicate 16 0) 1402 0 0 in
  (ls_sockaddr_cmp (Some a) (Some b) = 0 <-> False) /\
  ls_sockaddr_cmp None None = 0 /\ ls_sockaddr_cmp None (Some b) < 0 < ls_sockaddr_cmp (Some a) None.
Proof.
  intros a b. refine (ls_sockaddr_cmp_zero a b _ _).
  - split; [split; [done|repeat constructor; done]|done].
  - split; [split; [done|repeat constructor; done]|done].
Defined.

Lemma ls_sockaddr_port_roundtrip_witness :
  let sa := sockaddr_in [127; 0; 0; 1] 1402 in
  ls_sockaddr_copy sa = Done sa /\ exists sa', ls_sockaddr_set_port sa 53 = Done sa' /\
    ls_sockaddr_get_port sa' = 53 /\ sa_family sa' = sa_family sa /\
    ls_sockaddr_get_length sa' = ls_sockaddr_get_length sa /\
    ls_sockaddr_set_port sa' (ls_sockaddr_get_port sa) = ls_sockaddr_set_port sa (ls_sockaddr_get_port sa).
Proof. intros sa. refine (ls_sockaddr_port_roundtrip sa 53 _). split; [discriminate|reflexivity]. Defined.
