(* ===== verification/LsPktinfo.v ===== *)
(** Packet information: src/ls_pktinfo.c, the local address a datagram was received on,
    in a store of [ls_pktinfo] objects. *)

From S2P Require Import Prelude LsError LsSockaddr Store.
Open Scope Z_scope.

Definition HAS_INFO_4 : Z := 1.
Definition HAS_INFO_6 : Z := 2.

Record in_pktinfo := InPktinfo { ipi_ifindex : Z; ipi_spec_dst : list Z; ipi_addr : list Z }.
Record in6_pktinfo := In6Pktinfo { ipi6_addr : list Z; ipi6_ifindex : Z }.

(** The union, as what was last written to it. *)
Inductive pktinfo_union := Zeros | I4 (i : in_pktinfo) | I6 (i : in6_pktinfo).

Record ls_pktinfo := PktInfo { pi_info : pktinfo_union; pi_kind : Z }.

(** An ancillary message to a socket: its level and type with the data. *)
Inductive control_message :=
  | CmsgIP (i : in_pktinfo)
  | CmsgIPv6 (i : in6_pktinfo).

(** What a caller's buffer for an address holds where a [struct sockaddr_in6] has the fields
    that are not written below. *)
Record sockaddr_buffer := SockaddrBuffer { sb_flowinfo : Z; sb_scope_id : Z }.

(** A [struct sockaddr_storage] that was zeroed and then filled in with an address: the
    address of a [struct sockaddr_in] is where the other family has its flow information. *)
Definition buffer_of (a : sockaddr) : sockaddr_buffer :=
  match a with
  | sockaddr_in sin_addr _ => SockaddrBuffer (s_addr sin_addr) 0
  | sockaddr_in6 _ _ flowinfo scope_id => SockaddrBuffer flowinfo scope_id
  | sockaddr_other _ => SockaddrBuffer 0 0
  end.

Section pktinfo.
Context {S : Type} {HS : HasStore S ls_pktinfo} {HA : HasAllocator S}.

Definition ls_pktinfo_create : C S (res Z loc) :=
  ret ← new (PktInfo Zeros 0);
  match ret with
  | None => mret (Err LS_ERR_NO_MEMORY)
  | Some p => mret (Ok p)
  end.

Definition ls_pktinfo_dup (source : loc) : C S (res Z loc) :=
  dest ← ls_pktinfo_create;
  match dest with
  | Err e => mret (Err e)
  | Ok d => src ← load source; save d src;; mret (Ok d)
  end.

Definition ls_pktinfo_clear (p : loc) : C S unit := update p (fun i => PktInfo (pi_info i) 0).

Definition ls_pktinfo_destroy (p : loc) : C S unit := release (A := ls_pktinfo) p.

Definition ls_pktinfo_set4 (p : loc) (info : in_pktinfo) : C S unit :=
  update p (fun _ => PktInfo (I4 info) HAS_INFO_4).

Definition ls_pktinfo_set6 (p : loc) (info : in6_pktinfo) : C S unit :=
  update p (fun _ => PktInfo (I6 info) HAS_INFO_6).

(** [addr_len] is the size of the caller's buffer; the result has the bytes used.  The
    ports are [htons(-1)].  Only the family, the port and the address are written: the rest of
    a [struct sockaddr_in6] stays as it is in [buf].  Reading the member of the union that
    was not written is not given a meaning. *)
Definition ls_pktinfo_get_addr (p : loc) (buf : sockaddr_buffer) (addr_len : Z)
    : C S (res Z (sockaddr * Z)) :=
  i ← load p;
  if decide (pi_kind i = HAS_INFO_4) then
    if decide (addr_len < SIZEOF_SOCKADDR_IN) then mret (Err LS_ERR_OVERFLOW)
    else match pi_info i with
         | I4 x => mret (Ok (sockaddr_in (ipi_addr x) (u16 (-1)), SIZEOF_SOCKADDR_IN))
         | _ => c_fault OutOfBounds
         end
  else if decide (pi_kind i = HAS_INFO_6) then
    if decide (addr_len < SIZEOF_SOCKADDR_IN6) then mret (Err LS_ERR_OVERFLOW)
    else match pi_info i with
         | I6 x => mret (Ok (sockaddr_in6 (ipi6_addr x) (u16 (-1)) (sb_flowinfo buf) (sb_scope_id buf),
                             SIZEOF_SOCKADDR_IN6))
         | _ => c_fault OutOfBounds
         end
  else mret (Err LS_ERR_INVALID_ARG).

Definition ls_pktinfo_get_info (p : loc) : C S (option pktinfo_union) :=
  i ← load p;
  mret (if decide (pi_kind i = HAS_INFO_4) then Some (pi_info i)
        else if decide (pi_kind i = HAS_INFO_6) then Some (pi_info i) else None).

Definition ls_pktinfo_is_full (p : loc) : C S bool :=
  i ← load p; mret (bool_decide (pi_kind i <> 0)).

(** The control message to send with, if any.  For IPv6 only the address is copied:
    [ifindex] is what the caller's buffer holds where the interface index goes. *)
Definition ls_pktinfo_cmsg (p : loc) (ifindex : Z) : C S (option control_message) :=
  i ← load p;
  if decide (pi_kind i = HAS_INFO_4) then
    match pi_info i with I4 x => mret (Some (CmsgIP x)) | _ => c_fault OutOfBounds end
  else if decide (pi_kind i = HAS_INFO_6) then
    match pi_info i with
    | I6 x => mret (Some (CmsgIPv6 (In6Pktinfo (ipi6_addr x) ifindex)))
    | _ => c_fault OutOfBounds
    end
  else mret None.
End pktinfo.

(** The kind says which member of the union is there: [clear] keeps the member and drops
    the kind. *)
Definition pktinfo_wf (i : ls_pktinfo) : Prop :=
  (pi_kind i = HAS_INFO_4 -> exists x, pi_info i = I4 x) /\
  (pi_kind i = HAS_INFO_6 -> exists x, pi_info i = I6 x).

(** The local address that a packet information stands for, in the buffer [buf]. *)
Definition pktinfo_addr (buf : sockaddr_buffer) (i : ls_pktinfo) : option sockaddr :=
  if decide (pi_kind i = HAS_INFO_4) then
    match pi_info i with I4 x => Some (sockaddr_in (ipi_addr x) 65535) | _ => None end
  else if decide (pi_kind i = HAS_INFO_6) then
    match pi_info i with
    | I6 x => Some (sockaddr_in6 (ipi6_addr x) 65535 (sb_flowinfo buf) (sb_scope_id buf))
    | _ => None
    end
  else None.

Section pktinfo_proofs.
Context {S : Type} `{StoreLaws S ls_pktinfo}.
Abbreviation infos s := (st_objs (the_store (A := ls_pktinfo) s)).

(** In a buffer of zeros. *)
Definition cmsg_of (i : ls_pktinfo) : option control_message :=
  match pi_info i with
  | I4 x => if decide (pi_kind i = HAS_INFO_4) then Some (CmsgIP x) else None
  | I6 x => if decide (pi_kind i = HAS_INFO_6)
            then Some (CmsgIPv6 (In6Pktinfo (ipi6_addr x) 0)) else None
  | Zeros => None
  end.

Lemma ls_pktinfo_cmsg_runs p i (s : S) (Q : option control_message -> S -> Prop) :
  infos s !! p = Some i -> pktinfo_wf i -> Q (cmsg_of i) s -> runs (ls_pktinfo_cmsg p 0) s Q.
Proof.
  intros Hp [H4 H6] HQ. unfold ls_pktinfo_cmsg, cmsg_of in *. run_step.
  eapply runs_load; [done|]. destruct (decide (pi_kind i = HAS_INFO_4)) as [E|E].
  - destruct (H4 E) as [x Ex]. rewrite Ex in *. by run.
  - destruct (decide (pi_kind i = HAS_INFO_6)) as [E6|E6].
    + destruct (H6 E6) as [x Ex]. rewrite Ex in *. by run.
    + destruct (pi_info i); by run.
Qed.

Lemma ls_pktinfo_dup_runs p i (s : S) (Q : res Z loc -> S -> Prop) :
  store_wf (the_store (A := ls_pktinfo) s) -> infos s !! p = Some i ->
  (hd false (oom_script s) = true -> Q (Err LS_ERR_NO_MEMORY) (pop_oom s)) ->
  (forall s' d, infos s !! d = None -> d = st_next (the_store (A := ls_pktinfo) s) ->
     s' = with_store (st_set d i (st_add (PktInfo Zeros 0) (the_store (A := ls_pktinfo) s)))
            (with_store (st_add (PktInfo Zeros 0) (the_store (A := ls_pktinfo) s)) (pop_oom s)) ->
     Q (Ok d) s') ->
  runs (ls_pktinfo_dup p) s Q.
Proof.
  intros Hwf Hp H0 H1. pose proof (store_wf_fresh _ Hwf) as Hf.
  unfold ls_pktinfo_dup, ls_pktinfo_create. run_step. run_step.
  apply runs_new_exact; intros Hno; unfold pop_oom; rewrite ?the_with_oom; run; [by apply H0|].
  eapply (runs_load p i); [rewrite the_with_store; cbn; rewrite lookup_insert_ne; [done|congruence]|].
  run_step. eapply runs_save; [rewrite the_with_store; cbn; by rewrite lookup_insert_eq|].
  rewrite the_with_store. run_step. by apply H1.
Qed.

Lemma bind_load {B} p i (s : S) (f : ls_pktinfo -> C S B) :
  infos s !! p = Some i -> (i ← load p; f i) s = f i s.
Proof. intros Hp. apply bind_done. by apply load_done. Qed.

(** C38: the reading functions agree on what a packet information holds.  When its kind
    says which address is there (an invariant that [set4], [set6] and [clear]
    establish), [get_addr] gives that address with port 65535, and for IPv6 with the flow
    information and the scope that were in the caller's buffer, which it does not write; or
    [LS_ERR_OVERFLOW] for a buffer shorter than the address (never an overrun), or
    [LS_ERR_INVALID_ARG] when there is none; [is_full] tells whether there is one; [cmsg]
    carries the same address, for IPv6 with the interface index of the caller's buffer;
    after [set4 x] and [set6 y] the address is that of [x] and [y], after [clear] there is
    none. *)
Theorem ls_pktinfo_holds p i x y buf ifindex len (s : S) : infos s !! p = Some i -> pktinfo_wf i ->
  pi_kind i = 0 \/ pi_kind i = HAS_INFO_4 \/ pi_kind i = HAS_INFO_6 ->
  ls_pktinfo_get_addr p buf len s =
    Done (match pktinfo_addr buf i with
          | None => Err LS_ERR_INVALID_ARG
          | Some a => if decide (len < ls_sockaddr_get_length a) then Err LS_ERR_OVERFLOW
                      else Ok (a, ls_sockaddr_get_length a)
          end, s) /\
  ls_pktinfo_is_full p s = Done (bool_decide (is_Some (pktinfo_addr buf i)), s) /\
  (exists c, ls_pktinfo_cmsg p ifindex s = Done (c, s) /\
     match c, pktinfo_addr buf i with
     | None, None => True
     | Some (CmsgIP j), Some a => pi_info i = I4 j /\ a = sockaddr_in (ipi_addr j) 65535
     | Some (CmsgIPv6 j), Some a => ipi6_ifindex j = ifindex /\
         a = sockaddr_in6 (ipi6_addr j) 65535 (sb_flowinfo buf) (sb_scope_id buf)
     | _, _ => False
     end) /\
  runs (ls_pktinfo_set4 p x) s (fun _ s' => exists i', infos s' !! p = Some i' /\ pktinfo_wf i' /\
    pktinfo_addr buf i' = Some (sockaddr_in (ipi_addr x) 65535)) /\
  runs (ls_pktinfo_set6 p y) s (fun _ s' => exists i', infos s' !! p = Some i' /\ pktinfo_wf i' /\
    pktinfo_addr buf i' = Some (sockaddr_in6 (ipi6_addr y) 65535 (sb_flowinfo buf) (sb_scope_id buf))) /\
  runs (ls_pktinfo_clear p) s (fun _ s' => exists i', infos s' !! p = Some i' /\ pktinfo_wf i' /\
    pktinfo_addr buf i' = None).
Proof.
  intros Hp Hwf Hk.
  assert (Hcases : (pi_kind i = 0 /\ pktinfo_addr buf i = None) \/
    (pi_kind i = HAS_INFO_4 /\ exists z, pi_info i = I4 z /\
       pktinfo_addr buf i = Some (sockaddr_in (ipi_addr z) 65535)) \/
    (pi_kind i = HAS_INFO_6 /\ exists z, pi_info i = I6 z /\
       pktinfo_addr buf i = Some (sockaddr_in6 (ipi6_addr z) 65535 (sb_flowinfo buf) (sb_scope_id buf)))).
  { destruct Hwf as [H4 H6]. unfold pktinfo_addr.
    destruct Hk as [E|[E|E]]; [left; by rewrite E| |].
    - right; left. destruct (H4 E) as [z Ez]. rewrite E, Ez. split; [done|]. by exists z.
    - right; right. destruct (H6 E) as [z Ez]. rewrite E, Ez. split; [done|]. by exists z. }
  unfold ls_pktinfo_get_addr, ls_pktinfo_is_full, ls_pktinfo_cmsg.
  rewrite !(bind_load p i s) by done.
  assert (Hset : forall (z : ls_pktinfo) (f : ls_pktinfo -> ls_pktinfo) Q, f i = z ->
    Q z -> runs (update p f) s (fun _ s' => exists i', infos s' !! p = Some i' /\ Q i')).
  { intros z f Q Ef HQ. eapply runs_update; [done|]. exists z. split; [|done].
    rewrite the_with_store. cbn. rewrite lookup_insert_eq. by f_equal. }
  split_and!.
  - destruct Hcases as [(E & ->)|[(E & z & Ez & ->)|(E & z & Ez & ->)]]; rewrite E, ?Ez;
      cbn; repeat case_decide; done.
  - destruct Hcases as [(E & ->)|[(E & z & Ez & ->)|(E & z & Ez & ->)]]; by rewrite E.
  - destruct Hcases as [(E & ->)|[(E & z & Ez & ->)|(E & z & Ez & ->)]]; rewrite E, ?Ez;
      cbn; eexists; done.
  - eapply Hset; [done|]. split; [|done]. split; [eauto|done].
  - eapply Hset; [done|]. split; [|done]. split; [done|eauto].
  - eapply Hset; [done|]. split; [|done]. by split.
Qed.
End pktinfo_proofs.

(** ** A heap with nothing but packet information, for the example *)
Record pktinfo_heap := PktinfoHeap { ph_infos : store ls_pktinfo; ph_oom : list bool }.

#[export] Instance pktinfo_heap_store : HasStore pktinfo_heap ls_pktinfo := {
  the_store := ph_infos; with_store st s := PktinfoHeap st (ph_oom s) }.
#[export] Instance pktinfo_heap_alloc : HasAllocator pktinfo_heap := {
  oom_script := ph_oom; with_oom o s := PktinfoHeap (ph_infos s) o }.
#[export] Instance pktinfo_heap_laws : StoreLaws pktinfo_heap ls_pktinfo.
Proof. by split. Qed.

(** An IPv6 address, into a buffer with an IPv4 address (127.0.0.1, or 0x0100007f in the order
    of the machine), as [tube_print] may pass it. *)
Lemma ls_pktinfo_holds_witness :
  let i := PktInfo (I6 (In6Pktinfo (replicate 15 0 ++ [1]) 2)) HAS_INFO_6 in
  let s := PktinfoHeap (Store {[1%positive := i]} 2) [] in
  ls_pktinfo_get_addr 1%positive (buffer_of (sockaddr_in [127; 0; 0; 1] 80)) 28 s =
    Done (Ok (sockaddr_in6 (replicate 15 0 ++ [1]) 65535 16777343 0, 28), s) /\
  ls_pktinfo_get_addr 1%positive (buffer_of (sockaddr_in [127; 0; 0; 1] 80)) 27 s =
    Done (Err LS_ERR_OVERFLOW, s).
Proof.
  intros i s.
  assert (Hwf : pktinfo_wf i) by (split; [discriminate|intros _; by eexists]).
  split; refine (proj1 (ls_pktinfo_holds 1%positive i (InPktinfo 0 [] []) (In6Pktinfo [] 0) _ 0 _ s _ Hwf _));
    solve [reflexivity|right; right; reflexivity].
Defined.
