(* ===== verification/Tube.v ===== *)
(** Tubes: src/tube.c, include/tube.h and tube_manager_sendmsg() of src/tube_manager.c.

    A tube is an object in a store; what it sends is appended to the list of messages
    given to sendmsg().  The heap blocks of a call (the I/O vector, the pool of a CBOR
    map) are in the state of LsMem.v, so that a leak would show there. *)

From S2P Require Import Prelude LsError LsStr LsMem PoolUse Store LsSockaddr LsPktinfo Spud.
Open Scope Z_scope.

Inductive tube_states_t : Set := TS_START | TS_UNKNOWN | TS_OPENING | TS_RUNNING | TS_RESUMING.

#[export] Instance tube_states_eq_dec : EqDecision tube_states_t.
Proof. solve_decision. Defined.

Record tube := Tube {
  t_state : tube_states_t;
  t_peer : sockaddr;
  t_id : spud_tube_id;
  t_data : ptr;
  t_pktinfo : ptr;
  t_sock : Z }.

(** What sendmsg() was called with. *)
Record datagram := Datagram {
  dg_sock : Z;
  dg_dest : sockaddr;
  dg_namelen : Z;
  dg_control : option control_message;
  dg_payload : bytes }.

(** The answer of one sendmsg(): its result and errno. *)
Record send_answer := SendAnswer { sa_ret : Z; sa_errno : Z }.

Record tworld := TWorld {
  tw_tubes : store tube;
  tw_infos : store ls_pktinfo;
  tw_pools : pstate;
  tw_sent : list datagram;
  tw_answers : list send_answer }.

#[export] Instance tworld_tubes : HasStore tworld tube := {
  the_store := tw_tubes;
  with_store st s := TWorld st (tw_infos s) (tw_pools s) (tw_sent s) (tw_answers s) }.
#[export] Instance tworld_infos : HasStore tworld ls_pktinfo := {
  the_store := tw_infos;
  with_store st s := TWorld (tw_tubes s) st (tw_pools s) (tw_sent s) (tw_answers s) }.

Definition set_pools_of (p : pstate) (s : tworld) : tworld :=
  TWorld (tw_tubes s) (tw_infos s) p (tw_sent s) (tw_answers s).

Definition mem_with_oom (o : list bool) (m : mem) : mem := Mem (m_live m) (m_next m) (m_bytes m) o.

(** One allocator, and one script of its failures, for everything. *)
#[export] Instance tworld_alloc : HasAllocator tworld := {
  oom_script s := m_oom (ps_mem (tw_pools s));
  with_oom o s := set_pools_of (set_mem (mem_with_oom o (ps_mem (tw_pools s))) (tw_pools s)) s }.

#[export] Instance tworld_tube_laws : StoreLaws tworld tube.
Proof. by split. Qed.
#[export] Instance tworld_info_laws : StoreLaws tworld ls_pktinfo.
Proof. by split. Qed.

(** There is no memory for the next block. *)
Definition no_block (s : tworld) : bool := hd false (oom_script s).

Definition on_pools {A} : C pstate A -> C tworld A := zoom tw_pools set_pools_of.

Definition SIZEOF_IOVEC : Z := 16.
Definition MAXBUFLEN : Z := 1500.

(** A [void*] allocator callback of the CBOR library, its context applied. *)
Definition calloc_fn : Type := Z -> Z -> C pstate (option addr).

(** The CBOR library (cn-cbor): values, constructors that allocate through the context's
    callback and return NULL when they cannot, and the encoder, which fails when the
    buffer of the given size is too short. *)
Class CborLib (cbor : Type) := {
  cn_cbor_map_create : calloc_fn -> C pstate (option cbor);
  cn_cbor_data_create : bytes -> calloc_fn -> C pstate (option cbor);
  cn_cbor_string_create : cstr -> calloc_fn -> C pstate (option cbor);
  cn_cbor_mapput_int : cbor -> Z -> cbor -> calloc_fn -> C pstate (option cbor);
  cn_cbor_mapput_string : cbor -> cstr -> cbor -> calloc_fn -> C pstate (option cbor);
  cn_cbor_encoder_write : Z -> cbor -> option bytes;
  cn_cbor_decode : bytes -> cbor + Z }.

(** ** Creation and destruction *)

Definition tube_zero : tube :=
  Tube TS_START (sockaddr_other 0) (TubeId (replicate 8 0)) None None 0.

Definition tube_create : C tworld (res Z loc) :=
  ret ← new tube_zero;
  match ret with
  | None => mret (Err LS_ERR_NO_MEMORY)
  | Some t =>
      update t (fun u => Tube (t_state u) (t_peer u) (t_id u) (t_data u) (t_pktinfo u) (-1));;
      update t (fun u => Tube TS_UNKNOWN (t_peer u) (t_id u) (t_data u) (t_pktinfo u) (t_sock u));;
      mret (Ok t)
  end.

Definition tube_destroy (t : loc) : C tworld unit :=
  u ← load (A := tube) t;
  match t_pktinfo u with Some p => ls_pktinfo_destroy p | None => mret tt end;;
  release (A := tube) t.

Definition put_pktinfo (p : ptr) (u : tube) : tube :=
  Tube (t_state u) (t_peer u) (t_id u) (t_data u) p (t_sock u).

Definition tube_set_local (t : loc) (info : ptr) : C tworld (res Z unit) :=
  match info with
  | None => update t (put_pktinfo None);; mret (Ok tt)
  | Some i =>
      _ ← load (A := tube) t;
      r ← ls_pktinfo_dup i;
      match r with
      | Err e => update t (put_pktinfo None);; mret (Err e)
      | Ok d => update t (put_pktinfo (Some d));; mret (Ok tt)
      end
  end.

(** ** Sending *)

(** tube_manager_sendmsg(): [iov] are the segments of the message. *)
Definition tube_manager_sendmsg (sock : Z) (source : ptr) (dest : sockaddr) (iov : list bytes)
    : C tworld (res Z unit) :=
  c_assert (bool_decide (iov <> []));;
  control ← (match source with
             | Some p => ls_pktinfo_cmsg p 0
             | None => mret None
             end);
  answer ← c_gets (fun s => hd (SendAnswer 1 0) (tw_answers s));
  c_modify (fun s => TWorld (tw_tubes s) (tw_infos s) (tw_pools s)
    (tw_sent s ++ [Datagram sock dest (ls_sockaddr_get_length dest) control (concat iov)])
    (tail (tw_answers s)));;
  mret (if decide (sa_ret answer <= 0) then Err (- sa_errno answer) else Ok tt).

(** The assignment [iov[count] = segment; count++] in a vector of [room] entries. *)
Definition iov_push (room : Z) (iov : list bytes) (segment : bytes) : C tworld (list bytes) :=
  if decide (Z.of_nat (length iov) < room) then mret (iov ++ [segment]) else c_fault OutOfBounds.

(** The loop over the caller's segments: an empty one is skipped. *)
Fixpoint fill_iov (room : Z) (iov data : list bytes) : C tworld (list bytes) :=
  match data with
  | [] => mret iov
  | d :: data =>
      iov ← (if decide (Z.of_nat (length d) > 0) then iov_push room iov d else mret iov);
      fill_iov room iov data
  end.

(** [data] are the segments: [data[i]] has [len[i]] bytes, for [i < num]. *)
Definition tube_send (t : loc) (cmd : spud_command) (adec pdec : bool) (data : list bytes)
    : C tworld (res Z unit) :=
  let num := Z.of_nat (length data) in
  iov ← on_pools (on_mem (ls_data_calloc (num + 1) SIZEOF_IOVEC));
  match iov with
  | None => mret (Err LS_ERR_NO_MEMORY)
  | Some iov =>
      u ← load (A := tube) t;
      match spud_init RandShort (Some (t_id u)) with
      | Err e => mret (Err e)
      | Ok smh =>
          let smh := SpudHeader (magic smh) (hdr_tube_id smh) (header_flags cmd adec pdec) in
          segments ← iov_push (num + 1) [] (header_bytes smh);
          segments ← fill_iov (num + 1) segments data;
          ret ← tube_manager_sendmsg (t_sock u) (t_pktinfo u) (t_peer u) segments;
          on_pools (on_mem (ls_data_free (Some iov)));;
          mret ret
      end
  end.

Definition put_state (st : tube_states_t) (u : tube) : tube :=
  Tube st (t_peer u) (t_id u) (t_data u) (t_pktinfo u) (t_sock u).

Definition tube_close (t : loc) : C tworld (res Z unit) :=
  update t (put_state TS_UNKNOWN);;
  r ← tube_send t SPUD_CLOSE false false [];
  match r with
  | Err e => mret (Err e)
  | Ok _ => mret (Ok tt)
  end.

(** *** Bodies: CBOR maps in a pool *)
Section bodies.
Context {cbor : Type} `{!CborLib cbor}.

Definition pool_calloc_cb (pool : loc) : calloc_fn := fun count size =>
  r ← ls_pool_calloc pool count size;
  match r with
  | Ok p => mret p
  | Err _ => mret None
  end.

(** The context is the pool. *)
Definition map_create : C pstate (res Z (loc * cbor)) :=
  r ← ls_pool_create 128;
  match r with
  | Err e => mret (Err e)
  | Ok pool =>
      m ← cn_cbor_map_create (pool_calloc_cb pool);
      match m with
      | None => ls_pool_destroy pool;; mret (Err LS_ERR_NO_MEMORY)
      | Some m => mret (Ok (pool, m))
      end
  end.

Definition mapput_string_data (map : cbor) (key : cstr) (data : bytes) (ctx : calloc_fn)
    : C pstate (res Z cbor) :=
  cdata ← cn_cbor_data_create data ctx;
  match cdata with
  | None => mret (Err LS_ERR_NO_MEMORY)
  | Some cdata =>
      r ← cn_cbor_mapput_string map key cdata ctx;
      mret (match r with None => Err LS_ERR_NO_MEMORY | Some m => Ok m end)
  end.

Definition mapput_string_string (map : cbor) (key data : cstr) (ctx : calloc_fn)
    : C pstate (res Z cbor) :=
  cdata ← cn_cbor_string_create data ctx;
  match cdata with
  | None => mret (Err LS_ERR_NO_MEMORY)
  | Some cdata =>
      r ← cn_cbor_mapput_string map key cdata ctx;
      mret (match r with None => Err LS_ERR_NO_MEMORY | Some m => Ok m end)
  end.

(** "ipaddr", "token", "url" *)
Definition SPUD_IPADDR : cstr := [105; 112; 97; 100; 100; 114].
Definition SPUD_TOKEN : cstr := [116; 111; 107; 101; 110].
Definition SPUD_URL : cstr := [117; 114; 108].

(** The caller gets the pool as well as the map: it is the context's. *)
Definition path_mandatory_keys_create (ipadress token : bytes) (url : cstr)
    : C pstate (res Z (loc * cbor)) :=
  r ← map_create;
  match r with
  | Err e => mret (Err e)
  | Ok (pool, map) =>
      let ctx := pool_calloc_cb pool in
      r ← mapput_string_data map SPUD_IPADDR ipadress ctx;
      match r with
      | Err e => ls_pool_destroy pool;; mret (Err e)
      | Ok map =>
          r ← mapput_string_data map SPUD_TOKEN token ctx;
          match r with
          | Err e => ls_pool_destroy pool;; mret (Err e)
          | Ok map =>
              r ← mapput_string_string map SPUD_URL url ctx;
              match r with
              | Err e => ls_pool_destroy pool;; mret (Err e)
              | Ok map => mret (Ok (pool, map))
              end
          end
      end
  end.

Definition tube_send_cbor (t : loc) (cmd : spud_command) (adec pdec : bool) (value : cbor)
    : C tworld (res Z unit) :=
  match cn_cbor_encoder_write MAXBUFLEN value with
  | None => mret (Err LS_ERR_OVERFLOW)
  | Some d => tube_send t cmd adec pdec [d]
  end.

Definition tube_send_pdec (t : loc) (value : cbor) (reflect : bool) : C tworld (res Z unit) :=
  tube_send_cbor t SPUD_DATA reflect true value.

Definition tube_data (t : loc) (data : bytes) : C tworld (res Z unit) :=
  if decide (Z.of_nat (length data) = 0) then tube_send t SPUD_DATA false false []
  else
    r ← on_pools map_create;
    match r with
    | Err e => mret (Err e)
    | Ok (pool, map) =>
        let ctx := pool_calloc_cb pool in
        ret ← (cdata ← on_pools (cn_cbor_data_create data ctx);
               match cdata with
               | None => mret (Err LS_ERR_NO_MEMORY)
               | Some cdata =>
                   r ← on_pools (cn_cbor_mapput_int map 0 cdata ctx);
                   match r with
                   | None => mret (Err LS_ERR_NO_MEMORY)
                   | Some map => tube_send_cbor t SPUD_DATA false false map
                   end
               end);
        on_pools (ls_pool_destroy pool);;
        mret ret
    end.
End bodies.

(** ** Fields *)

Definition tube_set_data (t : loc) (data : ptr) : C tworld unit :=
  update t (fun u => Tube (t_state u) (t_peer u) (t_id u) data (t_pktinfo u) (t_sock u)).
Definition tube_get_data (t : loc) : C tworld ptr := u ← load (A := tube) t; mret (t_data u).

Definition tube_id_to_string (t : loc) (len : Z) : C tworld (option bytes) :=
  u ← load (A := tube) t; mret (spud_id_to_string len (t_id u)).

Definition tube_get_state (t : loc) : C tworld tube_states_t :=
  u ← load (A := tube) t; mret (t_state u).
Definition tube_set_state (t : loc) (st : tube_states_t) : C tworld unit := update t (put_state st).

(** The ID with its address, which is the tube's: the pointer is into the tube. *)
Definition tube_get_id (t : loc) : C tworld id_ptr :=
  u ← load (A := tube) t; mret (IdPtr (Z.pos t) (t_id u)).

Definition tube_set_info (t : loc) (socket : Z) (peer : option sockaddr) (id : option spud_tube_id)
    : C tworld unit :=
  u ← load (A := tube) t;
  let u := if decide (socket >= 0)
           then Tube (t_state u) (t_peer u) (t_id u) (t_data u) (t_pktinfo u) socket else u in
  peer ← (match peer with
          | None => mret (t_peer u)
          | Some p => match ls_sockaddr_copy p with
                      | Done p => mret p
                      | Fault f => c_fault f
                      end
          end);
  save t (Tube (t_state u) peer
            (match id with Some i => spud_copy_id i | None => t_id u end)
            (t_data u) (t_pktinfo u) (t_sock u)).

Section printing.
(** getsockname(), inet_ntop() and the decimal text of a port. *)
Context (getsockname : Z -> sockaddr + Z) (inet_ntop : Z -> list Z -> option cstr) (dec : Z -> cstr).

Definition NI_MAXBUF : Z := 1025 + 32 + 2.
Definition SIZEOF_SOCKADDR_STORAGE : Z := 128.

(** The line that is logged, as its three texts; [None] when there is no socket yet. *)
Definition tube_print (t : loc) : C tworld (res Z (option (option bytes * cstr * cstr))) :=
  u ← load (A := tube) t;
  if decide (t_sock u = -1) then mret (Ok None)
  else
    match getsockname (t_sock u) with
    | inr e => mret (Err (- e))
    | inl addr =>
        addr ← (match t_pktinfo u with
                | None => mret addr
                | Some p =>
                    let port := ls_sockaddr_get_port addr in
                    r ← ls_pktinfo_get_addr p (buffer_of addr) SIZEOF_SOCKADDR_STORAGE;
                    match r with
                    | Ok (a, _) => match ls_sockaddr_set_port a port with
                                   | Done a => mret a
                                   | Fault f => c_fault f
                                   end
                    | Err _ => mret addr
                    end
                end);
        match ls_sockaddr_to_string inet_ntop dec (Some addr) NI_MAXBUF true,
              ls_sockaddr_to_string inet_ntop dec (Some (t_peer u)) NI_MAXBUF true with
        | Done local, Done remote =>
            mret (Ok (Some (spud_id_to_string (SPUD_ID_STRING_SIZE + 1) (t_id u), local, remote)))
        | Fault f, _ => c_fault f
        | _, Fault f => c_fault f
        end
    end.
End printing.

(** ** Messages sent *)

(** The ancillary data a tube sends with: its local address, if it has one. *)
Definition control_for (s : tworld) (u : tube) : option control_message :=
  p ← t_pktinfo u; i ← st_objs (tw_infos s) !! p; cmsg_of i.

(** The tube's packet information, if it has one, is there. *)
Definition tube_ok (s : tworld) (u : tube) : Prop :=
  forall p, t_pktinfo u = Some p -> exists i, st_objs (tw_infos s) !! p = Some i /\ pktinfo_wf i.

Definition tube_header (u : tube) (cmd : spud_command) (adec pdec : bool) : spud_header :=
  SpudHeader SpudMagicCookie (t_id u) (header_flags cmd adec pdec).

Definition packet (s : tworld) (u : tube) (cmd : spud_command) (adec pdec : bool) (body : bytes)
    : datagram :=
  Datagram (t_sock u) (t_peer u) (ls_sockaddr_get_length (t_peer u)) (control_for s u)
    (header_bytes (tube_header u cmd adec pdec) ++ body).

(** What sendmsg() is going to answer. *)
Definition next_answer (s : tworld) : res Z unit :=
  let a := hd (SendAnswer 1 0) (tw_answers s) in
  if decide (sa_ret a <= 0) then Err (- sa_errno a) else Ok tt.

Definition add_sent (d : datagram) (p : pstate) (s : tworld) : tworld :=
  TWorld (tw_tubes s) (tw_infos s) p (tw_sent s ++ [d]) (tail (tw_answers s)).

Lemma fill_iov_runs room data : forall iov s (Q : list bytes -> tworld -> Prop),
  Z.of_nat (length iov + length data) <= room ->
  (forall iov', concat iov' = concat iov ++ concat data -> (iov <> [] -> iov' <> []) -> Q iov' s) ->
  runs (fill_iov room iov data) s Q.
Proof.
  induction data as [|d data IH]; intros iov s Q Hr HQ; cbn [fill_iov length] in *.
  { run_step. apply HQ; [|done]. by rewrite app_nil_r. }
  run_step. case_decide as Hd.
  - unfold iov_push. rewrite decide_True by lia. run_step. apply IH.
    + rewrite length_app. cbn. lia.
    + intros iov' E Hne. apply HQ; [|intros _; apply Hne; by destruct iov].
      rewrite E, concat_app. cbn. by rewrite app_nil_r, <- app_assoc.
  - run_step. apply IH; [lia|]. intros iov' E Hne. apply HQ; [|done].
    destruct d; [done|cbn in Hd; lia].
Qed.

Lemma sendmsg_runs u iov s (Q : res Z unit -> tworld -> Prop) : iov <> [] -> tube_ok s u ->
  Q (next_answer s) (add_sent (Datagram (t_sock u) (t_peer u) (ls_sockaddr_get_length (t_peer u))
      (control_for s u) (concat iov)) (tw_pools s) s) ->
  runs (tube_manager_sendmsg (t_sock u) (t_pktinfo u) (t_peer u) iov) s Q.
Proof.
  intros Hi Hu HQ. unfold tube_manager_sendmsg. run_step. apply runs_assert.
  { by apply bool_decide_eq_true_2. }
  run_step. unfold control_for in HQ. destruct (t_pktinfo u) as [p|] eqn:Ep.
  - destruct (Hu p Ep) as (i & Hp & Hw). eapply ls_pktinfo_cmsg_runs; [done|done|].
    run. cbn in HQ. rewrite Hp in HQ. done.
  - by run.
Qed.

Lemma tube_send_exact t u cmd adec pdec data s (Q : res Z unit -> tworld -> Prop) :
  mem_wf (ps_mem (tw_pools s)) -> st_objs (tw_tubes s) !! t = Some u -> tube_ok s u ->
  (forall p, no_block s = true -> same_heap (tw_pools s) p -> Q (Err LS_ERR_NO_MEMORY) (set_pools_of p s)) ->
  (forall p, no_block s = false -> same_heap (tw_pools s) p ->
     Q (next_answer s) (add_sent (packet s u cmd adec pdec (concat data)) p s)) ->
  runs (tube_send t cmd adec pdec data) s Q.
Proof.
  intros Hwf Ht Hu H0 H1. unfold tube_send. run_step. apply runs_zoom.
  apply runs_data_calloc_exact; [done| |].
  { intros p Hno Hp. run_step. by apply H0. }
  intros l p Hno Hf Hw El Ep Ec Eg. run_step.
  apply (runs_load t u); [done|]. cbn [spud_init spud_set_id]. run_step.
  unfold iov_push at 1. case_decide; [|cbn [length] in *; lia]. run_step. run_step.
  apply fill_iov_runs; [cbn [length app]; lia|]. intros iov Ei Hne. run_step.
  apply sendmsg_runs; [by apply Hne|done|]. run_step. apply runs_zoom.
  eapply (runs_free_block l (tw_pools s)); [done..|]. intros p' Hp'. run_step.
  cbn in Ei. rewrite app_nil_r in Ei.
  specialize (H1 p' Hno Hp'). unfold packet in H1. unfold tube_header in H1. by rewrite Ei.
Qed.

Lemma tube_send_runs t u cmd adec pdec data s (Q : res Z unit -> tworld -> Prop) :
  mem_wf (ps_mem (tw_pools s)) -> st_objs (tw_tubes s) !! t = Some u -> tube_ok s u ->
  (forall p, same_heap (tw_pools s) p -> Q (Err LS_ERR_NO_MEMORY) (set_pools_of p s)) ->
  (forall p, same_heap (tw_pools s) p ->
     Q (next_answer s) (add_sent (packet s u cmd adec pdec (concat data)) p s)) ->
  runs (tube_send t cmd adec pdec data) s Q.
Proof. intros Hwf Ht Hu H0 H1. apply (tube_send_exact t u); auto. Qed.

(** ** The CBOR library's contract *)

(** A constructor that allocates only by calling [calloc]: it keeps whatever each such
    call keeps, and returns NULL or its value. *)
Definition builds {cbor} (op : calloc_fn -> C pstate (option cbor)) (v : cbor) : Prop :=
  forall (calloc : calloc_fn) (I : pstate -> Prop),
    (forall n k s, I s -> runs (calloc n k) s (fun _ s' => I s')) ->
    forall s, I s -> runs (op calloc) s (fun r s' => I s' /\ (r = None \/ r = Some v)).

Class CborLaws (cbor : Type) {L : CborLib cbor} := {
  cbor_empty : cbor;
  cbor_data : bytes -> cbor;
  cbor_text : cstr -> cbor;
  cbor_put_int : cbor -> Z -> cbor -> cbor;
  cbor_put_string : cbor -> cstr -> cbor -> cbor;
  map_create_builds : builds cn_cbor_map_create cbor_empty;
  data_create_builds d : builds (cn_cbor_data_create d) (cbor_data d);
  string_create_builds c : builds (cn_cbor_string_create c) (cbor_text c);
  mapput_int_builds m k v : builds (cn_cbor_mapput_int m k v) (cbor_put_int m k v);
  mapput_string_builds m k v : builds (cn_cbor_mapput_string m k v) (cbor_put_string m k v);
  (** What was written decodes to what it was written from. *)
  encoder_decode n v b : cn_cbor_encoder_write n v = Some b ->
    b <> [] /\ Z.of_nat (length b) <= n /\ cn_cbor_decode b = inl v }.

Lemma pool_calloc_cb_keeps s p n k s' : pool_keeps s p s' ->
  runs (pool_calloc_cb p n k) s' (fun _ s'' => pool_keeps s p s'').
Proof.
  intros Hk. unfold pool_calloc_cb. run_step. eapply runs_conseq; [by apply pool_calloc_keeps|].
  intros r s'' [Hk' _]. by destruct r; run_step.
Qed.

Section body_proofs.
Context {cbor : Type} `{HL : CborLaws cbor}.
Implicit Types (ps : pstate).

(** A constructor of the library run with the callback of a pool. *)
Lemma builds_runs op v s p s' (Q : option cbor -> pstate -> Prop) : builds op v -> pool_keeps s p s' ->
  (forall s'', pool_keeps s p s'' -> Q None s'') -> (forall s'', pool_keeps s p s'' -> Q (Some v) s'') ->
  runs (op (pool_calloc_cb p)) s' Q.
Proof.
  intros Hb Hk H0 H1. eapply runs_conseq.
  - apply (Hb (pool_calloc_cb p) (pool_keeps s p)); [|done]. intros. by apply pool_calloc_cb_keeps.
  - intros r s'' (Hk' & [-> | ->]); auto.
Qed.

Lemma map_create_runs ps (Q : res Z (loc * cbor) -> pstate -> Prop) : mem_wf (ps_mem ps) ->
  (forall ps', same_heap ps ps' -> Q (Err LS_ERR_NO_MEMORY) ps') ->
  (forall p ps', pool_keeps ps p ps' -> Q (Ok (p, cbor_empty)) ps') ->
  runs map_create ps Q.
Proof.
  intros Hwf H0 H1. unfold map_create. run_step.
  apply pool_create_keeps; [done|done|intros; run_step; by apply H0|]. intros p s' Hk. run_step.
  eapply builds_runs; [apply map_create_builds|done| |]; intros s'' Hk'; run_step; [|by apply H1].
  eapply pool_keeps_destroy; [done|]. intros s3 Hs. run_step. by apply H0.
Qed.

Lemma mapput_string_data_runs ps p ps' m k d (Q : res Z cbor -> pstate -> Prop) : pool_keeps ps p ps' ->
  (forall ps', pool_keeps ps p ps' -> Q (Err LS_ERR_NO_MEMORY) ps') ->
  (forall ps', pool_keeps ps p ps' -> Q (Ok (cbor_put_string m k (cbor_data d))) ps') ->
  runs (mapput_string_data m k d (pool_calloc_cb p)) ps' Q.
Proof.
  intros Hk H0 H1. unfold mapput_string_data. run_step.
  eapply builds_runs; [apply data_create_builds|done| |]; intros s1 Hk1; run_step; [by apply H0|].
  eapply builds_runs; [apply mapput_string_builds|done| |]; intros s2 Hk2; run_step; auto.
Qed.

Lemma mapput_string_string_runs ps p ps' m k d (Q : res Z cbor -> pstate -> Prop) : pool_keeps ps p ps' ->
  (forall ps', pool_keeps ps p ps' -> Q (Err LS_ERR_NO_MEMORY) ps') ->
  (forall ps', pool_keeps ps p ps' -> Q (Ok (cbor_put_string m k (cbor_text d))) ps') ->
  runs (mapput_string_string m k d (pool_calloc_cb p)) ps' Q.
Proof.
  intros Hk H0 H1. unfold mapput_string_string. run_step.
  eapply builds_runs; [apply string_create_builds|done| |]; intros s1 Hk1; run_step; [by apply H0|].
  eapply builds_runs; [apply mapput_string_builds|done| |]; intros s2 Hk2; run_step; auto.
Qed.

(** The mandatory map of a path element. *)
Definition path_map (ipadress token : bytes) (url : cstr) : cbor :=
  cbor_put_string (cbor_put_string (cbor_put_string cbor_empty
    SPUD_IPADDR (cbor_data ipadress)) SPUD_TOKEN (cbor_data token)) SPUD_URL (cbor_text url).

(** C34: a path declaration's mandatory keys: the map has exactly the address, the token
    and the URL under their names, in a pool that is the caller's to destroy; when memory
    runs out at any point the call says so and leaves the heap as it was. *)
Theorem path_mandatory_keys ipadress token url ps : mem_wf (ps_mem ps) ->
  runs (path_mandatory_keys_create ipadress token url) ps (fun r ps' =>
    match r with
    | Err e => e = LS_ERR_NO_MEMORY /\ same_heap ps ps'
    | Ok (pool, m) => m = path_map ipadress token url /\
        runs (ls_pool_destroy pool) ps' (fun _ ps'' => same_heap ps ps'')
    end).
Proof.
  intros Hwf. unfold path_mandatory_keys_create. run_step.
  apply map_create_runs; [done|by intros; run_step|]. intros p ps1 Hk. run_step. cbv zeta.
  assert (Hfail : forall ps', pool_keeps ps p ps' ->
    runs (ls_pool_destroy p;; mret (Err LS_ERR_NO_MEMORY)) ps' (fun (r : res Z (loc * cbor)) ps' =>
      match r with
      | Err e => e = LS_ERR_NO_MEMORY /\ same_heap ps ps'
      | Ok (pool, m) => m = path_map ipadress token url /\
          runs (ls_pool_destroy pool) ps' (fun _ ps'' => same_heap ps ps'')
      end)).
  { intros ps' Hk'. run_step. eapply pool_keeps_destroy; [done|]. intros. by run_step. }
  eapply mapput_string_data_runs; [exact Hk|by apply Hfail|]. intros ps2 Hk2. run_step.
  eapply mapput_string_data_runs; [exact Hk2|by apply Hfail|]. intros ps3 Hk3. run_step.
  eapply mapput_string_string_runs; [exact Hk3|by apply Hfail|]. intros ps4 Hk4. run_step.
  split; [done|]. eapply pool_keeps_destroy; [done|]. done.
Qed.

(** ** Sending, received *)

(** What the receiver makes of a packet: a message from the tube with that ID, the command
    and the declaration flags that were sent, and the value of the body. *)
Definition received (d : datagram) (u : tube) (cmd : spud_command) (adec pdec : bool)
    (body : option cbor) : Prop :=
  exists h, spud_parse cn_cbor_decode (Some (dg_payload d)) true = Ok (SpudMessage (Some h) body) /\
    spud_is_id_equal (Some (hdr_tube_id h)) (Some (t_id u)) = true /\
    command_of_code (flags_command (hdr_flags h)) = Some cmd /\
    Z.testbit (hdr_flags h) 5 = adec /\ Z.testbit (hdr_flags h) 4 = pdec.

Lemma tube_header_wf u cmd adec pdec : tube_id_wf (t_id u) -> header_wf (tube_header u cmd adec pdec).
Proof. intros Hid. split_and!; [done|done|apply header_flags_byte]. Qed.

Lemma packet_received s u cmd adec pdec body v : tube_id_wf (t_id u) ->
  match body with [] => v = None | _ :: _ => exists c, v = Some c /\ cn_cbor_decode body = inl c end ->
  received (packet s u cmd adec pdec body) u cmd adec pdec v.
Proof.
  intros Hid Hv. exists (tube_header u cmd adec pdec). cbn [dg_payload packet].
  rewrite spud_parse_built by (try apply tube_header_wf; done). split_and!.
  - destruct body; [by rewrite Hv|]. destruct Hv as (c & -> & ->). done.
  - unfold spud_is_id_equal. cbn [tube_header hdr_tube_id]. rewrite memcmp_ids by done.
    by apply bool_decide_eq_true_2.
  - cbn [tube_header hdr_flags]. rewrite flags_command_header. apply command_of_code_of.
  - by destruct cmd, adec, pdec.
  - by destruct cmd, adec, pdec.
Qed.

(** C18: a message that was sent is received as it was meant: [tube_send] on a live tube
    either reports that there is no memory, and sends nothing, or hands sendmsg() one
    message for the tube's peer from the tube's socket and local address, which
    [spud_parse] reads as a packet of this tube with this command and these flags and
    with the value the segments encode, and reports what sendmsg() answered; in both
    cases the heap is as before, and so are the tubes. *)
Theorem tube_send_received t u cmd adec pdec data v s :
  mem_wf (ps_mem (tw_pools s)) -> st_objs (tw_tubes s) !! t = Some u -> tube_ok s u ->
  tube_id_wf (t_id u) ->
  match concat data with [] => v = None | b => exists c, v = Some c /\ cn_cbor_decode b = inl c end ->
  runs (tube_send t cmd adec pdec data) s (fun r s' =>
    same_heap (tw_pools s) (tw_pools s') /\ tw_tubes s' = tw_tubes s /\ tw_infos s' = tw_infos s /\
    ((r = Err LS_ERR_NO_MEMORY /\ tw_sent s' = tw_sent s) \/
     exists d, r = next_answer s /\ tw_sent s' = tw_sent s ++ [d] /\
       dg_sock d = t_sock u /\ dg_dest d = t_peer u /\ dg_control d = control_for s u /\
       received d u cmd adec pdec v)).
Proof.
  intros Hwf Ht Hu Hid Hv. eapply tube_send_runs; [done..| |]; intros p Hp.
  - split_and!; [done..|]. by left.
  - split_and!; [done..|]. right. eexists. split_and!; [done..|].
    apply packet_received; [done|]. by destruct (concat data).
Qed.

Lemma tube_send_cbor_runs t u cmd adec pdec v s (Q : res Z unit -> tworld -> Prop) :
  mem_wf (ps_mem (tw_pools s)) -> st_objs (tw_tubes s) !! t = Some u -> tube_ok s u ->
  (forall p, same_heap (tw_pools s) p -> Q (Err LS_ERR_NO_MEMORY) (set_pools_of p s)) ->
  match cn_cbor_encoder_write MAXBUFLEN v with
  | None => forall p, same_heap (tw_pools s) p -> Q (Err LS_ERR_OVERFLOW) (set_pools_of p s)
  | Some b => forall p, same_heap (tw_pools s) p ->
      Q (next_answer s) (add_sent (packet s u cmd adec pdec b) p s)
  end ->
  runs (tube_send_cbor t cmd adec pdec v) s Q.
Proof.
  intros Hwf Ht Hu H0 H1. unfold tube_send_cbor. destruct (cn_cbor_encoder_write MAXBUFLEN v) as [b|].
  - eapply tube_send_runs; [done..|]. cbn [concat]. by rewrite app_nil_r.
  - run_step. destruct s. apply (H1 _ (same_heap_refl _ Hwf)).
Qed.

(** The map that carries application data. *)
Definition data_map (data : bytes) : cbor := cbor_put_int cbor_empty 0 (cbor_data data).

Lemma tube_data_runs t u data s :
  mem_wf (ps_mem (tw_pools s)) -> st_objs (tw_tubes s) !! t = Some u -> tube_ok s u ->
  tube_id_wf (t_id u) ->
  runs (tube_data t data) s (fun r s' =>
    same_heap (tw_pools s) (tw_pools s') /\ tw_tubes s' = tw_tubes s /\ tw_infos s' = tw_infos s /\
    ((r = Err LS_ERR_NO_MEMORY /\ tw_sent s' = tw_sent s) \/
     (data <> [] /\ cn_cbor_encoder_write MAXBUFLEN (data_map data) = None /\
      r = Err LS_ERR_OVERFLOW /\ tw_sent s' = tw_sent s) \/
     exists d, r = next_answer s /\ tw_sent s' = tw_sent s ++ [d] /\
       dg_sock d = t_sock u /\ dg_dest d = t_peer u /\
       received d u SPUD_DATA false false
         (match data with [] => None | _ => Some (data_map data) end))).
Proof.
  intros Hwf Ht Hu Hid. unfold tube_data. destruct data as [|x data].
  { cbn [length]. rewrite decide_True by done.
    eapply tube_send_runs; [done..| |]; intros p Hp; (split_and!; [done..|]); [by left|].
    right. right. eexists. split_and!; [done..|]. by apply packet_received. }
  rewrite decide_False by (cbn [length]; lia). set (bs := x :: data).
  run_step. apply runs_zoom. apply map_create_runs; [done| |].
  { intros p Hp. run_step. split_and!; [done..|]. by left. }
  intros pool p Hk. run_step. cbv zeta.
  set (post := fun (r : res Z unit) s' =>
    pool_keeps (tw_pools s) pool (tw_pools s') /\ tw_tubes s' = tw_tubes s /\
    tw_infos s' = tw_infos s /\
    ((r = Err LS_ERR_NO_MEMORY /\ tw_sent s' = tw_sent s) \/
     (cn_cbor_encoder_write MAXBUFLEN (data_map bs) = None /\
      r = Err LS_ERR_OVERFLOW /\ tw_sent s' = tw_sent s) \/
     exists d, r = next_answer s /\ tw_sent s' = tw_sent s ++ [d] /\
       dg_sock d = t_sock u /\ dg_dest d = t_peer u /\
       received d u SPUD_DATA false false (Some (data_map bs)))).
  apply (runs_conseq _ _ post).
  - run_step. apply runs_zoom. eapply builds_runs; [apply data_create_builds|done| |];
      intros p1 Hk1; run_step; [split_and!; [done..|]; by left|].
    apply runs_zoom. eapply builds_runs; [apply mapput_int_builds|done| |];
      intros p2 Hk2; [run_step; split_and!; [done..|]; by left|cbn beta iota].
    eapply (tube_send_cbor_runs t u); [by apply (pool_keeps_wf (tw_pools s) pool)|done|done| |].
    + intros p3 Hp3. split_and!; [by eapply pool_keeps_same|done..|]. by left.
    + fold (data_map bs). destruct (cn_cbor_encoder_write MAXBUFLEN (data_map bs)) as [b|] eqn:Eb;
        intros p3 Hp3; (split_and!; [by eapply pool_keeps_same|done..|]).
      * right. right. eexists. split_and!; [done..|].
        destruct (encoder_decode _ _ _ Eb) as (Hne & _ & Hd).
        apply packet_received; [done|]. destruct b; [done|]. eauto.
      * right. by left.
  - intros r s1 (Hk1 & Et & Ei & Hr). run_step. apply runs_zoom.
    eapply pool_keeps_destroy; [done|]. intros p2 Hp2. run_step. split_and!; [done..|].
    destruct Hr as [Hr|[Hr|Hr]]; [by left|right; left; by destruct Hr|by right; right].
Qed.

(** C19: application data: [tube_data] of some bytes sends one DATA packet whose body is
    the map of key 0 to those bytes, or reports that memory ran out or that the encoding
    is longer than the buffer of 1500 bytes, and then sends nothing; whatever happens, the
    pool is gone and the heap is as before.  Of no bytes, it sends a packet without a
    body. *)
Theorem tube_data_received t u data s :
  mem_wf (ps_mem (tw_pools s)) -> st_objs (tw_tubes s) !! t = Some u -> tube_ok s u ->
  tube_id_wf (t_id u) ->
  runs (tube_data t data) s (fun r s' =>
    same_heap (tw_pools s) (tw_pools s') /\ tw_tubes s' = tw_tubes s /\ tw_infos s' = tw_infos s /\
    ((r = Err LS_ERR_NO_MEMORY /\ tw_sent s' = tw_sent s) \/
     (data <> [] /\ cn_cbor_encoder_write MAXBUFLEN (data_map data) = None /\
      r = Err LS_ERR_OVERFLOW /\ tw_sent s' = tw_sent s) \/
     exists d, r = next_answer s /\ tw_sent s' = tw_sent s ++ [d] /\
       dg_sock d = t_sock u /\ dg_dest d = t_peer u /\
       received d u SPUD_DATA false false
         (match data with [] => None | _ => Some (data_map data) end))).
Proof. apply tube_data_runs. Qed.
End body_proofs.

(** ** The life of a tube *)
Abbreviation tubes s := (st_objs (tw_tubes s)).
Abbreviation pktinfos s := (st_objs (tw_infos s)).

Definition known_family (a : sockaddr) : Prop := ls_sockaddr_get_length a <> SIZE_MAX.

Lemma ls_sockaddr_copy_known a : known_family a -> ls_sockaddr_copy a = Done a.
Proof. intros H. unfold ls_sockaddr_copy. by rewrite decide_False. Qed.

Lemma tube_set_info_runs t u sock peer id s (Q : unit -> tworld -> Prop) :
  tubes s !! t = Some u -> 0 <= sock -> known_family peer -> tube_id_wf id ->
  Q tt (with_store (st_set t (Tube (t_state u) peer id (t_data u) (t_pktinfo u) sock) (tw_tubes s)) s) ->
  runs (tube_set_info t sock (Some peer) (Some id)) s Q.
Proof.
  intros Ht Hs Hp Hid HQ. unfold tube_set_info. run_step. apply (runs_load t u); [done|]. cbv zeta.
  rewrite decide_True by lia. run_step. rewrite ls_sockaddr_copy_known by done. run_step.
  rewrite spud_copy_id_same by done. apply runs_save; [eexists; exact Ht|]. done.
Qed.

Lemma tube_create_runs s (Q : res Z loc -> tworld -> Prop) :
  (no_block s = true -> Q (Err LS_ERR_NO_MEMORY) (pop_oom s)) ->
  (forall t s1, t = st_next (tw_tubes s) ->
     tubes s1 = <[t := Tube TS_UNKNOWN (sockaddr_other 0) (TubeId (replicate 8 0)) None None (-1)]> (tubes s) ->
     st_next (tw_tubes s1) = Pos.succ t -> tw_infos s1 = tw_infos s ->
     tw_pools s1 = tw_pools (pop_oom s) -> tw_sent s1 = tw_sent s -> tw_answers s1 = tw_answers s ->
     Q (Ok t) s1) ->
  runs tube_create s Q.
Proof.
  intros H0 H1. unfold tube_create. run_step. apply runs_new_exact; intros Hno; run_step; [by apply H0|].
  eapply runs_update; [rewrite the_with_store; cbn; by rewrite lookup_insert_eq|].
  run_step. eapply runs_update; [rewrite the_with_store; cbn; by rewrite lookup_insert_eq|].
  run_step. apply H1; cbn; [done| |done..]. by rewrite !insert_insert_eq.
Qed.

Lemma tube_destroy_runs t u s (Q : unit -> tworld -> Prop) :
  tubes s !! t = Some u -> (forall p, t_pktinfo u = Some p -> is_Some (pktinfos s !! p)) ->
  Q tt (TWorld (st_del t (tw_tubes s))
          (match t_pktinfo u with Some p => st_del p (tw_infos s) | None => tw_infos s end)
          (tw_pools s) (tw_sent s) (tw_answers s)) ->
  runs (tube_destroy t) s Q.
Proof.
  intros Ht Hp HQ. unfold tube_destroy. run_step. apply (runs_load t u); [done|]. run_step.
  destruct (t_pktinfo u) as [p|].
  - unfold ls_pktinfo_destroy. apply runs_release; [by apply Hp|]. apply runs_release; [eexists; exact Ht|done].
  - run_step. apply runs_release; [eexists; exact Ht|]. by destruct s.
Qed.

Lemma tube_set_local_runs t u p i s (Q : res Z unit -> tworld -> Prop) :
  store_wf (tw_infos s) -> tubes s !! t = Some u -> pktinfos s !! p = Some i ->
  (forall s', no_block s = true -> tw_tubes s' = st_set t (put_pktinfo None u) (tw_tubes s) -> pktinfos s' = pktinfos s ->
     store_wf (tw_infos s') -> tw_pools s' = tw_pools (pop_oom s) -> tw_sent s' = tw_sent s ->
     Q (Err LS_ERR_NO_MEMORY) s') ->
  (forall s' d, pktinfos s !! d = None -> tw_tubes s' = st_set t (put_pktinfo (Some d) u) (tw_tubes s) ->
     pktinfos s' = <[d := i]> (pktinfos s) ->
     store_wf (tw_infos s') -> tw_pools s' = tw_pools (pop_oom s) -> tw_sent s' = tw_sent s ->
     Q (Ok tt) s') ->
  runs (tube_set_local t (Some p)) s Q.
Proof.
  intros Hwf Ht Hp H0 H1. unfold tube_set_local. run_step. apply (runs_load t u); [done|]. run_step.
  apply (ls_pktinfo_dup_runs p i); [done|done| |].
  - intros Hno. run_step. apply (runs_update t _ u); [done|]. run_step. by apply H0.
  - intros s' d Hd Ed ->. run_step. apply (runs_update t _ u); [done|]. run_step.
    apply (H1 _ d Hd); cbn; rewrite ?Ed; try done.
    + by rewrite insert_insert_eq.
    + apply store_wf_set; [cbn; rewrite lookup_insert_eq; by eexists|by apply store_wf_add].
Qed.

(** C33: the life of a tube leaves nothing behind: a created tube has no socket and is in
    state unknown; [tube_set_info] gives it its socket, peer and ID and changes nothing
    else; [tube_set_local] gives it a copy of the packet information; and destroying it,
    whether or not that copy could be made, frees it and the copy and nothing else. *)
Theorem tube_lifecycle sock peer id p i s :
  store_wf (tw_tubes s) -> store_wf (tw_infos s) -> pktinfos s !! p = Some i ->
  0 <= sock -> known_family peer -> tube_id_wf id ->
  runs tube_create s (fun r s1 =>
    match r with
    | Err e => e = LS_ERR_NO_MEMORY /\ tubes s1 = tubes s /\ pktinfos s1 = pktinfos s
    | Ok t => tubes s !! t = None /\
        (exists u, tubes s1 !! t = Some u /\ t_state u = TS_UNKNOWN /\ t_sock u = -1) /\
        runs (tube_set_info t sock (Some peer) (Some id)) s1 (fun _ s2 =>
          tubes s2 = <[t := Tube TS_UNKNOWN peer id None None sock]> (tubes s) /\
          runs (tube_set_local t (Some p)) s2 (fun r s3 =>
            match r with
            | Err e => e = LS_ERR_NO_MEMORY
            | Ok _ => exists d, d <> p /\ pktinfos s3 = <[d := i]> (pktinfos s) /\
                tubes s3 = <[t := Tube TS_UNKNOWN peer id None (Some d) sock]> (tubes s)
            end /\
            runs (tube_destroy t) s3 (fun _ s4 =>
              tubes s4 = tubes s /\ pktinfos s4 = pktinfos s)))
    end).
Proof.
  intros Hwt Hwi Hp Hs Hpe Hid. apply tube_create_runs; [done|].
  intros t s1 -> E1 _ Ei _ _ _. pose proof (store_wf_fresh _ Hwt) as Hf.
  split; [done|]. split; [eexists; split; [by rewrite E1, lookup_insert_eq|done]|].
  eapply tube_set_info_runs; [by rewrite E1, lookup_insert_eq|done..|].
  cbn. split; [by rewrite E1, insert_insert_eq|]. rewrite <- Ei in *.
  eapply tube_set_local_runs; [done|cbn; by rewrite lookup_insert_eq|done| |].
  - intros s3 _ Et Ep _ _ _. apply (f_equal st_objs) in Et. cbn in *.
    rewrite E1, !insert_insert_eq in Et. split; [done|].
    eapply tube_destroy_runs; [by rewrite Et, lookup_insert_eq|done|].
    cbn. rewrite Et, Ep. split; [|done]. by rewrite delete_insert_id.
  - intros s3 d Hd Et Ep _ _ _. apply (f_equal st_objs) in Et. cbn in *.
    rewrite E1, !insert_insert_eq in Et. split.
    { exists d. split_and!; [|done|done]. by intros ->; rewrite Hd in Hp. }
    eapply tube_destroy_runs; [by rewrite Et, lookup_insert_eq| |].
    + intros q [= <-]. rewrite Ep, lookup_insert_eq. eauto.
    + cbn. rewrite Et, Ep. by rewrite !delete_insert_id.
Qed.

(** [tube_set_local] forgets the packet information the tube had: after it is called
    with NULL on a tube that had one, and the tube is destroyed, that object is still
    there, and nothing points to it. *)
Theorem tube_set_local_leaks t u p i s :
  tubes s !! t = Some u -> t_pktinfo u = Some p -> pktinfos s !! p = Some i ->
  runs (tube_set_local t None;; tube_destroy t) s (fun _ s' =>
    tubes s' = delete t (tubes s) /\ pktinfos s' !! p = Some i).
Proof.
  intros Ht Hu Hp. run_step. unfold tube_set_local. run_step. apply (runs_update t _ u); [done|].
  run_step. eapply tube_destroy_runs; [cbn; by rewrite lookup_insert_eq|done|].
  cbn. by rewrite delete_insert_eq.
Qed.

Lemma tube_close_runs t u s :
  mem_wf (ps_mem (tw_pools s)) -> tubes s !! t = Some u -> tube_ok s u ->
  runs (tube_close t) s (fun r s' =>
    tw_tubes s' = st_set t (put_state TS_UNKNOWN u) (tw_tubes s) /\ tw_infos s' = tw_infos s /\
    same_heap (tw_pools s) (tw_pools s') /\
    ((r = Err LS_ERR_NO_MEMORY /\ tw_sent s' = tw_sent s) \/
     (r = next_answer s /\ tw_sent s' = tw_sent s ++ [packet s u SPUD_CLOSE false false []]))).
Proof.
  intros Hwf Ht Hu. unfold tube_close. run_step. apply (runs_update t _ u); [done|]. run_step.
  eapply (tube_send_runs t (put_state TS_UNKNOWN u)); [done|cbn; by rewrite lookup_insert_eq|done| |];
    intros p Hp; cbn beta iota.
  - run_step. split_and!; [done..|]. by left.
  - unfold next_answer. cbn [tw_answers with_store tworld_tubes].
    case_decide; run_step; (split_and!; [done..|]; by right).
Qed.

(** Closing: whatever becomes of the CLOSE packet, [tube_close] leaves the tube in
    state unknown and its other fields as they were; it sends one CLOSE packet of the
    tube's, or none when there is no memory, and reports which. *)
Theorem tube_close_sends t u s :
  mem_wf (ps_mem (tw_pools s)) -> tubes s !! t = Some u -> tube_ok s u ->
  runs (tube_close t) s (fun r s' =>
    tubes s' = <[t := put_state TS_UNKNOWN u]> (tubes s) /\ pktinfos s' = pktinfos s /\
    same_heap (tw_pools s) (tw_pools s') /\
    ((r = Err LS_ERR_NO_MEMORY /\ tw_sent s' = tw_sent s) \/
     (r = next_answer s /\ tw_sent s' = tw_sent s ++ [packet s u SPUD_CLOSE false false []]))).
Proof.
  intros. eapply runs_conseq; [by eapply tube_close_runs|]. by intros r s' (-> & -> & Hr).
Qed.

(** ** A CBOR library for the examples

    Values are their encodings, short enough for one-byte heads; each constructor
    allocates one node. *)
Definition cbor_ex : Type := list Z.

Definition one_node (v : cbor_ex) (calloc : calloc_fn) : C pstate (option cbor_ex) :=
  r ← calloc 1 64; mret (match r with Some _ => Some v | None => None end).

Definition ex_put (m k v : cbor_ex) : cbor_ex := (hd 0 m + 1 :: tail m) ++ k ++ v.
Definition ex_data (d : bytes) : cbor_ex := (64 + Z.of_nat (length d)) :: d.
Definition ex_text (c : cstr) : cbor_ex := (96 + Z.of_nat (length c)) :: c.

#[export] Instance cbor_ex_lib : CborLib cbor_ex := {
  cn_cbor_map_create := one_node [160];
  cn_cbor_data_create d := one_node (ex_data d);
  cn_cbor_string_create c := one_node (ex_text c);
  cn_cbor_mapput_int m k v := one_node (ex_put m [k] v);
  cn_cbor_mapput_string m k v := one_node (ex_put m (ex_text k) v);
  cn_cbor_encoder_write n v :=
    match v with
    | [] => None
    | _ :: _ => if decide (Z.of_nat (length v) <= n) then Some v else None
    end;
  cn_cbor_decode b := inl b }.

Lemma one_node_builds v : builds (one_node v) v.
Proof.
  intros calloc I Hc s Hs. unfold one_node. run_step. eapply runs_conseq; [by apply Hc|].
  intros [a|] s' Hs'; run_step; auto.
Qed.

#[export, refine] Instance cbor_ex_laws : CborLaws cbor_ex := {
  cbor_empty := [160]; cbor_data := ex_data; cbor_text := ex_text;
  cbor_put_int m k v := ex_put m [k] v; cbor_put_string m k v := ex_put m (ex_text k) v }.
Proof.
  - apply one_node_builds.
  - intros d. apply one_node_builds.
  - intros c. apply one_node_builds.
  - intros m k v. apply one_node_builds.
  - intros m k v. apply one_node_builds.
  - intros n [|x v] b; cbn; [done|]. case_decide; [|done]. intros [= <-]. done.
Defined.

Definition tube_ex : tube :=
  Tube TS_RUNNING (sockaddr_in [127; 0; 0; 1] 1402) id_ex None (Some 1%positive) 5.

Definition info_ex : ls_pktinfo := PktInfo (I4 (InPktinfo 2 [10; 0; 0; 1] [10; 0; 0; 1])) HAS_INFO_4.

(** One running tube with a local address, and no failures. *)
Definition tworld_ex : tworld :=
  TWorld (Store {[1%positive := tube_ex]} 2) (Store {[1%positive := info_ex]} 2)
    (pstate_init []) [] [].

Lemma tworld_ex_wf : mem_wf (ps_mem (tw_pools tworld_ex)).
Proof. apply pstate_init_wf. Qed.

Lemma tube_ex_ok : tube_ok tworld_ex tube_ex.
Proof. intros p [= <-]. exists info_ex. split; [done|]. by split; [eexists|]. Qed.

Lemma tube_send_received_witness :
  runs (tube_send 1%positive SPUD_ACK false true [[]; [161]; [0; 64]]) tworld_ex (fun r s' =>
    same_heap (tw_pools tworld_ex) (tw_pools s') /\ tw_tubes s' = tw_tubes tworld_ex /\
    tw_infos s' = tw_infos tworld_ex /\
    ((r = Err LS_ERR_NO_MEMORY /\ tw_sent s' = tw_sent tworld_ex) \/
     exists d, r = next_answer tworld_ex /\ tw_sent s' = tw_sent tworld_ex ++ [d] /\
       dg_sock d = t_sock tube_ex /\ dg_dest d = t_peer tube_ex /\
       dg_control d = control_for tworld_ex tube_ex /\
       received d tube_ex SPUD_ACK false true (Some [161; 0; 64]))).
Proof.
  refine (tube_send_received 1%positive tube_ex SPUD_ACK false true [[]; [161]; [0; 64]]
            (Some [161; 0; 64]) tworld_ex _ _ _ _ _).
  - apply tworld_ex_wf.
  - reflexivity.
  - apply tube_ex_ok.
  - apply id_ex_wf.
  - exists [161; 0; 64]. done.
Defined.

Lemma tube_data_received_witness :
  runs (tube_data 1%positive [104; 105]) tworld_ex (fun r s' =>
    same_heap (tw_pools tworld_ex) (tw_pools s') /\ tw_tubes s' = tw_tubes tworld_ex /\
    tw_infos s' = tw_infos tworld_ex /\
    ((r = Err LS_ERR_NO_MEMORY /\ tw_sent s' = tw_sent tworld_ex) \/
     (([104; 105] : bytes) <> [] /\
      cn_cbor_encoder_write MAXBUFLEN (data_map [104; 105]) = None /\
      r = Err LS_ERR_OVERFLOW /\ tw_sent s' = tw_sent tworld_ex) \/
     exists d, r = next_answer tworld_ex /\ tw_sent s' = tw_sent tworld_ex ++ [d] /\
       dg_sock d = t_sock tube_ex /\ dg_dest d = t_peer tube_ex /\
       received d tube_ex SPUD_DATA false false (Some [161; 0; 66; 104; 105]))).
Proof.
  refine (tube_data_received 1%positive tube_ex [104; 105] tworld_ex _ _ _ _).
  - apply tworld_ex_wf.
  - reflexivity.
  - apply tube_ex_ok.
  - apply id_ex_wf.
Defined.

(** Evaluated, the packet is these bytes. *)
Example tube_data_bytes :
  match tube_data 1%positive [104; 105] tworld_ex with
  | Done (r, s') => r = Ok tt /\ dg_payload <$> tw_sent s' =
      [[0xd8; 0; 0; 0xd8; 1; 2; 3; 4; 5; 6; 7; 255; 0; 161; 0; 66; 104; 105]]
  | Fault _ => False
  end.
Proof. vm_compute. done. Qed.

Lemma path_mandatory_keys_witness :
  runs (path_mandatory_keys_create [10; 0; 0; 1] [1; 2] [117]) (pstate_init [false; true]) (fun r ps' =>
    match r with
    | Err e => e = LS_ERR_NO_MEMORY /\ same_heap (pstate_init [false; true]) ps'
    | Ok (pool, m) => m = path_map [10; 0; 0; 1] [1; 2] [117] /\
        runs (ls_pool_destroy pool) ps' (fun _ ps'' => same_heap (pstate_init [false; true]) ps'')
    end).
Proof.
  refine (path_mandatory_keys [10; 0; 0; 1] [1; 2] [117] (pstate_init [false; true]) _).
  apply pstate_init_wf.
Defined.

Lemma tube_lifecycle_witness :
  runs tube_create tworld_ex (fun r s1 =>
    match r with
    | Err e => e = LS_ERR_NO_MEMORY /\ tubes s1 = tubes tworld_ex /\ pktinfos s1 = pktinfos tworld_ex
    | Ok t => tubes tworld_ex !! t = None /\
        (exists u, tubes s1 !! t = Some u /\ t_state u = TS_UNKNOWN /\ t_sock u = -1) /\
        runs (tube_set_info t 7 (Some (sockaddr_in [10; 0; 0; 2] 99)) (Some id_ex)) s1 (fun _ s2 =>
          tubes s2 = <[t := Tube TS_UNKNOWN (sockaddr_in [10; 0; 0; 2] 99) id_ex None None 7]>
                       (tubes tworld_ex) /\
          runs (tube_set_local t (Some 1%positive)) s2 (fun r s3 =>
            match r with
            | Err e => e = LS_ERR_NO_MEMORY
            | Ok _ => exists d, d <> 1%positive /\ pktinfos s3 = <[d := info_ex]> (pktinfos tworld_ex) /\
                tubes s3 = <[t := Tube TS_UNKNOWN (sockaddr_in [10; 0; 0; 2] 99) id_ex None (Some d) 7]>
                             (tubes tworld_ex)
            end /\
            runs (tube_destroy t) s3 (fun _ s4 =>
              tubes s4 = tubes tworld_ex /\ pktinfos s4 = pktinfos tworld_ex)))
    end).
Proof.
  refine (tube_lifecycle 7 (sockaddr_in [10; 0; 0; 2] 99) id_ex 1%positive info_ex tworld_ex _ _ _ _ _ _).
  - intros l [x Hx]. destruct (decide (l = 1%positive)) as [->|Hne]; [reflexivity|].
    cbn in Hx. by rewrite lookup_singleton_ne in Hx.
  - intros l [x Hx]. destruct (decide (l = 1%positive)) as [->|Hne]; [reflexivity|].
    cbn in Hx. by rewrite lookup_singleton_ne in Hx.
  - reflexivity.
  - lia.
  - discriminate.
  - apply id_ex_wf.
Defined.

Lemma tube_set_local_leaks_witness :
  runs (tube_set_local 1%positive None;; tube_destroy 1%positive) tworld_ex (fun _ s' =>
    tubes s' = delete 1%positive (tubes tworld_ex) /\ pktinfos s' !! 1%positive = Some info_ex).
Proof. refine (tube_set_local_leaks 1%positive tube_ex 1%positive info_ex tworld_ex _ _ _); reflexivity. Defined.

Lemma tube_close_sends_witness :
  runs (tube_close 1%positive) tworld_ex (fun r s' =>
    tubes s' = <[1%positive := put_state TS_UNKNOWN tube_ex]> (tubes tworld_ex) /\
    pktinfos s' = pktinfos tworld_ex /\ same_heap (tw_pools tworld_ex) (tw_pools s') /\
    ((r = Err LS_ERR_NO_MEMORY /\ tw_sent s' = tw_sent tworld_ex) \/
     (r = next_answer tworld_ex /\
      tw_sent s' = tw_sent tworld_ex ++ [packet tworld_ex tube_ex SPUD_CLOSE false false []]))).
Proof.
  refine (tube_close_sends 1%positive tube_ex tworld_ex _ _ _).
  - apply tworld_ex_wf.
  - reflexivity.
  - apply tube_ex_ok.
Defined.
