(* ===== verification/LsEventing.v ===== *)
(** Events: src/ls_eventing.c, src/ls_eventing_int.h, include/ls_event.h.

    A dispatcher keeps its events by name in a hash table; an event keeps a list of
    bindings; a trigger makes a moment, in a pool of its own, and puts it at the end of
    the dispatcher's queue.  Everything is at the level of pointers: what a callback does
    to the lists while they are walked is visible.

    Callbacks are the client's: [call_cb] runs one over the whole state.  The diagnostic
    context that each entry point pushes and pops is in LsLog.v; here it matters only to
    [ls_event_dispatcher_create], which fails when it cannot be pushed. *)

From S2P Require Import Prelude LsError LsStr LsMem Store LsHtable LsHash.
Import StrCaseKey.
Open Scope Z_scope.

Definition DISPATCH_BUCKETS : Z := 7.
Definition MOMENT_POOLSIZE : Z := 0.
(** Sizes of the two structures that a trigger allocates. *)
Definition SIZEOF_MOMENT : Z := 88.
Definition SIZEOF_TRIGGER : Z := 16.

Section eventing.
(** Callbacks, result callbacks, their arguments and event sources, the data of a
    trigger, and the rest of the program's state. *)
Context {CB RCB A D X : Type} `{!EqDecision CB}.

Record ls_event_binding := Binding {
  b_cb : CB;
  b_arg : A;
  b_next : ptr;
  b_unbound : bool;
  b_normal_bound : bool }.

(** [n_name_block] is the heap block that the name was copied to. *)
Record ls_event_notifier := Notifier {
  n_dispatcher : loc;
  n_source : A;
  n_name : cstr;
  n_name_block : loc;
  n_bindings : ptr }.

Record ls_event_data := EventData {
  ev_source : A;
  ev_name : cstr;
  ev_notifier : loc;
  ev_data : D;
  ev_pool : loc;
  ev_handled : bool }.

Record ls_event_moment := Moment {
  m_evt : ls_event_data;
  m_result_cb : option RCB;
  m_result_arg : A;
  m_bindings : ptr;
  m_next_moment : ptr }.

Record ls_event_dispatch := Dispatch {
  d_source : A;
  d_events : loc;
  d_running : ptr;
  d_queue_tail : ptr;
  d_next_moment : ptr;
  d_destroy_pending : bool }.

(** What the events' table does not own: the objects of eventing, the heap the pools and
    names are in, and the rest of the program. *)
Record eclient := EClient {
  ec_dispatchers : store ls_event_dispatch;
  ec_events : store ls_event_notifier;
  ec_bindings : store ls_event_binding;
  ec_moments : store ls_event_moment;
  ec_pools : pstate;
  ec_app : X }.

#[export] Instance eclient_dispatchers : HasStore eclient ls_event_dispatch := {
  the_store := ec_dispatchers;
  with_store st c := EClient st (ec_events c) (ec_bindings c) (ec_moments c) (ec_pools c) (ec_app c) }.
#[export] Instance eclient_events : HasStore eclient ls_event_notifier := {
  the_store := ec_events;
  with_store st c := EClient (ec_dispatchers c) st (ec_bindings c) (ec_moments c) (ec_pools c) (ec_app c) }.
#[export] Instance eclient_bindings : HasStore eclient ls_event_binding := {
  the_store := ec_bindings;
  with_store st c := EClient (ec_dispatchers c) (ec_events c) st (ec_moments c) (ec_pools c) (ec_app c) }.
#[export] Instance eclient_moments : HasStore eclient ls_event_moment := {
  the_store := ec_moments;
  with_store st c := EClient (ec_dispatchers c) (ec_events c) (ec_bindings c) st (ec_pools c) (ec_app c) }.

Definition set_epools (p : pstate) (c : eclient) : eclient :=
  EClient (ec_dispatchers c) (ec_events c) (ec_bindings c) (ec_moments c) p (ec_app c).
Definition set_app (x : X) (c : eclient) : eclient :=
  EClient (ec_dispatchers c) (ec_events c) (ec_bindings c) (ec_moments c) (ec_pools c) x.

(** The state: tables of events by name, with their cleaner, over the rest. *)
Definition estate : Type := hstate cstr loc unit eclient.

#[export] Instance estate_store {T} {HS : HasStore eclient T} : HasStore estate T := {
  the_store s := the_store (hs_client s);
  with_store st s := set_client (with_store st (hs_client s)) s }.
#[export] Instance estate_alloc : HasAllocator estate := hstate_alloc.

Definition on_client {T} : C eclient T -> C estate T := zoom hs_client set_client.
Definition on_epools {T} (m : C pstate T) : C eclient T := zoom ec_pools set_epools m.
Definition on_app {T} (m : C X T) : C estate T := on_client (zoom ec_app set_app m).

(** A bound on the iterations of a loop along the bindings of an event. *)
Definition binding_fuel (c : eclient) : nat := Datatypes.S (size (st_objs (ec_bindings c))).

(** ** Lists of bindings *)

(** [_remove_binding]: the loop. *)
Fixpoint remove_binding_loop (fuel : nat) (event : loc) (cb : CB) (prev curr : ptr)
    : C estate (ptr * ptr) :=
  match fuel, curr with
  | O, _ => c_fault OutOfFuel
  | _, None => mret (None, prev)
  | Datatypes.S fuel, Some l =>
      b ← load (A := ls_event_binding) l;
      if decide (b_cb b = cb) then
        (match prev with
         | None => update event (fun n : ls_event_notifier =>
             Notifier (n_dispatcher n) (n_source n) (n_name n) (n_name_block n) (b_next b))
         | Some p => update p (fun q : ls_event_binding =>
             Binding (b_cb q) (b_arg q) (b_next b) (b_unbound q) (b_normal_bound q))
         end);;
        update l (fun q : ls_event_binding =>
          Binding (b_cb q) (b_arg q) None (b_unbound q) (b_normal_bound q));;
        mret (Some l, prev)
      else remove_binding_loop fuel event cb (Some l) (b_next b)
  end.

(** The binding found, if any, and the one before the place it was at, or the last. *)
Definition remove_binding (event : loc) (cb : CB) : C estate (ptr * ptr) :=
  n ← load (A := ls_event_notifier) event;
  fuel ← c_gets (fun s => binding_fuel (hs_client s));
  remove_binding_loop fuel event cb None (n_bindings n).

Definition set_bindings (p : ptr) (n : ls_event_notifier) : ls_event_notifier :=
  Notifier (n_dispatcher n) (n_source n) (n_name n) (n_name_block n) p.
Definition set_next (p : ptr) (b : ls_event_binding) : ls_event_binding :=
  Binding (b_cb b) (b_arg b) p (b_unbound b) (b_normal_bound b).

Fixpoint pending_unbinds_loop (fuel : nat) (event : loc) (prev cur : ptr) : C estate unit :=
  match fuel, cur with
  | O, _ => c_fault OutOfFuel
  | _, None => mret tt
  | Datatypes.S fuel, Some l =>
      b ← load (A := ls_event_binding) l;
      if b_unbound b then
        (match prev with
         | Some p => update p (set_next (b_next b))
         | None => update event (set_bindings (b_next b))
         end);;
        release (A := ls_event_binding) l;;
        pending_unbinds_loop fuel event prev (b_next b)
      else pending_unbinds_loop fuel event (Some l) (b_next b)
  end.

Definition process_pending_unbinds (event : loc) : C estate unit :=
  n ← load (A := ls_event_notifier) event;
  fuel ← c_gets (fun s => binding_fuel (hs_client s));
  pending_unbinds_loop fuel event None (n_bindings n).

Fixpoint bind_status_loop (fuel : nat) (cur : ptr) : C estate unit :=
  match fuel, cur with
  | O, _ => c_fault OutOfFuel
  | _, None => mret tt
  | Datatypes.S fuel, Some l =>
      update l (fun b : ls_event_binding => Binding (b_cb b) (b_arg b) (b_next b) (b_unbound b) true);;
      b ← load (A := ls_event_binding) l;
      bind_status_loop fuel (b_next b)
  end.

Definition set_bind_status (event : loc) : C estate unit :=
  n ← load (A := ls_event_notifier) event;
  fuel ← c_gets (fun s => binding_fuel (hs_client s));
  bind_status_loop fuel (n_bindings n).

(** ** Destruction *)

(** The loop of [_clean_event]. *)
Fixpoint clean_bindings (fuel : nat) (curr : ptr) : C eclient unit :=
  match fuel, curr with
  | O, _ => c_fault OutOfFuel
  | _, None => mret tt
  | Datatypes.S fuel, Some l =>
      b ← load (A := ls_event_binding) l;
      release (A := ls_event_binding) l;;
      clean_bindings fuel (b_next b)
  end.

(** [_clean_event], the cleaner of the table of events. *)
Definition clean_event (_ : unit) (replace delete_key : bool) (key : cstr) (data : option loc)
    : C eclient unit :=
  event ← c_deref data;
  n ← load (A := ls_event_notifier) event;
  c_assert (negb replace);;
  fuel ← c_gets binding_fuel;
  clean_bindings fuel (n_bindings n);;
  on_epools (on_mem (ls_data_free (Some (n_name_block n))));;
  release (A := ls_event_notifier) event.

(** The moment is in its pool. *)
Definition moment_destroy (moment : loc) : C estate unit :=
  m ← load (A := ls_event_moment) moment;
  on_client (on_epools (ls_pool_destroy (ev_pool (m_evt m))));;
  release (A := ls_event_moment) moment.

Fixpoint destroy_moments (fuel : nat) (moment : ptr) : C estate unit :=
  match fuel, moment with
  | O, _ => c_fault OutOfFuel
  | _, None => mret tt
  | Datatypes.S fuel, Some l =>
      m ← load (A := ls_event_moment) l;
      moment_destroy l;;
      destroy_moments fuel (m_next_moment m)
  end.

Definition ls_event_dispatcher_destroy (dispatch : loc) : C estate unit :=
  d ← load (A := ls_event_dispatch) dispatch;
  match d_running d with
  | Some _ =>
      update dispatch (fun d : ls_event_dispatch =>
        Dispatch (d_source d) (d_events d) (d_running d) (d_queue_tail d) (d_next_moment d) true)
  | None =>
      fuel ← c_gets (fun s => Datatypes.S (size (st_objs (ec_moments (hs_client s)))));
      destroy_moments fuel (d_next_moment d);;
      ls_htable_destroy clean_event (d_events d);;
      release (A := ls_event_dispatch) dispatch
  end.

(** ** Triggers *)

(** The allocations of [_prepare_trigger]; the value is the pool. *)
Definition prepare_moment : C pstate (res Z loc) :=
  r ← ls_pool_create MOMENT_POOLSIZE;
  match r with
  | Err e => mret (Err e)
  | Ok pool =>
      r ← ls_pool_calloc pool 1 SIZEOF_MOMENT;
      match r with
      | Err e => ls_pool_destroy pool;; mret (Err e)
      | Ok _ =>
          r ← ls_pool_malloc pool SIZEOF_TRIGGER;
          match r with
          | Err e => ls_pool_destroy pool;; mret (Err e)
          | Ok _ => mret (Ok pool)
          end
      end
  end.

Definition prepare_trigger : C estate (res Z loc) := on_client (on_epools prepare_moment).

(** Callbacks, run over the whole state: [cb(evt, arg)], [evt] being the first member of
    the moment, and [result_cb(evt, handled, arg)].  [fuel] bounds the moments that one
    trigger drains from the queue and the bindings that one moment walks. *)
Context (call_cb : CB -> loc -> A -> C estate unit) (call_result : RCB -> loc -> bool -> A -> C estate unit).
Context (fuel : nat).

Definition set_handled (h : bool) (e : ls_event_data) : ls_event_data :=
  EventData (ev_source e) (ev_name e) (ev_notifier e) (ev_data e) (ev_pool e) h.
Definition on_evt (f : ls_event_data -> ls_event_data) (m : ls_event_moment) : ls_event_moment :=
  Moment (f (m_evt m)) (m_result_cb m) (m_result_arg m) (m_bindings m) (m_next_moment m).

(** The loop of [_handle_trigger_int] over the moment's bindings. *)
Fixpoint run_bindings (n : nat) (moment : loc) (binding : ptr) : C estate unit :=
  match n, binding with
  | O, _ => c_fault OutOfFuel
  | _, None => mret tt
  | Datatypes.S n, Some l =>
      b ← load (A := ls_event_binding) l;
      (if b_normal_bound b then
         m ← load (A := ls_event_moment) moment;
         let handled := ev_handled (m_evt m) in
         call_cb (b_cb b) moment (b_arg b);;
         update moment (on_evt (fun e => set_handled (handled || ev_handled e) e))
       else mret tt);;
      b ← load (A := ls_event_binding) l;
      run_bindings n moment (b_next b)
  end.

Definition set_running (p : ptr) (d : ls_event_dispatch) : ls_event_dispatch :=
  Dispatch (d_source d) (d_events d) p (d_queue_tail d) (d_next_moment d) (d_destroy_pending d).
Definition set_queue (next tail : ptr) (d : ls_event_dispatch) : ls_event_dispatch :=
  Dispatch (d_source d) (d_events d) (d_running d) tail next (d_destroy_pending d).

Definition handle_trigger_int (dispatch : loc) : C estate unit :=
  d ← load (A := ls_event_dispatch) dispatch;
  match d_next_moment d with
  | None => c_fault AssertFail
  | Some moment =>
      m ← load (A := ls_event_moment) moment;
      c_assert (bool_decide (d_running d = None));;
      let notifier := ev_notifier (m_evt m) in
      update dispatch (set_running (Some notifier));;
      set_bind_status notifier;;
      run_bindings fuel moment (m_bindings m);;
      m ← load (A := ls_event_moment) moment;
      match m_result_cb m with
      | Some r => call_result r moment (ev_handled (m_evt m)) (m_result_arg m)
      | None => mret tt
      end;;
      process_pending_unbinds notifier;;
      m ← load (A := ls_event_moment) moment;
      update dispatch (fun d => set_queue (m_next_moment m) (d_queue_tail d) d);;
      moment_destroy moment;;
      d ← load (A := ls_event_dispatch) dispatch;
      match d_next_moment d with
      | None => update dispatch (fun d => set_queue (d_next_moment d) None d)
      | Some _ => mret tt
      end;;
      update dispatch (set_running None)
  end.

(** [while (next_moment && !destroy_pending)] *)
Fixpoint drain (n : nat) (dispatcher : loc) : C estate unit :=
  match n with
  | O => c_fault OutOfFuel
  | Datatypes.S n =>
      d ← load (A := ls_event_dispatch) dispatcher;
      match d_next_moment d, d_destroy_pending d with
      | Some _, false => handle_trigger_int dispatcher;; drain n dispatcher
      | _, _ => mret tt
      end
  end.

Definition link_moment (moment : loc) (m : ls_event_moment) : ls_event_moment :=
  Moment (m_evt m) (m_result_cb m) (m_result_arg m) (m_bindings m) (Some moment).

Definition dispatch_trigger (dispatcher moment : loc) : C estate unit :=
  d ← load (A := ls_event_dispatch) dispatcher;
  match d_queue_tail d with
  | Some t => update t (link_moment moment)
  | None => mret tt
  end;;
  update dispatcher (fun d =>
    set_queue (match d_next_moment d with None => Some moment | p => p end) (Some moment) d);;
  d ← load (A := ls_event_dispatch) dispatcher;
  match d_running d with
  | Some _ => mret tt
  | None =>
      drain fuel dispatcher;;
      d ← load (A := ls_event_dispatch) dispatcher;
      if d_destroy_pending d then ls_event_dispatcher_destroy dispatcher else mret tt
  end.

(** An object in memory that was already allocated: the moment, in its pool. *)
Definition place_moment (m : ls_event_moment) : C estate loc :=
  l ← c_gets (fun s : estate => st_next (ec_moments (hs_client s)));
  c_modify (fun s : estate => with_store (st_add m (ec_moments (hs_client s))) s);;
  mret l.

Definition trigger_prepared (dispatch event : loc) (data : D) (result_cb : option RCB)
    (result_arg : A) (pool : loc) : C estate unit :=
  n ← load (A := ls_event_notifier) event;
  d ← load (A := ls_event_dispatch) dispatch;
  moment ← place_moment (Moment (EventData (d_source d) (n_name n) event data pool false)
                           result_cb result_arg (n_bindings n) None);
  dispatch_trigger dispatch moment.

Definition ls_event_prepare_trigger (dispatch : loc) : C estate (res Z loc) := prepare_trigger.

Definition ls_event_unprepare_trigger (trigger_data : loc) : C estate unit :=
  on_client (on_epools (ls_pool_destroy trigger_data)).

Definition ls_event_trigger_prepared (event : loc) (data : D) (result_cb : option RCB)
    (result_arg : A) (trigger_data : loc) : C estate unit :=
  n ← load (A := ls_event_notifier) event;
  trigger_prepared (n_dispatcher n) event data result_cb result_arg trigger_data.

Definition ls_event_trigger (event : loc) (data : D) (result_cb : option RCB) (result_arg : A)
    : C estate (res Z unit) :=
  n ← load (A := ls_event_notifier) event;
  r ← prepare_trigger;
  match r with
  | Err e => mret (Err e)
  | Ok pool =>
      trigger_prepared (n_dispatcher n) event data result_cb result_arg pool;;
      mret (Ok tt)
  end.

(** ** Binding *)

Definition ls_event_bind (event : loc) (cb : CB) (arg : A) : C estate (res Z unit) :=
  _ ← load (A := ls_event_notifier) event;
  found ← remove_binding event cb;
  let prev := found.2 in
  binding ← match found.1 with
            | None => new (Binding cb arg None false false)
            | Some l =>
                update l (fun b => Binding cb arg None false (b_normal_bound b));;
                mret (Some l)
            end;
  match binding with
  | None => mret (Err LS_ERR_NO_MEMORY)
  | Some l =>
      n ← load (A := ls_event_notifier) event;
      match n_bindings n, prev with
      | None, _ => update event (set_bindings (Some l))
      | Some _, Some p =>
          q ← load (A := ls_event_binding) p;
          match b_next q with
          | None => update p (set_next (Some l))
          | Some next => update l (set_next (Some next));; update p (set_next (Some l))
          end
      | Some first, None =>
          update l (set_next (Some first));; update event (set_bindings (Some l))
      end;;
      mret (Ok tt)
  end.

(** The loop that marks a binding of the running event. *)
Fixpoint mark_unbound (n : nat) (cb : CB) (cur : loc) : C estate unit :=
  match n with
  | O => c_fault OutOfFuel
  | Datatypes.S n =>
      b ← load (A := ls_event_binding) cur;
      if decide (b_cb b = cb) then
        update cur (fun b => Binding (b_cb b) (b_arg b) (b_next b) true (b_normal_bound b))
      else match b_next b with
           | None => c_fault AssertFail
           | Some next => mark_unbound n cb next
           end
  end.

Definition ls_event_unbind (event : loc) (cb : CB) : C estate unit :=
  n ← load (A := ls_event_notifier) event;
  d ← load (A := ls_event_dispatch) (n_dispatcher n);
  if decide (d_running d = Some event) then
    cur ← c_deref (n_bindings n);
    count ← c_gets (fun s => binding_fuel (hs_client s));
    mark_unbound count cb cur
  else
    found ← remove_binding event cb;
    match found.1 with
    | Some l => release (A := ls_event_binding) l
    | None => mret tt
    end.

(** ** Dispatchers and their events *)

(** The context that [ls_event_dispatcher_create] pushes, and pops at its end: a node and
    a message. *)
Definition push_pop_ndc (message_len : Z) : C pstate bool :=
  node ← on_mem (ls_data_calloc 1 24);
  match node with
  | None => mret false
  | Some node =>
      message ← on_mem (ls_data_malloc (message_len + 1));
      match message with
      | None => on_mem (ls_data_free (Some node));; mret false
      | Some message =>
          on_mem (ls_data_free (Some message));;
          on_mem (ls_data_free (Some node));;
          mret true
      end
  end.

Definition ls_event_dispatcher_create (source : A) (message_len : Z) : C estate (res Z loc) :=
  r ← ls_htable_create DISPATCH_BUCKETS ls_strcase_hashcode ls_strcase_compare;
  match r with
  | Err e => mret (Err e)
  | Ok events =>
      dispatch ← new (Dispatch source events None None None false);
      match dispatch with
      | None => ls_htable_destroy clean_event events;; mret (Err LS_ERR_NO_MEMORY)
      | Some d =>
          ndc ← on_client (on_epools (push_pop_ndc message_len));
          if ndc : bool then mret (Ok d)
          else
            ls_htable_destroy clean_event events;;
            release (A := ls_event_dispatch) d;;
            mret (Err LS_ERR_NO_MEMORY)
      end
  end.

Definition ls_event_dispatcher_get_event (dispatch : loc) (name : cstr) : C estate ptr :=
  d ← load (A := ls_event_dispatch) dispatch;
  ls_htable_get (d_events d) name.

Definition ls_event_dispatcher_create_event (dispatch : loc) (name : cstr) : C estate (res Z loc) :=
  d ← load (A := ls_event_dispatch) dispatch;
  if decide (name = []) then mret (Err LS_ERR_INVALID_ARG)
  else
    old ← ls_htable_get (d_events d) name;
    match old with
    | Some _ => mret (Err LS_ERR_INVALID_STATE)
    | None =>
        let nameLen := Z.of_nat (length name) in
        evt_name ← on_client (on_epools (on_mem (ls_data_malloc (nameLen + 1))));
        match evt_name with
        | None => mret (Err LS_ERR_NO_MEMORY)
        | Some block =>
            on_client (on_epools (on_mem (LsMem.Libc.memcpy (addr_of block) (name ++ [0]))));;
            notifier ← new (Notifier dispatch (d_source d) name block None);
            match notifier with
            | None =>
                on_client (on_epools (on_mem (ls_data_free (Some block))));;
                mret (Err LS_ERR_NO_MEMORY)
            | Some notifier =>
                r ← ls_htable_put clean_event (d_events d) name (Some notifier) (Some tt);
                match r with
                | Err e =>
                    on_client (on_epools (on_mem (ls_data_free (Some block))));;
                    release (A := ls_event_notifier) notifier;;
                    mret (Err e)
                | Ok _ => mret (Ok notifier)
                end
            end
        end
    end.

Definition ls_event_get_name (event : loc) : C estate cstr :=
  n ← load (A := ls_event_notifier) event; mret (n_name n).
Definition ls_event_get_source (event : loc) : C estate A :=
  n ← load (A := ls_event_notifier) event; mret (n_source n).
End eventing.
Arguments ls_event_binding : clear implicits.
Arguments ls_event_notifier : clear implicits.
Arguments ls_event_data : clear implicits.
Arguments ls_event_moment : clear implicits.
Arguments ls_event_dispatch : clear implicits.
Arguments eclient : clear implicits.
Arguments estate : clear implicits.
