(* ===== verification/EventBindings.v ===== *)
(** The list of bindings of an event: what binding and unbinding do to it, for
    src/ls_eventing.c as modelled in LsEventing.v. *)

From S2P Require Import Prelude LsError LsMem Store LsHtable LsEventing.
Open Scope Z_scope.

Section bindings.
Context {CB RCB A D X : Type} `{EqCB : !EqDecision CB}.
Abbreviation binding := (ls_event_binding CB A).
Abbreviation notifier := (ls_event_notifier A).
Abbreviation state := (estate CB RCB A D X).
Abbreviation events s := (st_objs (ec_events (hs_client s))).
Abbreviation binds s := (st_objs (ec_bindings (hs_client s))).
Implicit Types (s : state) (e l p : loc) (b : binding) (bs : list (loc * binding)).

(** The state with other events and bindings. *)
Definition put_lists (ev : store notifier) (bi : store binding) s : state :=
  set_client (EClient (ec_dispatchers (hs_client s)) ev bi (ec_moments (hs_client s))
                (ec_pools (hs_client s)) (ec_app (hs_client s))) s.

Lemma put_lists_same s : put_lists (ec_events (hs_client s)) (ec_bindings (hs_client s)) s = s.
Proof. by destruct s as [? ? ? ? []]. Qed.

Lemma runs_load_event e n s (Q : notifier -> state -> Prop) :
  events s !! e = Some n -> Q n s -> runs (load (A := notifier) e) s Q.
Proof. intros. by eapply runs_load. Qed.

Lemma runs_load_binding l b s (Q : binding -> state -> Prop) :
  binds s !! l = Some b -> Q b s -> runs (load (A := binding) l) s Q.
Proof. intros. by eapply runs_load. Qed.

Lemma runs_update_event e n f s (Q : unit -> state -> Prop) : events s !! e = Some n ->
  Q tt (put_lists (st_set e (f n) (ec_events (hs_client s))) (ec_bindings (hs_client s)) s) ->
  runs (update e (f : notifier -> notifier)) s Q.
Proof. intros. by eapply runs_update. Qed.

Lemma runs_update_binding l b f s (Q : unit -> state -> Prop) : binds s !! l = Some b ->
  Q tt (put_lists (ec_events (hs_client s)) (st_set l (f b) (ec_bindings (hs_client s))) s) ->
  runs (update l (f : binding -> binding)) s Q.
Proof. intros. by eapply runs_update. Qed.

(** What a binding says apart from its place: the callback, the argument, whether it is
    marked for removal, and whether it was there before the current moment. *)
Definition bview : Type := CB * A * bool * bool.
Definition view_of b : bview := (b_cb b, b_arg b, b_unbound b, b_normal_bound b).
Definition views bs : list bview := view_of ∘ snd <$> bs.

Lemma views_app bs bs' : views (bs ++ bs') = views bs ++ views bs'.
Proof. apply fmap_app. Qed.

(** Redirecting the end of a list to [q], from which [post] hangs; NULL is the event. *)
Lemma chain_redirect (g : gmap loc binding) (p0 : ptr) pre p q post rest :
  chain b_next g p0 (pre ++ [(p, q)] ++ rest) -> p ∉ post.*1 ->
  forall next, chain b_next g next post ->
  chain b_next (<[p := set_next next q]> g) p0 (pre ++ [(p, set_next next q)] ++ post).
Proof.
  intros Hc Hp next Hn. cbn [app] in *. eapply chain_relink; [exact Hc| |done|exact Hn].
  by apply chain_middle_nodup in Hc as [? _].
Qed.

(** *** Finding a binding and taking it out *)

(** The outcome of taking the binding [b] at [l] out from between [pre] and [post]. *)
Definition taken_out (e : loc) (n : notifier) pre l b post s s' : Prop :=
  exists n' pre', n' = set_bindings (n_bindings n') n /\ events s' = <[e := n']> (events s) /\
    views pre' = views pre /\ pre'.*1 = pre.*1 /\
    chain b_next (binds s') (n_bindings n') (pre' ++ post) /\
    binds s' !! l = Some (set_next None b) /\
    (forall k, k ∉ (pre ++ (l, b) :: post).*1 -> binds s' !! k = binds s !! k) /\
    s' = put_lists (ec_events (hs_client s')) (ec_bindings (hs_client s')) s /\
    st_next (ec_bindings (hs_client s')) = st_next (ec_bindings (hs_client s)) /\
    st_next (ec_events (hs_client s')) = st_next (ec_events (hs_client s)).

Lemma take_out_runs e n pre l b post s (Q : ptr * ptr -> state -> Prop) :
  events s !! e = Some n -> chain b_next (binds s) (n_bindings n) (pre ++ (l, b) :: post) ->
  (forall s', taken_out e n pre l b post s s' -> Q (Some l, last pre.*1) s') ->
  runs ((match last pre.*1 with
         | None => update e (fun n : notifier =>
             Notifier (n_dispatcher n) (n_source n) (n_name n) (n_name_block n) (b_next b))
         | Some p => update p (fun q : binding =>
             Binding (b_cb q) (b_arg q) (b_next b) (b_unbound q) (b_normal_bound q))
         end);;
        update l (fun q : binding =>
          Binding (b_cb q) (b_arg q) None (b_unbound q) (b_normal_bound q));;
        mret (Some l, last pre.*1)) s Q.
Proof.
  intros He Hc HQ. pose proof (chain_drop _ _ _ _ _ _ _ Hc) as Hpost.
  pose proof (chain_middle_nodup _ _ _ _ _ _ _ Hc) as [Hl1 Hl2].
  assert (Hl : binds s !! l = Some b).
  { eapply chain_lookup; [exact Hc|]. apply elem_of_app. right. by left. }
  destruct pre as [|[p q] pre _] using rev_ind.
  - cbn [fmap list_fmap last]. run_step. eapply runs_update_event; [done|]. run_step.
    eapply (runs_update_binding l b); [done|]. run_step. apply HQ.
    exists (set_bindings (b_next b) n), []. cbn. split_and!; try done.
    + by apply chain_insert.
    + by rewrite lookup_insert_eq.
    + intros k Hk. rewrite lookup_insert_ne; [done|]. intros ->. apply Hk. by left.
  - rewrite fmap_app in *. cbn [fmap list_fmap] in *. rewrite last_snoc. run_step.
    apply not_elem_of_app in Hl1 as [Hl1 Hlp]. apply not_elem_of_cons in Hlp as [Hlp _]. cbn in Hlp.
    rewrite <- app_assoc in Hc. pose proof (chain_middle_nodup _ _ _ _ _ _ _ Hc) as [Hp1 Hp2].
    cbn [fmap list_fmap] in Hp2. apply not_elem_of_cons in Hp2 as [_ Hp2].
    eapply (runs_update_binding p q).
    { eapply chain_lookup; [exact Hc|]. apply elem_of_app. right. by left. }
    run_step. eapply (runs_update_binding l b); [cbn; by rewrite lookup_insert_ne|]. run_step.
    rewrite last_snoc in HQ. apply HQ.
    exists n, (pre ++ [(p, set_next (b_next b) q)]). rewrite !views_app, !fmap_app. cbn.
    split_and!; try done.
    + by destruct n.
    + by rewrite insert_id.
    + rewrite <- app_assoc. apply chain_insert; [by eapply chain_redirect|].
      rewrite !fmap_app. cbn. rewrite !not_elem_of_app, not_elem_of_cons. done.
    + by rewrite lookup_insert_eq.
    + intros k Hk.
      rewrite !elem_of_app, !elem_of_cons in Hk.
      rewrite !lookup_insert_ne; [done| |]; intros ->; apply Hk; auto.
Qed.

Lemma remove_binding_loop_runs cb e n bs s (Q : ptr * ptr -> state -> Prop) :
  events s !! e = Some n -> chain b_next (binds s) (n_bindings n) bs ->
  (Forall (fun x => b_cb x.2 <> cb) bs -> Q (None, last bs.*1) s) ->
  (forall pre l b post s', bs = pre ++ (l, b) :: post -> Forall (fun x => b_cb x.2 <> cb) pre ->
     b_cb b = cb -> taken_out e n pre l b post s s' -> Q (Some l, last pre.*1) s') ->
  forall rest pre fuel (p : ptr), bs = pre ++ rest -> Forall (fun x => b_cb x.2 <> cb) pre ->
    chain b_next (binds s) p rest -> (length rest < fuel)%nat ->
    runs (remove_binding_loop fuel e cb (last pre.*1) p) s Q.
Proof.
  intros He Hc H0 H1. induction rest as [|[l b] rest IH]; intros pre fuel p Eb Hpre Hp Hf;
    (destruct fuel as [|fuel]; [cbn in Hf; lia|]).
  - cbn in Hp. subst p. cbn [remove_binding_loop]. run_step. rewrite app_nil_r in Eb. subst pre. auto.
  - destruct Hp as (-> & Hl & Hp). cbn [remove_binding_loop]. run_step.
    eapply (runs_load_binding l b); [done|]. case_decide as E.
    + eapply take_out_runs; [done|by rewrite <- Eb|]. intros s' Ht. by eapply H1.
    + replace (Some l) with (last (pre ++ [(l, b)]).*1) by (by rewrite fmap_app; cbn; rewrite last_snoc).
      apply IH; [by rewrite <- app_assoc| |done|cbn in Hf; lia].
      apply Forall_app. split; [done|]. by apply Forall_singleton.
Qed.

Lemma remove_binding_runs cb e n bs s (Q : ptr * ptr -> state -> Prop) :
  events s !! e = Some n -> chain b_next (binds s) (n_bindings n) bs ->
  (Forall (fun x => b_cb x.2 <> cb) bs -> Q (None, last bs.*1) s) ->
  (forall pre l b post s', bs = pre ++ (l, b) :: post -> Forall (fun x => b_cb x.2 <> cb) pre ->
     b_cb b = cb -> taken_out e n pre l b post s s' -> Q (Some l, last pre.*1) s') ->
  runs (remove_binding e cb) s Q.
Proof.
  intros He Hc H0 H1. unfold remove_binding. run_step. eapply runs_load_event; [done|]. run_step. run_step.
  eapply (remove_binding_loop_runs cb e n bs s Q He Hc H0 H1 bs []); [done|constructor|done|].
  unfold binding_fuel. pose proof (chain_fuel _ _ _ _ Hc). lia.
Qed.

(** *** Putting a binding in *)

(** The rest of [ls_event_bind] once the binding at [l] is filled in. *)
Definition insert_binding e l (prev : ptr) : C state (res Z unit) :=
  n ← load (A := notifier) e;
  match n_bindings n, prev with
  | None, _ => update e (set_bindings (Some l))
  | Some _, Some p =>
      q ← load (A := binding) p;
      match b_next q with
      | None => update p (set_next (Some l))
      | Some next => update l (set_next (Some next));; update p (set_next (Some l))
      end
  | Some first, None =>
      update l (set_next (Some first));; update e (set_bindings (Some l))
  end;;
  mret (Ok tt).

(** Nothing but events, bindings and the allocator's answers is different. *)
Record only_lists (s0 s : state) : Prop := {
  ol_tables : hs_tables s = hs_tables s0;
  ol_arrays : hs_arrays s = hs_arrays s0;
  ol_nodes : hs_nodes s = hs_nodes s0;
  ol_dispatchers : ec_dispatchers (hs_client s) = ec_dispatchers (hs_client s0);
  ol_next : st_next (ec_events (hs_client s)) = st_next (ec_events (hs_client s0));
  ol_moments : ec_moments (hs_client s) = ec_moments (hs_client s0);
  ol_pools : ec_pools (hs_client s) = ec_pools (hs_client s0);
  ol_app : ec_app (hs_client s) = ec_app (hs_client s0) }.

Lemma only_lists_put s0 s ev bi : only_lists s0 s -> st_next ev = st_next (ec_events (hs_client s)) ->
  only_lists s0 (put_lists ev bi s).
Proof. intros [] E. split; try done. cbn. congruence. Qed.

(** The bindings of [e], apart from its place in the state [s0]: the views [vs] and
    nothing that is not in [B]. *)
Definition event_at (s0 : state) e (n : notifier) (B : gmap loc binding) (vs : list bview) s : Prop :=
  exists n' bs, n' = set_bindings (n_bindings n') n /\ events s = <[e := n']> (events s0) /\
    chain b_next (binds s) (n_bindings n') bs /\ views bs = vs /\
    without bs.*1 (binds s) = B /\ store_wf (ec_bindings (hs_client s)) /\
    only_lists s0 s.

Lemma without_perm_insert ls l (b : binding) g : l ∉ ls -> without (l :: ls) (<[l := b]> g) = without (l :: ls) g.
Proof. intros _. apply without_insert_in. by left. Qed.

(** The binding [l] is not in the list of the event [e], read as [n'], which is [bs]. *)
Record insertable s0 (e : loc) n n' B (bs : list (loc * binding)) (l : loc) (b : binding) s : Prop := {
  ib_event : n' = set_bindings (n_bindings n') n /\ events s = <[e := n']> (events s0);
  ib_chain : chain b_next (binds s) (n_bindings n') bs;
  ib_new : l ∉ bs.*1;
  ib_at : binds s !! l = Some b /\ b_next b = None;
  ib_rest : without (l :: bs.*1) (binds s) = B;
  ib_wf : store_wf (ec_bindings (hs_client s));
  ib_lists : only_lists s0 s }.

Lemma set_next_same (b : binding) (p : ptr) : b_next b = p -> set_next p b = b.
Proof. destruct b. cbn. by intros ->. Qed.

Lemma insert_first s0 e n n' B post l b bi s : insertable s0 e n n' B post l b s ->
  st_objs bi = <[l := set_next (n_bindings n') b]> (binds s) -> store_wf bi ->
  event_at s0 e n B (view_of b :: views post)
    (put_lists (st_set e (set_bindings (Some l) n') (ec_events (hs_client s))) bi s).
Proof.
  intros [[Hn He] Hc Hl [Hb Hbn] HB Hwf Hs] Hbi Hw.
  exists (set_bindings (Some l) n'), ((l, set_next (n_bindings n') b) :: post).
  cbn [hs_client put_lists set_client ec_events ec_bindings hs_oom n_bindings set_bindings st_objs st_set].
  split_and!; try done.
  - by rewrite Hn.
  - by rewrite He, insert_insert_eq.
  - cbn [chain]. rewrite Hbi. split_and!; [done|by rewrite lookup_insert_eq|]. by apply chain_insert.
  - cbn [fmap list_fmap]. rewrite Hbi, <- HB. apply without_insert_in. by left.
  - by destruct Hs.
Qed.

Lemma insert_after s0 e n n' B pre p q post l b bi s : insertable s0 e n n' B (pre ++ (p, q) :: post) l b s ->
  st_objs bi = <[p := set_next (Some l) q]> (<[l := set_next (b_next q) b]> (binds s)) -> store_wf bi ->
  event_at s0 e n B (views (pre ++ [(p, q)]) ++ view_of b :: views post) (put_lists (ec_events (hs_client s)) bi s).
Proof.
  intros [[Hn He] Hc Hl [Hb Hbn] HB Hwf Hs] E Hw.
  pose proof (chain_middle_nodup _ _ _ _ _ _ _ Hc) as [Hp1 Hp2].
  rewrite fmap_app in Hl. cbn [fmap list_fmap fst] in Hl. rewrite not_elem_of_app, not_elem_of_cons in Hl.
  destruct Hl as (Hl1 & Hlp & Hl2).
  exists n', ((pre ++ [(p, set_next (Some l) q)]) ++ (l, set_next (b_next q) b) :: post).
  cbn [hs_client put_lists set_client ec_events ec_bindings hs_oom]. split_and!; try done.
  - rewrite E, <- app_assoc.
    assert (Hc1 : chain b_next (<[l := set_next (b_next q) b]> (binds s)) (n_bindings n') (pre ++ [(p, q)] ++ post)).
    { apply chain_insert; [done|]. rewrite !fmap_app. cbn. by rewrite !not_elem_of_app, not_elem_of_cons. }
    eapply chain_redirect; [exact Hc1| |].
    + cbn [fmap list_fmap]. apply not_elem_of_cons. split; [cbn; congruence|done].
    + cbn [chain]. split_and!; [done|by rewrite lookup_insert_eq|]. apply chain_insert; [|done].
      exact (chain_drop _ _ _ _ _ _ _ Hc).
  - by rewrite !views_app.
  - rewrite E, <- HB, !fmap_app. cbn [fmap list_fmap fst].
    rewrite (without_insert_in _ p), (without_insert_in _ l).
    + apply without_ext. intros k. rewrite !elem_of_cons, !elem_of_app, !elem_of_cons. set_solver.
    + rewrite elem_of_app, elem_of_cons. auto.
    + rewrite !elem_of_app, elem_of_cons. auto.
  - by destruct Hs.
Qed.

Lemma insert_binding_runs s0 e n n' B pre post l b s (Q : res Z unit -> state -> Prop) :
  insertable s0 e n n' B (pre ++ post) l b s ->
  (forall s', event_at s0 e n B (views pre ++ view_of b :: views post) s' -> Q (Ok tt) s') ->
  runs (insert_binding e l (last pre.*1)) s Q.
Proof.
  intros Hi HQ. pose proof Hi as [[Hn He] Hc Hl [Hb Hbn] HB Hwf Hs]. unfold insert_binding.
  assert (He' : events s !! e = Some n') by (by rewrite He, lookup_insert_eq).
  assert (Hl' : is_Some (binds s !! l)) by (by rewrite Hb).
  run. eapply runs_load_event; [done|]. pose proof (chain_head _ _ _ _ Hc) as Eh.
  destruct pre as [|[p q] pre _] using rev_ind; cbn [app] in *.
  - cbn [fmap list_fmap last].
    destruct (n_bindings n') as [first|] eqn:Ef; run; [eapply runs_update_binding; [done|]; run|];
      (eapply runs_update_event; [done|]; run); apply HQ; (eapply (insert_first s0 e n n' B post l b _ s); [exact Hi| |]).
    + by rewrite Ef.
    + by apply store_wf_set.
    + rewrite Ef, set_next_same by done. symmetry. by apply insert_id.
    + done.
  - rewrite fmap_app. cbn [fmap list_fmap]. rewrite last_snoc, <- app_assoc in *. cbn [app] in *.
    assert (Hp : binds s !! p = Some q).
    { eapply chain_lookup; [exact Hc|]. apply elem_of_app. right. by left. }
    assert (Hlp : l <> p) by (intros ->; apply Hl; rewrite fmap_app; apply elem_of_app; right; by left).
    destruct (n_bindings n') as [first|] eqn:Ef; [|rewrite !fmap_app in Eh; by destruct (pre.*1)].
    run. eapply (runs_load_binding p q); [done|].
    destruct (b_next q) as [next|] eqn:En; run; [eapply runs_update_binding; [done|]; run|];
      (eapply (runs_update_binding p q); [cbn; rewrite ?lookup_insert_ne by done; done|]; run);
      apply HQ; (eapply (insert_after s0 e n n' B pre p q post l b _ s); [exact Hi| |]); cbn; rewrite ?En.
    + done.
    + by apply store_wf_set; [cbn; rewrite lookup_insert_ne|apply store_wf_set].
    + f_equal. rewrite set_next_same by done. symmetry. by apply insert_id.
    + by apply store_wf_set; [rewrite Hp|].
Qed.

(** ** Binding and unbinding *)

(** What the header promises of a list of bindings: binding a callback again replaces its
    argument and takes back a mark for removal, in its place; a new one goes to the end;
    unbinding takes it out. *)
Fixpoint bind_view (cb : CB) (arg : A) (vs : list bview) : list bview :=
  match vs with
  | [] => [(cb, arg, false, false)]
  | (c, a, u, nb) :: vs =>
      if decide (c = cb) then (cb, arg, false, nb) :: vs else (c, a, u, nb) :: bind_view cb arg vs
  end.

Fixpoint unbind_view (cb : CB) (vs : list bview) : list bview :=
  match vs with
  | [] => []
  | (c, a, u, nb) :: vs => if decide (c = cb) then vs else (c, a, u, nb) :: unbind_view cb vs
  end.

Definition bound (cb : CB) (vs : list bview) : Prop := Exists (fun v => v.1.1.1 = cb) vs.

Lemma bind_view_out cb arg pre post :
  Forall (fun x : loc * binding => b_cb x.2 <> cb) pre ->
  bind_view cb arg (views pre ++ post) = views pre ++ bind_view cb arg post /\
  unbind_view cb (views pre ++ post) = views pre ++ unbind_view cb post.
Proof.
  induction pre as [|[l b] pre IH]; [done|]. intros [H Hp]%Forall_cons. destruct (IH Hp) as [E1 E2].
  cbn. fold (views pre). rewrite !decide_False by done. by rewrite E1, E2.
Qed.

Lemma not_bound_views cb bs : Forall (fun x : loc * binding => b_cb x.2 <> cb) bs ->
  ~ bound cb (views bs).
Proof.
  intros H [v [Hv E]]%Exists_exists. apply list_elem_of_fmap in Hv as ([l b] & -> & Hin).
  rewrite Forall_forall in H. by apply (H _ Hin).
Qed.

Lemma bound_views cb pre l (b : binding) post : b_cb b = cb -> bound cb (views (pre ++ (l, b) :: post)).
Proof.
  intros E. apply Exists_exists. exists (view_of b). split; [|done].
  rewrite views_app. apply elem_of_app. right. by left.
Qed.

Lemma taken_out_event_at s0 e n n0 B pre l b post s s' :
  n = set_bindings (n_bindings n) n0 -> events s = <[e := n]> (events s0) ->
  chain b_next (binds s) (n_bindings n) (pre ++ (l, b) :: post) ->
  without (pre ++ (l, b) :: post).*1 (binds s) = B -> store_wf (ec_bindings (hs_client s)) ->
  only_lists s0 s ->
  taken_out e n pre l b post s s' ->
  exists n' pre', n' = set_bindings (n_bindings n') n0 /\ events s' = <[e := n']> (events s0) /\
    views pre' = views pre /\ pre'.*1 = pre.*1 /\
    chain b_next (binds s') (n_bindings n') (pre' ++ post) /\
    l ∉ (pre' ++ post).*1 /\ binds s' !! l = Some (set_next None b) /\
    without (l :: (pre' ++ post).*1) (binds s') = B /\ store_wf (ec_bindings (hs_client s')) /\
    only_lists s0 s'.
Proof.
  intros Hn He Hc HB Hwf Hs (n' & pre' & Hn' & He' & Hv & Hl & Hc' & Hlk & Hout & Hs' & Hnext & Hnev).
  exists n', pre'. pose proof (chain_middle_nodup _ _ _ _ _ _ _ Hc) as [Hl1 Hl2].
  split_and!; try done.
  - by rewrite Hn', Hn.
  - by rewrite He', He, insert_insert_eq.
  - by rewrite fmap_app, Hl, not_elem_of_app.
  - rewrite <- HB. apply map_eq. intros k. rewrite !lookup_without.
    assert (Hiff : k ∈ l :: (pre' ++ post).*1 <-> k ∈ (pre ++ (l, b) :: post).*1).
    { rewrite !fmap_app, Hl. cbn. rewrite elem_of_cons, !elem_of_app, elem_of_cons. tauto. }
    repeat case_decide; try tauto. by apply Hout.
  - intros k Hk. rewrite Hnext. destruct (decide (k ∈ (pre ++ (l, b) :: post).*1)) as [Hin|Hin].
    + apply Hwf. apply list_elem_of_fmap in Hin as ([k' bk] & -> & Hin).
      cbn. rewrite (chain_lookup _ _ _ _ _ _ Hc Hin). eauto.
    + rewrite Hout in Hk by done. by apply Hwf.
  - rewrite Hs'. by apply only_lists_put.
Qed.

Lemma ls_event_bind_runs s0 e n B vs cb arg s : event_at s0 e n B vs s ->
  runs (ls_event_bind e cb arg) s (fun r s' =>
    match r with
    | Ok _ => event_at s0 e n B (bind_view cb arg vs) s'
    | Err x => x = LS_ERR_NO_MEMORY /\ ~ bound cb vs /\ event_at s0 e n B vs s'
    end).
Proof.
  intros (n' & bs & Hn & He & Hc & <- & HB & Hwf & Hs). unfold ls_event_bind.
  assert (He' : events s !! e = Some n') by (by rewrite He, lookup_insert_eq).
  run_step. eapply runs_load_event; [done|]. run_step.
  eapply remove_binding_runs; [done|done| |].
  - intros Hnot. run_step. pose proof (not_bound_views _ _ Hnot) as Hnb.
    pose proof (store_wf_fresh _ Hwf) as Hf.
    apply runs_new; cbn beta iota.
    + run. split_and!; [done..|]. exists n', bs. split_and!; try done. by destruct Hs.
    + set (b := Binding cb arg None false false). set (l := st_next (ec_bindings (hs_client s))) in *.
      assert (Hlbs : l ∉ bs.*1).
      { intros ([k bk] & E & Hin)%list_elem_of_fmap. cbn in E.
        pose proof (chain_lookup _ _ _ _ _ _ Hc Hin) as Hk. rewrite <- E, Hf in Hk. done. }
      change (runs (insert_binding e l (last bs.*1))
        (put_lists (ec_events (hs_client s)) (st_add b (ec_bindings (hs_client s))) (with_oom (tail (hs_oom s)) s))
        (fun r s' => match r with
                     | Ok _ => event_at s0 e n B (bind_view cb arg (views bs)) s'
                     | Err x => x = LS_ERR_NO_MEMORY /\ ~ bound cb (views bs) /\ event_at s0 e n B (views bs) s'
                     end)).
      eapply (insert_binding_runs s0 e n n' B bs [] l b).
      { rewrite app_nil_r. split; cbn; [done|by apply chain_insert|done|by rewrite lookup_insert_eq
          |exact (eq_trans (without_cons_new _ _ _ _ Hf) HB)|by apply store_wf_add|by destruct Hs]. }
      { intros s' Hs'. cbn [views fmap list_fmap] in Hs'. destruct (bind_view_out cb arg bs [] Hnot) as [E _].
        rewrite app_nil_r in E. rewrite E. exact Hs'. }
  - intros pre l b post s1 -> Hpre Hb Ht.
    eapply taken_out_event_at in Ht as (n1 & pre1 & Hn1 & He1 & Hv1 & Hl1 & Hc1 & Hnin & Hlk & HB1 & Hwf1 & Hs1);
      [|done..].
    cbn [fst snd]. run. eapply runs_update_binding; [exact Hlk|]. apply runs_ret. cbn beta iota.
    set (b' := Binding cb arg None false (b_normal_bound b)). rewrite <- Hl1.
    change (runs (insert_binding e l (last pre1.*1))
      (put_lists (ec_events (hs_client s1)) (st_set l b' (ec_bindings (hs_client s1))) s1)
      (fun r s' => match r with
                   | Ok _ => event_at s0 e n B (bind_view cb arg (views (pre ++ (l, b) :: post))) s'
                   | Err x => x = LS_ERR_NO_MEMORY /\ ~ bound cb (views (pre ++ (l, b) :: post)) /\
                              event_at s0 e n B (views (pre ++ (l, b) :: post)) s'
                   end)).
    eapply (insert_binding_runs s0 e n n1 B pre1 post l b').
    + split; cbn; [done|by apply chain_insert|done|by rewrite lookup_insert_eq|exact (eq_trans (without_insert_in _ _ _ _ (list_elem_of_here _ _)) HB1)
        |by apply store_wf_set; [rewrite Hlk|]|by destruct Hs1].
    + intros s' Hs'. rewrite views_app. destruct (bind_view_out cb arg pre (views ((l, b) :: post)) Hpre) as [E _].
      rewrite E. cbn [views fmap list_fmap bind_view compose snd view_of]. rewrite decide_True by done.
      rewrite Hv1 in Hs'. exact Hs'.
Qed.

Lemma ls_event_unbind_runs s0 e n B vs cb d s : event_at s0 e n B vs s ->
  st_objs (ec_dispatchers (hs_client s0)) !! n_dispatcher n = Some d -> d_running d <> Some e ->
  runs (ls_event_unbind e cb) s (fun _ s' => event_at s0 e n B (unbind_view cb vs) s').
Proof.
  intros (n' & bs & Hn & He & Hc & <- & HB & Hwf & Hs) Hd Hrun. unfold ls_event_unbind.
  assert (He' : events s !! e = Some n') by (by rewrite He, lookup_insert_eq).
  run_step. eapply runs_load_event; [done|]. run_step.
  apply (runs_load _ d); [by rewrite Hn; cbn; rewrite (ol_dispatchers _ _ Hs)|]. rewrite decide_False by done. run_step.
  eapply remove_binding_runs; [done|done| |].
  - intros Hnot. cbn [fst]. run_step. exists n', bs. split_and!; try done.
    clear -Hnot EqCB. induction Hnot as [|[l b] bs Hb _ IH]; [done|]. cbn. fold (views bs).
    rewrite decide_False by done. by f_equal.
  - intros pre l b post s1 -> Hpre Hb Ht.
    eapply taken_out_event_at in Ht as (n1 & pre1 & Hn1 & He1 & Hv1 & Hl1 & Hc1 & Hnin & Hlk & HB1 & Hwf1 & Hs1);
      [|done..].
    cbn [fst]. eapply runs_release; [eexists; exact Hlk|].
    exists n1, (pre1 ++ post). cbn. split_and!; try done.
    + by apply chain_delete.
    + rewrite !views_app, Hv1. cbn. fold (views post).
      clear -Hpre Hb EqCB. induction Hpre as [|[l' b'] pre Hb' _ IH]; cbn.
      * by rewrite decide_True.
      * fold (views pre). rewrite decide_False by done. by f_equal.
    + by rewrite without_delete.
    + by apply store_wf_del.
    + by destruct Hs1.
Qed.

(** *** Sessions *)
Inductive bind_op := Bind (cb : CB) (arg : A) | Unbind (cb : CB).

Definition run_bind_op e (op : bind_op) : C state (res Z unit) :=
  match op with
  | Bind cb arg => ls_event_bind e cb arg
  | Unbind cb => ls_event_unbind e cb;; mret (Ok tt)
  end.

Fixpoint run_bind_ops e (ops : list bind_op) : C state (list (res Z unit)) :=
  match ops with
  | [] => mret []
  | op :: ops => r ← run_bind_op e op; rs ← run_bind_ops e ops; mret (r :: rs)
  end.

(** The same on the abstract list: a bind that was refused changes nothing. *)
Fixpoint bind_views (ops : list bind_op) (rs : list (res Z unit)) (vs : list bview) : list bview :=
  match ops, rs with
  | Bind cb arg :: ops, Ok _ :: rs => bind_views ops rs (bind_view cb arg vs)
  | Unbind cb :: ops, _ :: rs => bind_views ops rs (unbind_view cb vs)
  | _ :: ops, _ :: rs => bind_views ops rs vs
  | _, _ => vs
  end.

Lemma run_bind_ops_runs s0 e n B d ops : forall vs s, event_at s0 e n B vs s ->
  st_objs (ec_dispatchers (hs_client s0)) !! n_dispatcher n = Some d -> d_running d <> Some e ->
  runs (run_bind_ops e ops) s (fun rs s' =>
    length rs = length ops /\ Forall (fun r => forall x, r = Err x -> x = LS_ERR_NO_MEMORY) rs /\
    event_at s0 e n B (bind_views ops rs vs) s').
Proof.
  induction ops as [|op ops IH]; intros vs s Hat Hd Hrun; cbn [run_bind_ops].
  { by run_step. }
  assert (Hrest : forall r vs' s', event_at s0 e n B vs' s' ->
    (forall x, r = Err x -> x = LS_ERR_NO_MEMORY) ->
    (forall rs, bind_views (op :: ops) (r :: rs) vs = bind_views ops rs vs') ->
    runs (rs ← run_bind_ops e ops; mret (r :: rs)) s' (fun rs s' =>
      length rs = length (op :: ops) /\ Forall (fun r => forall x, r = Err x -> x = LS_ERR_NO_MEMORY) rs /\
      event_at s0 e n B (bind_views (op :: ops) rs vs) s')).
  { intros r vs' s' Hat' Hr Hv. run_step. eapply runs_conseq; [by eapply IH|].
    intros rs s2 (Hl & Hrs & Hat2). run_step. split_and!; [cbn; lia|by constructor|by rewrite Hv]. }
  run_step. destruct op as [cb arg|cb]; cbn [run_bind_op].
  - eapply runs_conseq; [by eapply ls_event_bind_runs|]. intros [[]|x] s1 H.
    + by eapply Hrest.
    + destruct H as (-> & _ & H). eapply Hrest; [done|by intros ? [= <-]|done].
  - run_step. eapply runs_conseq; [by eapply ls_event_unbind_runs|]. intros [] s1 H. run_step.
    by eapply Hrest.
Qed.

(** C15: the bindings of an event are a list of callbacks with their arguments.  Any
    sequence of binds and unbinds on an event that is not running ends without a fault with
    the list that the same operations on the abstract list give: a callback is there at most
    once, in the order of the first bind, with the argument of the latest (the header says
    that to bind a callback again has no effect; the code replaces its argument); a bind
    fails only for memory; no binding leaks, and no other binding, event or state is
    touched. *)
Theorem event_bindings_session e n bs d ops s : events s !! e = Some n ->
  chain b_next (binds s) (n_bindings n) bs -> store_wf (ec_bindings (hs_client s)) ->
  st_objs (ec_dispatchers (hs_client s)) !! n_dispatcher n = Some d -> d_running d <> Some e ->
  runs (run_bind_ops e ops) s (fun rs s' =>
    length rs = length ops /\ Forall (fun r => forall x, r = Err x -> x = LS_ERR_NO_MEMORY) rs /\
    event_at s e n (without bs.*1 (binds s)) (bind_views ops rs (views bs)) s').
Proof.
  intros He Hc Hwf Hd Hrun. eapply run_bind_ops_runs; [|done..]. exists n, bs.
  split_and!; try done; [by destruct n|by rewrite insert_id].
Qed.
End bindings.

(** *** An example: one event, and the session bind 1, bind 2, bind 1 again, unbind 2. *)
Abbreviation ex_state := (estate Z unit Z Z unit).

Definition ex_dispatch : ls_event_dispatch Z := Dispatch 0 1 None None None false.
Definition ex_notifier : ls_event_notifier Z := Notifier 1 0 [101] 1 None.

Definition event_ex : ex_state :=
  HState store_empty store_empty store_empty [false; true]
    (EClient (Store {[1%positive := ex_dispatch]} 2) (Store {[1%positive := ex_notifier]} 2)
       store_empty store_empty (pstate_init []) tt).

Lemma event_bindings_session_witness :
  let ops := [Bind 1 10; Bind 2 20; Bind 2 30; Bind 1 40; Unbind 2; Unbind 3] in
  runs (run_bind_ops 1%positive ops) event_ex (fun rs s' =>
    length rs = length ops /\ Forall (fun r => forall x, r = Err x -> x = LS_ERR_NO_MEMORY) rs /\
    event_at event_ex 1%positive ex_notifier ∅ (bind_views ops rs []) s').
Proof.
  intros ops.
  refine (event_bindings_session 1%positive ex_notifier [] ex_dispatch ops event_ex _ _ _ _ _).
  - reflexivity.
  - reflexivity.
  - apply store_wf_empty.
  - reflexivity.
  - discriminate.
Defined.
