(* ===== verification/EventDispatch.v ===== *)
(** The dispatch of events: which callbacks a trigger runs, and in what order, for
    src/ls_eventing.c as modelled in LsEventing.v. *)

From S2P Require Import Prelude LsError LsMem PoolUse Store LsHtable LsEventing EventBindings.
Open Scope Z_scope.

(** One of the allocations of a trigger fails, in a heap like [ps]. *)
Definition no_moment (ps : pstate) : Prop := exists e ps', prepare_moment ps = Done (Err e, ps').

Section dispatch.
Context {CB RCB A D X : Type} `{EqCB : !EqDecision CB}.
Abbreviation binding := (ls_event_binding CB A).
Abbreviation notifier := (ls_event_notifier A).
Abbreviation moment := (ls_event_moment RCB A D).
Abbreviation dispatcher := (ls_event_dispatch A).
Abbreviation state := (estate CB RCB A D X).
Abbreviation events s := (st_objs (ec_events (hs_client s))).
Abbreviation binds s := (st_objs (ec_bindings (hs_client s))).
Abbreviation moments s := (st_objs (ec_moments (hs_client s))).
Abbreviation dispatchers s := (st_objs (ec_dispatchers (hs_client s))).
Abbreviation pools s := (ec_pools (hs_client s)).
Abbreviation app s := (ec_app (hs_client s)).

(** ** Callbacks that act on the program's state and trigger events

    [prog cb event data handled arg] acts on the program's state, says what it leaves in
    the [handled] flag, and which events it triggers, in order; [rprog] is the same for
    result callbacks, which trigger none. *)
Context (prog : CB -> loc -> D -> bool -> A -> C X (bool * list (loc * D))).
Context (rprog : RCB -> loc -> D -> bool -> A -> C X unit).

(** The callbacks of a nested call: it only queues, so it runs none. *)
Definition no_callback (cb : CB) (m : loc) (a : A) : C state unit := c_fault AssertFail.
Definition no_result (r : RCB) (m : loc) (h : bool) (a : A) : C state unit := c_fault AssertFail.

Fixpoint trigger_all (a0 : A) (ts : list (loc * D)) : C state unit :=
  match ts with
  | [] => mret tt
  | (e, data) :: ts =>
      _ ← ls_event_trigger no_callback no_result 0 e data None a0;
      trigger_all a0 ts
  end.

Definition scripted (cb : CB) (ml : loc) (arg : A) : C state unit :=
  m ← load (A := moment) ml;
  let evt := m_evt m in
  r ← on_app (prog cb (ev_notifier evt) (ev_data evt) (ev_handled evt) arg);
  trigger_all arg r.2;;
  update ml (on_evt (set_handled r.1)).

Definition scripted_result (r : RCB) (ml : loc) (handled : bool) (arg : A) : C state unit :=
  m ← load (A := moment) ml;
  on_app (rprog r (ev_notifier (m_evt m)) (ev_data (m_evt m)) handled arg).

(** ** What dispatching promises

    The events with bindings are [E]; an item of the queue is an event, its data, the
    result callback with its argument, and the handled flag. *)
Context (E : gmap loc (list (CB * A))).
(** What is promised about the data of each event. *)
Context (G : loc -> D -> Prop).
Definition item : Type := loc * D * option RCB * A * bool.
Definition nested (a : A) (t : loc * D) : item := (t.1, t.2, None, a, false).

(** The callbacks of one moment, each once, in order, each seeing whether an earlier one
    handled the event; the triggers that there was memory for, with the argument of the
    callback that made them, in order. *)
Inductive calls (e : loc) (data : D) : list (CB * A) -> bool -> X -> list item -> bool -> X -> Prop :=
  | calls_nil h x : calls e data [] h x [] h x
  | calls_cons cb a bs h x h1 ts ts' x1 its h' x' :
      prog cb e data h a x = Done ((h1, ts), x1) -> ts' `sublist_of` ts ->
      calls e data bs (h || h1) x1 its h' x' ->
      calls e data ((cb, a) :: bs) h x ((nested a <$> ts') ++ its) h' x'.

Inductive result_called (e : loc) (data : D) (a : A) (h : bool) : option RCB -> X -> X -> Prop :=
  | result_none x : result_called e data a h None x x
  | result_some r x x' : rprog r e data h a x = Done (tt, x') -> result_called e data a h (Some r) x x'.

(** The whole queue: first in, first out; what a moment triggers goes to the end. *)
Inductive delivered : list item -> X -> X -> Prop :=
  | delivered_nil x : delivered [] x x
  | delivered_cons e data rc ra h vs q x its h' x1 x2 x3 :
      E !! e = Some vs -> calls e data vs h x its h' x1 ->
      result_called e data ra h' rc x1 x2 -> delivered (q ++ its) x2 x3 ->
      delivered ((e, data, rc, ra, h) :: q) x x3.

(** ** The invariant *)

Definition item_of (m : moment) : item :=
  (ev_notifier (m_evt m), ev_data (m_evt m), m_result_cb m, m_result_arg m, ev_handled (m_evt m)).
Definition items (q : list (loc * moment)) : list item := item_of ∘ snd <$> q.
Definition moment_pools (q : list (loc * moment)) : list loc := ev_pool ∘ m_evt ∘ snd <$> q.

Definition unflag (b : binding) : binding :=
  Binding (b_cb b) (b_arg b) (b_next b) (b_unbound b) false.

Definition cb_of (x : loc * binding) : CB * A := (b_cb x.2, b_arg x.2).

(** The events of [E] are there, belong to [d] and have these bindings, none of them
    marked for removal. *)
Definition events_ok (d : loc) (s : state) : Prop := forall e vs, E !! e = Some vs ->
  exists n bs, events s !! e = Some n /\ n_dispatcher n = d /\
    chain b_next (binds s) (n_bindings n) bs /\ cb_of <$> bs = vs /\
    Forall (fun x => b_unbound x.2 = false) bs.

Definition moment_ok (s0 : state) (m : moment) : Prop := exists n vs,
  events s0 !! ev_notifier (m_evt m) = Some n /\ E !! ev_notifier (m_evt m) = Some vs /\
  m_bindings m = n_bindings n /\ G (ev_notifier (m_evt m)) (ev_data (m_evt m)).

(** The same bindings, apart from the flag that a moment sets. *)
Definition same_bindings (st st' : store binding) : Prop :=
  st_next st' = st_next st /\ forall l, unflag <$> st_objs st' !! l = unflag <$> st_objs st !! l.

(** Since [s0] the dispatcher [d] took in [q], is running [run], and nothing but its queue,
    the moments there with their pools, the binding flags and the program's state
    changed. *)
Record dispatching (s0 : state) (d : loc) (dd : dispatcher) (run : ptr)
    (q : list (loc * moment)) (s : state) : Prop := {
  dg_rest : hs_tables s = hs_tables s0 /\ hs_arrays s = hs_arrays s0 /\ hs_nodes s = hs_nodes s0 /\
    hs_oom s = hs_oom s0 /\ ec_events (hs_client s) = ec_events (hs_client s0);
  dg_dispatch : dispatchers s =
    <[d := Dispatch (d_source dd) (d_events dd) run (last q.*1) (head q.*1) false]> (dispatchers s0);
  dg_chain : chain m_next_moment (moments s) (head q.*1) q;
  dg_leak : without q.*1 (moments s) = moments s0;
  dg_wf : store_wf (ec_moments (hs_client s));
  dg_items : Forall (fun x => moment_ok s0 x.2) q;
  dg_pools : owns (pools s0) (moment_pools q) (pools s);
  dg_flags : same_bindings (ec_bindings (hs_client s0)) (ec_bindings (hs_client s)) }.

(** *** Steps *)
Definition put_dispatchers (st : store dispatcher) (s : state) : state :=
  set_client (EClient st (ec_events (hs_client s)) (ec_bindings (hs_client s)) (ec_moments (hs_client s))
                (pools s) (app s)) s.
Definition put_moments (st : store moment) (s : state) : state :=
  set_client (EClient (ec_dispatchers (hs_client s)) (ec_events (hs_client s))
                (ec_bindings (hs_client s)) st (pools s) (app s)) s.
Definition put_epools (p : pstate) (s : state) : state := set_client (set_epools p (hs_client s)) s.
Definition put_app (x : X) (s : state) : state := set_client (set_app x (hs_client s)) s.

Lemma runs_update_dispatch d dd f s (Q : unit -> state -> Prop) : dispatchers s !! d = Some dd ->
  Q tt (put_dispatchers (st_set d (f dd) (ec_dispatchers (hs_client s))) s) ->
  runs (update d (f : dispatcher -> dispatcher)) s Q.
Proof. intros. by eapply runs_update. Qed.

Lemma runs_update_moment l m f s (Q : unit -> state -> Prop) : moments s !! l = Some m ->
  Q tt (put_moments (st_set l (f m) (ec_moments (hs_client s))) s) ->
  runs (update l (f : moment -> moment)) s Q.
Proof. intros. by eapply runs_update. Qed.

Lemma runs_load_dispatch d dd s (Q : dispatcher -> state -> Prop) :
  dispatchers s !! d = Some dd -> Q dd s -> runs (load (A := dispatcher) d) s Q.
Proof. intros. by eapply runs_load. Qed.

Lemma runs_load_moment l m s (Q : moment -> state -> Prop) :
  moments s !! l = Some m -> Q m s -> runs (load (A := moment) l) s Q.
Proof. intros. by eapply runs_load. Qed.

Lemma runs_on_app {T} (m : C X T) s (Q : T -> state -> Prop) :
  runs m (app s) (fun r x => Q r (put_app x s)) -> runs (on_app m) s Q.
Proof. intros H. apply runs_zoom, runs_zoom. eapply runs_conseq; [exact H|]. done. Qed.

Lemma dispatching_lookup s0 d dd run q s : dispatching s0 d dd run q s ->
  dispatchers s !! d = Some (Dispatch (d_source dd) (d_events dd) run (last q.*1) (head q.*1) false).
Proof. intros []. by rewrite dg_dispatch0, lookup_insert_eq. Qed.

Lemma dispatching_app s0 d dd run q s x : dispatching s0 d dd run q s ->
  dispatching s0 d dd run q (put_app x s).
Proof. by intros []. Qed.

Lemma dispatching_event s0 d dd run q s e vs : dispatching s0 d dd run q s -> events_ok d s0 ->
  E !! e = Some vs -> exists n, events s !! e = Some n /\ n_dispatcher n = d /\ events s0 !! e = Some n.
Proof.
  intros [] Hok He. destruct (Hok e vs He) as (n & bs & Hn & Hd & _). exists n.
  destruct dg_rest0 as (_ & _ & _ & _ & ->). done.
Qed.

(** The moment at the head of the queue. *)
Lemma dispatching_head s0 d dd run l m q s : dispatching s0 d dd run ((l, m) :: q) s ->
  moments s !! l = Some m.
Proof. intros []. by destruct dg_chain0 as (_ & ? & _). Qed.

(** Its fields changed, the link to the next one apart. *)
Lemma dispatching_set_head s0 d dd run l m m' q s : dispatching s0 d dd run ((l, m) :: q) s ->
  m_next_moment m' = m_next_moment m -> m_bindings m' = m_bindings m ->
  ev_notifier (m_evt m') = ev_notifier (m_evt m) -> ev_data (m_evt m') = ev_data (m_evt m) ->
  ev_pool (m_evt m') = ev_pool (m_evt m) ->
  dispatching s0 d dd run ((l, m') :: q) (put_moments (st_set l m' (ec_moments (hs_client s))) s).
Proof.
  intros [H1 H2 H3 H4 H5 H6 H7 H8] En Eb Ee Eda Ep. pose proof (chain_nodup _ _ _ _ H3) as Hnd.
  cbn in Hnd. apply NoDup_cons in Hnd as [Hl _]. cbn in H3. destruct H3 as (_ & Hm & H3).
  split; try done.
  - cbn. split_and!; [done|by rewrite lookup_insert_eq|]. rewrite En. by apply chain_insert.
  - cbn [fmap list_fmap fst put_moments hs_client set_client ec_moments st_set st_objs] in *.
    by rewrite without_insert_in by (by left).
  - apply store_wf_set; [by rewrite Hm|done].
  - apply Forall_cons in H6 as [H6 H6']. constructor; [|done]. destruct H6 as (n & vs & ? & ? & ? & ?).
    exists n, vs. cbn in *. by rewrite Ee, Eb, Eda.
  - unfold moment_pools in *. cbn in *. by rewrite Ep.
Qed.

(** *** A trigger joins the queue *)
Lemma prepare_moment_keeps ps (Q : res Z loc -> pstate -> Prop) : mem_wf (ps_mem ps) ->
  (forall ps', same_heap ps ps' -> Q (Err LS_ERR_NO_MEMORY) ps') ->
  (forall p ps', pool_keeps ps p ps' -> Q (Ok p) ps') ->
  runs prepare_moment ps Q.
Proof.
  intros Hwf H0 H1. unfold prepare_moment. run_step.
  apply pool_create_keeps; [done|done|intros; run_step; by apply H0|]. intros p s1 Hk. run_step.
  eapply runs_conseq; [by apply pool_calloc_keeps|]. intros r s2 [Hk2 He]. destruct r as [a|e]; cbn beta iota.
  - run_step. eapply runs_conseq; [by apply pool_malloc_keeps|]. intros r s3 [Hk3 He3].
    destruct r as [b|e]; cbn beta iota; [run_step; by apply H1|]. rewrite (He3 e eq_refl).
    run_step. eapply pool_keeps_destroy; [done|]. intros s4 Hs. run_step. by apply H0.
  - rewrite (He e eq_refl). run_step. eapply pool_keeps_destroy; [done|].
    intros s4 Hs. run_step. by apply H0.
Qed.

Lemma prepare_moment_runs ps (Q : res Z loc -> pstate -> Prop) : mem_wf (ps_mem ps) ->
  (forall ps', same_heap ps ps' -> no_moment ps -> Q (Err LS_ERR_NO_MEMORY) ps') ->
  (forall p ps', pool_keeps ps p ps' -> Q (Ok p) ps') ->
  runs prepare_moment ps Q.
Proof.
  intros Hwf H0 H1. eapply runs_conseq.
  - apply runs_eq, (prepare_moment_keeps ps (fun r ps' => match r with
      | Ok p => pool_keeps ps p ps' | Err e => e = LS_ERR_NO_MEMORY /\ same_heap ps ps' end)); done.
  - intros [p|e] ps' [Er HQ]; [by apply H1|]. destruct HQ as [-> HQ]. apply H0; [done|]. by eexists _, _.
Qed.

Lemma dispatching_epools s0 d dd run q s p : dispatching s0 d dd run q s -> same_heap (pools s) p ->
  dispatching s0 d dd run q (put_epools p s).
Proof. intros [] Hp. split; try done. by eapply owns_same. Qed.

(** The dispatcher's list, once it ends with the new moment. *)
Lemma queue_end_runs {T} s0 d dd run q q' l ps st s (k : C state T) (Q : T -> state -> Prop) :
  dispatching s0 d dd run q s -> q'.*1 = q.*1 ++ [l] -> Forall (fun x => moment_ok s0 x.2) q' ->
  store_wf st -> without (q.*1 ++ [l]) (st_objs st) = moments s0 ->
  chain m_next_moment (st_objs st) (match head q.*1 with None => Some l | p => p end) q' ->
  owns (pools s0) (moment_pools q') ps ->
  (forall s', dispatching s0 d dd run q' s' -> app s' = app s ->
     ec_bindings (hs_client s') = ec_bindings (hs_client s) -> runs k s' Q) ->
  runs (update d (fun d => set_queue (match d_next_moment d with None => Some l | p => p end) (Some l) d);; k)
    (put_moments st (put_epools ps s)) Q.
Proof.
  intros Hd Eq Hq' Hst Hw Hc Hps HK. pose proof (dispatching_lookup _ _ _ _ _ _ Hd) as Hdl.
  destruct Hd as [H1 H2 H3 H4 H5 H6 H7 H8]. run_step. eapply runs_update_dispatch; [exact Hdl|].
  apply HK; [|done|done]. split.
  - exact H1.
  - cbn. rewrite H2, insert_insert_eq, Eq, last_snoc. f_equal. unfold set_queue. cbn.
    f_equal. by destruct (q.*1).
  - cbn. rewrite Eq. revert Hc. by destruct (q.*1).
  - by rewrite Eq.
  - done.
  - done.
  - exact Hps.
  - exact H8.
Qed.

(** The new moment at the end of the list. *)
Lemma enqueue_runs {T} s0 d dd run q l m ps s (k : C state T) (Q : T -> state -> Prop) :
  dispatching s0 d dd run q s -> l = st_next (ec_moments (hs_client s)) ->
  m_next_moment m = None -> moment_ok s0 m ->
  owns (pools s0) (moment_pools q ++ [ev_pool (m_evt m)]) ps ->
  (forall s' q', q'.*1 = q.*1 ++ [l] -> items q' = items q ++ [item_of m] ->
     dispatching s0 d dd run q' s' -> app s' = app s -> ec_bindings (hs_client s') = ec_bindings (hs_client s) ->
     runs k s' Q) ->
  runs ((match last q.*1 with
         | Some t => update t (link_moment l)
         | None => mret tt
         end);;
        update d (fun d => set_queue (match d_next_moment d with None => Some l | p => p end) (Some l) d);;
        k) (put_moments (st_add m (ec_moments (hs_client s))) (put_epools ps s)) Q.
Proof.
  intros Hd -> Hm Hmo Hps HK. set (l := st_next (ec_moments (hs_client s))).
  assert (Hmom : forall q', q'.*1 = q.*1 ++ [l] -> Forall (fun x => moment_ok s0 x.2) q' ->
     items q' = items q ++ [item_of m] -> moment_pools q' = moment_pools q ++ [ev_pool (m_evt m)] ->
     forall st, store_wf st -> without (q.*1 ++ [l]) (st_objs st) = moments s0 ->
     chain m_next_moment (st_objs st) (match head q.*1 with None => Some l | p => p end) q' ->
     runs (update d (fun d => set_queue (match d_next_moment d with None => Some l | p => p end) (Some l) d);; k)
       (put_moments st (put_epools ps s)) Q).
  { intros q' Eq Hq' Hit Hpq st Hst Hw Hc. eapply (queue_end_runs s0 d dd run q q'); try done.
    - by rewrite Hpq.
    - intros s' ???. by apply (HK s' q'). }
  destruct Hd as [H1 H2 H3 H4 H5 H6 H7 H8]. pose proof (store_wf_fresh _ H5) as Hf. fold l in Hf.
  assert (Hl : l ∉ q.*1).
  { intros ([k' mk] & Ek & Hin)%list_elem_of_fmap. cbn in Ek.
    pose proof (chain_lookup _ _ _ _ _ _ H3 Hin) as Hk. rewrite <- Ek in Hk. congruence. }
  destruct q as [|[t mt] q _] using rev_ind.
  - cbn [fmap list_fmap last]. run_step. apply runs_ret. eapply (Hmom [(l, m)]); try done.
    + by constructor.
    + by apply store_wf_add.
    + cbn. rewrite delete_insert_id by done. exact H4.
    + cbn. split_and!; [done|by rewrite lookup_insert_eq|done].
  - rewrite fmap_app in *. cbn [fmap list_fmap fst] in *. rewrite last_snoc in *. run_step.
    assert (Ht : moments s !! t = Some mt).
    { eapply chain_lookup; [exact H3|]. apply elem_of_app. right. by left. }
    assert (Hlt : l <> t) by (intros ->; congruence).
    eapply (runs_update_moment t mt); [cbn; by rewrite lookup_insert_ne|].
    set (st := st_set t (link_moment l mt) (st_add m (ec_moments (hs_client s)))).
    apply Hmom with (st := st) (q' := (q ++ [(t, link_moment l mt)]) ++ [(l, m)]); rewrite ?fmap_app; try done.
    + apply Forall_app in H6 as [H6 H6']. apply Forall_app. split; [|by constructor].
      apply Forall_app. split; [done|]. rewrite Forall_singleton in H6'. apply Forall_singleton. exact H6'.
    + unfold items. by rewrite !fmap_app.
    + unfold moment_pools. by rewrite !fmap_app.
    + apply store_wf_set; [cbn; rewrite lookup_insert_ne; [eauto|done]|by apply store_wf_add].
    + unfold st. cbn. rewrite without_insert_in by (rewrite !elem_of_app; left; right; by left).
      rewrite <- H4. apply map_eq. intros k'. rewrite !lookup_without.
      destruct (decide (k' = l)) as [->|Hne].
      * rewrite decide_True by (apply elem_of_app; right; by left). by rewrite Hf; case_decide.
      * rewrite lookup_insert_ne by done. apply decide_ext. set_solver.
    + replace (match head (q.*1 ++ [t]) with Some p => Some p | None => Some l end)
        with (head (q.*1 ++ [t])) by (by destruct (q.*1)).
      rewrite <- app_assoc. unfold st. cbn [st_objs st_set st_add].
      eapply chain_set_last; [|done| |].
      * apply chain_insert; [exact H3|]. rewrite fmap_app. exact Hl.
      * cbn. apply not_elem_of_cons. split; [congruence|apply not_elem_of_nil].
      * cbn. split_and!; [done|by rewrite lookup_insert_eq|done].
Qed.

(** What [dispatch_trigger] does once the moment is in the queue. *)
Definition after_enqueue (call : CB -> loc -> A -> C state unit)
    (call_r : RCB -> loc -> bool -> A -> C state unit) (fuel : nat) (d : loc) : C state unit :=
  dd ← load (A := dispatcher) d;
  match d_running dd with
  | Some _ => mret tt
  | None =>
      drain call call_r fuel fuel d;;
      dd ← load (A := dispatcher) d;
      if d_destroy_pending dd then ls_event_dispatcher_destroy d else mret tt
  end.

Lemma trigger_enqueues s0 d dd run q s e vs data rc ra call call_r fuel
    (Q : res Z unit -> state -> Prop) :
  dispatching s0 d dd run q s -> events_ok d s0 -> E !! e = Some vs -> G e data ->
  (forall s', dispatching s0 d dd run q s' -> app s' = app s ->
     ec_bindings (hs_client s') = ec_bindings (hs_client s) -> no_moment (pools s) ->
     Q (Err LS_ERR_NO_MEMORY) s') ->
  (forall s' q' l, q'.*1 = q.*1 ++ [l] -> items q' = items q ++ [(e, data, rc, ra, false)] ->
     dispatching s0 d dd run q' s' -> app s' = app s ->
     ec_bindings (hs_client s') = ec_bindings (hs_client s) ->
     runs (after_enqueue call call_r fuel d) s' (fun _ s'' => Q (Ok tt) s'')) ->
  runs (ls_event_trigger call call_r fuel e data rc ra) s Q.
Proof.
  intros Hd Hok He HG H0 H1.
  destruct (dispatching_event _ _ _ _ _ _ _ _ Hd Hok He) as (n & Hn & Hnd & Hn0).
  unfold ls_event_trigger. run_step. apply (runs_load_event e n); [done|]. run_step.
  unfold prepare_trigger. apply runs_zoom, runs_zoom.
  apply prepare_moment_runs; [apply (dg_pools _ _ _ _ _ _ Hd)| |].
  { intros ps Hps Hno. run_step. apply H0; [by apply dispatching_epools|done|done|done]. }
  intros p ps Hps. run_step. unfold trigger_prepared. rewrite Hnd.
  run_step. apply (runs_load_event e n); [done|]. run_step.
  eapply runs_load_dispatch; [apply (dispatching_lookup _ _ _ _ _ _ Hd)|]. run_step.
  unfold place_moment. run. cbn beta iota. unfold dispatch_trigger. run_step.
  eapply runs_load_dispatch; [apply (dispatching_lookup _ _ _ _ _ _ Hd)|].
  cbn [d_queue_tail d_source].
  set (m := Moment (EventData (d_source dd) (n_name n) e data p false) rc ra (n_bindings n) None).
  eapply (enqueue_runs s0 d dd run q _ m ps s (after_enqueue call call_r fuel d)); [done|done|done| | |].
  - exists n, vs. done.
  - cbn. eapply owns_new; [apply Hd|done].
  - intros s' q' Eq Hit Hd' Ha Hb. eapply runs_conseq; [by eapply H1|].
    intros [] s'' HQ. run_step. exact HQ.
Qed.

(** A nested trigger only queues. *)
Lemma nested_trigger_runs s0 d dd r l m q s e vs data a (Q : res Z unit -> state -> Prop) :
  dispatching s0 d dd (Some r) ((l, m) :: q) s -> events_ok d s0 -> E !! e = Some vs -> G e data ->
  (forall s' ts m' q' (ok : res Z unit), ts `sublist_of` [(e, data)] ->
     items ((l, m') :: q') = items ((l, m) :: q) ++ (nested a <$> ts) ->
     dispatching s0 d dd (Some r) ((l, m') :: q') s' -> app s' = app s ->
     ec_bindings (hs_client s') = ec_bindings (hs_client s) -> Q ok s') ->
  runs (ls_event_trigger no_callback no_result 0 e data None a) s Q.
Proof.
  intros Hd Hok He HG HQ. eapply trigger_enqueues; [done..| |].
  - intros s' Hd' Ha Hb _. eapply (HQ s' []); [apply sublist_nil_l| |done..]. by rewrite app_nil_r.
  - intros s' q' l' Eq Hit Hd' Ha Hb. unfold after_enqueue. run_step.
    eapply runs_load_dispatch; [apply (dispatching_lookup _ _ _ _ _ _ Hd')|]. cbn [d_running]. run_step.
    destruct q' as [|[k m'] q']; [done|]. cbn in Eq. injection Eq as -> _.
    by eapply (HQ s' [(e, data)]).
Qed.

Lemma trigger_all_runs s0 d dd r l a ts : forall m q s (Q : unit -> state -> Prop),
  dispatching s0 d dd (Some r) ((l, m) :: q) s -> events_ok d s0 ->
  Forall (fun t => is_Some (E !! t.1) /\ G t.1 t.2) ts ->
  (forall s' ts' m' q', ts' `sublist_of` ts ->
     items ((l, m') :: q') = items ((l, m) :: q) ++ (nested a <$> ts') ->
     dispatching s0 d dd (Some r) ((l, m') :: q') s' -> app s' = app s ->
     ec_bindings (hs_client s') = ec_bindings (hs_client s) -> Q tt s') ->
  runs (trigger_all a ts) s Q.
Proof.
  induction ts as [|[e data] ts IH]; intros m q s Q Hd Hok Hts HQ; cbn [trigger_all].
  { run_step. eapply (HQ s []); [done| |done..]. by rewrite app_nil_r. }
  apply Forall_cons in Hts as [[[vs He] HG] Hts]. run_step.
  eapply nested_trigger_runs; [done..|]. intros s' ts1 m1 q1 ok Hs1 Hi1 Hd1 Ha1 Hb1.
  eapply IH; [done..|]. intros s'' ts2 m2 q2 Hs2 Hi2 Hd2 Ha2 Hb2.
  eapply (HQ s'' (ts1 ++ ts2)); [| |done|congruence..].
  - by apply (sublist_app ts1 [(e, data)]).
  - by rewrite Hi2, Hi1, fmap_app, <- app_assoc.
Qed.

(** *** Flags and marks *)
Definition set_normal (b : binding) : binding :=
  Binding (b_cb b) (b_arg b) (b_next b) (b_unbound b) true.
Definition flagged (bs : list (loc * binding)) : list (loc * binding) := prod_map id set_normal <$> bs.

Lemma flagged_fst bs : (flagged bs).*1 = bs.*1.
Proof. unfold flagged. rewrite <- list_fmap_compose. by apply list_fmap_ext. Qed.

Lemma flagged_cbs bs : cb_of <$> flagged bs = cb_of <$> bs.
Proof. unfold flagged. rewrite <- list_fmap_compose. by apply list_fmap_ext. Qed.

Lemma bind_status_runs bs : forall fuel p s (Q : unit -> state -> Prop),
  chain b_next (binds s) p bs -> (length bs < fuel)%nat ->
  (forall bi, chain b_next (st_objs bi) p (flagged bs) ->
     (forall l, l ∉ bs.*1 -> st_objs bi !! l = binds s !! l) ->
     same_bindings (ec_bindings (hs_client s)) bi ->
     Q tt (put_lists (ec_events (hs_client s)) bi s)) ->
  runs (bind_status_loop fuel p) s Q.
Proof.
  induction bs as [|[l b] bs IH]; intros fuel p s Q Hc Hf HQ; (destruct fuel as [|fuel]; [cbn in Hf; lia|]).
  - cbn in Hc. subst p. cbn [bind_status_loop]. run_step. rewrite <- (put_lists_same s). by apply HQ.
  - pose proof (chain_nodup _ _ _ _ Hc) as Hnd. cbn in Hnd. apply NoDup_cons in Hnd as [Hl _].
    destruct Hc as (-> & Hb & Hc). cbn [bind_status_loop]. run_step.
    eapply (runs_update_binding l b); [done|]. run_step.
    eapply (runs_load_binding l (set_normal b)); [cbn; by rewrite lookup_insert_eq|]. cbn [b_next set_normal].
    eapply IH; [by apply chain_insert|cbn in Hf; lia|]. cbn.
    intros bi Hc1 Hout [Hnx Hun]. apply (HQ bi).
    + cbn. split_and!; [done|rewrite Hout by done; by rewrite lookup_insert_eq|done].
    + intros k Hk. cbn in Hk. apply not_elem_of_cons in Hk as [Hne Hk]. rewrite Hout by done.
      by rewrite lookup_insert_ne.
    + split; [exact Hnx|]. intros k. rewrite Hun. cbn. destruct (decide (k = l)) as [->|Hne].
      * by rewrite lookup_insert_eq, Hb.
      * by rewrite lookup_insert_ne.
Qed.

Lemma no_pending_unbinds bs : forall fuel e prev p s (Q : unit -> state -> Prop),
  chain b_next (binds s) p bs -> Forall (fun x => b_unbound x.2 = false) bs ->
  (length bs < fuel)%nat -> Q tt s -> runs (pending_unbinds_loop fuel e prev p) s Q.
Proof.
  induction bs as [|[l b] bs IH]; intros fuel e prev p s Q Hc Hu Hf HQ;
    (destruct fuel as [|fuel]; [cbn in Hf; lia|]); cbn [pending_unbinds_loop].
  - cbn in Hc. subst p. by run_step.
  - destruct Hc as (-> & Hb & Hc). apply Forall_cons in Hu as [Hub Hu]. cbn in Hub.
    run_step. eapply (runs_load_binding l b); [done|]. rewrite Hub. eapply IH; [done|done|cbn in Hf; lia|done].
Qed.

(** *** One moment *)
Context (I : X -> Prop).
Context (prog_ok : forall e vs cb a data h x, E !! e = Some vs -> (cb, a) ∈ vs ->
  G e data -> I x ->
  runs (prog cb e data h a) x (fun r x' => I x' /\ Forall (fun t => is_Some (E !! t.1) /\ G t.1 t.2) r.2)).
Context (rprog_ok : forall r e data h a x, I x -> runs (rprog r e data h a) x (fun _ x' => I x')).

Lemma item_of_eq m e data rc ra h : item_of m = (e, data, rc, ra, h) ->
  ev_notifier (m_evt m) = e /\ ev_data (m_evt m) = data /\ m_result_cb m = rc /\
  m_result_arg m = ra /\ ev_handled (m_evt m) = h.
Proof. unfold item_of. intros H. by injection H. Qed.

Lemma items_cons l m q e data rc ra h its : items ((l, m) :: q) = (e, data, rc, ra, h) :: its ->
  item_of m = (e, data, rc, ra, h) /\ items q = its.
Proof. unfold items. cbn. intros H. injection H as H1 H2 H3 H4 H5 H6. unfold item_of. by split; [congruence|]. Qed.

(** The handled flag of the moment at the head. *)
Lemma set_handled_runs s0 d dd run l m q s e data rc ra h0 h (Q : unit -> state -> Prop) :
  dispatching s0 d dd run ((l, m) :: q) s -> item_of m = (e, data, rc, ra, h0) ->
  (forall m' s', item_of m' = (e, data, rc, ra, h) -> dispatching s0 d dd run ((l, m') :: q) s' ->
     app s' = app s -> ec_bindings (hs_client s') = ec_bindings (hs_client s) -> Q tt s') ->
  forall f, f (m_evt m) = set_handled h (m_evt m) -> runs (update l (on_evt f)) s Q.
Proof.
  intros Hd Hm HQ f Hf. eapply (runs_update_moment l m); [by eapply dispatching_head|].
  apply item_of_eq in Hm as (H1 & H2 & H3 & H4 & H5).
  eapply (HQ (on_evt f m)); [| |done|done].
  - unfold item_of, on_evt. rewrite Hf. cbn. congruence.
  - by eapply dispatching_set_head; [done|unfold on_evt; rewrite ?Hf..].
Qed.

Lemma callback_runs s0 d dd l m q s e vs cb a data rc ra h (Q : unit -> state -> Prop) :
  dispatching s0 d dd (Some e) ((l, m) :: q) s -> events_ok d s0 -> E !! e = Some vs ->
  (cb, a) ∈ vs -> item_of m = (e, data, rc, ra, h) -> G e data -> I (app s) ->
  (forall s' m' q' h1 ts ts', prog cb e data h a (app s) = Done ((h1, ts), app s') ->
     ts' `sublist_of` ts -> item_of m' = (e, data, rc, ra, h1) ->
     items q' = items q ++ (nested a <$> ts') ->
     dispatching s0 d dd (Some e) ((l, m') :: q') s' -> I (app s') ->
     ec_bindings (hs_client s') = ec_bindings (hs_client s) -> Q tt s') ->
  runs (scripted cb l a) s Q.
Proof.
  intros Hd Hok He Hin Hm HG HI HQ. unfold scripted. run_step.
  eapply runs_load_moment; [by eapply dispatching_head|]. cbn beta iota zeta.
  destruct (item_of_eq _ _ _ _ _ _ Hm) as (-> & -> & Erc & Era & ->). run_step.
  apply runs_on_app. destruct (runs_inv _ _ _ (prog_ok e vs cb a data h (app s) He Hin HG HI))
    as ([h1 ts] & x1 & Hp & HI1 & Hts). eapply runs_done; [exact Hp|]. cbn [fst snd] in *. run_step.
  eapply trigger_all_runs; [by apply dispatching_app|done|done|].
  intros s1 ts' m1 q1 Hsub Hit Hd1 Ha1 Hb1. cbn in Ha1.
  assert (Hm1 : item_of m1 = (e, data, rc, ra, h) /\ items q1 = items q ++ (nested a <$> ts')).
  { apply (items_cons l m1 q1). rewrite Hit. unfold items. cbn. by rewrite Hm. }
  destruct Hm1 as [Hm1 Hq1]. eapply set_handled_runs; [done..| |reflexivity].
  intros m2 s2 Hm2 Hd2 Ha2 Hb2. eapply (HQ s2 m2 q1 h1 ts ts'); try done.
  - by rewrite Ha2, Ha1.
  - by rewrite Ha2, Ha1.
  - by rewrite Hb2, Hb1.
Qed.

Lemma run_bindings_runs s0 d dd e vs data rc ra l bs : forall n h p m q s (Q : unit -> state -> Prop),
  chain b_next (binds s) p bs -> Forall (fun x => b_normal_bound x.2 = true) bs ->
  dispatching s0 d dd (Some e) ((l, m) :: q) s -> events_ok d s0 -> E !! e = Some vs ->
  cb_of <$> bs ⊆ vs -> item_of m = (e, data, rc, ra, h) -> G e data -> I (app s) -> (length bs < n)%nat ->
  (forall s' m' q' its h', calls e data (cb_of <$> bs) h (app s) its h' (app s') ->
     item_of m' = (e, data, rc, ra, h') -> items q' = items q ++ its ->
     dispatching s0 d dd (Some e) ((l, m') :: q') s' -> I (app s') ->
     ec_bindings (hs_client s') = ec_bindings (hs_client s) -> Q tt s') ->
  runs (run_bindings scripted n l p) s Q.
Proof.
  induction bs as [|[k b] bs IH]; intros n h p m q s Q Hc Hn Hd Hok He Hsub Hm HG HI Hlen HQ;
    (destruct n as [|n]; [cbn in Hlen; lia|]); cbn [run_bindings].
  { cbn in Hc. subst p. run_step. eapply (HQ s m q []); [constructor|done| |done..]. by rewrite app_nil_r. }
  destruct Hc as (-> & Hb & Hc). apply Forall_cons in Hn as [Hnb Hn]. cbn in Hnb.
  run_step. eapply (runs_load_binding k b); [done|]. rewrite Hnb. run_step. run_step.
  eapply runs_load_moment; [by eapply dispatching_head|]. cbn beta iota zeta.
  destruct (item_of_eq _ _ _ _ _ _ Hm) as (_ & _ & _ & _ & Eh). rewrite Eh. run_step.
  assert (Hin : (b_cb b, b_arg b) ∈ vs) by (apply Hsub; by left).
  eapply callback_runs; [done..|].
  intros s1 m1 q1 h1 ts ts' Hp Hts Hm1 Hq1 Hd1 HI1 Hb1. cbn beta iota.
  eapply (set_handled_runs _ _ _ _ _ _ _ _ _ _ _ _ _ (h || h1)); [done|exact Hm1| |].
  2: { destruct (item_of_eq _ _ _ _ _ _ Hm1) as (_ & _ & _ & _ & ->). done. }
  intros m2 s2 Hm2 Hd2 Ha2 Hb2. run_step.
  eapply (runs_load_binding k b); [by rewrite Hb2, Hb1|].
  eapply (IH n (h || h1)); [by rewrite Hb2, Hb1|done|exact Hd2|done|done| |done|done|by rewrite Ha2|cbn in Hlen; lia|].
  { intros y Hy. apply Hsub. by right. }
  intros s3 m3 q3 its h' Hcalls Hm3 Hq3 Hd3 HI3 Hb3.
  eapply (HQ s3 m3 q3 ((nested (b_arg b) <$> ts') ++ its) h'); [|done| |done|done|congruence].
  - cbn. eapply calls_cons; [exact Hp|done|]. by rewrite <- Ha2.
  - by rewrite Hq3, Hq1, <- app_assoc.
Qed.

Lemma unflag_chain (g g' : gmap loc binding) bs : forall p, (forall l, unflag <$> g' !! l = unflag <$> g !! l) ->
  chain b_next g p bs -> exists bs', chain b_next g' p bs' /\ cb_of <$> bs' = cb_of <$> bs /\
    (Forall (fun x => b_unbound x.2 = false) bs -> Forall (fun x => b_unbound x.2 = false) bs') /\
    bs'.*1 = bs.*1.
Proof.
  induction bs as [|[l b] bs IH]; intros p Hg Hc; [by exists []|].
  destruct Hc as (-> & Hb & Hc). destruct (IH _ Hg Hc) as (bs' & Hc' & Ecb & Hu & Efst).
  specialize (Hg l). rewrite Hb in Hg. destruct (g' !! l) as [b'|] eqn:Hb'; [|done].
  cbn in Hg. injection Hg as E1 E2 E3 E4. exists ((l, b') :: bs'). cbn. rewrite Hb', E3. split_and!; try done.
  - unfold cb_of at 1 3. cbn. by rewrite E1, E2, Ecb.
  - intros [Hub Hu']%Forall_cons. constructor; [cbn in *; congruence|auto].
  - cbn. by rewrite Efst.
Qed.

Lemma set_running_runs s0 d dd run q s r (Q : unit -> state -> Prop) : dispatching s0 d dd run q s ->
  (forall s', dispatching s0 d dd r q s' -> app s' = app s ->
     ec_bindings (hs_client s') = ec_bindings (hs_client s) -> Q tt s') ->
  runs (update d (set_running r)) s Q.
Proof.
  intros Hd HQ. eapply runs_update_dispatch; [by apply (dispatching_lookup _ _ _ _ _ _ Hd)|].
  apply HQ; [|done|done]. destruct Hd as [H1 H2 H3 H4 H5 H6 H7 H8]. split; try done.
  cbn. by rewrite H2, insert_insert_eq.
Qed.

(** The flags of the bindings of the event about to run. *)
Lemma set_bind_status_runs s0 d dd run q s e n vs (Q : unit -> state -> Prop) :
  dispatching s0 d dd run q s -> events_ok d s0 -> E !! e = Some vs -> events s0 !! e = Some n ->
  (forall s' bs, chain b_next (binds s') (n_bindings n) bs -> cb_of <$> bs = vs ->
     Forall (fun x => b_normal_bound x.2 = true /\ b_unbound x.2 = false) bs ->
     dispatching s0 d dd run q s' -> app s' = app s -> Q tt s') ->
  runs (set_bind_status e) s Q.
Proof.
  intros Hd Hok He Hn HQ. destruct (Hok e vs He) as (n' & bs & Hn' & _ & Hc & Ecb & Hu).
  rewrite Hn in Hn'. injection Hn' as <-.
  destruct (unflag_chain _ _ _ _ (proj2 (dg_flags _ _ _ _ _ _ Hd)) Hc) as (bs1 & Hc1 & Ecb1 & Hu1 & _).
  pose proof (dg_rest _ _ _ _ _ _ Hd) as (_ & _ & _ & _ & Eev).
  unfold set_bind_status. run_step. apply (runs_load_event e n); [by rewrite Eev|]. run_step. run_step.
  eapply bind_status_runs; [done|unfold binding_fuel; pose proof (chain_fuel _ _ _ _ Hc1); lia|].
  intros bi Hc2 Hout [Hnx Hun]. eapply (HQ _ (flagged bs1)); [done|by rewrite flagged_cbs, Ecb1| | |done].
  - specialize (Hu1 Hu). clear -Hu1. induction Hu1 as [|[l b] bs Hb _ IH]; [constructor|].
    constructor; [done|exact IH].
  - destruct Hd as [H1 H2 H3 H4 H5 H6 H7 [H8 H9]]. split; try done.
    split; [cbn; congruence|]. intros l. cbn. by rewrite Hun.
Qed.

Lemma result_runs s0 d dd run l m q s e data rc ra h (Q : unit -> state -> Prop) :
  dispatching s0 d dd run ((l, m) :: q) s -> item_of m = (e, data, rc, ra, h) -> I (app s) ->
  (forall x', result_called e data ra h rc (app s) x' -> I x' -> Q tt (put_app x' s)) ->
  runs (match m_result_cb m with
        | Some r => scripted_result r l (ev_handled (m_evt m)) (m_result_arg m)
        | None => mret tt
        end) s Q.
Proof.
  intros Hd Hm HI HQ. destruct (item_of_eq _ _ _ _ _ _ Hm) as (Ee & Ed & -> & -> & ->).
  destruct rc as [r|].
  - unfold scripted_result. run_step. eapply runs_load_moment; [by eapply dispatching_head|].
    rewrite Ee, Ed. apply runs_on_app.
    destruct (runs_inv _ _ _ (rprog_ok r e data h ra (app s) HI)) as ([] & x1 & Hp & HI1).
    eapply runs_done; [exact Hp|]. apply HQ; [by constructor|done].
  - run_step. assert (E0 : put_app (app s) s = s) by (by destruct s as [? ? ? ? []]).
    rewrite <- E0. apply HQ; [constructor|done].
Qed.

(** The moment leaves the queue with its pool. *)
Lemma finish_moment_runs s0 d dd run l m q s (Q : unit -> state -> Prop) :
  dispatching s0 d dd run ((l, m) :: q) s ->
  (forall s', dispatching s0 d dd None q s' -> app s' = app s -> Q tt s') ->
  runs (m ← load (A := moment) l;
        update d (fun d => set_queue (m_next_moment m) (d_queue_tail d) d);;
        moment_destroy l;;
        dd ← load (A := dispatcher) d;
        match d_next_moment dd with
        | None => update d (fun d => set_queue (d_next_moment d) None d)
        | Some _ => mret tt
        end;;
        update d (set_running None)) s Q.
Proof.
  intros Hd HQ. pose proof (dispatching_lookup _ _ _ _ _ _ Hd) as Hdl.
  pose proof (dispatching_head _ _ _ _ _ _ _ _ Hd) as Hm.
  destruct Hd as [H1 H2 H3 H4 H5 H6 H7 H8]. pose proof (chain_nodup _ _ _ _ H3) as Hnd.
  cbn in Hnd. apply NoDup_cons in Hnd as [Hl Hnd]. destruct H3 as (_ & _ & H3).
  pose proof (chain_head _ _ _ _ H3) as Eh.
  run_step. apply (runs_load_moment l m); [done|]. run_step.
  eapply runs_update_dispatch; [exact Hdl|]. run_step. unfold moment_destroy. run_step.
  apply (runs_load_moment l m); [done|]. run_step. apply runs_zoom, runs_zoom.
  unfold moment_pools in H7. cbn in H7.
  eapply runs_conseq; [by eapply owns_destroy|]. intros [] ps Hps. cbn beta iota.
  apply runs_release; [eexists; exact Hm|]. run_step.
  eapply (runs_load_dispatch d); [cbn; by rewrite lookup_insert_eq|].
  assert (Hend : forall dq, dispatchers dq = <[d := Dispatch (d_source dd) (d_events dd) run
        (last q.*1) (head q.*1) false]> (dispatchers s0) ->
      hs_tables dq = hs_tables s /\ hs_arrays dq = hs_arrays s /\ hs_nodes dq = hs_nodes s /\
      hs_oom dq = hs_oom s /\ ec_events (hs_client dq) = ec_events (hs_client s) ->
      ec_moments (hs_client dq) = st_del l (ec_moments (hs_client s)) -> pools dq = ps ->
      ec_bindings (hs_client dq) = ec_bindings (hs_client s) -> app dq = app s ->
      runs (update d (set_running None)) dq Q).
  { intros dq E1 (R1 & R2 & R3 & R4 & R5) E3 E4 E5 E6. eapply (set_running_runs s0 d dd run q).
    - destruct H1 as (S1 & S2 & S3 & S4 & S5). split; rewrite ?E3, ?E4, ?E5; cbn.
      + split_and!; congruence.
      + done.
      + rewrite <- Eh. by apply chain_delete.
      + rewrite <- H4. cbn [fmap list_fmap fst]. apply without_delete.
      + by apply store_wf_del.
      + by apply Forall_cons in H6 as [_ H6].
      + done.
      + done.
    - intros s' Hd' Ha _. apply HQ; [done|congruence]. }
  cbn [d_next_moment set_queue]. run_step. rewrite Eh. destruct (head q.*1) as [k|] eqn:Ek.
  - run_step. apply Hend; try done. cbn. rewrite H2, insert_insert_eq. unfold set_queue. cbn. do 2 f_equal.
    by destruct q.
  - eapply runs_update_dispatch; [cbn; by rewrite lookup_insert_eq|]. apply Hend; try done.
    cbn. rewrite H2, !insert_insert_eq. unfold set_queue. cbn. do 2 f_equal. by destruct q.
Qed.

Lemma handle_trigger_runs s0 d dd fuel l m q s e vs data rc ra h (Q : unit -> state -> Prop) :
  dispatching s0 d dd None ((l, m) :: q) s -> events_ok d s0 -> item_of m = (e, data, rc, ra, h) ->
  E !! e = Some vs -> (length vs < fuel)%nat -> I (app s) ->
  (forall s' q' its h' x1, calls e data vs h (app s) its h' x1 ->
     result_called e data ra h' rc x1 (app s') -> items q' = items q ++ its ->
     dispatching s0 d dd None q' s' -> I (app s') -> Q tt s') ->
  runs (handle_trigger_int scripted scripted_result fuel d) s Q.
Proof.
  intros Hd Hok Hm He Hfuel HI HQ. unfold handle_trigger_int. run_step.
  eapply runs_load_dispatch; [apply (dispatching_lookup _ _ _ _ _ _ Hd)|].
  cbn [d_next_moment fmap list_fmap head fst d_running]. run_step.
  apply (runs_load_moment l m); [by eapply dispatching_head|]. run_step. run_step. cbv zeta.
  pose proof (item_of_eq _ _ _ _ _ _ Hm) as (Ee & _ & _ & _ & _). rewrite Ee. run_step.
  destruct (Forall_cons_1 _ _ _ (dg_items _ _ _ _ _ _ Hd)) as [(n & vs' & Hn & He' & Ebn & HG) _].
  pose proof (item_of_eq _ _ _ _ _ _ Hm) as (_ & Eda & _).
  cbn in Hn, He', Ebn, HG. rewrite Ee in Hn, He'. rewrite Ee, Eda in HG. rewrite He in He'. injection He' as <-.
  eapply set_running_runs; [done|]. intros s1 Hd1 Ha1 Hb1. run_step.
  eapply set_bind_status_runs; [done..|]. intros s2 bs Hc2 Ecb Hbs Hd2 Ha2. run_step. rewrite Ebn.
  eapply run_bindings_runs; [done| |exact Hd2|done|done|by rewrite Ecb|done|done|by rewrite Ha2, Ha1| |].
  { eapply Forall_impl; [done|]. by intros ? []. }
  { rewrite <- Ecb, length_fmap in Hfuel. done. }
  rewrite Ecb. intros s3 m3 q3 its h3 Hcalls Hm3 Hq3 Hd3 HI3 Hb3. run_step.
  apply (runs_load_moment l m3); [by eapply dispatching_head|]. run_step.
  eapply result_runs; [done..|]. intros x4 Hres HI4. run_step.
  unfold process_pending_unbinds. run_step.
  pose proof (dg_rest _ _ _ _ _ _ Hd3) as (_ & _ & _ & _ & Eev).
  apply (runs_load_event e n); [cbn; by rewrite Eev|]. run_step. run_step.
  eapply (no_pending_unbinds bs); [cbn; by rewrite Hb3| | |].
  { eapply Forall_impl; [done|]. by intros ? []. }
  { unfold binding_fuel. cbn. rewrite Hb3. pose proof (chain_fuel _ _ _ _ Hc2). lia. }
  eapply finish_moment_runs; [by apply dispatching_app|]. intros s5 Hd5 Ha5. cbn in Ha5.
  eapply (HQ s5 q3 its h3 (app s3)); [by rewrite <- Ha1, <- Ha2|by rewrite Ha5|done|done|by rewrite Ha5].
Qed.

(** *** The queue *)
Context (cost : loc -> nat) (fuel : nat).
Definition total (its : list item) : nat := sum_list_with (fun i : item => cost i.1.1.1.1) its.

(** The bound that makes dispatching end: what one delivery of an event triggers costs
    less than the event. *)
Context (cost_ok : forall e vs data h x its h' x', E !! e = Some vs -> G e data -> I x ->
  calls e data vs h x its h' x' -> (total its < cost e)%nat).
Context (fuel_ok : forall e vs, E !! e = Some vs -> (length vs < fuel)%nat).

Lemma total_app its its' : total (its ++ its') = (total its + total its')%nat.
Proof. apply sum_list_with_app. Qed.

Lemma drain_runs s0 d dd n : forall q s (Q : unit -> state -> Prop),
  dispatching s0 d dd None q s -> events_ok d s0 -> I (app s) -> (total (items q) < n)%nat ->
  (forall s', delivered (items q) (app s) (app s') -> dispatching s0 d dd None [] s' -> I (app s') -> Q tt s') ->
  runs (drain scripted scripted_result fuel n d) s Q.
Proof.
  induction n as [|n IH]; intros q s Q Hd Hok HI Hn HQ; [lia|]. cbn [drain]. run_step.
  eapply runs_load_dispatch; [apply (dispatching_lookup _ _ _ _ _ _ Hd)|].
  cbn [d_next_moment d_destroy_pending]. destruct q as [|[l m] q]; cbn [fmap list_fmap head fst].
  { run_step. apply HQ; [constructor|done|done]. }
  run_step. destruct (Forall_cons_1 _ _ _ (dg_items _ _ _ _ _ _ Hd)) as [(nn & vs & _ & He & _ & HG) _]. cbn in He, HG.
  eapply (handle_trigger_runs s0 d dd fuel l m q); [done|done|reflexivity|done|by eapply fuel_ok|done|].
  intros s1 q1 its h1 x1 Hcalls Hres Hq1 Hd1 HI1.
  eapply IH; [done..| |].
  - rewrite Hq1, total_app. pose proof (cost_ok _ _ _ _ _ _ _ _ He HG HI Hcalls) as Hc.
    change (items ((l, m) :: q)) with (item_of m :: items q) in Hn. unfold total in *. cbn in Hn. lia.
  - intros s2 Hdel Hd2 HI2. apply HQ; [|done|done].
    change (items ((l, m) :: q)) with (item_of m :: items q). unfold item_of.
    eapply delivered_cons; [exact He|exact Hcalls|exact Hres|]. by rewrite <- Hq1.
Qed.

(** What a trigger leaves besides the program's state. *)
Record untouched (s s' : state) : Prop := {
  un_tables : hs_tables s' = hs_tables s /\ hs_arrays s' = hs_arrays s /\ hs_nodes s' = hs_nodes s;
  un_dispatchers : dispatchers s' = dispatchers s;
  un_events : ec_events (hs_client s') = ec_events (hs_client s);
  un_bindings : same_bindings (ec_bindings (hs_client s)) (ec_bindings (hs_client s'));
  un_moments : moments s' = moments s /\ store_wf (ec_moments (hs_client s'));
  un_pools : same_heap (pools s) (pools s') }.

(** Between two triggers from outside the callbacks. *)
Record idle (d : loc) (s : state) : Prop := {
  id_dispatch : exists dd, dispatchers s !! d = Some dd /\ d_running dd = None /\
    d_next_moment dd = None /\ d_queue_tail dd = None /\ d_destroy_pending dd = false;
  id_moments : store_wf (ec_moments (hs_client s));
  id_heap : mem_wf (ps_mem (pools s));
  id_events : events_ok d s }.

Lemma untouched_idle d s s' : untouched s s' -> mem_wf (ps_mem (pools s')) -> idle d s -> idle d s'.
Proof.
  intros [H1 H2 H3 H4 [H5 H5'] H6] Hwf [I1 I2 I3 I4]. split.
  - by rewrite H2.
  - done.
  - done.
  - intros e vs He. destruct (I4 e vs He) as (n & bs & Hn & Hd & Hc & Ecb & Hu).
    destruct (unflag_chain _ (binds s') _ _ (proj2 H4) Hc) as (bs' & Hc' & Ecb' & Hu' & _).
    exists n, bs'. rewrite H3. split_and!; [done..| |by apply Hu']. by rewrite Ecb'.
Qed.

Lemma trigger_runs s d e data rc ra : idle d s -> is_Some (E !! e) -> G e data ->
  (cost e < fuel)%nat -> I (app s) ->
  runs (ls_event_trigger scripted scripted_result fuel e data rc ra) s (fun r s' =>
    untouched s s' /\ idle d s' /\ I (app s') /\
    match r with
    | Err x => x = LS_ERR_NO_MEMORY /\ no_moment (pools s) /\ app s' = app s
    | Ok _ => delivered [(e, data, rc, ra, false)] (app s) (app s')
    end).
Proof.
  intros Hid [vs He] HG Hfuel HI. destruct Hid as [(dd & Hdd & Hr & Hn & Ht & Hp) Hwm Hwf Hok].
  assert (Hidle : forall s', dispatching s d dd None [] s' -> untouched s s' /\ idle d s').
  { intros s' [(R1 & R2 & R3 & R4 & R5) H2 H3 H4 H5 H6 H7 H8].
    assert (Hps : same_heap (pools s) (pools s')) by (by apply owns_nil_same).
    assert (Hu : untouched s s').
    { split; [done| |done|done|done|done].
      rewrite H2. apply insert_id. rewrite Hdd. f_equal. destruct dd. cbn in *. by subst. }
    split; [done|]. apply (untouched_idle d s); [done|by destruct Hps|]. by split; [exists dd|..]. }
  assert (Hd : dispatching s d dd None [] s).
  { split; try done.
    - symmetry. apply insert_id. rewrite Hdd. f_equal. destruct dd. cbn in *. by subst.
    - by apply owns_nil. }
  eapply trigger_enqueues; [done..| |].
  - intros s' Hd' Ha _ Hno. destruct (Hidle _ Hd'). by rewrite Ha.
  - intros s' q' l Eq Hit Hd' Ha _. unfold after_enqueue. run_step.
    eapply runs_load_dispatch; [apply (dispatching_lookup _ _ _ _ _ _ Hd')|]. cbn [d_running]. run_step.
    eapply drain_runs; [done|done|by rewrite Ha| |].
    + rewrite Hit. unfold total, items. cbn. lia.
    + intros s2 Hdel Hd2 HI2. run_step.
      eapply runs_load_dispatch; [apply (dispatching_lookup _ _ _ _ _ _ Hd2)|].
      cbn [d_destroy_pending]. run_step. rewrite Hit, Ha in Hdel. destruct (Hidle _ Hd2). done.
Qed.

(** C10: events are delivered "breadth-first", as the header says, to callbacks that do what
    callbacks may: change the program's state, handle the event, and trigger events, of
    which one delivery triggers less, by the measure [cost], than its own event, so that no
    event triggers itself for ever; they do not bind, unbind or destroy
    ([deferred_unbind_use_after_free] is such a callback).  When no event is being handled,
    [ls_event_trigger] either reports that there is no memory, when there is none for its
    moment, and runs nothing, or runs every callback bound to the event, in order and once,
    each seeing whether an earlier one handled it, then the result callback; then, first in
    first out, the events that were triggered meanwhile (those there was memory for), until
    there are none.  It ends without a fault; the dispatcher is idle again, the moments and
    their pools are gone, and the bindings are as they were. *)
Theorem trigger_delivers s d dd e data rc ra :
  dispatchers s !! d = Some dd -> d_running dd = None -> d_next_moment dd = None ->
  d_queue_tail dd = None -> d_destroy_pending dd = false ->
  store_wf (ec_moments (hs_client s)) -> mem_wf (ps_mem (pools s)) ->
  events_ok d s -> is_Some (E !! e) -> G e data -> (cost e < fuel)%nat -> I (app s) ->
  runs (ls_event_trigger scripted scripted_result fuel e data rc ra) s (fun r s' =>
    untouched s s' /\
    match r with
    | Err x => x = LS_ERR_NO_MEMORY /\ no_moment (pools s) /\ app s' = app s
    | Ok _ => delivered [(e, data, rc, ra, false)] (app s) (app s')
    end).
Proof.
  intros. eapply runs_conseq.
  - apply (trigger_runs s d); [|done..]. split; [by exists dd|done..].
  - by intros r s' (Hu & _ & _ & Hr).
Qed.
End dispatch.

(** ** An example: two callbacks on event 1, of which the first triggers event 2 *)
Abbreviation log := (list (Z * Z * bool)).
Abbreviation log_state := (estate Z unit Z Z log).

(** Callback [cb] logs itself, the data and the handled flag, and handles the event;
    callback 1 triggers event 2 with the data plus one. *)
Definition prog_ex (cb : Z) (e : loc) (data : Z) (h : bool) (a : Z) : C log (bool * list (loc * Z)) :=
  fun x => Done ((true, if decide (cb = 1) then [(2%positive, data + 1)] else []), x ++ [(cb, data, h)]).
Definition rprog_ex (r : unit) (e : loc) (data : Z) (h : bool) (a : Z) : C log unit :=
  fun x => Done (tt, x ++ [(0, data, h)]).

Definition E_ex : gmap loc (list (Z * Z)) :=
  <[1%positive := [(1, 10); (2, 20)]]> {[2%positive := [(3, 30)]]}.
Definition cost_ex (e : loc) : nat := if decide (e = 1%positive) then 2 else 1.

Definition dispatch_ex : log_state :=
  HState store_empty store_empty store_empty []
    (EClient (Store {[1%positive := Dispatch 0 1 None None None false]} 2)
       (Store (<[1%positive := Notifier 1 0 [101] 1 (Some 1%positive)]>
                 {[2%positive := Notifier 1 0 [102] 2 (Some 3%positive)]}) 3)
       (Store (<[1%positive := Binding 1 10 (Some 2%positive) false false]>
                 (<[2%positive := Binding 2 20 None false false]>
                    {[3%positive := Binding 3 30 None false false]})) 4)
       store_empty (pstate_init []) []).

Lemma E_ex_cases e vs : E_ex !! e = Some vs ->
  (e = 1%positive /\ vs = [(1, 10); (2, 20)]) \/ (e = 2%positive /\ vs = [(3, 30)]).
Proof.
  unfold E_ex. intros [[<- <-]|[_ [<- <-]%lookup_singleton_Some]]%lookup_insert_Some; auto.
Qed.

Lemma events_ok_ex : events_ok E_ex 1 dispatch_ex.
Proof.
  intros e vs [[-> ->]|[-> ->]]%E_ex_cases.
  - eexists _, [(1%positive, Binding 1 10 (Some 2%positive) false false);
                (2%positive, Binding 2 20 None false false)].
    split_and!; try reflexivity; by repeat constructor.
  - eexists _, [(3%positive, Binding 3 30 None false false)].
    split_and!; try reflexivity; by repeat constructor.
Qed.

Lemma calls_ex_total e data vs h x its h' x' : calls (RCB := unit) prog_ex e data vs h x its h' x' ->
  (total cost_ex its <= length (filter (fun v => v.1 = 1%Z) vs))%nat.
Proof.
  induction 1 as [|cb a bs h x h1 ts ts' x1 its h' x' Hp Hsub _ IH]; [done|].
  unfold prog_ex in Hp. injection Hp as _ <- _. rewrite total_app.
  destruct (decide (cb = 1)) as [->|Hne].
  - rewrite filter_cons_True by done. cbn [length].
    assert (Ht : (total (RCB := unit) cost_ex (nested a <$> ts') <= 1)%nat); [|lia]. cbn in Hsub.
    apply sublist_cons_r in Hsub as [->%sublist_nil_r|(l & -> & ->%sublist_nil_r)]; cbv; lia.
  - rewrite filter_cons_False by done.
    apply sublist_nil_r in Hsub as ->. exact IH.
Qed.

Lemma trigger_delivers_witness :
  runs (ls_event_trigger (scripted prog_ex) (scripted_result rprog_ex) 5 1 7 (Some tt) 0) dispatch_ex
    (fun r s' =>
      untouched dispatch_ex s' /\
      match r with
      | Err x => x = LS_ERR_NO_MEMORY /\ no_moment (pstate_init []) /\ ec_app (hs_client s') = []
      | Ok _ => delivered prog_ex rprog_ex E_ex [(1%positive, 7, Some tt, 0, false)] [] (ec_app (hs_client s'))
      end).
Proof.
  refine (trigger_delivers prog_ex rprog_ex E_ex (fun _ _ => True) (fun _ => True) _ _ cost_ex 5 _ _
            dispatch_ex 1 (Dispatch 0 1 None None None false) 1 7 (Some tt) 0 _ _ _ _ _ _ _ _ _ _ _ _).
  - intros e vs cb a data h x _ _ _ _. split; [done|]. cbn. case_decide; repeat constructor. by eexists.
  - done.
  - intros e vs data h x its h' x' He _ _ Hc. pose proof (calls_ex_total _ _ _ _ _ _ _ _ Hc) as Ht.
    destruct (E_ex_cases _ _ He) as [[-> ->]|[-> ->]]; (eapply Nat.le_lt_trans; [exact Ht|]); cbv; lia.
  - intros e vs [[-> ->]|[-> ->]]%E_ex_cases; cbn; lia.
  - reflexivity.
  - reflexivity.
  - reflexivity.
  - reflexivity.
  - reflexivity.
  - apply store_wf_empty.
  - apply pstate_init_wf.
  - apply events_ok_ex.
  - by eexists.
  - done.
  - cbv. lia.
  - done.
Defined.

(** Evaluated: both callbacks of event 1, the result callback, and then that of event 2. *)
Example dispatch_order :
  match ls_event_trigger (scripted prog_ex) (scripted_result rprog_ex) 5 1 7 (Some tt) 0 dispatch_ex with
  | Done (r, s') => r = Ok tt /\ ec_app (hs_client s') = [(1, 7, false); (2, 7, true); (0, 7, true); (3, 8, false)]
  | Fault _ => False
  end.
Proof. vm_compute. done. Qed.

(** ** What callbacks must not do *)

(** Callbacks that also unbind: 1 triggers event 2 and then takes callback 3 off it. *)
Definition unbinding (cb : Z) (m : loc) (a : Z) : C log_state unit :=
  if decide (cb = 1) then
    _ ← ls_event_trigger (no_callback) (no_result) 0 2 0 None 0;
    ls_event_unbind 2 3
  else mret tt.

Definition ignoring (r : unit) (m : loc) (h : bool) (a : Z) : C log_state unit := mret tt.

(** A callback that triggers another event and then unbinds a callback of that event
    leaves the queued moment with a pointer to the binding that was freed: when its turn
    comes, it is used after it was freed. *)
Theorem deferred_unbind_use_after_free :
  ls_event_trigger unbinding ignoring 5 1 7 None 0 dispatch_ex = Fault UseAfterFree.
Proof. vm_compute. done. Qed.

(** Callbacks that unbind, from their own event, one that is not bound to it. *)
Definition unbinding_unbound (cb : Z) (m : loc) (a : Z) : C log_state unit :=
  if decide (cb = 1) then ls_event_unbind 1 3 else mret tt.

(** The header says that unbinding a callback that is not bound does nothing; so it
    is, when the event is not running; when it is, the program aborts. *)
Theorem unbind_not_bound :
  ls_event_unbind 1 3 dispatch_ex = Done (tt, dispatch_ex) /\
  ls_event_trigger unbinding_unbound ignoring 5 1 7 None 0 dispatch_ex = Fault AssertFail.
Proof. by vm_compute. Qed.
