(* ===== verification/EventNames.v ===== *)
(** The events of a dispatcher by name: creation and lookup, for src/ls_eventing.c as
    modelled in LsEventing.v. *)

From S2P Require Import Prelude LsError LsStr LsMem PoolUse Store LsHtable LsHash LsEventing EventBindings.
Import StrCaseKey.
Open Scope Z_scope.

Section names.
Context {CB RCB A D X : Type} `{EqCB : !EqDecision CB}.
Abbreviation notifier := (ls_event_notifier A).
Abbreviation dispatcher := (ls_event_dispatch A).
Abbreviation state := (estate CB RCB A D X).
Abbreviation events s := (st_objs (ec_events (hs_client s))).
Abbreviation dispatchers s := (st_objs (ec_dispatchers (hs_client s))).
Abbreviation pools s := (ec_pools (hs_client s)).
Abbreviation entry := (cstr * option loc * option unit)%type.

Definition lower (name : cstr) : list Z := LsStr.Libc.tolower <$> name.

Lemma table_rep_other (B : heap_base) (t : loc) (m : gmap (list Z) entry) (s : state)
    (c : eclient CB RCB A D X) (o : list bool) :
  table_rep B t m s -> table_rep B t m (set_client c (with_oom o s)).
Proof. intros. by eapply table_rep_stores. Qed.

(** The dispatcher [d] knows exactly the events of [m], by lower-cased name. *)
Definition knows (s : state) (d : loc) (dd : dispatcher) (B : heap_base) (m : gmap (list Z) entry) : Prop :=
  dispatchers s !! d = Some dd /\ table_rep B (d_events dd) m s /\
  (forall k e, m !! k = Some e -> is_Some (entry_value e)).

Lemma get_event_done s d dd B m name : knows s d dd B m -> cstr_wf name ->
  ls_event_dispatcher_get_event d name s = Done (m !! lower name ≫= entry_value, s).
Proof.
  intros (Hd & Ht & _) Hw. unfold ls_event_dispatcher_get_event.
  rewrite (bind_done _ _ _ dd s) by (by apply load_done). exact (ls_htable_get_done B _ m s name Ht Hw).
Qed.

(** One more block in the heap, at [l]. *)
Record block_added (l : loc) (p p' : pstate) : Prop := {
  ba_new : m_live (ps_mem p) !! l = None;
  ba_live : exists sz, m_live (ps_mem p') = <[l := sz]> (m_live (ps_mem p));
  ba_wf : mem_wf (ps_mem p');
  ba_pools : ps_pools p' = ps_pools p /\ ps_called p' = ps_called p /\ ps_paging p' = ps_paging p }.

(** The events and the heap are as they were; a name that was given out may be lost. *)
Definition nothing_created (c c' : eclient CB RCB A D X) : Prop := exists ev ps,
  st_objs ev = st_objs (ec_events c) /\ store_wf ev /\ same_heap (ec_pools c) ps /\
  c' = EClient (ec_dispatchers c) ev (ec_bindings c) (ec_moments c) ps (ec_app c).

Lemma nothing_created_pools c ps : store_wf (ec_events c) -> same_heap (ec_pools c) ps ->
  nothing_created c (set_epools ps c).
Proof. intros. by exists (ec_events c), ps. Qed.

(** Creating an event, with all that it changes. *)
Lemma create_event_runs s d dd B m name :
  knows s d dd B m -> cstr_wf name -> Z.of_nat (size m) < 2 ^ 28 ->
  mem_wf (ps_mem (pools s)) -> store_wf (ec_events (hs_client s)) ->
  runs (ls_event_dispatcher_create_event d name) s (fun r s' =>
    match r with
    | Err x =>
        ((x = LS_ERR_INVALID_ARG /\ name = []) \/
         (x = LS_ERR_INVALID_STATE /\ name <> [] /\ is_Some (m !! lower name)) \/
         (x = LS_ERR_NO_MEMORY /\ name <> [] /\ m !! lower name = None)) /\
        table_rep B (d_events dd) m s' /\ nothing_created (hs_client s) (hs_client s')
    | Ok e => name <> [] /\ m !! lower name = None /\ e = st_next (ec_events (hs_client s)) /\
        exists n ps, n_name n = name /\ n_dispatcher n = d /\ n_source n = d_source dd /\ n_bindings n = None /\
          hs_client s' = EClient (ec_dispatchers (hs_client s)) (st_add n (ec_events (hs_client s)))
            (ec_bindings (hs_client s)) (ec_moments (hs_client s)) ps (ec_app (hs_client s)) /\
          block_added (n_name_block n) (pools s) ps /\
          table_rep B (d_events dd) (<[lower name := (name, Some e, Some tt)]> m) s'
    end).
Proof.
  intros Hk Hw Hsz Hwf Hwe. pose proof Hk as (Hd & Ht & Hsome). unfold ls_event_dispatcher_create_event.
  run_step. apply (runs_load d dd); [done|].
  assert (Hsame : nothing_created (hs_client s) (hs_client s)).
  { exists (ec_events (hs_client s)), (pools s). split_and!; [done..|by apply same_heap_refl|by destruct (hs_client s)]. }
  destruct (decide (name = [])) as [->|Hne].
  { run_step. split_and!; [by left|done|done]. }
  run_step. eapply runs_done; [exact (ls_htable_get_done B _ m s name Ht Hw)|].
  change (canon name) with (lower name).
  destruct (m !! lower name) as [e|] eqn:Em; cbn [mbind option_bind].
  { destruct (Hsome _ _ Em) as [v ->]. run_step.
    split_and!; [right; left; by eauto|done|done]. }
  cbn beta iota zeta. run_step. apply runs_zoom, runs_zoom, runs_malloc.
  { run_step. split_and!; [by right; right|by apply (table_rep_other _ _ _ s _ (hs_oom s))|].
    by apply nothing_created_pools. }
  run_step. apply runs_zoom, runs_zoom.
  set (l := m_next (ps_mem (pools s))). set (sz := Z.of_nat (length name) + 1).
  pose proof (mem_wf_fresh _ Hwf) as Hf. fold l in Hf.
  eapply (runs_memcpy (addr_of l) (name ++ [0]) _ sz).
  { cbn. by rewrite lookup_insert_eq. }
  { cbn. lia. }
  { cbn. rewrite length_app. cbn. unfold sz. lia. }
  set (ps := write_st (addr_of l) (name ++ [0]) _).
  assert (Hps : block_added l (pools s) ps).
  { split; [done|by exists sz|apply (mem_wf_alloc sz _ Hwf)|done]. }
  assert (Hfree : forall s1 (Q : unit -> state -> Prop), pools s1 = ps ->
    (forall ps', same_heap (pools s) ps' -> Q tt (set_client (set_epools ps' (hs_client s1)) s1)) ->
    runs (on_client (on_epools (on_mem (ls_data_free (Some l))))) s1 Q).
  { intros s1 Q E HQ. apply runs_zoom, runs_zoom. rewrite E.
    eapply (runs_free_block l (pools s) ps sz); try done. apply Hps. }
  clearbody ps. run_step. apply runs_new; cbn beta iota.
  { run_step. apply Hfree; [done|]. intros ps' Hps'. run_step.
    split_and!; [by right; right|apply (table_rep_other _ _ _ s _ (tail (hs_oom s)) Ht)|].
    by exists (ec_events (hs_client s)), ps'. }
  set (e := st_next (ec_events (hs_client s))).
  pose proof (store_wf_fresh _ Hwe) as Hfe. fold e in Hfe. run_step.
  eapply runs_conseq; [apply (ls_htable_put_runs clean_event B (d_events dd) m); [| |done|]|].
  { apply (table_rep_other _ _ _ s _ (tail (hs_oom s)) Ht). }
  { exact Hw. }
  { unfold put_calls. change (canon name) with (lower name). rewrite Em. done. }
  change (canon name) with (lower name). cbn [hs_client set_client].
  intros [[]|x] s' Hr; cbn beta iota.
  - destruct Hr as [Ht' Hc']. run_step. split_and!; [done|done|done|]. rewrite Hc'.
    eexists _, ps. split_and!; [..|reflexivity|done|exact Ht']; done.
  - destruct Hr as (-> & _ & Ht' & Hc'). run_step. apply Hfree; [by rewrite Hc'|].
    intros ps' Hps'. run_step. apply runs_release; [cbn; rewrite Hc'; cbn; rewrite lookup_insert_eq; by eexists|].
    run_step. split_and!; [by right; right|apply (table_rep_other _ _ _ s' _ (hs_oom s') Ht')|].
    cbn. rewrite Hc'. cbn. eexists _, ps'. split_and!; [| |done|reflexivity].
    + by apply delete_insert_id.
    + by apply store_wf_del, store_wf_add.
Qed.
(** Events are created and found by name, whatever the case of its letters.  Creating
    one fails for an empty name, for a name the dispatcher knows already, or for memory,
    and then leaves the heap and the events as they were; otherwise there is one more
    event, new and without bindings, which the dispatcher gives for its name and for every
    name that differs from it in case only, and the other names are as before. *)
Theorem create_event_named s d dd B m name :
  knows s d dd B m -> cstr_wf name -> Z.of_nat (size m) < 2 ^ 28 ->
  mem_wf (ps_mem (pools s)) -> store_wf (ec_events (hs_client s)) ->
  runs (ls_event_dispatcher_create_event d name) s (fun r s' =>
    match r with
    | Err x =>
        ((x = LS_ERR_INVALID_ARG /\ name = []) \/
         (x = LS_ERR_INVALID_STATE /\ name <> [] /\ is_Some (m !! lower name)) \/
         (x = LS_ERR_NO_MEMORY /\ name <> [] /\ m !! lower name = None)) /\
        knows s' d dd B m /\ events s' = events s /\ same_heap (pools s) (pools s')
    | Ok e => name <> [] /\ m !! lower name = None /\ events s !! e = None /\
        (exists n, events s' = <[e := n]> (events s) /\ n_name n = name /\ n_dispatcher n = d /\
           n_source n = d_source dd /\ n_bindings n = None) /\
        (forall name', cstr_wf name' ->
           ls_event_dispatcher_get_event d name' s' =
             Done (if decide (lower name' = lower name) then Some e
                   else m !! lower name' ≫= entry_value, s'))
    end).
Proof.
  intros Hk Hw Hsz Hwf Hwe. pose proof Hk as (Hd & _ & Hsome).
  eapply runs_conseq; [by apply (create_event_runs s d dd B m name)|].
  intros [e|x] s'.
  2:{ intros (Hx & Ht' & ev & ps & Eev & _ & Hps & Hc). unfold knows. rewrite Hc. by split_and!. }
  intros (Hne & Em & -> & n & ps & H1 & H2 & H3 & H4 & Hc & _ & Ht').
  split_and!; [done|done|by apply store_wf_fresh| |].
  - exists n. by rewrite Hc.
  - intros name' Hw'. set (m' := <[lower name := _]> m) in Ht'.
    rewrite (get_event_done s' d dd B m' name'); [|split_and!; [by rewrite Hc|done|]|done].
    + unfold m'. case_decide as E; [by rewrite E, lookup_insert_eq|by rewrite lookup_insert_ne].
    + intros k en. unfold m'. intros [[<- <-]|[_ Hmk]]%lookup_insert_Some; [by eexists|by eapply Hsome].
Qed.
End names.

(** *** An example: a dispatcher that knows no event yet *)
Definition table_ex : estate Z unit Z Z unit :=
  HState (Store {[1%positive := HTable key_hash key_cmp 0 7 0 1%positive]} 2)
    (Store {[1%positive := replicate 7 None]} 2) store_empty [false; false]
    (EClient (Store {[1%positive := Dispatch 0 1 None None None false]} 2) store_empty
       store_empty store_empty (pstate_init []) tt).

Lemma store_wf_singleton {T} (x : T) : store_wf (Store {[1%positive := x]} 2).
Proof. intros l [y Hy]. cbn in Hy. apply lookup_singleton_Some in Hy as [<- _]. done. Qed.

Lemma table_ex_knows : knows table_ex 1 (Dispatch 0 1 None None None false) (HeapBase ∅ ∅ ∅) ∅.
Proof.
  split_and!; [done| |by intros k e; rewrite lookup_empty].
  eexists _, _, (replicate 7 []). split_and!; [split|..]; try reflexivity.
  - by repeat constructor.
  - done.
  - intros i c l n Hc Hin. apply lookup_replicate in Hc as [-> _]. by apply not_elem_of_nil in Hin.
  - constructor.
  - done.
  - split_and!; [apply store_wf_singleton|apply store_wf_singleton|apply store_wf_empty].
Qed.

Lemma create_event_named_witness :
  let name := [68; 97; 116; 97] in
  runs (ls_event_dispatcher_create_event 1 name) table_ex (fun r s' =>
    match r with
    | Err x =>
        ((x = LS_ERR_INVALID_ARG /\ name = []) \/
         (x = LS_ERR_INVALID_STATE /\ name <> [] /\ is_Some ((∅ : gmap (list Z) (cstr * option loc * option unit)) !! lower name)) \/
         (x = LS_ERR_NO_MEMORY /\ name <> [] /\ (∅ : gmap (list Z) (cstr * option loc * option unit)) !! lower name = None)) /\
        knows s' 1 (Dispatch 0 1 None None None false) (HeapBase ∅ ∅ ∅) ∅ /\
        st_objs (ec_events (hs_client s')) = ∅ /\ same_heap (pstate_init []) (ec_pools (hs_client s'))
    | Ok e => name <> [] /\ (∅ : gmap (list Z) (cstr * option loc * option unit)) !! lower name = None /\
        (∅ : gmap loc (ls_event_notifier Z)) !! e = None /\
        (exists n, st_objs (ec_events (hs_client s')) = <[e := n]> ∅ /\ n_name n = name /\ n_dispatcher n = 1%positive /\
           n_source n = 0 /\ n_bindings n = None) /\
        (forall name', cstr_wf name' ->
           ls_event_dispatcher_get_event 1 name' s' =
             Done (if decide (lower name' = lower name) then Some e
                   else (∅ : gmap (list Z) (cstr * option loc * option unit)) !! lower name' ≫= entry_value, s'))
    end).
Proof.
  intros name.
  refine (create_event_named table_ex 1 (Dispatch 0 1 None None None false) (HeapBase ∅ ∅ ∅) ∅ name _ _ _ _ _).
  - apply table_ex_knows.
  - by repeat constructor.
  - reflexivity.
  - apply pstate_init_wf.
  - apply store_wf_empty.
Defined.
