(* ===== verification/EventLife.v ===== *)
(** The life of a dispatcher: what it owns, the events with their names and bindings, from
    its creation to its destruction, for src/ls_eventing.c as modelled in LsEventing.v. *)

From S2P Require Import Prelude LsError LsStr LsMem PoolUse Store LsHtable LsHash LsEventing EventBindings EventDispatch EventNames.
Import StrCaseKey.
Open Scope Z_scope.

Section life.
Context {CB RCB A D X : Type} `{EqCB : !EqDecision CB}.
Abbreviation notifier := (ls_event_notifier A).
Abbreviation binding := (ls_event_binding CB A).
Abbreviation dispatcher := (ls_event_dispatch A).
Abbreviation state := (estate CB RCB A D X).
Abbreviation eclient := (eclient CB RCB A D X).
Abbreviation events c := (st_objs (ec_events c)).
Abbreviation binds c := (st_objs (ec_bindings c)).
Abbreviation blocks p := (m_live (ps_mem p)).
Implicit Types (s : state) (c : eclient).

(** ** What a dispatcher owns *)
Record owned_event := OwnedEvent {
  oe_at : loc; oe_notifier : notifier; oe_bindings : list (loc * binding) }.

Definition oe_block (o : owned_event) : loc := n_name_block (oe_notifier o).
Definition oe_entry (o : owned_event) : cstr * option loc * option unit :=
  (n_name (oe_notifier o), Some (oe_at o), Some tt).
Definition oe_key (o : owned_event) : list Z := lower (n_name (oe_notifier o)).
Definition binding_locs (o : owned_event) : list loc := (oe_bindings o).*1.

Definition event_there c (o : owned_event) : Prop :=
  events c !! oe_at o = Some (oe_notifier o) /\
  chain b_next (binds c) (n_bindings (oe_notifier o)) (oe_bindings o).

(** What the dispatcher does not own. *)
Record event_base := EventBase {
  eb_events : gmap loc notifier; eb_bindings : gmap loc binding; eb_pools : pstate }.

Definition base_of c : event_base := EventBase (events c) (binds c) (ec_pools c).

Record owns_events (b : event_base) (L : list owned_event) c : Prop := {
  oe_each : Forall (event_there c) L;
  oe_events : held (oe_at <$> L) (eb_events b) (events c);
  oe_binds : held (L ≫= binding_locs) (eb_bindings b) (binds c);
  oe_names : held (oe_block <$> L) (blocks (eb_pools b)) (blocks (ec_pools c));
  oe_wf : store_wf (ec_events c) /\ store_wf (ec_bindings c) /\ mem_wf (ps_mem (ec_pools c));
  oe_pools q : is_Some (blocks (eb_pools b) !! q) -> ps_pools (ec_pools c) !! q = ps_pools (eb_pools b) !! q;
  oe_called : ps_called (ec_pools c) = ps_called (eb_pools b);
  oe_paging : ps_paging (ec_pools c) = ps_paging (eb_pools b) }.

(** What the destruction of events does not touch. *)
Record same_elsewhere c c' : Prop := {
  se_dispatchers : ec_dispatchers c' = ec_dispatchers c;
  se_moments : ec_moments c' = ec_moments c;
  se_app : ec_app c' = ec_app c }.

#[export] Instance same_elsewhere_po : PreOrder same_elsewhere.
Proof. split; [by split|]. intros c1 c2 c3 [] []. split; congruence. Qed.

Lemma owns_events_start c : store_wf (ec_events c) -> store_wf (ec_bindings c) ->
  mem_wf (ps_mem (ec_pools c)) -> owns_events (base_of c) [] c.
Proof. intros. by split; try apply held_nil; try constructor. Qed.

Lemma owns_events_end b c : owns_events b [] c ->
  events c = eb_events b /\ binds c = eb_bindings b /\ same_heap (eb_pools b) (ec_pools c).
Proof.
  intros [_ H1%held_nil_inv H2%held_nil_inv H3%held_nil_inv (_ & _ & Hm) H5 H6 H7].
  split_and!; [done..|]. by split.
Qed.

Lemma owns_events_perm b L L' c : L ≡ₚ L' -> owns_events b L c -> owns_events b L' c.
Proof.
  intros Hp [H1 H2 H3 H4 H5 H6 H7 H8]. split; [by rewrite <- Hp|..|done|done|done|done].
  - eapply held_perm; [by apply fmap_Permutation|done].
  - eapply held_perm; [by apply bind_Permutation|done].
  - eapply held_perm; [by apply fmap_Permutation|done].
Qed.

(** Parts of the client's state that events do not depend on. *)
Lemma owns_events_ext b L c c' : owns_events b L c -> ec_events c' = ec_events c ->
  ec_bindings c' = ec_bindings c -> ec_pools c' = ec_pools c -> owns_events b L c'.
Proof.
  intros [H1 H2 H3 H4 H5 H6 H7 H8] E1 E2 E3. split; rewrite ?E1, ?E2, ?E3; try done.
  eapply Forall_impl; [exact H1|]. intros o. unfold event_there. by rewrite E1, E2.
Qed.

(** ** Destroying events *)
Lemma clean_bindings_runs bs : forall fuel p c, chain b_next (binds c) p bs -> (length bs < fuel)%nat ->
  runs (clean_bindings fuel p) c (fun _ c' => c' = EClient (ec_dispatchers c) (ec_events c)
    (Store (without bs.*1 (binds c)) (st_next (ec_bindings c))) (ec_moments c) (ec_pools c) (ec_app c)).
Proof.
  induction bs as [|[l b] bs IH]; intros [|fuel] p c Hc Hf; cbn [length] in Hf; try lia.
  - cbn in Hc |- *. subst p. run_step. by destruct c as [? ? [] ? ? ?].
  - pose proof (chain_middle_nodup _ _ _ [] _ _ _ Hc) as [_ Hl].
    destruct Hc as (-> & Hl0 & Hc). cbn [clean_bindings]. run_step. apply (runs_load l b); [done|]. run_step.
    apply runs_release; [cbn; by rewrite Hl0|].
    eapply runs_conseq; [apply IH; [by apply chain_delete|lia]|].
    intros _ c' ->. cbn. do 2 f_equal. rewrite (without_delete bs.*1 l). done.
Qed.

Lemma clean_event_runs b o L c delete_key key : owns_events b (o :: L) c ->
  runs (clean_event tt false delete_key key (Some (oe_at o))) c (fun _ c' =>
    owns_events b L c' /\ same_elsewhere c c').
Proof.
  intros [H1 H2 H3 H4 (W1 & W2 & W3) H6 H7 H8]. apply Forall_cons in H1 as [[He Hb] Hrest].
  unfold clean_event. do 2 run_step. run_step. apply (runs_load _ (oe_notifier o)); [done|]. do 5 run_step.
  eapply runs_conseq; [apply clean_bindings_runs; [exact Hb|]|].
  { apply le_n_S. by eapply chain_fuel. }
  intros _ c1 ->. run_step. apply runs_zoom. apply runs_free.
  { destruct H4 as (_ & Hl & _). cbn in Hl. by apply Forall_cons in Hl as [Hl _]. }
  cbn [set_epools]. apply runs_release; [cbn; by rewrite He|]. cbn [with_store eclient_events the_store ec_events].
  pose proof (held_del _ _ _ _ H2) as H2'. pose proof (held_del _ _ _ _ H4) as H4'.
  pose proof (held_app _ _ _ _ H3) as H3'.
  destruct H2 as (Hd2 & _ & _). cbn in Hd2. apply NoDup_cons in Hd2 as [Ho _].
  destruct H3 as ((_ & Hdis & _)%NoDup_app & _ & _).
  split; [split; cbn|done]; try done.
  - apply Forall_forall. intros o' Hin. apply (Forall_forall _ _) with (x := o') in Hrest; [|done].
    destruct Hrest as [He' Hb']. split; cbn.
    + rewrite lookup_delete_ne; [done|]. intros E. apply Ho. rewrite E. by apply list_elem_of_fmap_2.
    + eapply chain_ext; [done|]. intros l Hl. rewrite lookup_without, decide_False; [done|].
      intros Hl'. apply (Hdis l Hl'). apply list_elem_of_bind. by exists o'.
  - split_and!; [by apply store_wf_del| |by apply mem_wf_delete].
    intros l. cbn. rewrite lookup_without. case_decide; [by intros []|]. apply W2.
Qed.

(** All of them, in whatever order the table has them. *)
Lemma clean_all_runs b es : forall L c, es ≡ₚ oe_entry <$> L -> owns_events b L c ->
  runs (run_calls clean_event (clean_calls es)) c (fun _ c' => owns_events b [] c' /\ same_elsewhere c c').
Proof.
  induction es as [|e es IH]; intros L c Hp Ho.
  - apply Permutation_nil_l, symmetry, fmap_nil_inv in Hp as ->. by apply (runs_ret tt).
  - assert (Hin : e ∈ oe_entry <$> L) by (rewrite <- Hp; by left).
    apply list_elem_of_fmap in Hin as (o & -> & [L' HL]%elem_of_Permutation).
    rewrite HL in Hp. cbn [fmap list_fmap] in Hp. apply Permutation_cons_inv in Hp.
    change (clean_calls (oe_entry o :: es)) with
      ((tt, false, true, n_name (oe_notifier o), Some (oe_at o)) :: clean_calls es).
    cbn [run_calls]. run_step.
    eapply runs_conseq; [eapply clean_event_runs, owns_events_perm; [exact HL|exact Ho]|].
    intros _ c1 [Ho1 Hs1]. eapply runs_conseq; [by apply (IH L')|].
    intros _ c2 [Ho2 Hs2]. split; [done|]. by etrans.
Qed.

(** ** The dispatcher *)
Abbreviation dispatchers s := (st_objs (ec_dispatchers (hs_client s))).

Record owns_dispatcher (b : event_base) (B : heap_base) (d : loc) (L : list owned_event) s : Prop := {
  od_dispatch : exists dd m, dispatchers s !! d = Some dd /\ table_rep B (d_events dd) m s /\
    (map_to_list m).*2 ≡ₚ oe_entry <$> L;
  od_mine : Forall (fun o => n_dispatcher (oe_notifier o) = d) L;
  od_events : owns_events b L (hs_client s) }.

Lemma owns_dispatcher_perm b B d L L' s : L ≡ₚ L' -> owns_dispatcher b B d L s -> owns_dispatcher b B d L' s.
Proof.
  intros Hp [(dd & m & H1 & H2 & H3) H4 H5]. split; [|by rewrite <- Hp|by eapply owns_events_perm].
  exists dd, m. by rewrite <- Hp.
Qed.

(** The table gives the events that are owned, and no others, by their names. *)
Abbreviation event_table := (gmap (list Z) (cstr * option loc * option unit)).

Lemma table_rep_key (B : heap_base) (t : loc) (m : event_table) s k e : table_rep B t m s -> m !! k = Some e -> k = lower e.1.1.
Proof.
  intros (tab & arr & cs & _ & _ & <-) Hk. apply elem_of_list_to_map_2, list_elem_of_fmap in Hk.
  by destruct Hk as (e' & [= -> ->] & _).
Qed.

Lemma owned_lookup (m : event_table) L k e :
  (map_to_list m).*2 ≡ₚ oe_entry <$> L -> m !! k = Some e -> exists o, o ∈ L /\ e = oe_entry o.
Proof.
  intros Hp Hk%elem_of_map_to_list. apply (list_elem_of_fmap_2 snd) in Hk. cbn in Hk. rewrite Hp in Hk.
  apply list_elem_of_fmap in Hk as (o & -> & Ho). by exists o.
Qed.

Lemma owned_key (B : heap_base) (t : loc) (m : event_table) L s k : table_rep B t m s -> (map_to_list m).*2 ≡ₚ oe_entry <$> L ->
  is_Some (m !! k) <-> k ∈ oe_key <$> L.
Proof.
  intros Ht Hp. split.
  - intros [e Hk]. destruct (owned_lookup _ _ _ _ Hp Hk) as (o & Ho & ->).
    rewrite (table_rep_key _ _ _ _ _ _ Ht Hk). by apply (list_elem_of_fmap_2 oe_key).
  - intros (o & -> & Ho)%list_elem_of_fmap. apply (list_elem_of_fmap_2 oe_entry) in Ho.
    rewrite <- Hp in Ho. apply list_elem_of_fmap in Ho as ([k e] & Ee & Hk%elem_of_map_to_list). cbn in Ee. subst e.
    pose proof (table_rep_key _ _ _ _ _ _ Ht Hk) as ->. by eexists.
Qed.

Lemma owned_size (m : event_table) L :
  (map_to_list m).*2 ≡ₚ oe_entry <$> L -> size m = length L.
Proof.
  intros Hp%Permutation_length. rewrite !length_fmap in Hp. by rewrite <- Hp, length_map_to_list.
Qed.

(** *** Creation *)
Lemma push_pop_ndc_runs len (p : pstate) : mem_wf (ps_mem p) ->
  runs (push_pop_ndc len) p (fun _ p' => same_heap p p').
Proof.
  intros Hwf. unfold push_pop_ndc. run_step. apply runs_data_calloc; [done| |].
  { intros p' Hp'. by run_step. }
  intros l p1 Hl Hwf1 El Ep Ec Eg. run_step. apply runs_malloc.
  - run_step. eapply (runs_free_block l p); [done..|]. intros p2 Hp2. by run_step.
  - pose proof (mem_wf_fresh _ Hwf1) as Hf. run_step.
    eapply (runs_free_block _ p1); [exact Hf|by apply mem_wf_alloc|done..|].
    intros p2 [G1 G2 G3 G4 G5]. run_step. apply runs_free; [rewrite G1, El, lookup_insert_eq; by eexists|].
    run_step. split; cbn; [|by apply mem_wf_delete| |congruence..].
    + by rewrite G1, El, delete_insert_id.
    + intros q Hq. rewrite G3, Ep; [done|]. rewrite El, lookup_insert_ne; [done|].
      intros ->. rewrite Hl in Hq. by destruct Hq.
Qed.

Lemma empty_destroy_runs B t s : table_rep B t ∅ s ->
  runs (ls_htable_destroy clean_event t) s (fun _ s' => heap_of s' = B /\ hs_client s' = hs_client s).
Proof.
  intros (tab & arr & cs & Ht & <- & Hm).
  assert (Hes : entries cs = []).
  { apply length_zero_iff_nil. pose proof (ta_keys _ _ _ _ _ Ht) as Hk.
    by rewrite <- (map_of_size _ Hk), Hm, map_size_empty. }
  eapply ls_htable_destroy_runs; [done|]. by rewrite Hes.
Qed.

Lemma owns_events_pools b L c ps : owns_events b L c -> same_heap (ec_pools c) ps ->
  owns_events b L (set_epools ps c).
Proof.
  intros [H1 H2 H3 H4 (W1 & W2 & W3) H5 H6 H7] [G1 G2 G3 G4 G5]. split; cbn; try done; [..|congruence|congruence].
  - by rewrite G1.
  - intros q Hq. rewrite G3; [by apply H5|]. destruct H4 as (_ & _ & E). rewrite <- E, lookup_without in Hq.
    by case_decide; [destruct Hq|].
Qed.

(** Where events may be created. *)
Record ready s : Prop := {
  rd_table : heap_wf s;
  rd_dispatchers : store_wf (ec_dispatchers (hs_client s));
  rd_events : store_wf (ec_events (hs_client s));
  rd_bindings : store_wf (ec_bindings (hs_client s));
  rd_heap : mem_wf (ps_mem (ec_pools (hs_client s))) }.

Lemma dispatcher_create_runs source len s : ready s ->
  runs (ls_event_dispatcher_create source len) s (fun r s' =>
    ec_moments (hs_client s') = ec_moments (hs_client s) /\ ec_app (hs_client s') = ec_app (hs_client s) /\
    match r with
    | Ok d => owns_dispatcher (base_of (hs_client s)) (heap_of s) d [] s' /\ dispatchers s !! d = None /\
        exists t, dispatchers s' = <[d := Dispatch source t None None None false]> (dispatchers s)
    | Err e => e = LS_ERR_NO_MEMORY /\ heap_of s' = heap_of s /\ dispatchers s' = dispatchers s /\
        owns_events (base_of (hs_client s)) [] (hs_client s')
    end).
Proof.
  intros [R1 R2 R3 R4 R5]. pose proof (owns_events_start _ R3 R4 R5) as Ho.
  pose proof (store_wf_fresh _ R2) as Hf. unfold ls_event_dispatcher_create. run_step.
  eapply runs_conseq; [apply (ls_htable_create_runs (HK := strcase_hashable) DISPATCH_BUCKETS); [done|vm_compute; discriminate]|].
  intros [t|e] s1 [Hc1 H1]; cbn beta iota.
  2:{ destruct H1 as (-> & Hh & _). run_step. by rewrite Hc1. }
  run_step. apply runs_new; cbn beta iota.
  - run_step. eapply runs_conseq; [apply empty_destroy_runs, (table_rep_stores _ _ _ s1); [exact H1|done..]|].
    intros _ s2 [Hh Hc2]. run_step. rewrite Hc2. cbn. rewrite Hc1. done.
  - cbn. rewrite Hc1. set (d := st_next (ec_dispatchers (hs_client s))) in *. run_step.
    apply runs_zoom, runs_zoom. cbn.
    eapply runs_conseq; [by apply push_pop_ndc_runs|]. intros [] ps Hps; cbn beta iota.
    + run_step. split_and!; [done|done| |done|by exists t].
      split; [|constructor|by eapply (owns_events_ext _ _ (set_epools ps (hs_client s))); [by apply owns_events_pools|..]].
      eexists _, ∅. split_and!; [by cbn; rewrite lookup_insert_eq| |by rewrite map_to_list_empty].
      by eapply (table_rep_stores _ _ _ s1).
    + run_step. eapply runs_conseq; [apply empty_destroy_runs, (table_rep_stores _ _ _ s1); [exact H1|done..]|].
      intros _ s2 [Hh Hc2]. run_step.
      apply runs_release; [cbn; rewrite Hc2; cbn; rewrite lookup_insert_eq; by eexists|]. run_step. cbn. rewrite Hc2. cbn.
      split_and!; [done|done|done|exact Hh|by apply delete_insert_id|].
      by eapply (owns_events_ext _ _ (set_epools ps (hs_client s))); [by apply owns_events_pools|..].
Qed.

(** *** Destruction *)
Lemma dispatcher_destroy_runs b B d L s dd : owns_dispatcher b B d L s ->
  dispatchers s !! d = Some dd -> d_running dd = None -> d_next_moment dd = None ->
  runs (ls_event_dispatcher_destroy d) s (fun _ s' =>
    heap_of s' = B /\ dispatchers s' = delete d (dispatchers s) /\ owns_events b [] (hs_client s') /\
    ec_moments (hs_client s') = ec_moments (hs_client s) /\ ec_app (hs_client s') = ec_app (hs_client s)).
Proof.
  intros [(dd' & m & Hd & (tab & arr & cs & Ht & HB & Hm) & Hp) _ Ho] Hd' Hr Hn. assert (dd' = dd) as -> by congruence.
  unfold ls_event_dispatcher_destroy. run_step. apply (runs_load d dd); [done|]. rewrite Hr, Hn. run_step.
  run_step. cbn [destroy_moments]. run_step. run_step. run_step.
  destruct (runs_inv _ _ _ (clean_all_runs b (entries cs) L (hs_client s)
    ltac:(by rewrite (map_to_list_entries _ (ta_keys _ _ _ _ _ Ht)), Hm, Hp) Ho)) as ([] & c' & Ec & Ho' & [S1 S2 S3]).
  eapply runs_conseq; [by eapply ls_htable_destroy_runs|]. intros _ s1 [Hh Hc].
  apply runs_release; [cbn; rewrite Hc, S1, Hd; by eexists|]. cbn. rewrite Hc, S1.
  split_and!; [rewrite <- HB; exact Hh|done|by apply (owns_events_ext _ _ c')|done|done].
Qed.

(** *** Creating events *)
Lemma owns_events_add b L c c' n ps : owns_events b L c -> block_added (n_name_block n) (ec_pools c) ps ->
  n_bindings n = None ->
  c' = EClient (ec_dispatchers c) (st_add n (ec_events c)) (ec_bindings c) (ec_moments c) ps (ec_app c) ->
  owns_events b (OwnedEvent (st_next (ec_events c)) n [] :: L) c'.
Proof.
  intros [H1 H2 H3 H4 (W1 & W2 & W3) H5 H6 H7] [A1 [sz A2] A3 (A4 & A5 & A6)] Hn ->.
  pose proof (store_wf_fresh _ W1) as Hf. split; cbn; rewrite ?A4, ?A5, ?A6; try done.
  - constructor.
    + split; cbn; [by rewrite lookup_insert_eq|done].
    + eapply Forall_impl; [exact H1|]. intros o [He Hc]. split; [|done]. cbn.
      rewrite lookup_insert_ne; [done|]. intros E. rewrite E in Hf. congruence.
  - by apply held_add.
  - rewrite A2. by apply held_add.
  - split_and!; [by apply store_wf_add|done|done].
Qed.

Lemma knows_owned b B d L s : owns_dispatcher b B d L s ->
  exists dd m, knows s d dd B m /\ (map_to_list m).*2 ≡ₚ oe_entry <$> L /\ size m = length L.
Proof.
  intros [(dd & m & H1 & H2 & H3) _ _]. exists dd, m. split_and!; [split_and!; [done|done|]|done|by apply owned_size].
  intros k e Hk. destruct (owned_lookup _ _ _ _ H3 Hk) as (o & _ & ->). by eexists.
Qed.

Lemma create_event_owned b B d L s name : owns_dispatcher b B d L s -> cstr_wf name ->
  Z.of_nat (length L) < 2 ^ 28 ->
  runs (ls_event_dispatcher_create_event d name) s (fun r s' => same_elsewhere (hs_client s) (hs_client s') /\
    match r with
    | Ok e => exists n, n_name n = name /\ n_bindings n = None /\ name <> [] /\
        lower name ∉ (oe_key <$> L) /\
        owns_dispatcher b B d (OwnedEvent e n [] :: L) s'
    | Err x => owns_dispatcher b B d L s' /\
        ((x = LS_ERR_INVALID_ARG /\ name = []) \/
         (x = LS_ERR_INVALID_STATE /\ name <> [] /\ lower name ∈ oe_key <$> L) \/
         (x = LS_ERR_NO_MEMORY /\ name <> [] /\ lower name ∉ oe_key <$> L))
    end).
Proof.
  intros Ho Hw Hsz. destruct (knows_owned _ _ _ _ _ Ho) as (dd & m & Hk & Hp & Em).
  destruct Ho as [_ Hm Ho]. pose proof (oe_wf _ _ _ Ho) as (W1 & W2 & W3).
  pose proof Hk as (Hd & Ht0 & _). pose proof (owned_key _ _ _ _ _ (lower name) Ht0 Hp) as Hkey.
  eapply runs_conseq; [by apply (create_event_runs s d dd B m name); [| |by rewrite Em|..]|].
  intros [e|x] s'; cbn beta iota.
  - intros (Hne & Hnew & -> & n & ps & Hn & Hnd & _ & Hb & Hc & Hps & Ht). rewrite Hc. split; [done|].
    exists n. split_and!; [done|done|done|rewrite <- Hkey, Hnew; by intros []|]. split; [|by constructor|by eapply owns_events_add].
    eexists dd, _. split_and!; [by rewrite Hc|exact Ht|]. rewrite map_to_list_insert by done. cbn.
    unfold oe_entry at 1. cbn. by rewrite Hn, Hp.
  - intros (Hx & Ht & ev & ps & Eev & Wev & Hps & Hc). rewrite Hc. split_and!; [done| |].
    2:{ rewrite <- Hkey, <- eq_None_not_Some. exact Hx. }
    split; [|done|].
    + exists dd, m. by rewrite Hc.
    + rewrite Hc. destruct (owns_events_pools _ _ _ _ Ho Hps) as [H1 H2 H3 H4 (_ & _ & H5) H6 H7 H8].
      split; cbn in *; rewrite ?Eev; try done. eapply Forall_impl; [exact H1|].
      intros o. unfold event_there. cbn. by rewrite Eev.
Qed.

(** *** Binding and unbinding *)
Lemma owned_event_at b B d L L' o s : owns_dispatcher b B d L s -> L ≡ₚ o :: L' ->
  event_at s (oe_at o) (oe_notifier o) (without (binding_locs o) (binds (hs_client s))) (views (oe_bindings o)) s.
Proof.
  intros [_ _ Ho] HL. apply (owns_events_perm _ _ _ _ HL) in Ho as [H1 _ _ _ (_ & W & _) _ _ _].
  apply Forall_cons in H1 as [[He Hc] _]. exists (oe_notifier o), (oe_bindings o).
  split_and!; [by destruct (oe_notifier o)|by rewrite insert_id|done..].
Qed.

Lemma event_at_owned b B d L L' o vs s s' : owns_dispatcher b B d L s -> L ≡ₚ o :: L' ->
  event_at s (oe_at o) (oe_notifier o) (without (binding_locs o) (binds (hs_client s))) vs s' ->
  exists n bs, n = set_bindings (n_bindings n) (oe_notifier o) /\ views bs = vs /\
    owns_dispatcher b B d (OwnedEvent (oe_at o) n bs :: L') s' /\ only_lists s s'.
Proof.
  intros Ho HL (n & bs & Hn & He & Hc & Hv & HB & Hwf & Hs). exists n, bs. split_and!; [done|done| |done].
  apply (owns_dispatcher_perm _ _ _ _ _ _ HL) in Ho as [(dd & m & Hd & Ht & Hp) Hm [H1 H2 H3 H4 (W1 & W2 & W3) H5 H6 H7]].
  apply Forall_cons in H1 as [[Heo Hco] H1]. destruct Hs as [S1 S2 S3 S4 S5 S6 S7 S8].
  assert (Hsame : forall l, is_Some (without (binding_locs o) (binds (hs_client s)) !! l) ->
    binds (hs_client s') !! l = binds (hs_client s) !! l).
  { intros l Hl. pose proof Hl as Hl'. rewrite <- HB in Hl'. rewrite !lookup_without in Hl, Hl'.
    pose proof (f_equal (lookup l) HB) as E. rewrite !lookup_without in E.
    repeat case_decide; try (by destruct Hl); try (by destruct Hl'); done. }
  assert (Hbs : Forall (fun l => is_Some (binds (hs_client s') !! l)) bs.*1).
  { apply Forall_fmap, Forall_forall. intros [l bb] Hin. cbn. by rewrite (chain_lookup _ _ _ _ _ _ Hc Hin). }
  pose proof (held_swap _ bs.*1 _ _ _ (binds (hs_client s')) H3 (chain_nodup _ _ _ _ Hc) Hbs HB) as H3'.
  destruct (held_app _ _ _ _ H3) as (_ & Hlive & _).
  split; [| |split].
  - exists dd, m. rewrite S4. split_and!; [done|by eapply table_rep_stores|]. rewrite Hp. cbn. unfold oe_entry.
    cbn. by rewrite Hn.
  - apply Forall_cons in Hm as [? ?]. constructor; [cbn; by rewrite Hn|done].
  - constructor.
    + split; cbn; [by rewrite He, lookup_insert_eq|done].
    + apply Forall_forall. intros o' Hin. apply (Forall_forall _ _) with (x := o') in H1; [|done].
      destruct H1 as [He' Hc']. split.
      * rewrite He, lookup_insert_ne; [done|]. intros E. destruct H2 as (Hd2 & _ & _). cbn in Hd2.
        apply NoDup_cons in Hd2 as [Hno _]. apply Hno. rewrite E. by apply list_elem_of_fmap_2.
      * eapply chain_ext; [done|]. intros l Hl. apply Hsame.
        apply (Forall_forall _ _) with (x := l) in Hlive; [done|]. apply list_elem_of_bind. by exists o'.
  - cbn. rewrite He. destruct H2 as (D1 & D2 & D3). split_and!; [done| |].
    + eapply Forall_impl; [exact D2|]. intros l Hl. cbn beta. rewrite lookup_insert. case_decide; [by eexists|done].
    + rewrite <- D3. apply without_insert_in. by left.
  - done.
  - cbn in *. rewrite S7. unfold oe_block in *. cbn in *. by rewrite Hn.
  - split_and!; [|done|by rewrite S7]. intros l. rewrite He, S5, lookup_insert.
    case_decide as E; [intros _; subst l; apply W1; by eexists|apply W1].
  - intros q. rewrite S7. apply H5.
  - by rewrite S7.
  - by rewrite S7.
Qed.

(** *** Looking up *)
Lemma get_event_owned b B d L s name : owns_dispatcher b B d L s -> cstr_wf name ->
  exists r, ls_event_dispatcher_get_event d name s = Done (r, s) /\
    match r with
    | None => lower name ∉ oe_key <$> L
    | Some e => exists o L', L ≡ₚ o :: L' /\ oe_key o = lower name /\ oe_at o = e
    end.
Proof.
  intros Ho Hw. destruct (knows_owned _ _ _ _ _ Ho) as (dd & m & Hk & Hp & _).
  pose proof Hk as (_ & Ht & _). pose proof (owned_key _ _ _ _ _ (lower name) Ht Hp) as Hkey.
  eexists. split; [exact (get_event_done s d dd B m name Hk Hw)|].
  destruct (m !! lower name) as [e|] eqn:Em; cbn [mbind option_bind].
  - destruct (owned_lookup _ _ _ _ Hp Em) as (o & Hin & ->). cbn.
    apply elem_of_Permutation in Hin as [L' HL]. exists o, L'. split_and!; [done| |done].
    by rewrite (table_rep_key _ _ _ _ _ _ Ht Em).
  - rewrite <- Hkey. by intros [].
Qed.

(** *** Triggering

    Callbacks may run, which sets flags of bindings, the dispatcher's and others'. *)
Record base_like (b b' : event_base) : Prop := {
  bl_events : eb_events b' = eb_events b;
  bl_bindings l : unflag <$> eb_bindings b' !! l = unflag <$> eb_bindings b !! l;
  bl_pools : eb_pools b' = eb_pools b }.

#[export] Instance base_like_po : PreOrder base_like.
Proof. split; [by split|]. intros b1 b2 b3 [] []. split; [congruence| |congruence]. intros l. congruence. Qed.

Lemma refreshed L c c' : Forall (event_there c) L -> ec_events c' = ec_events c ->
  (forall l, unflag <$> binds c' !! l = unflag <$> binds c !! l) ->
  exists L', Forall (event_there c') L' /\ oe_at <$> L' = oe_at <$> L /\
    oe_notifier <$> L' = oe_notifier <$> L /\ L' ≫= binding_locs = L ≫= binding_locs.
Proof.
  intros HL Eev Hun. induction HL as [|o L [He Hc] _ (L' & F & E1 & E2 & E3)]; [by exists []|].
  destruct (unflag_chain _ (binds c') _ _ Hun Hc) as (bs' & Hc' & _ & _ & Efst).
  exists (OwnedEvent (oe_at o) (oe_notifier o) bs' :: L').
  split_and!; [|by cbn; rewrite E1|by cbn; rewrite E2|].
  - constructor; [|done]. split; [by rewrite Eev|done].
  - rewrite !bind_cons, E3. unfold binding_locs at 1. cbn. by rewrite Efst.
Qed.

Lemma notifiers_entries (L L' : list owned_event) : oe_at <$> L' = oe_at <$> L -> oe_notifier <$> L' = oe_notifier <$> L ->
  oe_entry <$> L' = oe_entry <$> L /\ oe_block <$> L' = oe_block <$> L.
Proof.
  revert L'. induction L as [|o L IH]; intros [|o' L']; try done. cbn. intros [= E1 E2] [= E3 E4].
  destruct (IH _ E2 E4) as [-> ->]. unfold oe_entry, oe_block. by rewrite E1, E3.
Qed.

Lemma owns_refreshed b L c c' : owns_events b L c -> ec_events c' = ec_events c ->
  same_bindings (ec_bindings c) (ec_bindings c') -> same_heap (ec_pools c) (ec_pools c') ->
  exists L' b', owns_events b' L' c' /\ base_like b b' /\ oe_at <$> L' = oe_at <$> L /\
    oe_notifier <$> L' = oe_notifier <$> L.
Proof.
  intros Ho Eev [Hnx Hun] Hps.
  destruct (owns_events_pools _ _ _ _ Ho Hps) as [H1 H2 H3 H4 (W1 & W2 & W3) H5 H6 H7].
  cbn [ec_events ec_bindings ec_pools set_epools] in *.
  destruct (refreshed L c c') as (L' & F & E1 & E2 & E3); [|done|done|].
  { eapply Forall_impl; [exact H1|]. by intros o []. }
  destruct (notifiers_entries _ _ E1 E2) as [E4 E5].
  assert (Hdom : forall l, is_Some (binds c !! l) <-> is_Some (binds c' !! l)).
  { intros l. specialize (Hun l). destruct (binds c !! l), (binds c' !! l); try done; split; intros ?; by eexists. }
  exists L', (EventBase (eb_events b) (without (L ≫= binding_locs) (binds c')) (eb_pools b)).
  destruct H3 as (D1 & D2 & D3).
  split_and!; [split; cbn|split; cbn|done|done]; try done.
  - by rewrite E1, Eev.
  - rewrite E3. split_and!; [done| |done]. eapply Forall_impl; [exact D2|]. intros l. by rewrite Hdom.
  - by rewrite E5.
  - split_and!; [by rewrite Eev| |done]. intros l. rewrite <- Hdom, Hnx. apply W2.
  - intros l. rewrite <- D3, !lookup_without. by case_decide.
Qed.

Lemma owns_dispatcher_untouched b B d L s s' : owns_dispatcher b B d L s -> untouched s s' ->
  exists L' b', owns_dispatcher b' B d L' s' /\ base_like b b' /\
    oe_at <$> L' = oe_at <$> L /\ oe_notifier <$> L' = oe_notifier <$> L.
Proof.
  intros [(dd & m & Hd & Ht & Hp) Hm Ho] [(U1 & U2 & U3) U4 U5 U6 _ U8].
  destruct (owns_refreshed _ _ _ _ Ho U5 U6 U8) as (L' & b' & Ho' & Hb & E1 & E2).
  destruct (notifiers_entries _ _ E1 E2) as [E4 E5].
  exists L', b'. split_and!; [split|done|done|done].
  - exists dd, m. rewrite U4, E4. split_and!; [done| |done].
    eapply table_rep_stores; [exact Ht|done..].
  - assert (Hn : forall L, Forall (fun o => n_dispatcher (oe_notifier o) = d) L <->
      Forall (fun n => n_dispatcher n = d) (oe_notifier <$> L)) by (intros L0; by rewrite Forall_fmap).
    by rewrite Hn, E2, <- Hn.
  - done.
Qed.

(** ** Sessions

    What a client does with a dispatcher: it names its events. *)
Inductive dispatcher_op :=
  | CreateEvent (name : cstr)
  | BindEvent (name : cstr) (cb : CB) (arg : A)
  | UnbindEvent (name : cstr) (cb : CB).

Definition op_name (op : dispatcher_op) : cstr :=
  match op with CreateEvent name | BindEvent name _ _ | UnbindEvent name _ => name end.

(** [None]: there is no such event. *)
Definition run_dispatcher_op (d : loc) (op : dispatcher_op) : C state (option (res Z unit)) :=
  match op with
  | CreateEvent name =>
      r ← ls_event_dispatcher_create_event d name;
      mret (Some (match r with Ok _ => Ok tt | Err e => Err e end))
  | BindEvent name cb arg =>
      p ← ls_event_dispatcher_get_event d name;
      match p with
      | Some e => r ← ls_event_bind e cb arg; mret (Some r)
      | None => mret None
      end
  | UnbindEvent name cb =>
      p ← ls_event_dispatcher_get_event d name;
      match p with
      | Some e => ls_event_unbind e cb;; mret (Some (Ok tt))
      | None => mret None
      end
  end.

Fixpoint run_dispatcher_ops (d : loc) (ops : list dispatcher_op) : C state (list (option (res Z unit))) :=
  match ops with
  | [] => mret []
  | op :: ops => r ← run_dispatcher_op d op; rs ← run_dispatcher_ops d ops; mret (r :: rs)
  end.

Definition dispatcher_session (source : A) (len : Z) (ops : list dispatcher_op)
    : C state (res Z (list (option (res Z unit)))) :=
  r ← ls_event_dispatcher_create source len;
  match r with
  | Err e => mret (Err e)
  | Ok d => rs ← run_dispatcher_ops d ops; ls_event_dispatcher_destroy d;; mret (Ok rs)
  end.

(** *** What it means: a map from lower-cased names to lists of bindings *)
Abbreviation event_map := (gmap (list Z) (list (bview (CB := CB) (A := A)))).

Inductive dispatcher_step : event_map -> dispatcher_op -> option (res Z unit) -> event_map -> Prop :=
  | ds_unnamed m : dispatcher_step m (CreateEvent []) (Some (Err LS_ERR_INVALID_ARG)) m
  | ds_known m name : name <> [] -> is_Some (m !! lower name) ->
      dispatcher_step m (CreateEvent name) (Some (Err LS_ERR_INVALID_STATE)) m
  | ds_create_nomem m name : name <> [] -> m !! lower name = None ->
      dispatcher_step m (CreateEvent name) (Some (Err LS_ERR_NO_MEMORY)) m
  | ds_create m name : name <> [] -> m !! lower name = None ->
      dispatcher_step m (CreateEvent name) (Some (Ok tt)) (<[lower name := []]> m)
  | ds_bind_unknown m name cb arg : m !! lower name = None -> dispatcher_step m (BindEvent name cb arg) None m
  | ds_bind_nomem m name cb arg vs : m !! lower name = Some vs -> ~ bound cb vs ->
      dispatcher_step m (BindEvent name cb arg) (Some (Err LS_ERR_NO_MEMORY)) m
  | ds_bind m name cb arg vs : m !! lower name = Some vs ->
      dispatcher_step m (BindEvent name cb arg) (Some (Ok tt)) (<[lower name := bind_view cb arg vs]> m)
  | ds_unbind_unknown m name cb : m !! lower name = None -> dispatcher_step m (UnbindEvent name cb) None m
  | ds_unbind m name cb vs : m !! lower name = Some vs ->
      dispatcher_step m (UnbindEvent name cb) (Some (Ok tt)) (<[lower name := unbind_view cb vs]> m).

Inductive dispatcher_steps : event_map -> list dispatcher_op -> list (option (res Z unit)) -> event_map -> Prop :=
  | dss_nil m : dispatcher_steps m [] [] m
  | dss_cons m op r m1 ops rs m2 : dispatcher_step m op r m1 -> dispatcher_steps m1 ops rs m2 ->
      dispatcher_steps m (op :: ops) (r :: rs) m2.

Definition abstract (L : list owned_event) : event_map :=
  list_to_map ((fun o => (oe_key o, views (oe_bindings o))) <$> L).

Lemma abstract_none L k : k ∉ oe_key <$> L -> abstract L !! k = None.
Proof.
  intros Hk. apply not_elem_of_list_to_map_1. intros Hin. apply Hk.
  by rewrite <- list_fmap_compose in Hin.
Qed.

Lemma abstract_perm L L' : NoDup (oe_key <$> L) -> L ≡ₚ L' -> abstract L = abstract L'.
Proof.
  intros Hd Hp. apply list_to_map_proper; [by rewrite <- list_fmap_compose|by apply fmap_Permutation].
Qed.

(** The dispatcher is in the state [m]. *)
Definition dispatcher_in (b : event_base) (B : heap_base) (d : loc) (n : nat) (m : event_map) s : Prop :=
  exists L dd, owns_dispatcher b B d L s /\ NoDup (oe_key <$> L) /\ abstract L = m /\ (length L <= n)%nat /\
    dispatchers s !! d = Some dd /\ d_running dd = None /\ d_next_moment dd = None.

(** An operation changes nothing outside the events and the heap of their names. *)
Definition kept s s' : Prop :=
  ec_moments (hs_client s') = ec_moments (hs_client s) /\ ec_app (hs_client s') = ec_app (hs_client s) /\
  dispatchers s' = dispatchers s.

Lemma dispatcher_in_le b B d n n' m s : (n <= n')%nat -> dispatcher_in b B d n m s -> dispatcher_in b B d n' m s.
Proof. intros Hn (L & dd & Ho & Hd & Hm & Hl & H1 & H2 & H3). exists L, dd. by split_and!; try lia. Qed.

Lemma dispatcher_create_step b B d n m name s : dispatcher_in b B d n m s -> cstr_wf name ->
  Z.of_nat n < 2 ^ 28 ->
  runs (run_dispatcher_op d (CreateEvent name)) s (fun r s' => exists m',
    dispatcher_step m (CreateEvent name) r m' /\ dispatcher_in b B d (S n) m' s' /\ kept s s').
Proof.
  intros (L & dd & Ho & Hd & <- & Hlen & Hdd & Hr & Hn) Hw Hsz. cbn [run_dispatcher_op]. run_step.
  eapply runs_conseq; [apply (create_event_owned b B d L); [done|done|lia]|].
  intros [e|x] s' [[S1 S2 S3] H]; cbn beta iota; run_step.
  - destruct H as (nn & En & Eb & Hne & Hk & Ho'). exists (<[lower name := []]> (abstract L)).
    assert (Ek : oe_key (OwnedEvent e nn []) = lower name) by (unfold oe_key; cbn; by rewrite En).
    split_and!; [by apply ds_create, abstract_none| |by split_and!; try rewrite S1].
    exists (OwnedEvent e nn [] :: L), dd. rewrite S1. cbn [fmap list_fmap length]. rewrite Ek.
    split_and!; [done|by constructor| |lia|done..]. unfold abstract. cbn. by rewrite Ek.
  - destruct H as [Ho' H]. exists (abstract L).
    split_and!; [|by exists L, dd; rewrite S1; split_and!; (done || lia)|by split_and!; try rewrite S1].
    destruct H as [[-> ->]|[(-> & Hne & Hk)|(-> & Hne & Hk)]].
    + apply ds_unnamed.
    + apply ds_known; [done|]. apply list_elem_of_fmap in Hk as (o & -> & [L' HL]%elem_of_Permutation).
      rewrite (abstract_perm _ _ Hd HL). unfold abstract. cbn. rewrite lookup_insert_eq. by eexists.
    + by apply ds_create_nomem, abstract_none.
Qed.

(** The event of a name, with what changing its bindings does. *)
Lemma event_found b B d n m name s : dispatcher_in b B d n m s -> cstr_wf name ->
  exists r, ls_event_dispatcher_get_event d name s = Done (r, s) /\
    match r with
    | None => m !! lower name = None
    | Some e => exists nn B0 vs dd, m !! lower name = Some vs /\ event_at s e nn B0 vs s /\
        dispatchers s !! n_dispatcher nn = Some dd /\ d_running dd <> Some e /\
        forall vs' s', event_at s e nn B0 vs' s' ->
          dispatcher_in b B d n (<[lower name := vs']> m) s' /\ kept s s'
    end.
Proof.
  intros (L & dd & Ho & Hd & <- & Hlen & Hdd & Hr & Hn) Hw.
  destruct (get_event_owned _ _ _ _ _ _ Ho Hw) as (r & Er & H). exists r. split; [done|].
  destruct r as [e|]; [|by apply abstract_none]. destruct H as (o & L' & HL & <- & <-).
  assert (Hnd : n_dispatcher (oe_notifier o) = d).
  { destruct Ho as [_ Hm _]. rewrite HL in Hm. by apply Forall_cons in Hm as [? _]. }
  exists (oe_notifier o), (without (binding_locs o) (binds (hs_client s))), (views (oe_bindings o)), dd.
  assert (Hdo : NoDup (oe_key <$> o :: L')) by (by rewrite <- HL).
  rewrite Hnd, Hr, (abstract_perm _ _ Hd HL).
  split_and!; [unfold abstract; cbn; apply lookup_insert_eq|by eapply owned_event_at|done|done|].
  intros vs' s' Hat.
  destruct (event_at_owned _ _ _ _ _ _ _ _ _ Ho HL Hat) as (nn & bs & Hnn & <- & Ho' & [S1 S2 S3 S4 S5 S6 S7 S8]).
  split; [|split_and!; [done|done|by rewrite S4]].
  assert (Ek : oe_key (OwnedEvent (oe_at o) nn bs) = oe_key o) by (unfold oe_key; cbn; by rewrite Hnn).
  exists (OwnedEvent (oe_at o) nn bs :: L'), dd. rewrite S4. cbn [fmap list_fmap] in *. rewrite Ek.
  split_and!; [done|done| |by rewrite HL in Hlen|done..].
  unfold abstract. cbn. rewrite Ek. by rewrite insert_insert_eq.
Qed.

Lemma dispatcher_in_kept m m' r b B d n op s s' : dispatcher_step m op r m' ->
  dispatcher_in b B d n m' s' /\ kept s s' ->
  exists m', dispatcher_step m op r m' /\ dispatcher_in b B d (S n) m' s' /\ kept s s'.
Proof. intros Hm [H1 H2]. exists m'. split_and!; [done|eapply dispatcher_in_le; [|done]; lia|done]. Qed.

Lemma run_dispatcher_op_runs b B d n m op s : dispatcher_in b B d n m s -> cstr_wf (op_name op) ->
  Z.of_nat n < 2 ^ 28 ->
  runs (run_dispatcher_op d op) s (fun r s' => exists m',
    dispatcher_step m op r m' /\ dispatcher_in b B d (S n) m' s' /\ kept s s').
Proof.
  intros Hin Hw Hsz. destruct op as [name|name cb arg|name cb]; [by apply dispatcher_create_step|..];
    cbn [run_dispatcher_op op_name] in *; run_step;
    (destruct (event_found _ _ _ _ _ _ _ Hin Hw) as (r & Er & H); eapply runs_done; [exact Er|]);
    (destruct r as [e|]; [destruct H as (nn & B0 & vs & dd & Hm & Hat & Hdd & Hr & Hstep); run_step|run_step]).
  - eapply runs_conseq; [by apply ls_event_bind_runs|]. intros [[]|x] s' H; run_step.
    + eapply dispatcher_in_kept; [by apply ds_bind|by apply Hstep].
    + destruct H as (-> & Hnb & H). apply Hstep in H. rewrite (insert_id _ _ _ Hm) in H.
      eapply dispatcher_in_kept; [by eapply ds_bind_nomem|done].
  - eapply dispatcher_in_kept; [by apply ds_bind_unknown|done].
  - eapply runs_conseq; [by eapply ls_event_unbind_runs|]. intros [] s' H. run_step.
    eapply dispatcher_in_kept; [by apply ds_unbind|by apply Hstep].
  - eapply dispatcher_in_kept; [by apply ds_unbind_unknown|done].
Qed.

Lemma run_dispatcher_ops_runs b B d ops : forall n m s, dispatcher_in b B d n m s ->
  Forall (fun op => cstr_wf (op_name op)) ops -> Z.of_nat (n + length ops) < 2 ^ 28 ->
  runs (run_dispatcher_ops d ops) s (fun rs s' => exists n' m',
    dispatcher_steps m ops rs m' /\ dispatcher_in b B d n' m' s' /\ kept s s').
Proof.
  induction ops as [|op ops IH]; intros n m s Hin Hw Hsz; cbn [run_dispatcher_ops length] in *.
  { run_step. exists n, m. split_and!; [constructor|done..]. }
  apply Forall_cons in Hw as [Hw Hws]. run_step.
  eapply runs_conseq; [apply (run_dispatcher_op_runs b B d n m); [done|done|lia]|].
  intros r s1 (m1 & Hm1 & Hin1 & K1 & K2 & K3). run_step.
  eapply runs_conseq; [apply (IH (S n) m1); [done|done|lia]|].
  intros rs s2 (n2 & m2 & Hm2 & Hin2 & K4 & K5 & K6). run_step. exists n2, m2.
  split_and!; [by econstructor|done|unfold kept; split_and!; congruence].
Qed.

(** C11: a dispatcher's life.  Creating a dispatcher, any sequence of creating events and
    of binding and unbinding callbacks to events by name, and destroying it ends without a
    fault; its answers are those of a map from names, in lower case, to lists of bindings
    (an event that is there is not created again, an unknown one is not bound), which
    allocations that fail leave as it is.  And nothing leaks, wherever memory ran out: the
    tables, dispatchers, events, bindings and the heap of the names are as they were. *)
Theorem dispatcher_session_refines source len ops s : ready s ->
  Forall (fun op => cstr_wf (op_name op)) ops -> Z.of_nat (length ops) < 2 ^ 28 ->
  runs (dispatcher_session source len ops) s (fun r s' =>
    match r with
    | Err e => e = LS_ERR_NO_MEMORY
    | Ok rs => exists m, dispatcher_steps ∅ ops rs m
    end /\
    heap_of s' = heap_of s /\ dispatchers s' = dispatchers s /\ events (hs_client s') = events (hs_client s) /\
    binds (hs_client s') = binds (hs_client s) /\ same_heap (ec_pools (hs_client s)) (ec_pools (hs_client s')) /\
    ec_moments (hs_client s') = ec_moments (hs_client s) /\ ec_app (hs_client s') = ec_app (hs_client s)).
Proof.
  intros Hs Hw Hsz. unfold dispatcher_session. run_step.
  eapply runs_conseq; [by apply dispatcher_create_runs|]. intros [d|e] s1 (M1 & A1 & H); cbn beta iota.
  - destruct H as (Ho & Hf & t & Hd). run_step. set (dd := Dispatch source t None None None false) in *.
    assert (Hin : dispatcher_in (base_of (hs_client s)) (heap_of s) d 0 ∅ s1).
    { exists [], dd. rewrite Hd. split_and!; [done|constructor|done|done|by rewrite lookup_insert_eq|done..]. }
    eapply runs_conseq; [exact (run_dispatcher_ops_runs _ _ d ops 0%nat ∅ s1 Hin Hw Hsz)|].
    intros rs s2 (n2 & m & Hm & (L & dd' & Ho2 & _ & _ & _ & Hd2 & Hr & Hn) & M2 & A2 & D2). run_step.
    eapply runs_conseq; [by eapply dispatcher_destroy_runs|]. intros _ s3 (Hh & Hd3 & Ho3 & M3 & A3). run_step.
    apply owns_events_end in Ho3 as (E3 & B3 & P3).
    split_and!; [by exists m|done| |done|done|done|congruence..].
    rewrite Hd3, D2, Hd. by apply delete_insert_id.
  - destruct H as (-> & Hh & Hd & (E3 & B3 & P3)%owns_events_end). run_step. done.
Qed.
End life.

(** *** An example: "Data" is created, and again as "dATA"; a callback is bound to it, and to
    an event that is not there *)
Definition life_ex : estate Z unit Z Z unit :=
  HState store_empty store_empty store_empty [false; false; false]
    (EClient store_empty store_empty store_empty store_empty (pstate_init []) tt).

Lemma dispatcher_session_refines_witness :
  let ops := [CreateEvent [68; 97; 116; 97]; CreateEvent [100; 65; 84; 65]; BindEvent [100; 97; 116; 97] 1 10;
              BindEvent [120] 1 10; UnbindEvent [68; 65; 84; 65] 1] in
  runs (dispatcher_session (RCB := unit) (D := Z) (X := unit) 7 3 ops) life_ex (fun r s' =>
    match r with
    | Err e => e = LS_ERR_NO_MEMORY
    | Ok rs => exists m, dispatcher_steps ∅ ops rs m
    end /\
    heap_of s' = HeapBase ∅ ∅ ∅ /\ st_objs (ec_dispatchers (hs_client s')) = ∅ /\
    st_objs (ec_events (hs_client s')) = ∅ /\ st_objs (ec_bindings (hs_client s')) = ∅ /\
    same_heap (pstate_init []) (ec_pools (hs_client s')) /\
    ec_moments (hs_client s') = store_empty /\ ec_app (hs_client s') = tt).
Proof.
  intros ops. refine (dispatcher_session_refines 7 3 ops life_ex _ _ _).
  - split; [split_and!| | | |]; try apply store_wf_empty.
  - by repeat constructor.
  - reflexivity.
Defined.
