(* ===== verification/TubeManager.v ===== *)
(** The tube manager: src/tube_manager.c, src/tube_manager_int.h.

    The program's state is one tube manager with its table of tubes, its timers and its
    queue, in a state of the eventing library (LsEventing.v), since event callbacks may do
    anything to any of it.  What the operating system answers (clocks, locks, sockets,
    select(), recvmsg()) is a script of answers; callbacks of events, timers and signals
    are the client's. *)

From S2P Require Import Prelude LsError LsStr LsMem Store LsTimer LsHtable LsHash GHeap GHeapLayout PQueue Spud LsSockaddr LsPktinfo Tube LsEventing.
Open Scope Z_scope.

(** *** What the operating system answers *)
Inductive select_answer :=
  | SelectErrno (e : Z)
  | SelectTimeout
  | SelectReady (pipe : option Z) (sock6 sock4 : bool).   (* the byte in the pipe *)

(** One control message that recvmsg() may deliver. *)
Inductive control_in :=
  | InPktinfo6 (i : in6_pktinfo)
  | InPktinfo4 (i : in_pktinfo)
  | InTimestamp (t : timeval).

Inductive recv_answer :=
  | RecvErrno (e : Z)
  | Recv (payload : bytes) (from : sockaddr) (control : list control_in).

(** The call fails as soon as one of its parts does. *)
Definition attempt {S A B} (m : C S (res Z A)) (k : A -> C S (res Z B)) : C S (res Z B) :=
  r ← m; match r with Err e => mret (Err e) | Ok a => k a end.
Notation "x '←!' y ; z" := (attempt y (fun x => z))
  (at level 20, y at level 100, z at level 200) : spud_scope.
Notation "' x '←!' y ; z" := (attempt y (fun x => z))
  (at level 20, x pattern, y at level 100, z at level 200) : spud_scope.

Record env := Env {
  en_sys : list Z;                  (* errno, or 0, of calls that only succeed or fail *)
  en_fds : list (Z + Z);            (* new descriptors, or errno *)
  en_times : list (timeval + Z);    (* gettimeofday(): the time, or errno *)
  en_writes : list (Z * Z);         (* write() to the pipe: its result and errno *)
  en_selects : list select_answer;
  en_recvs : list recv_answer;
  en_rands : list rand_answer;
  en_bound : list (Z * sockaddr);          (* what bind() was called with, latest first *)
  en_waits : list (option timeval) }.      (* the timeouts of select(), latest first *)

Definition EINTR : Z := 4.
Definition EAGAIN : Z := 11.

Definition TP_IGNORE_SOURCE : Z := 1.
Definition TP_WILL_RESPOND : Z := 2.
Definition DEFAULT_HASH_SIZE : Z := 65521.

(** "loopstart", "running", "data", "close", "add", "remove" *)
Definition EV_LOOPSTART_NAME : cstr := [108; 111; 111; 112; 115; 116; 97; 114; 116].
Definition EV_RUNNING_NAME : cstr := [114; 117; 110; 110; 105; 110; 103].
Definition EV_DATA_NAME : cstr := [100; 97; 116; 97].
Definition EV_CLOSE_NAME : cstr := [99; 108; 111; 115; 101].
Definition EV_ADD_NAME : cstr := [97; 100; 100].
Definition EV_REMOVE_NAME : cstr := [114; 101; 109; 111; 118; 101].

Record manager := Manager {
  mg_initialized : bool;
  mg_sock4 : Z;
  mg_sock6 : Z;
  mg_pipe_r : Z;
  mg_pipe_w : Z;
  mg_max_fd : Z;
  mg_tubes : ptr;
  mg_dispatcher : ptr;
  mg_last : timeval;
  mg_loopstart : ptr;
  mg_running : ptr;
  mg_ev_data : ptr;
  mg_close : ptr;
  mg_add : ptr;
  mg_remove : ptr;
  mg_policy : Z;
  mg_keep_going : bool;
  mg_data : ptr }.

Definition manager_zero : manager :=
  Manager false 0 0 0 0 0 None None epoch None None None None None None 0 false None.

(** *** Assignments to its fields *)
Definition put_initialized b m := Manager b (mg_sock4 m) (mg_sock6 m) (mg_pipe_r m) (mg_pipe_w m)
  (mg_max_fd m) (mg_tubes m) (mg_dispatcher m) (mg_last m) (mg_loopstart m) (mg_running m)
  (mg_ev_data m) (mg_close m) (mg_add m) (mg_remove m) (mg_policy m) (mg_keep_going m) (mg_data m).
Definition put_socks s4 s6 m := Manager (mg_initialized m) s4 s6 (mg_pipe_r m) (mg_pipe_w m)
  (mg_max_fd m) (mg_tubes m) (mg_dispatcher m) (mg_last m) (mg_loopstart m) (mg_running m)
  (mg_ev_data m) (mg_close m) (mg_add m) (mg_remove m) (mg_policy m) (mg_keep_going m) (mg_data m).
Definition put_pipe r w m := Manager (mg_initialized m) (mg_sock4 m) (mg_sock6 m) r w
  (mg_max_fd m) (mg_tubes m) (mg_dispatcher m) (mg_last m) (mg_loopstart m) (mg_running m)
  (mg_ev_data m) (mg_close m) (mg_add m) (mg_remove m) (mg_policy m) (mg_keep_going m) (mg_data m).
Definition put_max_fd fd m := Manager (mg_initialized m) (mg_sock4 m) (mg_sock6 m) (mg_pipe_r m)
  (mg_pipe_w m) fd (mg_tubes m) (mg_dispatcher m) (mg_last m) (mg_loopstart m) (mg_running m)
  (mg_ev_data m) (mg_close m) (mg_add m) (mg_remove m) (mg_policy m) (mg_keep_going m) (mg_data m).
Definition put_tubes t m := Manager (mg_initialized m) (mg_sock4 m) (mg_sock6 m) (mg_pipe_r m)
  (mg_pipe_w m) (mg_max_fd m) t (mg_dispatcher m) (mg_last m) (mg_loopstart m) (mg_running m)
  (mg_ev_data m) (mg_close m) (mg_add m) (mg_remove m) (mg_policy m) (mg_keep_going m) (mg_data m).
Definition put_dispatcher d m := Manager (mg_initialized m) (mg_sock4 m) (mg_sock6 m) (mg_pipe_r m)
  (mg_pipe_w m) (mg_max_fd m) (mg_tubes m) d (mg_last m) (mg_loopstart m) (mg_running m)
  (mg_ev_data m) (mg_close m) (mg_add m) (mg_remove m) (mg_policy m) (mg_keep_going m) (mg_data m).
Definition put_last t m := Manager (mg_initialized m) (mg_sock4 m) (mg_sock6 m) (mg_pipe_r m)
  (mg_pipe_w m) (mg_max_fd m) (mg_tubes m) (mg_dispatcher m) t (mg_loopstart m) (mg_running m)
  (mg_ev_data m) (mg_close m) (mg_add m) (mg_remove m) (mg_policy m) (mg_keep_going m) (mg_data m).
Definition with_events m l r d c a e := Manager (mg_initialized m) (mg_sock4 m) (mg_sock6 m)
  (mg_pipe_r m) (mg_pipe_w m) (mg_max_fd m) (mg_tubes m) (mg_dispatcher m) (mg_last m)
  l r d c a e (mg_policy m) (mg_keep_going m) (mg_data m).
Definition put_policy p m := Manager (mg_initialized m) (mg_sock4 m) (mg_sock6 m) (mg_pipe_r m)
  (mg_pipe_w m) (mg_max_fd m) (mg_tubes m) (mg_dispatcher m) (mg_last m) (mg_loopstart m)
  (mg_running m) (mg_ev_data m) (mg_close m) (mg_add m) (mg_remove m) p (mg_keep_going m) (mg_data m).
Definition put_keep_going k m := Manager (mg_initialized m) (mg_sock4 m) (mg_sock6 m) (mg_pipe_r m)
  (mg_pipe_w m) (mg_max_fd m) (mg_tubes m) (mg_dispatcher m) (mg_last m) (mg_loopstart m)
  (mg_running m) (mg_ev_data m) (mg_close m) (mg_add m) (mg_remove m) (mg_policy m) k (mg_data m).
Definition put_data d m := Manager (mg_initialized m) (mg_sock4 m) (mg_sock6 m) (mg_pipe_r m)
  (mg_pipe_w m) (mg_max_fd m) (mg_tubes m) (mg_dispatcher m) (mg_last m) (mg_loopstart m)
  (mg_running m) (mg_ev_data m) (mg_close m) (mg_add m) (mg_remove m) (mg_policy m) (mg_keep_going m) d.

(** The source and arguments of events: NULL or the manager. *)
Inductive event_arg := ArgNull | ArgManager.

(** *** Event data: [mgr], a tube, or a [tube_event_data] *)
Inductive event_data (cbor : Type) :=
  | EvManager
  | EvTube (t : loc)
  | EvPacket (t : loc) (c : option cbor) (peer : sockaddr).
Arguments EvManager {cbor}.
Arguments EvTube {cbor}.
Arguments EvPacket {cbor}.

Section state.
Context {cbor : Type}.
(** Callbacks of events, timers and signals; contexts of timers; the client's own state. *)
Context {CB TCB TX SCB U : Type} `{!EqDecision CB}.

Abbreviation timer := (ls_timer TCB TX).

(** [struct _sig_context]; there is one manager. *)
Record sig_context := SigContext { sc_sig : Z; sc_cb : SCB }.

Record mworld := MWorld {
  mw_table : hstate id_ptr loc unit tworld;
  mw_timers : store timer;
  mw_queue : option (gpriority_queue loc);
  mw_oom : list bool;
  mw_mgr : option manager;
  mw_sigs : list sig_context;
  mw_env : env;
  mw_user : U }.

#[export] Instance mworld_timers : HasStore mworld timer := {
  the_store := mw_timers;
  with_store st s := MWorld (mw_table s) st (mw_queue s) (mw_oom s) (mw_mgr s) (mw_sigs s) (mw_env s) (mw_user s) }.
#[export] Instance mworld_alloc : HasAllocator mworld := {
  oom_script := mw_oom;
  with_oom o s := MWorld (mw_table s) (mw_timers s) (mw_queue s) o (mw_mgr s) (mw_sigs s) (mw_env s) (mw_user s) }.
#[export] Instance mworld_queue : HasQueue mworld loc := {
  the_queue := mw_queue;
  with_queue q s := MWorld (mw_table s) (mw_timers s) q (mw_oom s) (mw_mgr s) (mw_sigs s) (mw_env s) (mw_user s) }.

Definition set_table (h : hstate id_ptr loc unit tworld) (s : mworld) : mworld :=
  MWorld h (mw_timers s) (mw_queue s) (mw_oom s) (mw_mgr s) (mw_sigs s) (mw_env s) (mw_user s).
Definition set_mgr (m : option manager) (s : mworld) : mworld :=
  MWorld (mw_table s) (mw_timers s) (mw_queue s) (mw_oom s) m (mw_sigs s) (mw_env s) (mw_user s).
Definition set_sigs (l : list sig_context) (s : mworld) : mworld :=
  MWorld (mw_table s) (mw_timers s) (mw_queue s) (mw_oom s) (mw_mgr s) l (mw_env s) (mw_user s).
Definition set_env (e : env) (s : mworld) : mworld :=
  MWorld (mw_table s) (mw_timers s) (mw_queue s) (mw_oom s) (mw_mgr s) (mw_sigs s) e (mw_user s).

(** The whole state, and the parts that its components run on. *)
Definition world : Type := estate CB Empty_set event_arg (event_data cbor) mworld.

Definition on_mw {T} : C mworld T -> C world T := on_app.
Definition on_table {T} (m : C (hstate id_ptr loc unit tworld) T) : C world T :=
  on_mw (zoom mw_table set_table m).
Definition on_tubes {T} (m : C tworld T) : C world T := on_table (client m).

Definition the_mgr : C mworld manager := s ← c_get; c_live (mw_mgr s).
Definition mod_mgr (f : manager -> manager) : C mworld unit :=
  m ← the_mgr; c_modify (set_mgr (Some (f m))).
Definition get_mgr : C world manager := on_mw the_mgr.
Definition upd_mgr (f : manager -> manager) : C world unit := on_mw (mod_mgr f).

(** The next answer of a part of the environment, [default] when the script is at its
    end. *)
Definition answer {T} (part : env -> list T) (put : list T -> env -> env) (default : T) : C mworld T :=
  s ← c_get;
  c_modify (set_env (put (tail (part (mw_env s))) (mw_env s)));;
  mret (hd default (part (mw_env s))).

Definition sys : C mworld (res Z unit) :=
  e ← answer en_sys (fun l v => Env l (en_fds v) (en_times v) (en_writes v) (en_selects v)
    (en_recvs v) (en_rands v) (en_bound v) (en_waits v)) 0;
  mret (if decide (e = 0) then Ok tt else Err (- e)).

Definition new_fd : C mworld (res Z Z) :=
  a ← answer en_fds (fun l v => Env (en_sys v) l (en_times v) (en_writes v) (en_selects v)
    (en_recvs v) (en_rands v) (en_bound v) (en_waits v)) (inl 3);
  mret (match a with inl fd => Ok fd | inr e => Err (- e) end).

Definition gettimeofday : C mworld (res Z timeval) :=
  a ← answer en_times (fun l v => Env (en_sys v) (en_fds v) l (en_writes v) (en_selects v)
    (en_recvs v) (en_rands v) (en_bound v) (en_waits v)) (inl epoch);
  mret (match a with inl t => Ok t | inr e => Err (- e) end).

Definition next_write : C mworld (Z * Z) :=
  answer en_writes (fun l v => Env (en_sys v) (en_fds v) (en_times v) l (en_selects v)
    (en_recvs v) (en_rands v) (en_bound v) (en_waits v)) (1, 0).

Definition next_recv : C mworld recv_answer :=
  answer en_recvs (fun l v => Env (en_sys v) (en_fds v) (en_times v) (en_writes v) (en_selects v)
    l (en_rands v) (en_bound v) (en_waits v)) (RecvErrno 9).

Definition next_rand : C mworld rand_answer :=
  answer en_rands (fun l v => Env (en_sys v) (en_fds v) (en_times v) (en_writes v) (en_selects v)
    (en_recvs v) l (en_bound v) (en_waits v)) RandShort.

Definition select (timeout : option timeval) : C mworld select_answer :=
  c_modify (fun s => set_env ((fun v => Env (en_sys v) (en_fds v) (en_times v) (en_writes v)
    (en_selects v) (en_recvs v) (en_rands v) (en_bound v) (timeout :: en_waits v)) (mw_env s)) s);;
  answer en_selects (fun l v => Env (en_sys v) (en_fds v) (en_times v) (en_writes v) l
    (en_recvs v) (en_rands v) (en_bound v) (en_waits v)) (SelectErrno 9).

Definition os_bind (sock : Z) (addr : sockaddr) : C mworld (res Z unit) :=
  c_modify (fun s => set_env ((fun v => Env (en_sys v) (en_fds v) (en_times v) (en_writes v)
    (en_selects v) (en_recvs v) (en_rands v) ((sock, addr) :: en_bound v) (en_waits v)) (mw_env s)) s);;
  sys.

(** pipe(): both ends, or an error. *)
Definition pipe : C mworld (res Z (Z * Z)) :=
  r ←! new_fd; w ←! new_fd; mret (Ok (r, w)).
End state.
Arguments mworld : clear implicits.
Arguments world : clear implicits.
Arguments sig_context : clear implicits.

(** [_sendmsg_func] and [_recvmsg_func]: the functions whose answers are the scripts. *)
Record socket_functions (send recv : Type) := SocketFunctions { _sendmsg_func : send; _recvmsg_func : recv }.
Arguments SocketFunctions {send recv}.

Definition tube_manager_set_socket_functions {send_fn recv_fn} (sendmsg : send_fn) (recvmsg : recv_fn)
    (send : option send_fn) (recv : option recv_fn) : C (socket_functions send_fn recv_fn) unit :=
  c_modify (fun _ => SocketFunctions (default sendmsg send) (default recvmsg recv)).

(** What the code that ends an iteration of the loop does next. *)
Inductive flow := Cleanup | Error (e : Z).

(** The results of pending_timers(): -1, 0, 1 with the time, and -2 for a manager that
    was told to stop. *)
Inductive pending := PendingError (e : Z) | PendingNone | PendingUntil (tv : option timeval) | PendingStop.

(** The results of tube_manager_wait(). *)
Inductive waited := WaitError (e : Z) | WaitStop | WaitSocket (sock : Z).

Section manager.
Context {cbor : Type} `{!CborLib cbor}.
Context {CB TCB TX SCB U : Type} `{!EqDecision CB}.
Abbreviation timer := (ls_timer TCB TX).
Abbreviation mworld := (mworld TCB TX SCB U).
Abbreviation world := (world cbor CB TCB TX SCB U).

(** The client's callbacks, and a bound on the moments and iterations of a run. *)
Context (call_cb : CB -> loc -> event_arg -> C world unit).
Context (call_result : Empty_set -> loc -> bool -> event_arg -> C world unit).   (* there are none *)
Context (call_timer : TCB -> loc -> C world unit).
Context (call_sig : SCB -> Z -> C world unit).
Context (fuel : nat).

(** [ls_event_trigger(event, data, NULL, NULL, err)] *)
Definition trigger (event : ptr) (data : event_data cbor) : C world (res Z unit) :=
  ev ← c_deref event;
  ls_event_trigger call_cb call_result fuel ev data None ArgNull.

(** *** The callbacks of the timer queue and of the table *)

(** The time of a timer; the epoch stands for one that was freed, see [timers_live]. *)
Definition due (s : mworld) (a : loc) : timeval :=
  match st_objs (mw_timers s) !! a with Some t => tm_tv t | None => epoch end.

Definition _timer_less (s : mworld) (a b : loc) : bool := timercmp_gt (due s a) (due s b).

Definition _timer_del (item : loc) : C mworld unit := ls_timer_destroy (CB := TCB) (X := TX) item.

(** The queue's operations compare its timers: none of them may have been freed. *)
Definition timers_live : C mworld unit :=
  q ← load_queue;
  s ← c_get;
  if forallb (fun a => bool_decide (is_Some (st_objs (mw_timers s) !! a)))
       (take (Z.to_nat (pq_size q)) (pq_slots q))
  then mret tt else c_fault UseAfterFree.

Definition clean_tube (_ : unit) (replace destroy_key : bool) (key : id_ptr) (data : option loc)
    : C tworld unit :=
  t ← c_deref data;
  st ← tube_get_state t;
  (if decide (st = TS_RUNNING) then _ ← tube_close t; mret tt else mret tt);;
  tube_destroy t.

(** *** Interrupting the loop through its pipe *)
Fixpoint interrupt_loop (n : nat) : C mworld (res Z unit) :=
  match n with
  | O => c_fault OutOfFuel
  | S n =>
      w ← next_write;
      if decide (w.1 = -1) then
        if decide (w.2 = EAGAIN) then interrupt_loop n else mret (Err (- w.2))
      else if decide (w.1 = 0) then c_fault AssertFail
      else mret (Ok tt)
  end.

(** A script of [n] answers to write() is followed by a write that succeeds. *)
Definition tube_manager_interrupt (b : Z) : C mworld (res Z unit) :=
  _ ← the_mgr;
  n ← c_gets (fun s => length (en_writes (mw_env s)));
  interrupt_loop (S n).

(** *** Life of the manager *)
Definition _tube_manager_finalize : C world unit :=
  upd_mgr (put_keep_going false);;
  m ← get_mgr;
  (if mg_initialized m then _ ← on_mw (tube_manager_interrupt (-1)); mret tt else mret tt);;
  upd_mgr (put_initialized false);;
  _ ← on_mw sys;
  m ← get_mgr;
  (match mg_tubes m with
   | Some t => on_table (ls_htable_destroy clean_tube t);; upd_mgr (put_tubes None)
   | None => mret tt
   end);;
  m ← get_mgr;
  (match mg_dispatcher m with
   | Some d => ls_event_dispatcher_destroy d;; upd_mgr (put_dispatcher None)
   | None => mret tt
   end);;
  q ← on_mw (c_gets mw_queue);
  match q with
  | Some _ => on_mw (timers_live;; gpriority_queue_delete _timer_less _timer_del)
  | None => mret tt
  end.

Definition _tube_manager_get_dispatcher : C world ptr := m ← get_mgr; mret (mg_dispatcher m).

(** An event of the new dispatcher, and the field that it goes to. *)
Definition init_event (name : cstr) (put : ptr -> manager -> manager) : C world (res Z unit) :=
  m ← get_mgr;
  d ← c_deref (mg_dispatcher m);
  ev ←! ls_event_dispatcher_create_event d name;
  upd_mgr (put (Some ev));;
  mret (Ok tt).

Definition init_events : C world (res Z unit) :=
  _ ←! init_event EV_LOOPSTART_NAME (fun p m => with_events m p (mg_running m) (mg_ev_data m) (mg_close m) (mg_add m) (mg_remove m));
  _ ←! init_event EV_RUNNING_NAME (fun p m => with_events m (mg_loopstart m) p (mg_ev_data m) (mg_close m) (mg_add m) (mg_remove m));
  _ ←! init_event EV_DATA_NAME (fun p m => with_events m (mg_loopstart m) (mg_running m) p (mg_close m) (mg_add m) (mg_remove m));
  _ ←! init_event EV_CLOSE_NAME (fun p m => with_events m (mg_loopstart m) (mg_running m) (mg_ev_data m) p (mg_add m) (mg_remove m));
  _ ←! init_event EV_ADD_NAME (fun p m => with_events m (mg_loopstart m) (mg_running m) (mg_ev_data m) (mg_close m) p (mg_remove m));
  init_event EV_REMOVE_NAME (fun p m => with_events m (mg_loopstart m) (mg_running m) (mg_ev_data m) (mg_close m) (mg_add m) p).

(** One end of the pipe: counted in [max_fd] and made non-blocking. *)
Definition init_pipe_end (fd : Z) : C world (res Z unit) :=
  upd_mgr (fun m => put_max_fd (Z.max (mg_max_fd m) fd) m);;
  _ ←! on_mw sys;
  on_mw sys.

(** [message_len] is the length of the context that the dispatcher's creation logs. *)
Definition init_parts (buckets message_len : Z) : C world (res Z unit) :=
  _ ←! on_mw sys;
  tubes ←! on_table (ls_htable_create buckets hash_id compare_id);
  upd_mgr (put_tubes (Some tubes));;
  d ←! ls_event_dispatcher_create ArgManager message_len;
  upd_mgr (put_dispatcher (Some d));;
  _ ←! init_events;
  q ← on_mw gpriority_queue_create;
  if negb q then mret (Err LS_ERR_NO_MEMORY)
  else
    now ←! on_mw gettimeofday;
    upd_mgr (put_last now);;
    ends ←! on_mw pipe;
    upd_mgr (put_pipe ends.1 ends.2);;
    _ ←! init_pipe_end ends.1;
    init_pipe_end ends.2.

Definition _tube_manager_init (buckets message_len : Z) : C world (res Z unit) :=
  upd_mgr (fun m => put_pipe (-1) (-1) (put_keep_going true (put_max_fd (-1)
    (put_socks (-1) (-1) (put_initialized false m)))));;
  let buckets := if decide (buckets <= 0) then DEFAULT_HASH_SIZE else buckets in
  r ← init_parts buckets message_len;
  match r with
  | Ok _ => mret (Ok tt)
  | Err e => _tube_manager_finalize;; mret (Err e)
  end.

(** The manager is the one object of its kind. *)
Definition tube_manager_create (buckets message_len : Z) : C world (res Z unit) :=
  fail ← on_mw oom;
  if fail : bool then mret (Err LS_ERR_NO_MEMORY)
  else
    on_mw (c_modify (set_mgr (Some manager_zero)));;
    r ← _tube_manager_init buckets message_len;
    match r with
    | Err e => on_mw (c_modify (set_mgr None));; mret (Err e)
    | Ok _ => upd_mgr (put_initialized true);; mret (Ok tt)
    end.

(** [mgr] not NULL. *)
Definition tube_manager_destroy : C world unit :=
  _tube_manager_finalize;; on_mw (c_modify (set_mgr None)).

Definition tube_manager_set_data (data : ptr) : C world unit := upd_mgr (put_data data).
Definition tube_manager_get_data : C world ptr := m ← get_mgr; mret (mg_data m).

(** *** Policy, sockets, events *)
Definition tube_manager_set_policy_responder (will_respond : bool) : C world unit :=
  upd_mgr (fun m => put_policy
    (if will_respond then Z.lor (mg_policy m) TP_WILL_RESPOND
     else Z.land (mg_policy m) (Z.lnot TP_WILL_RESPOND)) m).

Definition tube_manager_is_responder : C world bool :=
  m ← get_mgr; mret (bool_decide (Z.land (mg_policy m) TP_WILL_RESPOND = TP_WILL_RESPOND)).

(** The socket for IPv6: the call of setsockopt() for IPV6_V6ONLY, bind(), and then, on
    both sockets, the packet information, the time stamps and the two of fcntl(). *)
Definition socket_options (sock : Z) : C world (res Z unit) :=
  _ ←! on_mw sys;
  _ ←! on_mw sys;
  _ ←! on_mw sys;
  _ ←! on_mw sys;
  upd_mgr (fun m => put_max_fd (Z.max (mg_max_fd m) sock) m);;
  mret (Ok tt).

(** socket(): the field is -1 when it fails. *)
Definition open_socket (put : Z -> manager -> manager) : C world (res Z Z) :=
  fd ← on_mw new_fd;
  match fd with
  | Err e => upd_mgr (put (-1));; mret (Err e)
  | Ok fd => upd_mgr (put fd);; mret (Ok fd)
  end.

Definition tube_manager_socket (port : Z) : C world (res Z unit) :=
  _ ← get_mgr;
  c_assert (bool_decide (port >= 0));;
  c_assert (bool_decide (port <= 0xffff));;
  tube_manager_set_policy_responder (bool_decide (port <> 0));;
  sock6 ←! open_socket (fun fd m => put_socks (mg_sock4 m) fd m);
  _ ←! on_mw sys;
  _ ←! on_mw (os_bind sock6 (ls_sockaddr_v6_any port));
  _ ←! socket_options sock6;
  sock4 ←! open_socket (fun fd m => put_socks fd (mg_sock6 m) m);
  _ ←! on_mw (os_bind sock4 (ls_sockaddr_v4_any port));
  socket_options sock4.

Definition tube_manager_bind_event (name : cstr) (cb : CB) : C world (res Z unit) :=
  dispatcher ← _tube_manager_get_dispatcher;
  d ← c_deref dispatcher;
  ev ← ls_event_dispatcher_get_event d name;
  match ev with
  | None => mret (Err LS_ERR_BAD_FORMAT)
  | Some ev => ls_event_bind ev cb ArgManager
  end.

(** *** Tubes of the manager *)
Definition tube_manager_add (t : loc) : C world (res Z unit) :=
  m ← get_mgr;
  id ← on_tubes (tube_get_id t);
  tubes ← c_deref (mg_tubes m);
  _ ←! on_table (ls_htable_put clean_tube tubes id (Some t) (Some tt));
  m ← get_mgr;
  trigger (mg_add m) (EvTube t).

Definition tube_manager_remove (t : loc) : C world unit :=
  m ← get_mgr;
  _ ← trigger (mg_remove m) (EvTube t);
  id ← on_tubes (tube_get_id t);
  m ← get_mgr;
  tubes ← c_deref (mg_tubes m);
  on_table (ls_htable_remove clean_tube tubes id).

Definition tube_manager_size : C world Z :=
  m ← get_mgr;
  tubes ← c_deref (mg_tubes m);
  on_table (ls_htable_get_count tubes).

Definition tube_manager_foreach (walker : id_ptr -> option loc -> C tworld bool) : C world unit :=
  m ← get_mgr;
  tubes ← c_deref (mg_tubes m);
  _ ← on_table (ls_htable_walk tubes walker);
  mret tt.

(** [log] is ls_log() at the level INFO; the buffer is as long as the text and its end. *)
Definition log_walk (log : cstr -> C tworld unit) (key : id_ptr) (data : option loc) : C tworld bool :=
  log (default [] (spud_id_to_string (SPUD_ID_STRING_SIZE + 1) (ip_id key)));;
  mret true.

Definition tube_manager_print_tubes (log : cstr -> C tworld unit) : C world unit :=
  m ← get_mgr;
  tubes ← c_deref (mg_tubes m);
  _ ← on_table (ls_htable_walk tubes (log_walk log));
  mret tt.

(** The socket that reaches [dest]; [None] for an unknown family. *)
Definition socket_for (m : manager) (dest : sockaddr) : option Z :=
  if decide (sa_family dest = AF_INET) then Some (mg_sock4 m)
  else if decide (sa_family dest = AF_INET6) then Some (mg_sock6 m)
  else None.

Definition tube_manager_open_tube (dest : sockaddr) : C world (res Z loc) :=
  ret ←! on_tubes tube_create;
  rand ← on_mw next_rand;
  match spud_create_id rand true with
  | Err e => on_tubes (tube_destroy ret);; mret (Err e)
  | Ok id =>
      m ← get_mgr;
      match socket_for m dest with
      | None => on_tubes (tube_destroy ret);; mret (Err LS_ERR_INVALID_ARG)
      | Some sock =>
          on_tubes (tube_set_info ret sock (Some dest) (Some id));;
          on_tubes (tube_set_state ret TS_OPENING);;
          added ← tube_manager_add ret;
          match added with
          | Err e => on_tubes (tube_destroy ret);; mret (Err e)
          | Ok _ =>
              sent ← on_tubes (tube_send ret SPUD_OPEN false false []);
              match sent with
              | Err e => tube_manager_remove ret;; on_tubes (tube_destroy ret);; mret (Err e)
              | Ok _ => mret (Ok ret)
              end
          end
      end
  end.

(** *** Timers of the manager *)
Definition tube_manager_cancel_timer (tim : loc) : C mworld (res Z unit) :=
  _ ← the_mgr;
  ls_timer_cancel (CB := TCB) (X := TX) tim;;
  _ ←! sys;
  timers_live;;
  q ← load_queue;
  on_slots _timer_less (fun less => gheap_make_heap paged_binary_heap_ctx less (pq_size q));;
  sys.

Definition tube_manager_schedule_timer (tim : loc) : C mworld (res Z unit) :=
  _ ← the_mgr;
  _ ←! sys;
  timers_live;;
  pushed ← gpriority_queue_push paged_binary_heap_ctx _timer_less tim;
  unlocked ← sys;
  mret (match unlocked with
        | Err e => Err e
        | Ok _ => if pushed : bool then Ok tt else Err LS_ERR_NO_MEMORY
        end).

Definition tube_manager_schedule_ms (ms : Z) (cb : TCB) (context : TX) : C mworld (res Z loc) :=
  m ← the_mgr;
  ret ←! ls_timer_create_ms (mg_last m) ms cb context;
  _ ←! tube_manager_schedule_timer ret;
  mret (Ok ret).

Definition tube_manager_schedule (tv : timeval) (cb : TCB) (context : TX) : C mworld (res Z loc) :=
  _ ← the_mgr;
  ret ←! ls_timer_create tv cb context;
  _ ←! tube_manager_schedule_timer ret;
  mret (Ok ret).

#[export] Instance world_timers : HasStore world timer := {
  the_store w := mw_timers (ec_app (hs_client w));
  with_store st w := set_client (set_app (with_store st (ec_app (hs_client w))) (hs_client w)) w }.

(** What pending_timers() does under the lock: the result, and whether a timer was taken
    off, to be run. *)
Definition next_timer : C mworld (pending * bool) :=
  tim ← gpriority_queue_top _timer_less;
  match tim with
  | None => mret (PendingNone, false)
  | Some tim =>
      m ← the_mgr;
      later ← ls_timer_greater_tv (CB := TCB) (X := TX) tim (mg_last m);
      if later : bool then
        tv ← ls_timer_get_time (CB := TCB) (X := TX) tim;
        mret (PendingUntil tv, false)
      else
        timers_live;;
        gpriority_queue_pop paged_binary_heap_ctx _timer_less _timer_del;;
        mret (PendingStop, true)
  end.

(** [*tim], read through the pointer to the first slot that was got before the pop. *)
Definition first_slot : C mworld loc := on_slots _timer_less (fun _ => item_get 0).

Fixpoint pending_timers (n : nat) : C world pending :=
  match n with
  | O => c_fault OutOfFuel
  | S n =>
      m ← get_mgr;
      if negb (mg_keep_going m) then mret PendingStop
      else
        locked ← on_mw sys;
        match locked with
        | Err e => mret (PendingError e)
        | Ok _ =>
            '(ret, popped) ← on_mw next_timer;
            unlocked ← on_mw sys;
            match unlocked with
            | Err e => mret (PendingError e)
            | Ok _ =>
                if popped : bool then
                  tim ← on_mw first_slot;
                  ls_timer_exec (CB := TCB) (X := TX) call_timer tim;;
                  pending_timers n
                else mret ret
            end
        end
  end.

(** *** Signals *)
Fixpoint signal_contexts (cs : list (sig_context SCB)) (sig : Z) : C mworld unit :=
  match cs with
  | [] => mret tt
  | c :: cs =>
      (if decide (sc_sig c = sig) then _ ← tube_manager_interrupt sig; mret tt else mret tt);;
      signal_contexts cs sig
  end.

Definition _tm_signal (sig : Z) : C mworld unit :=
  cs ← c_gets mw_sigs; signal_contexts cs sig.

Definition tube_manager_signal (sig : Z) (cb : SCB) : C mworld (res Z unit) :=
  fail ← oom;
  if fail : bool then mret (Err LS_ERR_NO_MEMORY)
  else
    _ ←! sys;
    c_modify (fun s => set_sigs (SigContext sig cb :: mw_sigs s) s);;
    mret (Ok tt).

(** The byte [b] came out of the pipe. *)
Fixpoint run_contexts (cs : list (sig_context SCB)) (b : Z) : C world unit :=
  match cs with
  | [] => mret tt
  | c :: cs =>
      (if decide (sc_sig c = b) then call_sig (sc_cb c) b else mret tt);;
      run_contexts cs b
  end.

(** *** Waiting for a socket *)
Definition wait_timeout (p : pending) : C world (option timeval) :=
  match p with
  | PendingUntil term =>
      t ← c_deref term; m ← get_mgr; mret (Some (timersub t (mg_last m)))
  | _ => mret None
  end.

Fixpoint wait_loop (n : nat) : C world waited :=
  match n with
  | O => c_fault OutOfFuel
  | S n =>
      m ← get_mgr;
      if negb (mg_keep_going m) then mret WaitStop
      else
        p ← pending_timers fuel;
        match p with
        | PendingError e => mret (WaitError e)
        | PendingStop => mret WaitStop
        | _ =>
            timeout ← wait_timeout p;
            ready ← on_mw (select timeout);
            match ready with
            | SelectErrno e => if decide (e = EINTR) then wait_loop n else mret (WaitError (- e))
            | SelectTimeout =>
                now ← on_mw gettimeofday;
                match now with
                | Err e => mret (WaitError e)
                | Ok now => upd_mgr (put_last now);; wait_loop n
                end
            | SelectReady pipe sock6 sock4 =>
                (match pipe with
                 | Some b => cs ← on_mw (c_gets mw_sigs); run_contexts cs b
                 | None => mret tt
                 end);;
                m ← get_mgr;
                if bool_decide (mg_sock6 m >= 0) && sock6 then mret (WaitSocket (mg_sock6 m))
                else if bool_decide (mg_sock4 m >= 0) && sock4 then mret (WaitSocket (mg_sock4 m))
                else wait_loop n
            end
        end
  end.

Definition tube_manager_wait : C world waited := wait_loop fuel.

(** *** One packet *)

(** The control messages of recvmsg(); the value says whether there was a time stamp. *)
Fixpoint read_control (info : loc) (got_time : bool) (cs : list control_in) : C world bool :=
  match cs with
  | [] => mret got_time
  | InPktinfo6 i :: cs => on_tubes (ls_pktinfo_set6 info i);; read_control info got_time cs
  | InPktinfo4 i :: cs => on_tubes (ls_pktinfo_set4 info i);; read_control info got_time cs
  | InTimestamp t :: cs => upd_mgr (put_last t);; read_control info true cs
  end.

(** A tube for an OPEN of an unknown ID, up to its answer: the tube and, unless the rest
    of the packet goes on, what to do. *)
Definition accept_tube (sock : Z) (from : sockaddr) (info : loc) (uid : spud_tube_id)
    : C world (flow + loc) :=
  r ← on_tubes tube_create;
  match r with
  | Err e => mret (inl (Error e))
  | Ok t =>
      on_tubes (tube_set_info t sock (Some from) (Some uid));;
      r ← (_ ←! on_tubes (tube_set_local t (Some info)); tube_manager_add t);
      match r with
      | Err e => mret (inl (Error e))
      | Ok _ =>
          on_tubes (tube_set_state t TS_RUNNING);;
          sent ← on_tubes (tube_send t SPUD_ACK false false []);
          match sent with
          | Err _ => mret (inl Cleanup)
          | Ok _ => mret (inr t)
          end
      end
  end.

(** Go on, or to the error label. *)
Definition or_error {T} (m : C world (res Z T)) (k : C world flow) : C world flow :=
  r ← m; match r with Err e => mret (Error e) | Ok _ => k end.

(** The command [cmd] for the tube [t]. *)
Definition dispatch_command (t : loc) (cmd : option spud_command) (d : event_data cbor) : C world flow :=
  state ← on_tubes (tube_get_state t);
  m ← get_mgr;
  match cmd with
  | Some SPUD_DATA =>
      if decide (state = TS_RUNNING) then or_error (trigger (mg_ev_data m) d) (mret Cleanup)
      else mret Cleanup
  | Some SPUD_CLOSE =>
      if decide (state <> TS_UNKNOWN) then
        on_tubes (tube_set_state t TS_UNKNOWN);;
        or_error (trigger (mg_close m) d) (tube_manager_remove t;; mret Cleanup)
      else mret Cleanup
  | Some SPUD_OPEN => mret Cleanup
  | Some SPUD_ACK =>
      if decide (state = TS_OPENING) then
        on_tubes (tube_set_state t TS_RUNNING);;
        or_error (trigger (mg_running m) d) (mret Cleanup)
      else mret Cleanup
  | None => mret Cleanup
  end.

(** From spud_parse() to the label [cleanup].  [err] says whether the caller of
    [tube_manager_loop] passed an error structure. *)
Definition handle_packet (err : bool) (sock : Z) (buf : bytes) (from : sockaddr) (info : loc)
    : C world flow :=
  match spud_parse cn_cbor_decode (Some buf) true with
  | Err _ => if err then mret Cleanup else c_fault NullDeref
  | Ok msg =>
      hdr ← c_deref (msg_header msg);
      let uid := spud_copy_id (hdr_tube_id hdr) in
      let cmd := command_of_code (flags_command (hdr_flags hdr)) in
      m ← get_mgr;
      tubes ← c_deref (mg_tubes m);
      t ← on_table (ls_htable_get tubes (IdPtr 0 uid));
      match t with
      | Some t => dispatch_command t cmd (EvPacket t (msg_cbor msg) from)
      | None =>
          responder ← tube_manager_is_responder;
          if negb responder || bool_decide (cmd <> Some SPUD_OPEN) then mret Cleanup
          else
            r ← accept_tube sock from info uid;
            match r with
            | inl f => mret f
            | inr t => dispatch_command t cmd (EvPacket t (msg_cbor msg) from)
            end
      end
  end.

(** *** The loop *)

(** One recvmsg() and what follows; [None] when it was interrupted. *)
Definition receive_packet (err : bool) (sock : Z) (info : loc) : C world (option flow) :=
  got ← on_mw next_recv;
  match got with
  | RecvErrno e => mret (if decide (e = EINTR) then None else Some (Error (- e)))
  | Recv payload from control =>
      let buf := take (Z.to_nat MAXBUFLEN) payload in
      c_assert (bool_decide (buf <> []));;
      got_time ← read_control info false control;
      now ← (if got_time : bool then mret (Ok tt)
             else now ←! on_mw gettimeofday; upd_mgr (put_last now);; mret (Ok tt));
      match now with
      | Err e => mret (Some (Error e))
      | Ok _ => f ← handle_packet err sock buf from info; mret (Some f)
      end
  end.

Fixpoint loop_iterations (n : nat) (err : bool) (info : loc) : C world (res Z unit) :=
  match n with
  | O => c_fault OutOfFuel
  | S n =>
      m ← get_mgr;
      if negb (mg_keep_going m) then mret (Ok tt)
      else
        on_tubes (ls_pktinfo_clear info);;
        sock ← tube_manager_wait;
        match sock with
        | WaitError e => mret (Err e)
        | WaitStop => loop_iterations n err info
        | WaitSocket sock =>
            f ← receive_packet err sock info;
            match f with
            | Some (Error e) => mret (Err e)
            | _ => loop_iterations n err info
            end
        end
  end.

Definition tube_manager_loop (err : bool) : C world (res Z unit) :=
  m ← get_mgr;
  info ←! on_tubes ls_pktinfo_create;
  r ← (_ ←! trigger (mg_loopstart m) EvManager; loop_iterations fuel err info);
  on_tubes (ls_pktinfo_destroy info);;
  mret r.

Definition tube_manager_running : C world bool := m ← get_mgr; mret (mg_keep_going m).

Definition tube_manager_stop : C world (res Z unit) :=
  upd_mgr (put_keep_going false);; on_mw (tube_manager_interrupt (-2)).
End manager.
