(* ===== verification/ManagerState.v ===== *)
(** The state that the tube manager keeps between calls: its tubes by ID, each in the
    table and live, and an idle dispatcher; what callbacks may do to it; and the events that
    the manager triggers.  For src/tube_manager.c as modelled in TubeManager.v. *)

From S2P Require Import Prelude LsError LsStr LsMem PoolUse Store LsTimer LsHtable LsHash GHeap GHeapLayout PQueue Spud LsSockaddr LsPktinfo Tube LsEventing EventBindings EventDispatch EventNames EventLife TubeManager.
Open Scope Z_scope.

(** The tubes of a manager by ID, each with its address. *)
Abbreviation registry := (gmap Z (loc * tube)).

(** The same input to come, and the same answers of the pipe. *)
Definition same_input (v v' : env) : Prop :=
  en_selects v' = en_selects v /\ en_recvs v' = en_recvs v /\ en_writes v' = en_writes v.

#[export] Instance same_input_po : PreOrder same_input.
Proof. split; [done|]. intros v1 v2 v3 (E1 & E2 & E3) (F1 & F2 & F3). unfold same_input. split_and!; congruence. Qed.

Section manager_state.
Context {cbor : Type} `{!CborLib cbor}.
Context {CB TCB TX SCB U : Type} `{!EqDecision CB}.
Abbreviation mworld := (mworld TCB TX SCB U).
Abbreviation world := (world cbor CB TCB TX SCB U).
Abbreviation app s := (ec_app (hs_client s)).
Abbreviation table x := (mw_table x).
Abbreviation tubes_of x := (hs_client (mw_table x)).
Implicit Types (s : world) (x : mworld) (w : tworld).

(** ** Parts of the state *)
Definition put_table (h : hstate id_ptr loc unit tworld) s : world := put_app (set_table h (app s)) s.
Definition put_tubes_of w s : world := put_table (set_client w (table (app s))) s.

Lemma put_app_same s : put_app (app s) s = s.
Proof. by destruct s as [? ? ? ? []]. Qed.

Lemma set_table_same x : set_table (table x) x = x.
Proof. by destruct x. Qed.

Lemma runs_on_mw {T} (m : C mworld T) s (Q : T -> world -> Prop) :
  runs m (app s) (fun r x => Q r (put_app x s)) -> runs (on_mw m) s Q.
Proof. apply runs_on_app. Qed.

Lemma runs_on_table {T} (m : C (hstate id_ptr loc unit tworld) T) s (Q : T -> world -> Prop) :
  runs m (table (app s)) (fun r h => Q r (put_table h s)) -> runs (on_table m) s Q.
Proof. intros H. by apply runs_on_mw, runs_zoom. Qed.

Lemma runs_on_tubes {T} (m : C tworld T) s (Q : T -> world -> Prop) :
  runs m (tubes_of (app s)) (fun r w => Q r (put_tubes_of w s)) -> runs (on_tubes m) s Q.
Proof. intros H. by apply runs_on_table, runs_zoom. Qed.

Lemma runs_get_mgr mg s (Q : manager -> world -> Prop) :
  mw_mgr (app s) = Some mg -> Q mg s -> runs get_mgr s Q.
Proof.
  intros Hm HQ. apply runs_on_mw. unfold the_mgr. run_step. run_step.
  apply (runs_live _ mg); [done|]. by rewrite put_app_same.
Qed.

Lemma runs_upd_mgr mg f s (Q : unit -> world -> Prop) : mw_mgr (app s) = Some mg ->
  Q tt (put_app (set_mgr (Some (f mg)) (app s)) s) -> runs (upd_mgr f) s Q.
Proof.
  intros Hm HQ. apply runs_on_mw. unfold mod_mgr, the_mgr. do 3 run_step.
  apply (runs_live _ mg); [done|]. by run_step.
Qed.

(** No write to the pipe that is to come writes nothing. *)
Definition writes_ok x : Prop := Forall (fun a : Z * Z => a.1 <> 0) (en_writes (mw_env x)).

(** ** What callbacks may do

    They may send on the manager's tubes, read the time, register signals, and do anything
    to the client's own state; they may not create or destroy tubes, nor change their
    fields, nor the manager and its queue of timers, nor take the loop's input. *)
Record quiet x x' : Prop := {
  qu_mgr : mw_mgr x' = mw_mgr x;
  qu_table : hs_tables (table x') = hs_tables (table x) /\ hs_arrays (table x') = hs_arrays (table x) /\
    hs_nodes (table x') = hs_nodes (table x);
  qu_tubes : tw_tubes (tubes_of x') = tw_tubes (tubes_of x);
  qu_infos : tw_infos (tubes_of x') = tw_infos (tubes_of x);
  qu_pools : same_heap (tw_pools (tubes_of x)) (tw_pools (tubes_of x'));
  qu_sent : tw_sent (tubes_of x) `prefix_of` tw_sent (tubes_of x');
  qu_queue : mw_queue x' = mw_queue x;
  qu_input : en_selects (mw_env x') = en_selects (mw_env x) /\ en_recvs (mw_env x') = en_recvs (mw_env x);
  qu_writes : writes_ok x -> writes_ok x';
  qu_timers : mw_timers x' = mw_timers x }.

Lemma quiet_refl x : mem_wf (ps_mem (tw_pools (tubes_of x))) -> quiet x x.
Proof. intros. by split; try apply same_heap_refl. Qed.

Lemma quiet_trans x x' x'' : quiet x x' -> quiet x' x'' -> quiet x x''.
Proof.
  intros [A1 (A2 & A3 & A4) A5 A6 A7 A8 A9 [A10 A11] A12 A13] [B1 (B2 & B3 & B4) B5 B6 B7 B8 B9 [B10 B11] B12 B13].
  split; [congruence|split_and!; congruence|congruence|congruence| |by etrans|congruence|split; congruence|auto|congruence].
  by eapply same_heap_trans.
Qed.

(** ** The invariant *)

Definition entry_for (a : loc * tube) : id_ptr * option loc * option unit :=
  (IdPtr (Z.pos a.1) (t_id a.2), Some a.1, Some tt).

Definition tube_key (u : tube) : Z := id_u64 (t_id u).

(** What is not the manager's of the heap that its table of tubes and its dispatcher are in;
    and the names of the dispatcher's events, which do not change while there is a manager. *)
Record ground := Ground {
  gr_table : heap_base (K := id_ptr) (V := loc) (CL := unit);
  gr_names : heap_base (K := cstr) (V := loc) (CL := unit);
  gr_events : event_base (CB := CB) (A := event_arg);
  gr_dispatchers : gmap loc (ls_event_dispatch event_arg);
  gr_moments : gmap loc (ls_event_moment Empty_set event_arg (event_data cbor));
  gr_known : gmap (list Z) loc }.

Abbreviation owned_event := (owned_event (CB := CB) (A := event_arg)).

(** The events by name. *)
Definition known_events (L : list owned_event) : gmap (list Z) loc :=
  list_to_map ((fun o => (oe_key o, oe_at o)) <$> L).

(** The dispatcher at [d] owns the events [L], those of [E] among them. *)
Record owns_all (E : gmap loc (list (CB * event_arg))) (G : ground) (d : loc) b (L : list owned_event) s : Prop := {
  oa_dispatcher : owns_dispatcher b (gr_names G) d L s;
  oa_base : base_like (gr_events G) b;
  oa_known : known_events L = gr_known G;
  oa_events e : is_Some (E !! e) <-> e ∈ oe_at <$> L;
  oa_others : delete d (st_objs (ec_dispatchers (hs_client s))) = gr_dispatchers G;
  oa_moments : st_objs (ec_moments (hs_client s)) = gr_moments G }.

Definition owning E (G : ground) (d : loc) s : Prop := exists b L, owns_all E G d b L s.

Lemma owns_all_untouched E G d b L s s' : owns_all E G d b L s -> untouched s s' -> exists b' L', owns_all E G d b' L' s'.
Proof.
  intros [H1 H2 H3 H4 H5 H6] Hu. destruct (owns_dispatcher_untouched _ _ _ _ _ _ H1 Hu) as (L' & b' & Ho' & Hb' & Ea & En).
  destruct Hu as [_ U2 _ _ [U5 _] _]. exists b', L'. split; [done|by etrans| |by rewrite Ea|by rewrite U2|by rewrite U5].
  rewrite <- H3. unfold known_events. f_equal.
  assert (Eo : forall L0 : list owned_event, (fun o => (oe_key o, oe_at o)) <$> L0 =
    zip ((fun n => lower (n_name n)) <$> (oe_notifier <$> L0)) (oe_at <$> L0)).
  { intros L0. induction L0 as [|o L0 IH]; [done|]. cbn. by rewrite IH. }
  by rewrite !Eo, Ea, En.
Qed.

Lemma owns_all_put_app E G d b L x s : owns_all E G d b L s -> owns_all E G d b L (put_app x s).
Proof.
  intros [[(dd & m & H1 & H2 & H3) H4 H5] H6 H7 H8 H9 H10]. split; [|done..]. split; [|done|].
  - exists dd, m. split_and!; [done| |done]. by eapply table_rep_stores.
  - by eapply owns_events_ext.
Qed.

Lemma owning_untouched E G d s s' : owning E G d s -> untouched s s' -> owning E G d s'.
Proof. intros (b & L & Ho). by eapply owns_all_untouched. Qed.

Lemma owning_put_app E G d x s : owning E G d s -> owning E G d (put_app x s).
Proof. intros (b & L & Ho). exists b, L. by apply owns_all_put_app. Qed.

(** What the packets leave as it is: what is not the manager's, packet informations that are not of any tube, the
    queue of timers, and the input that is still to come. *)
Record background := Background {
  bg_ground : ground;
  bg_infos : gmap loc ls_pktinfo;
  bg_queue : option (gpriority_queue loc);
  bg_selects : list select_answer;
  bg_recvs : list recv_answer }.

Context (K : background).

Record steady x : Prop := {
  st_queue : mw_queue x = bg_queue K;
  st_input : en_selects (mw_env x) = bg_selects K /\ en_recvs (mw_env x) = bg_recvs K;
  st_writes : writes_ok x;
  st_timers : store_wf (mw_timers x) }.

Record tubes_ok (R : registry) w : Prop := {
  to_tubes : forall k t u, R !! k = Some (t, u) -> k = tube_key u /\ tube_id_wf (t_id u) /\
    st_objs (tw_tubes w) !! t = Some u /\ tube_ok w u;
  to_infos : forall k k' t t' u u' p, R !! k = Some (t, u) -> R !! k' = Some (t', u') ->
    t_pktinfo u = Some p -> t_pktinfo u' = Some p -> k = k';
  to_spare : forall p i, bg_infos K !! p = Some i -> st_objs (tw_infos w) !! p = Some i /\
    forall k t u, R !! k = Some (t, u) -> t_pktinfo u <> Some p;
  to_wf : store_wf (tw_tubes w) /\ store_wf (tw_infos w) /\ mem_wf (ps_mem (tw_pools w)) }.

Context (E : gmap loc (list (CB * event_arg))).

(** The dispatcher is idle and owns its events. *)
Definition at_rest (d : loc) s : Prop := idle E d s /\ owning E (bg_ground K) d s.

Record serving (d : loc) (mg : manager) (R : registry) s : Prop := {
  sv_rest : at_rest d s;
  sv_mgr : mw_mgr (app s) = Some mg;
  sv_table : exists t, mg_tubes mg = Some t /\ table_rep (gr_table (bg_ground K)) t (entry_for <$> R) (table (app s));
  sv_tubes : tubes_ok R (tubes_of (app s));
  sv_steady : steady (app s) }.

Definition bound (p : ptr) : Prop := exists e, p = Some e /\ is_Some (E !! e).

(** The field for the event of a name in lower case. *)
Definition event_named (mg : manager) (k : list Z) : ptr :=
  if decide (k = EV_LOOPSTART_NAME) then mg_loopstart mg
  else if decide (k = EV_RUNNING_NAME) then mg_running mg
  else if decide (k = EV_DATA_NAME) then mg_ev_data mg
  else if decide (k = EV_CLOSE_NAME) then mg_close mg
  else if decide (k = EV_ADD_NAME) then mg_add mg
  else if decide (k = EV_REMOVE_NAME) then mg_remove mg
  else None.

(** The manager's events are among those of the dispatcher. *)
Record events_of (mg : manager) : Prop := {
  eo_loopstart : bound (mg_loopstart mg);
  eo_running : bound (mg_running mg);
  eo_data : bound (mg_ev_data mg);
  eo_close : bound (mg_close mg);
  eo_add : bound (mg_add mg);
  eo_remove : bound (mg_remove mg) }.

Lemma rest_put_app d x s : at_rest d s -> at_rest d (put_app x s).
Proof. intros [[] Ho]. split; [done|by apply owning_put_app]. Qed.

Lemma tubes_ok_ext R w w' : tubes_ok R w -> tw_tubes w' = tw_tubes w -> tw_infos w' = tw_infos w ->
  mem_wf (ps_mem (tw_pools w')) -> tubes_ok R w'.
Proof.
  intros [H1 H2 H0 (H3 & H4 & H5)] Et Ei Hm. split; [|done|by rewrite Ei|by rewrite Et, Ei].
  intros k t u Hk. destruct (H1 k t u Hk) as (? & ? & ? & ?). unfold tube_ok. rewrite Et, Ei. done.
Qed.

Lemma serving_quiet d mg R s s' : serving d mg R s -> at_rest d s' -> quiet (app s) (app s') ->
  serving d mg R s'.
Proof.
  intros [H1 H2 (t & H3 & H4) H5 [H6 [H7 H8] H9 H10]] Hi [Q1 (Q2 & Q3 & Q4) Q5 Q6 Q7 Q8 Q9 [Q10 Q11] Q12 Q13].
  split; [done|congruence| | |split; [congruence|split; congruence|auto|by rewrite Q13]].
  - exists t. split; [done|]. by eapply table_rep_stores.
  - eapply tubes_ok_ext; [done..|]. by destruct Q7.
Qed.

(** The registered tube of an ID, looked up as the manager does. *)
Lemma serving_lookup d mg R s id : serving d mg R s -> tube_id_wf id -> exists t,
  mg_tubes mg = Some t /\
  ls_htable_get t (IdPtr 0 id) (table (app s)) = Done (fst <$> R !! id_u64 id, table (app s)).
Proof.
  intros [_ _ (t & Hm & Ht) _ _] Hid. exists t. split; [done|].
  rewrite (ls_htable_get_done _ t (entry_for <$> R) (table (app s)) (IdPtr 0 id) Ht Hid).
  cbn [canon id_hashable ip_id]. rewrite lookup_fmap. by destruct (R !! id_u64 id).
Qed.

Lemma serving_tube d mg R s k t u : serving d mg R s -> R !! k = Some (t, u) ->
  k = tube_key u /\ tube_id_wf (t_id u) /\ st_objs (tw_tubes (tubes_of (app s))) !! t = Some u /\
  tube_ok (tubes_of (app s)) u.
Proof. intros [_ _ _ H] Hk. by apply (to_tubes _ _ H). Qed.

Lemma serving_mem_wf d mg R s : serving d mg R s -> mem_wf (ps_mem (tw_pools (tubes_of (app s)))).
Proof. intros [_ _ _ H _]. apply (to_wf _ _ H). Qed.

(** ** Events *)

(** [prog] is what the callbacks do, and which events they trigger: none. *)
Context (prog : CB -> loc -> event_data cbor -> bool -> event_arg ->
  C mworld (bool * list (loc * event_data cbor))).
Context (fuel : nat).

(** The tube that the data of an event names is there. *)
Definition data_ok x (data : event_data cbor) : Prop :=
  match data with
  | EvManager => True
  | EvTube t | EvPacket t _ _ => exists u, st_objs (tw_tubes (tubes_of x)) !! t = Some u /\
      tube_id_wf (t_id u) /\ tube_ok (tubes_of x) u
  end.

Definition quiet_callbacks : Prop := forall e vs cb a data h x, E !! e = Some vs -> (cb, a) ∈ vs ->
  mem_wf (ps_mem (tw_pools (tubes_of x))) -> data_ok x data ->
  runs (prog cb e data h a) x (fun r x' => quiet x x' /\ r.2 = []).

(** No event has as many callbacks as there is fuel. *)
Definition enough_fuel : Prop :=
  (1 < fuel)%nat /\ forall e vs, E !! e = Some vs -> (length vs < fuel)%nat.

Context (prog_quiet : quiet_callbacks) (fuel_ok : enough_fuel).

Definition no_results (r : Empty_set) (e : loc) (data : event_data cbor) (h : bool) (a : event_arg)
    : C mworld unit := match r with end.

(** The event [p] happened: its callbacks ran, in order, from [x] to [x']. *)
Definition occurs (p : ptr) (data : event_data cbor) x x' : Prop := exists e,
  p = Some e /\ delivered prog no_results E [(e, data, None, ArgNull, false)] x x'.

(** There is no memory to trigger an event. *)
Definition no_event_memory s : Prop := no_moment (ec_pools (hs_client s)).

Lemma data_ok_quiet x x' data : quiet x x' -> data_ok x data -> data_ok x' data.
Proof. intros [_ _ Et Ei _ _ _ _ _ _]. unfold data_ok, tube_ok. by rewrite Et, Ei. Qed.

Lemma quiet_calls e vs data bs h x its h' x' : E !! e = Some vs ->
  calls (RCB := Empty_set) prog e data bs h x its h' x' ->
  bs ⊆ vs -> mem_wf (ps_mem (tw_pools (tubes_of x))) -> data_ok x data -> its = [] /\ quiet x x'.
Proof.
  intros He Hc. induction Hc as [h x|cb a bs h x h1 ts ts' x1 its h' x' Hp Hsub Hc IH]; intros Hbs Hwf Hdata.
  { split; [done|by apply quiet_refl]. }
  assert (Hin : (cb, a) ∈ vs) by (apply Hbs; by left).
  destruct (runs_inv _ _ _ (prog_quiet e vs cb a data h x He Hin Hwf Hdata)) as (r & x2 & Er & Hq & Hr).
  rewrite Hp in Er. injection Er as <- <-. cbn in Hr. subst ts.
  apply sublist_nil_r in Hsub as ->.
  destruct IH as [-> Hq']; [intros y Hy; apply Hbs; by right|by destruct Hq as [_ _ _ _ []]|by eapply data_ok_quiet|].
  split; [done|]. by eapply quiet_trans.
Qed.

Lemma event_runs d s p data : at_rest d s -> bound p -> mem_wf (ps_mem (tw_pools (tubes_of (app s)))) ->
  data_ok (app s) data ->
  runs (trigger (scripted prog) (scripted_result no_results) fuel p data) s (fun r s' =>
    at_rest d s' /\ quiet (app s) (app s') /\
    match r with
    | Err x => x = LS_ERR_NO_MEMORY /\ no_event_memory s /\ app s' = app s
    | Ok _ => occurs p data (app s) (app s')
    end).
Proof.
  intros [Hid Hown] (e & -> & He) Hwf Hdata. unfold trigger. run_step. run_step. destruct fuel_ok as [Hf1 Hf2].
  eapply runs_conseq.
  - apply (trigger_runs prog no_results E (fun _ data' => data' = data) (quiet (app s))) with (cost := fun _ => 1%nat) (d := d);
      [| | | |done|done|done|exact Hf1|by apply quiet_refl].
    + intros e' vs cb a data' h x Hvs Hin -> Hq.
      eapply runs_conseq.
      { apply (prog_quiet e' vs cb a data h x Hvs Hin); [by destruct Hq as [_ _ _ _ []]|by eapply data_ok_quiet]. }
      intros r x' [Hq' ->]. split; [by eapply quiet_trans|done].
    + intros [].
    + intros e' vs data' h x its h' x' Hvs -> Hq Hc.
      destruct (quiet_calls _ _ _ _ _ _ _ _ _ Hvs Hc) as [-> _]; [done|by destruct Hq as [_ _ _ _ []]|by eapply data_ok_quiet|].
      cbn. lia.
    + exact Hf2.
  - intros r s' (Hu & Hi & Hq & Hr). split_and!; [split; [done|by eapply owning_untouched]|done|]. destruct r; [|done]. by exists e.
Qed.

(** An event of a manager with its tubes. *)
Lemma serving_data_ok d mg R s k t u : serving d mg R s -> R !! k = Some (t, u) ->
  forall data, match data with EvManager => True | EvTube t' | EvPacket t' _ _ => t' = t end ->
  data_ok (app s) data.
Proof.
  intros Hs Hk data Hd. destruct (serving_tube _ _ _ _ _ _ _ Hs Hk) as (_ & ? & ? & ?).
  destruct data; [done|subst..]; by exists u.
Qed.

Lemma serving_event d mg R s p data (Q : res Z unit -> world -> Prop) : serving d mg R s -> bound p ->
  data_ok (app s) data ->
  (forall s', serving d mg R s' -> app s' = app s -> no_event_memory s -> Q (Err LS_ERR_NO_MEMORY) s') ->
  (forall s', serving d mg R s' -> quiet (app s) (app s') -> occurs p data (app s) (app s') -> Q (Ok tt) s') ->
  runs (trigger (scripted prog) (scripted_result no_results) fuel p data) s Q.
Proof.
  intros Hs Hp Hdata H0 H1.
  eapply runs_conseq; [eapply event_runs; [apply Hs|done|by eapply serving_mem_wf|done]|].
  intros [[]|e] s' (Hi & Hq & Hr).
  - apply H1; [by eapply serving_quiet|done|done].
  - destruct Hr as (-> & Hno & Ha). apply H0; [by eapply serving_quiet|done|done].
Qed.
End manager_state.
