(* ===== verification/ManagerTubes.v ===== *)
(** Tubes under a manager: what sending, changing the state of, adding, removing and
    closing a tube do to the invariant of ManagerState.v. *)

From S2P Require Import Prelude LsError LsStr LsMem PoolUse Store LsTimer LsHtable LsHash GHeap GHeapLayout PQueue Spud LsSockaddr LsPktinfo Tube LsEventing EventBindings EventDispatch EventNames EventLife TubeManager ManagerState.
Open Scope Z_scope.

Section manager_tubes.
Context {cbor : Type} `{!CborLib cbor}.
Context {CB TCB TX SCB U : Type} `{!EqDecision CB}.
Abbreviation mworld := (mworld TCB TX SCB U).
Abbreviation world := (world cbor CB TCB TX SCB U).
Abbreviation app s := (ec_app (hs_client s)).
Abbreviation table x := (mw_table x).
Abbreviation tubes_of x := (hs_client (mw_table x)).
Implicit Types (s : world) (x : mworld) (w : tworld) (R : registry).
Context (K : background (cbor := cbor) (CB := CB)) (E : gmap loc (list (CB * event_arg))).
Abbreviation serving := (serving K E).
Abbreviation tubes_ok := (tubes_ok K).

(** ** The tubes change, the table does not *)
Lemma put_tubes_of_same s : put_tubes_of (tubes_of (app s)) s = s.
Proof. by destruct s as [? ? ? ? [? ? ? ? ? [[] ? ? ? ? ? ? ?]]]. Qed.

Lemma serving_put_tubes d mg R R' w s : serving d mg R s -> tubes_ok R' w ->
  entry_for <$> R' = entry_for <$> R -> serving d mg R' (put_tubes_of w s).
Proof.
  intros [H1 H2 (t & H3 & H4) H5 H6] Hok He. split; [by apply rest_put_app|done| |done|by destruct H6].
  exists t. split; [done|]. rewrite He. by eapply table_rep_stores.
Qed.

Lemma tubes_ok_set R w k t u u' : tubes_ok R w -> R !! k = Some (t, u) ->
  t_id u' = t_id u -> t_pktinfo u' = t_pktinfo u ->
  tubes_ok (<[k := (t, u')]> R) (with_store (st_set t u' (tw_tubes w)) w).
Proof.
  intros [H1 H2 H0 (H3 & H4 & H5)] Hk Eid Ep. pose proof (H1 k t u Hk) as (Ek & Hid & Ht & Hok). split.
  - intros k' t' v [[<- [= <- <-]]|[Hne Hk']]%lookup_insert_Some.
    + unfold tube_key, tube_ok. cbn. rewrite Eid, Ep, lookup_insert_eq. done.
    + destruct (H1 k' t' v Hk') as (Ek' & ? & Ht' & ?). cbn. rewrite lookup_insert_ne; [done|].
      intros ->. rewrite Ht in Ht'. injection Ht' as ->. congruence.
  - intros k1 k2 t1 t2 u1 u2 p [[<- [= <- <-]]|[_ Hk1]]%lookup_insert_Some
      [[<- [= <- <-]]|[_ Hk2]]%lookup_insert_Some Hp1 Hp2; rewrite ?Ep in *; by eauto.
  - intros p i Hi. destruct (H0 p i Hi) as [H6 H7]. split; [done|].
    intros k' t' v [[<- [= <- <-]]|[_ Hk']]%lookup_insert_Some; [rewrite Ep|]; by eapply H7.
  - split_and!; [|done|done]. apply store_wf_set; [by rewrite Ht|done].
Qed.

Lemma entry_for_set R k t u u' : R !! k = Some (t, u) -> t_id u' = t_id u ->
  entry_for <$> <[k := (t, u')]> R = entry_for <$> R.
Proof.
  intros Hk Eid. rewrite fmap_insert. apply insert_id. rewrite lookup_fmap, Hk. cbn.
  unfold entry_for. cbn. by rewrite Eid.
Qed.

(** [tube_set_state] on a tube of the manager. *)
Lemma set_state_runs d mg R s k t u st (Q : unit -> world -> Prop) :
  serving d mg R s -> R !! k = Some (t, u) ->
  (let w := tubes_of (app s) in
   let s' := put_tubes_of (with_store (st_set t (put_state st u) (tw_tubes w)) w) s in
   serving d mg (<[k := (t, put_state st u)]> R) s' -> Q tt s') ->
  runs (on_tubes (tube_set_state t st)) s Q.
Proof.
  intros Hs Hk HQ. pose proof (serving_tube _ _ _ _ _ _ _ _ _ Hs Hk) as (_ & _ & Ht & _).
  apply runs_on_tubes. eapply (runs_update t _ u); [done|]. apply HQ.
  eapply serving_put_tubes; [done|by eapply tubes_ok_set; [apply Hs|..]|by eapply entry_for_set].
Qed.

Lemma get_state_runs d mg R s k t u (Q : tube_states_t -> world -> Prop) :
  serving d mg R s -> R !! k = Some (t, u) -> Q (t_state u) s ->
  runs (on_tubes (tube_get_state t)) s Q.
Proof.
  intros Hs Hk HQ. pose proof (serving_tube _ _ _ _ _ _ _ _ _ Hs Hk) as (_ & _ & Ht & _).
  apply runs_on_tubes. unfold tube_get_state. run_step. eapply (runs_load t u); [done|]. run_step.
  by rewrite put_tubes_of_same.
Qed.

Lemma get_id_runs s t u (Q : id_ptr -> world -> Prop) :
  st_objs (tw_tubes (tubes_of (app s))) !! t = Some u -> Q (IdPtr (Z.pos t) (t_id u)) s ->
  runs (on_tubes (tube_get_id t)) s Q.
Proof.
  intros Ht HQ. apply runs_on_tubes. unfold tube_get_id. run_step. eapply (runs_load t u); [done|].
  run_step. by rewrite put_tubes_of_same.
Qed.

(** [tube_send] on a tube of the manager. *)
Lemma send_runs d mg R s k t u cmd adec pdec data (Q : res Z unit -> world -> Prop) :
  serving d mg R s -> R !! k = Some (t, u) ->
  (let w := tubes_of (app s) in forall w', serving d mg R (put_tubes_of w' s) ->
     tw_tubes w' = tw_tubes w -> tw_infos w' = tw_infos w -> same_heap (tw_pools w) (tw_pools w') ->
     (no_block w = true -> tw_sent w' = tw_sent w -> Q (Err LS_ERR_NO_MEMORY) (put_tubes_of w' s)) /\
     (no_block w = false -> tw_sent w' = tw_sent w ++ [packet w u cmd adec pdec (concat data)] ->
      Q (next_answer w) (put_tubes_of w' s))) ->
  runs (on_tubes (tube_send t cmd adec pdec data)) s Q.
Proof.
  intros Hs Hk HQ. pose proof (serving_tube _ _ _ _ _ _ _ _ _ Hs Hk) as (_ & _ & Ht & Hok).
  assert (Hput : forall w', tw_tubes w' = tw_tubes (tubes_of (app s)) ->
    tw_infos w' = tw_infos (tubes_of (app s)) -> same_heap (tw_pools (tubes_of (app s))) (tw_pools w') ->
    serving d mg R (put_tubes_of w' s)).
  { intros w' Et Ei []. eapply serving_put_tubes; [done| |done].
    eapply tubes_ok_ext; [apply Hs|done..]. }
  apply runs_on_tubes. eapply tube_send_exact; [by eapply serving_mem_wf|done|done| |]; intros p Hno Hp.
  - by apply HQ; [apply Hput|..].
  - by apply HQ; [apply Hput|..].
Qed.

(** ** The table's cleaner *)

(** The tube [t], read as [u], is gone; it said CLOSE if it was running. *)
Record cleaned (t : loc) (u : tube) w w' : Prop := {
  cl_tubes : st_objs (tw_tubes w') = delete t (st_objs (tw_tubes w));
  cl_infos : st_objs (tw_infos w') = match t_pktinfo u with
    | Some p => delete p (st_objs (tw_infos w)) | None => st_objs (tw_infos w) end;
  cl_wf : store_wf (tw_tubes w') /\ store_wf (tw_infos w');
  cl_heap : same_heap (tw_pools w) (tw_pools w');
  cl_sent : tw_sent w' = tw_sent w \/
    t_state u = TS_RUNNING /\ tw_sent w' = tw_sent w ++ [packet w u SPUD_CLOSE false false []] }.

Lemma tube_destroy_cleans t u w w' (Q : unit -> tworld -> Prop) :
  st_objs (tw_tubes w') = <[t := u]> (st_objs (tw_tubes w)) -> tw_infos w' = tw_infos w ->
  store_wf (tw_tubes w') -> store_wf (tw_infos w) -> same_heap (tw_pools w) (tw_pools w') ->
  (forall p, t_pktinfo u = Some p -> is_Some (st_objs (tw_infos w) !! p)) ->
  (forall w'', st_objs (tw_tubes w'') = delete t (st_objs (tw_tubes w)) ->
     st_objs (tw_infos w'') = match t_pktinfo u with
       | Some p => delete p (st_objs (tw_infos w)) | None => st_objs (tw_infos w) end ->
     store_wf (tw_tubes w'') -> store_wf (tw_infos w'') -> same_heap (tw_pools w) (tw_pools w'') ->
     tw_sent w'' = tw_sent w' -> Q tt w'') ->
  runs (tube_destroy t) w' Q.
Proof.
  intros Et Ei Hwt Hwi Hh Hp HQ. eapply (tube_destroy_runs t u).
  - by rewrite Et, lookup_insert_eq.
  - intros p Ep. rewrite Ei. by apply Hp.
  - apply HQ; cbn; rewrite ?Ei; try done.
    + rewrite Et. apply delete_insert_eq.
    + by destruct (t_pktinfo u).
    + by apply store_wf_del.
    + destruct (t_pktinfo u); [by apply store_wf_del|done].
Qed.

Lemma clean_tube_runs t u w replace destroy key : st_objs (tw_tubes w) !! t = Some u -> tube_ok w u ->
  store_wf (tw_tubes w) -> store_wf (tw_infos w) -> mem_wf (ps_mem (tw_pools w)) ->
  runs (clean_tube tt replace destroy key (Some t)) w (fun _ w' => cleaned t u w w').
Proof.
  intros Ht Hok Hwt Hwi Hm. unfold clean_tube. run_step. run_step. run_step.
  assert (Hp : forall p, t_pktinfo u = Some p -> is_Some (st_objs (tw_infos w) !! p)).
  { intros p Ep. destruct (Hok p Ep) as (i & -> & _). by eexists. }
  unfold tube_get_state. run_step. apply (runs_load t u); [done|]. run_step. run_step.
  case_decide as Hst.
  - run_step. eapply runs_conseq; [by apply (tube_close_runs t u)|].
    intros r w1 (Et & Ei & Hh & Hsent). run_step.
    eapply (tube_destroy_cleans t (put_state TS_UNKNOWN u) w); try done; [by rewrite Et| |].
    { rewrite Et. apply store_wf_set; [by rewrite Ht|done]. }
    intros w2 H1 H2 H3 H4 H5 H6. split; [done..|]. rewrite H6.
    destruct Hsent as [[_ ->]|[_ ->]]; [by left|by right].
  - run_step. eapply (tube_destroy_cleans t u w); [by rewrite insert_id|done|done|done|by apply same_heap_refl|done|].
    intros w2 H1 H2 H3 H4 H5 H6. split; [done..|]. by left.
Qed.

Lemma tubes_ok_remove R w w' k t u : tubes_ok R w -> R !! k = Some (t, u) -> cleaned t u w w' ->
  tubes_ok (delete k R) w'.
Proof.
  intros [H1 H2 H0 H3] Hk [C1 C2 (C3 & C4) C5 C6]. pose proof (H1 k t u Hk) as (Ek & Hid & Ht & Hok). split.
  - intros k' t' u' [Hne Hk']%lookup_delete_Some. destruct (H1 k' t' u' Hk') as (Ek' & ? & Ht' & Hok').
    split_and!; [done|done| |].
    + rewrite C1, lookup_delete_ne; [done|]. intros ->. rewrite Ht in Ht'. injection Ht' as ->. congruence.
    + intros p Ep. rewrite C2. destruct (Hok' p Ep) as (i & Hi & Hw). exists i. split; [|done].
      destruct (t_pktinfo u) as [q|] eqn:Eq; [|done]. rewrite lookup_delete_ne; [done|].
      intros ->. apply Hne. by eapply H2.
  - intros k1 k2 t1 t2 u1 u2 p [_ Hk1]%lookup_delete_Some [_ Hk2]%lookup_delete_Some. intros. by eapply H2.
  - intros p i Hi. destruct (H0 p i Hi) as [H6 H7]. split.
    + rewrite C2. destruct (t_pktinfo u) as [q|] eqn:Eq; [|done]. rewrite lookup_delete_ne; [done|].
      intros ->. by eapply H7.
    + intros k' t' u' [_ Hk']%lookup_delete_Some. by eapply H7.
  - by destruct C5.
Qed.

(** ** Removing *)
Context (prog : CB -> loc -> event_data cbor -> bool -> event_arg ->
  C mworld (bool * list (loc * event_data cbor))).
Context (fuel : nat).
Context (prog_quiet : quiet_callbacks E prog) (fuel_ok : enough_fuel E fuel).

Lemma table_remove_runs d mg R s k t u (Q : unit -> world -> Prop) :
  serving d mg R s -> R !! k = Some (t, u) ->
  (forall h, cleaned t u (tubes_of (app s)) (hs_client h) -> serving d mg (delete k R) (put_table h s) ->
     Q tt (put_table h s)) ->
  runs (tt ← c_deref (mg_tubes mg);
        on_table (ls_htable_remove clean_tube tt (IdPtr (Z.pos t) (t_id u)))) s Q.
Proof.
  intros Hs Hk HQ. pose proof Hs as [H1 H2 (tb & Etb & Ht) H4 H5].
  pose proof (to_tubes _ _ _ H4 k t u Hk) as (-> & Hid & Htu & Hok).
  destruct (to_wf _ _ _ H4) as (W1 & W2 & W3). rewrite Etb. run_step. run_step. apply runs_on_table.
  destruct (runs_inv _ _ _ (clean_tube_runs t u (tubes_of (app s)) false true
    (IdPtr (Z.pos t) (t_id u)) Htu Hok W1 W2 W3)) as ([] & w' & Ec & Hc).
  eapply runs_conseq; [apply (ls_htable_remove_runs clean_tube (gr_table (bg_ground K)) tb (entry_for <$> R)) with (c' := w');
    [done|exact Hid|]|].
  - unfold remove_calls. cbn [canon id_hashable ip_id].
    change (id_u64 (t_id u)) with (tube_key u). rewrite lookup_fmap, Hk. cbn -[clean_tube].
    rewrite (bind_done _ _ _ _ _ Ec). done.
  - cbn [canon id_hashable ip_id]. intros [] h [Hh Ew]. rewrite <- Ew in Hc. apply HQ; [done|].
    split; [by apply rest_put_app|done| |by eapply tubes_ok_remove|by destruct H5].
    exists tb. split; [done|]. by rewrite fmap_delete.
Qed.

Lemma remove_runs d mg R s k t u (Q : unit -> world -> Prop) :
  serving d mg R s -> events_of E mg -> R !! k = Some (t, u) ->
  (forall s1 h, quiet (app s) (app s1) ->
     (no_event_memory s /\ app s1 = app s) \/ occurs E prog (mg_remove mg) (EvTube t) (app s) (app s1) ->
     cleaned t u (tubes_of (app s1)) (hs_client h) -> serving d mg (delete k R) (put_table h s1) ->
     Q tt (put_table h s1)) ->
  runs (tube_manager_remove (scripted prog) (scripted_result no_results) fuel t) s Q.
Proof.
  intros Hs He Hk HQ. unfold tube_manager_remove. run_step.
  apply (runs_get_mgr mg); [apply Hs|]. run_step.
  assert (Hrest : forall s1, serving d mg R s1 -> quiet (app s) (app s1) ->
    (no_event_memory s /\ app s1 = app s) \/ occurs E prog (mg_remove mg) (EvTube t) (app s) (app s1) ->
    runs (id ← on_tubes (tube_get_id t); m ← get_mgr; tubes ← c_deref (mg_tubes m);
          on_table (ls_htable_remove clean_tube tubes id)) s1 Q).
  { intros s1 Hs1 Hq Ho. pose proof (serving_tube _ _ _ _ _ _ _ _ _ Hs1 Hk) as (_ & _ & Ht & _). run_step.
    eapply get_id_runs; [done|]. run_step. apply (runs_get_mgr mg); [apply Hs1|].
    eapply table_remove_runs; [done|done|]. intros h Hc Hs2. by eapply HQ. }
  eapply serving_event; [done|done|done|apply He|by eapply serving_data_ok; [exact Hs|exact Hk|]| |].
  - intros s1 Hs1 Ha Hno. apply Hrest; [done| |by left]. rewrite Ha. apply quiet_refl. by eapply serving_mem_wf.
  - intros s1 Hs1 Hq Ho. apply Hrest; [done|done|by right].
Qed.

(** ** Adding *)

(** The tube [t], read as [u], is not the manager's yet. *)
Record addable R w (t : loc) (u : tube) : Prop := {
  ad_tube : st_objs (tw_tubes w) !! t = Some u;
  ad_id : tube_id_wf (t_id u);
  ad_ok : tube_ok w u;
  ad_new : R !! tube_key u = None;
  ad_info : forall k t' u' p, R !! k = Some (t', u') -> t_pktinfo u = Some p -> t_pktinfo u' <> Some p;
  ad_spare : forall p, t_pktinfo u = Some p -> bg_infos K !! p = None;
  ad_room : Z.of_nat (size R) < 2 ^ 28 }.

Lemma tubes_ok_add R w t u : tubes_ok R w -> addable R w t u -> tubes_ok (<[tube_key u := (t, u)]> R) w.
Proof.
  intros [H1 H2 H0 H3] [A1 A2 A3 A4 A5 A6 A7]. split; [| | |done].
  - intros k t' u' [[<- [= <- <-]]|[_ Hk]]%lookup_insert_Some; [done|by apply H1].
  - intros k1 k2 t1 t2 u1 u2 p [[<- [= <- <-]]|[_ Hk1]]%lookup_insert_Some
      [[<- [= <- <-]]|[_ Hk2]]%lookup_insert_Some Hp1 Hp2; [done|..|by eauto].
    + by destruct (A5 _ _ _ _ Hk2 Hp1).
    + by destruct (A5 _ _ _ _ Hk1 Hp2).
  - intros p i Hi. destruct (H0 p i Hi) as [H6 H7]. split; [done|].
    intros k t' u' [[<- [= <- <-]]|[_ Hk]]%lookup_insert_Some; [|by eapply H7].
    intros Ep. specialize (A6 p Ep). congruence.
Qed.

(** The table [h] has no place for the tube [t], read as [u]. *)
Definition no_place (mg : manager) (t : loc) (u : tube) (h : hstate id_ptr loc unit tworld) : Prop := exists tb e h',
  mg_tubes mg = Some tb /\
  ls_htable_put clean_tube tb (IdPtr (Z.pos t) (t_id u)) (Some t) (Some tt) h = Done (Err e, h').

Lemma add_runs d mg R s t u (Q : res Z unit -> world -> Prop) :
  serving d mg R s -> events_of E mg -> addable R (tubes_of (app s)) t u ->
  (forall h R' s', hs_client h = tubes_of (app s) -> app s' = set_table h (app s) ->
     (R' = R /\ no_place mg t u (table (app s))) \/
     (R' = <[tube_key u := (t, u)]> R /\ no_event_memory s) -> serving d mg R' s' ->
     Q (Err LS_ERR_NO_MEMORY) s') ->
  (forall h s', hs_client h = tubes_of (app s) ->
     quiet (set_table h (app s)) (app s') ->
     occurs E prog (mg_add mg) (EvTube t) (set_table h (app s)) (app s') ->
     serving d mg (<[tube_key u := (t, u)]> R) s' -> Q (Ok tt) s') ->
  runs (tube_manager_add (scripted prog) (scripted_result no_results) fuel t) s Q.
Proof.
  intros Hs He Hu H0 H1. pose proof Hs as [I1 I2 (tb & Etb & Ht) I4 I5].
  unfold tube_manager_add. run_step. apply (runs_get_mgr mg); [done|]. run_step.
  eapply get_id_runs; [apply Hu|]. rewrite Etb. run_step. run_step. unfold attempt. run_step.
  apply runs_on_table. eapply runs_conseq.
  { apply runs_eq, (ls_htable_put_runs clean_tube (gr_table (bg_ground K)) tb (entry_for <$> R)) with (c' := tubes_of (app s));
      [done|apply Hu|by rewrite map_size_fmap; apply Hu|].
    unfold put_calls. cbn [canon id_hashable ip_id].
    change (id_u64 (t_id u)) with (tube_key u). by rewrite lookup_fmap, (ad_new _ _ _ _ Hu). }
  cbn [canon id_hashable ip_id]. change (id_u64 (t_id u)) with (tube_key u).
  assert (Hserve : forall h R', hs_client h = tubes_of (app s) -> table_rep (gr_table (bg_ground K)) tb (entry_for <$> R') h ->
    tubes_ok R' (tubes_of (app s)) -> serving d mg R' (put_table h s)).
  { intros h R' Eh Hh Hok. split; [by apply rest_put_app|done|by exists tb| |by destruct I5]. cbn. by rewrite Eh. }
  intros [[]|e] h [Eput Hput]; revert Hput; cbn beta iota.
  - intros [Hh Eh].
    assert (Hs1 : serving d mg (<[tube_key u := (t, u)]> R) (put_table h s)).
    { apply Hserve; [done|by rewrite fmap_insert|by apply tubes_ok_add]. }
    run_step. apply (runs_get_mgr mg); [done|].
    eapply serving_event; [done|done|exact Hs1|apply He| | |].
    { eapply serving_data_ok; [exact Hs1|by rewrite lookup_insert_eq|done]. }
    + intros s2 Hs2 Ha Hno. eapply (H0 h _ s2); [done|exact Ha|by right|done].
    + intros s2 Hs2 Hq Ho. by eapply (H1 h s2).
  - intros (-> & _ & Hh & Eh). run_step. eapply (H0 h R); [done|done|left; split; [done|by exists tb, LS_ERR_NO_MEMORY, h]|].
    by apply Hserve.
Qed.
End manager_tubes.
