(* ===== verification/ManagerPackets.v ===== *)
(** Packets under a manager: what each command does to the manager's tubes, for the
    receive loop of src/tube_manager.c as modelled in TubeManager.v. *)

From S2P Require Import Prelude LsError LsStr LsMem PoolUse Store LsTimer LsHtable LsHash GHeap GHeapLayout PQueue Spud LsSockaddr LsPktinfo Tube LsEventing EventBindings EventDispatch EventNames EventLife TubeManager ManagerState ManagerTubes.
Open Scope Z_scope.

(** ** What the packets ask for *)

(** The manager's answer to a command, from the tube that the packet's ID names. *)
Inductive reaction :=
  | Ignore
  | Accept
  | Deliver (t : loc) (u : tube)
  | Closing (t : loc) (u : tube)
  | Opened (t : loc) (u : tube).

Definition reaction_to (responder : bool) (known : option (loc * tube)) (cmd : spud_command) : reaction :=
  match known, cmd with
  | None, SPUD_OPEN => if responder then Accept else Ignore
  | None, _ => Ignore
  | Some (t, u), SPUD_DATA => if decide (t_state u = TS_RUNNING) then Deliver t u else Ignore
  | Some (t, u), SPUD_CLOSE => if decide (t_state u = TS_UNKNOWN) then Ignore else Closing t u
  | Some (t, u), SPUD_ACK => if decide (t_state u = TS_OPENING) then Opened t u else Ignore
  | Some _, SPUD_OPEN => Ignore
  end.

Definition responds (mg : manager) : bool :=
  bool_decide (Z.land (mg_policy mg) TP_WILL_RESPOND = TP_WILL_RESPOND).

(** The bytes [buf] are a packet of the tube [id] with the command [cmd] and the body [c]. *)
Definition arrives {cbor} `{!CborLib cbor} (buf : bytes) (id : spud_tube_id) (cmd : spud_command)
    (c : option cbor) : Prop := exists h,
  spud_parse cn_cbor_decode (Some buf) true = Ok (SpudMessage (Some h) c) /\
  spud_copy_id (hdr_tube_id h) = id /\ tube_id_wf id /\
  command_of_code (flags_command (hdr_flags h)) = Some cmd.

Lemma store_wf_new {A} (st st' : store A) x : store_wf st ->
  st_objs st' = <[st_next st := x]> (st_objs st) -> st_next st' = Pos.succ (st_next st) -> store_wf st'.
Proof. destruct st' as [o n]. cbn. intros H -> ->. by apply (store_wf_add x st). Qed.

Lemma size_outside (R R' : registry) (k : Z) : (forall k', k' <> k -> R' !! k' = R !! k') -> (size R' <= S (size R))%nat.
Proof.
  intros H. rewrite <- !size_dom. transitivity (size (dom R ∪ {[k]})).
  - apply subseteq_size. intros k' [a Ha]%elem_of_dom. destruct (decide (k' = k)) as [->|Hne]; [set_solver|].
    rewrite H in Ha by done. apply elem_of_union_l, elem_of_dom. by exists a.
  - rewrite size_union_alt. pose proof (subseteq_size ({[k]} ∖ dom R) {[k]}) as Hs.
    rewrite size_singleton in Hs. specialize (Hs ltac:(set_solver)). lia.
Qed.

Section packets.
Context {cbor : Type} `{!CborLib cbor}.
Context {CB TCB TX SCB U : Type} `{!EqDecision CB}.
Abbreviation mworld := (mworld TCB TX SCB U).
Abbreviation world := (world cbor CB TCB TX SCB U).
Abbreviation app s := (ec_app (hs_client s)).
Abbreviation table x := (mw_table x).
Abbreviation tubes_of x := (hs_client (mw_table x)).
Abbreviation tubes_in s := (st_objs (tw_tubes (tubes_of (app s)))).
Abbreviation infos_in s := (st_objs (tw_infos (tubes_of (app s)))).
Abbreviation sent x := (tw_sent (tubes_of x)).
Implicit Types (s : world) (x : mworld) (w : tworld) (R : registry).

(** The callbacks, which keep quiet (ManagerState.v), and the fuel for one event. *)
Context (K : background (cbor := cbor) (CB := CB)) (E : gmap loc (list (CB * event_arg))).
Context (prog : CB -> loc -> event_data cbor -> bool -> event_arg ->
  C mworld (bool * list (loc * event_data cbor))).
Context (fuel : nat).
Context (prog_quiet : quiet_callbacks E prog) (fuel_ok : enough_fuel E fuel).
Abbreviation handle := (handle_packet (scripted prog) (scripted_result no_results) fuel).
Abbreviation occurs := (occurs E prog).
Abbreviation happen := (trigger (scripted prog) (scripted_result no_results) fuel).
Abbreviation serving := (serving K E).
Abbreviation tubes_ok := (tubes_ok K).

(** ** The commands *)

(** The state of the tube [t], read as [u], set. *)
Definition with_state (t : loc) (u : tube) (st : tube_states_t) x : mworld :=
  set_table (set_client (with_store (st_set t (put_state st u) (tw_tubes (tubes_of x))) (tubes_of x))
    (table x)) x.

Lemma handle_known d mg R s err sock buf from info id cmd c t u (Q : flow -> world -> Prop) :
  serving d mg R s -> arrives buf id cmd c -> R !! id_u64 id = Some (t, u) ->
  runs (dispatch_command (scripted prog) (scripted_result no_results) fuel t (Some cmd)
          (EvPacket t c from)) s Q ->
  runs (handle err sock buf from info) s Q.
Proof.
  intros Hs (h & Hp & Hid & Hw & Hcmd) Hk HQ. unfold handle_packet. rewrite Hp. cbn [msg_header msg_cbor].
  run_step. run_step. cbv zeta. rewrite Hid, Hcmd. run_step. apply (runs_get_mgr mg); [apply Hs|].
  destruct (serving_lookup _ _ _ _ _ _ id Hs Hw) as (tb & -> & Hg). run_step. run_step. run_step.
  apply runs_on_table. eapply runs_done; [exact Hg|]. rewrite Hk. cbn.
  unfold put_table. rewrite set_table_same, put_app_same. exact HQ.
Qed.

Lemma handle_unknown d mg R s err sock buf from info id cmd c (Q : flow -> world -> Prop) :
  serving d mg R s -> arrives buf id cmd c -> R !! id_u64 id = None ->
  (responds mg = false \/ cmd <> SPUD_OPEN -> Q Cleanup s) ->
  (responds mg = true -> cmd = SPUD_OPEN ->
   runs (r ← accept_tube (scripted prog) (scripted_result no_results) fuel sock from info id;
         match r with
         | inl f => mret f
         | inr t => dispatch_command (scripted prog) (scripted_result no_results) fuel t (Some cmd)
                      (EvPacket t c from)
         end) s Q) ->
  runs (handle err sock buf from info) s Q.
Proof.
  intros Hs (h & Hp & Hid & Hw & Hcmd) Hk H0 H1. unfold handle_packet. rewrite Hp. cbn [msg_header msg_cbor].
  run_step. run_step. cbv zeta. rewrite Hid, Hcmd. run_step. apply (runs_get_mgr mg); [apply Hs|].
  destruct (serving_lookup _ _ _ _ _ _ id Hs Hw) as (tb & -> & Hg). run_step. run_step. run_step.
  apply runs_on_table. eapply runs_done; [exact Hg|]. rewrite Hk. cbn [fst fmap option_fmap option_map].
  unfold put_table. rewrite set_table_same, put_app_same. unfold tube_manager_is_responder.
  run_step. run_step. apply (runs_get_mgr mg); [apply Hs|]. run_step. fold (responds mg).
  destruct (responds mg) eqn:Er; cbn [negb orb].
  - destruct (decide (cmd = SPUD_OPEN)) as [->|Hc].
    + rewrite bool_decide_eq_false_2 by (intros H; by apply H). by apply H1.
    + rewrite bool_decide_eq_true_2 by congruence. run_step. apply H0. by right.
  - run_step. apply H0. by left.
Qed.

(** The start of the switch. *)
Lemma dispatch_runs d mg R s t k u cmd data (Q : flow -> world -> Prop) : serving d mg R s ->
  R !! k = Some (t, u) ->
  match cmd with
  | SPUD_DATA =>
      if decide (t_state u = TS_RUNNING)
      then runs (or_error (trigger (scripted prog) (scripted_result no_results) fuel (mg_ev_data mg) data)
                  (mret Cleanup)) s Q
      else Q Cleanup s
  | SPUD_CLOSE =>
      if decide (t_state u = TS_UNKNOWN) then Q Cleanup s
      else runs (on_tubes (tube_set_state t TS_UNKNOWN);;
                 or_error (trigger (scripted prog) (scripted_result no_results) fuel (mg_close mg) data)
                   (tube_manager_remove (scripted prog) (scripted_result no_results) fuel t;;
                    mret Cleanup)) s Q
  | SPUD_OPEN => Q Cleanup s
  | SPUD_ACK =>
      if decide (t_state u = TS_OPENING)
      then runs (on_tubes (tube_set_state t TS_RUNNING);;
                 or_error (trigger (scripted prog) (scripted_result no_results) fuel (mg_running mg) data)
                   (mret Cleanup)) s Q
      else Q Cleanup s
  end ->
  runs (dispatch_command (scripted prog) (scripted_result no_results) fuel t (Some cmd) data) s Q.
Proof.
  intros Hs Hk HQ. unfold dispatch_command. run_step.
  eapply get_state_runs; [exact Hs|exact Hk|]. run_step. apply (runs_get_mgr mg); [apply Hs|].
  destruct cmd; repeat case_decide; try done; by run_step.
Qed.

Lemma ignored_runs d mg R s err sock buf from info id cmd c :
  serving d mg R s -> arrives buf id cmd c -> reaction_to (responds mg) (R !! id_u64 id) cmd = Ignore ->
  runs (handle err sock buf from info) s (fun f s' => f = Cleanup /\ s' = s).
Proof.
  intros Hs Ha Hr. destruct (R !! id_u64 id) as [[t u]|] eqn:Hk; cbn in Hr.
  - eapply handle_known; [done..|]. eapply dispatch_runs; [done..|]. destruct cmd; repeat case_decide; done.
  - eapply handle_unknown; [done..| |]; [done|]. intros Er ->. by rewrite Er in Hr.
Qed.

Lemma deliver_runs d mg R s err sock buf from info id cmd c t u :
  serving d mg R s -> events_of E mg -> arrives buf id cmd c ->
  reaction_to (responds mg) (R !! id_u64 id) cmd = Deliver t u ->
  runs (handle err sock buf from info) s (fun f s' => serving d mg R s' /\
    match f with
    | Cleanup => quiet (app s) (app s') /\ occurs (mg_ev_data mg) (EvPacket t c from) (app s) (app s')
    | Error e => e = LS_ERR_NO_MEMORY /\ no_event_memory s /\ app s' = app s
    end).
Proof.
  intros Hs He Ha Hr. destruct (R !! id_u64 id) as [[t' u']|] eqn:Hk; cbn in Hr; [|by destruct cmd, (responds mg)].
  destruct cmd; repeat case_decide; try done. injection Hr as -> ->.
  eapply handle_known; [done..|]. eapply dispatch_runs; [done..|]. rewrite decide_True by done.
  unfold or_error. run_step. eapply serving_event; [done|done|done|apply He|by eapply serving_data_ok; [exact Hs|exact Hk|]| |];
    intros s' Hs'; [intros Ea Hno|intros Hq Ho]; by run_step.
Qed.

Lemma opened_runs d mg R s err sock buf from info id cmd c t u :
  serving d mg R s -> events_of E mg -> arrives buf id cmd c ->
  reaction_to (responds mg) (R !! id_u64 id) cmd = Opened t u ->
  runs (handle err sock buf from info) s (fun f s' =>
    serving d mg (<[id_u64 id := (t, put_state TS_RUNNING u)]> R) s' /\
    match f with
    | Cleanup => occurs (mg_running mg) (EvPacket t c from) (with_state t u TS_RUNNING (app s)) (app s')
    | Error e => e = LS_ERR_NO_MEMORY /\ no_event_memory s /\ app s' = with_state t u TS_RUNNING (app s)
    end).
Proof.
  intros Hs He Ha Hr. destruct (R !! id_u64 id) as [[t' u']|] eqn:Hk; cbn in Hr; [|by destruct cmd, (responds mg)].
  destruct cmd; repeat case_decide; try done. injection Hr as -> ->.
  eapply handle_known; [done..|]. eapply dispatch_runs; [done..|]. rewrite decide_True by done.
  run_step. eapply set_state_runs; [done..|]. cbv zeta. intros Hs1.
  unfold or_error. run_step. eapply serving_event; [done|done|exact Hs1|apply He| | |];
    [eapply serving_data_ok; [exact Hs1|by rewrite lookup_insert_eq|done]|..];
    intros s' Hs'; [intros Ea Hno|intros Hq Ho]; by run_step.
Qed.


(** CLOSE: the callbacks of the close event see the tube in state unknown; then it is
    removed, with its event unless there is no memory for it then, and destroyed.  No CLOSE
    is sent in answer. *)
Definition closed d mg R s id c from (t : loc) (u : tube) (f : flow) s' : Prop :=
  let k := id_u64 id in
  let x := with_state t u TS_UNKNOWN (app s) in
  match f with
  | Error e => e = LS_ERR_NO_MEMORY /\ no_event_memory s /\
      serving d mg (<[k := (t, put_state TS_UNKNOWN u)]> R) s' /\ app s' = x
  | Cleanup => serving d mg (delete k R) s' /\
      tubes_in s' !! t = None /\ (forall p, t_pktinfo u = Some p -> infos_in s' !! p = None) /\
      exists s1 x2,
        happen (mg_close mg) (EvPacket t c from) (put_app x s) = Done (Ok tt, s1) /\
        occurs (mg_close mg) (EvPacket t c from) x (app s1) /\
        ((no_event_memory s1 /\ x2 = app s1) \/ occurs (mg_remove mg) (EvTube t) (app s1) x2) /\
        app s' = set_table (table (app s')) x2 /\ sent (app s') = sent x2
  end.

Lemma closing_runs d mg R s err sock buf from info id cmd c t u :
  serving d mg R s -> events_of E mg -> arrives buf id cmd c ->
  reaction_to (responds mg) (R !! id_u64 id) cmd = Closing t u ->
  runs (handle err sock buf from info) s (closed d mg R s id c from t u).
Proof.
  intros Hs He Ha Hr. destruct (R !! id_u64 id) as [[t' u']|] eqn:Hk; cbn in Hr; [|by destruct cmd, (responds mg)].
  destruct cmd; repeat case_decide; try done. injection Hr as -> ->.
  eapply handle_known; [done..|]. eapply dispatch_runs; [done..|]. rewrite decide_False by done.
  run_step. eapply set_state_runs; [done..|]. cbv zeta. intros Hs1.
  unfold or_error. run_step. eapply runs_conseq.
  { apply runs_eq. eapply (serving_event K E prog fuel prog_quiet fuel_ok) with (Q := fun r s2 =>
      match r with
      | Err e => e = LS_ERR_NO_MEMORY /\ no_event_memory s /\
          serving d mg (<[id_u64 id := (t, put_state TS_UNKNOWN u)]> R) s2 /\ app s2 = with_state t u TS_UNKNOWN (app s)
      | Ok _ => serving d mg (<[id_u64 id := (t, put_state TS_UNKNOWN u)]> R) s2 /\
          occurs (mg_close mg) (EvPacket t c from) (with_state t u TS_UNKNOWN (app s)) (app s2)
      end); [exact Hs1|apply He| | |]; [|done..].
    eapply serving_data_ok; [exact Hs1|by rewrite lookup_insert_eq|done]. }
  intros [[]|e] s2 [Eev Hev]; cbn beta iota in *; run_step; [|done]. destruct Hev as [Hs2 Ho].
  eapply (remove_runs K E prog fuel prog_quiet fuel_ok d mg _ s2 (id_u64 id) t (put_state TS_UNKNOWN u));
    [done|done|by rewrite lookup_insert_eq|].
  intros s3 h Hq3 Ho3 [C1 C2 (C3 & C4) C5 C6] Hs3. run_step. rewrite delete_insert_eq in Hs3.
  split_and!; [done| | |].
  - cbn. by rewrite C1, lookup_delete_eq.
  - intros p Ep. cbn in *. by rewrite C2, Ep, lookup_delete_eq.
  - exists s2, (app s3). split_and!; [exact Eev|exact Ho|destruct Ho3; [by left|by right]|done|].
    destruct C6 as [C6|[C6 _]]; [exact C6|done].
Qed.

(** OPEN of an unknown tube at a responder: a new tube, running, with the sender as its
    peer, the ID of the packet and a copy [p] of its packet information [i]; the callbacks
    of the add event run before the ACK is sent. *)
Definition new_tube (sock : Z) (from : sockaddr) (id : spud_tube_id) (p : loc) : tube :=
  Tube TS_RUNNING from id None (Some p) sock.

(** Such a tube before it runs. *)
Definition half_tube (sock : Z) (from : sockaddr) (id : spud_tube_id) (p : loc) : tube :=
  Tube TS_UNKNOWN from id None (Some p) sock.

(** The datagram [dg] is the last thing sent after [x2], unless there was no memory for it. *)
Definition answered x2 (dg : datagram) x : Prop :=
  sent x = sent x2 ++ (if no_block (tubes_of x2) then [] else [dg]).

Definition ack_of s (sock : Z) (from : sockaddr) (id : spud_tube_id) (p : loc) : datagram :=
  packet (tubes_of (app s)) (new_tube sock from id p) SPUD_ACK false false [].

(** [h] is the table that the callbacks of the add event find, with the new tube in it. *)
Record accepted d mg R s sock from id (i : ls_pktinfo) (t p : loc) s' : Prop := {
  ac_serving : serving d mg (<[id_u64 id := (t, new_tube sock from id p)]> R) s';
  ac_fresh : tubes_in s !! t = None /\ infos_in s !! p = None;
  ac_info : infos_in s' !! p = Some i;
  ac_events : exists h x2, let w := hs_client h in
    st_objs (tw_tubes w) = <[t := half_tube sock from id p]> (tubes_in s) /\
    st_objs (tw_infos w) = <[p := i]> (infos_in s) /\ tw_sent w = sent (app s) /\
    oom_script w = tail (tail (oom_script (tubes_of (app s)))) /\
    occurs (mg_add mg) (EvTube t) (set_table h (app s)) x2 /\
    app s' = set_table (table (app s')) x2 /\ answered x2 (ack_of s' sock from id p) (app s') }.

(** No tube is accepted: there is no memory for the tube, for its packet information or for
    its place in the table, and the tubes are as before; or there is none for the add
    event, and the tube stays in the table, not running. *)
Definition not_accepted d mg R s sock from id s' : Prop :=
  let w := tubes_of (app s) in
  (serving d mg R s' /\
     (no_block w = true \/ no_block (pop_oom w) = true \/
      exists t p w', no_place mg t (half_tube sock from id p) (set_client w' (table (app s))))) \/
  (no_event_memory s /\ exists t p, serving d mg (<[id_u64 id := (t, half_tube sock from id p)]> R) s').

(** What an OPEN needs: the loop's packet information [i] at [info], a peer of a known
    family, and room in the table. *)
Record can_accept R s (sock : Z) (from : sockaddr) (info : loc) (i : ls_pktinfo) : Prop := {
  ca_info : infos_in s !! info = Some i;
  ca_wf : pktinfo_wf i;
  ca_sock : 0 <= sock;
  ca_from : known_family from;
  ca_room : Z.of_nat (size R) < 2 ^ 28 }.

Lemma tubes_ok_more R w w' : tubes_ok R w -> st_objs (tw_tubes w) ⊆ st_objs (tw_tubes w') ->
  st_objs (tw_infos w) ⊆ st_objs (tw_infos w') -> store_wf (tw_tubes w') -> store_wf (tw_infos w') ->
  mem_wf (ps_mem (tw_pools w')) -> tubes_ok R w'.
Proof.
  intros [H1 H2 H0 H3] Ht Hi W1 W2 W3. split; [|done| |done].
  2:{ intros p i Hp. destruct (H0 p i Hp). split; [by eapply lookup_weaken|done]. }
  intros k t u Hk. destruct (H1 k t u Hk) as (? & ? & ? & Hok). split_and!; [done|done|by eapply lookup_weaken|].
  intros p Ep. destruct (Hok p Ep) as (i & ? & ?). exists i. split; [by eapply lookup_weaken|done].
Qed.

(** A tube of the manager's to be: created, with its peer, and with the packet
    information. *)
Lemma create_tube_runs d mg R s sock from id
    (k : loc -> C world (flow + loc)) (Q' : flow + loc -> world -> Prop) :
  serving d mg R s -> 0 <= sock -> known_family from -> tube_id_wf id ->
  (forall s', no_block (tubes_of (app s)) = true -> serving d mg R s' -> Q' (inl (Error LS_ERR_NO_MEMORY)) s') ->
  (forall t w', let u := Tube TS_UNKNOWN from id None None sock in
     tubes_in s !! t = None -> st_objs (tw_tubes w') = <[t := u]> (tubes_in s) ->
     tw_infos w' = tw_infos (tubes_of (app s)) -> sent (app s) = tw_sent w' ->
     oom_script w' = tail (oom_script (tubes_of (app s))) -> tubes_ok R w' -> serving d mg R (put_tubes_of w' s) -> runs (k t) (put_tubes_of w' s) Q') ->
  runs (r ← on_tubes tube_create;
        match r with
        | Err e => mret (inl (Error e))
        | Ok t => on_tubes (tube_set_info t sock (Some from) (Some id));; k t
        end) s Q'.
Proof.
  intros Hs Hsock Hfrom Hid H0 H1. pose proof (sv_tubes _ _ _ _ _ _ Hs) as Hok.
  destruct (to_wf _ _ _ Hok) as (W1 & W2 & W3). pose proof (store_wf_fresh _ W1) as Hf.
  run_step. apply runs_on_tubes. apply tube_create_runs.
  { intros Hno. run_step. apply H0; [done|]. eapply serving_put_tubes; [done| |done]. by eapply tubes_ok_ext. }
  intros t w1 -> Et En Ei Ep Es Ea. run_step. apply runs_on_tubes.
  set (t := st_next (tw_tubes (tubes_of (app s)))) in *.
  change (tubes_of (app (put_tubes_of w1 s))) with w1.
  eapply tube_set_info_runs; [by rewrite Et, lookup_insert_eq|done..|]. cbn [t_state t_data t_pktinfo].
  set (w2 := with_store _ w1).
  assert (Et2 : st_objs (tw_tubes w2) = <[t := Tube TS_UNKNOWN from id None None sock]> (tubes_in s)).
  { cbn. by rewrite Et, insert_insert_eq. }
  assert (Hok2 : tubes_ok R w2).
  { eapply tubes_ok_more; [exact Hok|rewrite Et2; by apply insert_subseteq|cbn; by rewrite Ei| | |].
    - apply store_wf_set; [rewrite Et, lookup_insert_eq; by eexists|]. by eapply store_wf_new.
    - cbn. by rewrite Ei.
    - cbn. by rewrite Ep. }
  apply (H1 t w2); try done; [|by eapply serving_put_tubes].
  change (oom_script w2) with (oom_script w1). cbn. by rewrite Ep.
Qed.

(** The new tube with its packet information, on its way into the table. *)
Lemma set_local_new_runs d mg R s sock from id info i t w (Q : res Z unit -> world -> Prop) :
  let u := Tube TS_UNKNOWN from id None None sock in
  let u' := Tube TS_UNKNOWN from id None (Some info) sock in
  serving d mg R s -> can_accept R s sock from info i -> tube_id_wf id -> R !! id_u64 id = None ->
  tubes_in s !! t = None -> st_objs (tw_tubes w) = <[t := u]> (tubes_in s) ->
  tw_infos w = tw_infos (tubes_of (app s)) -> tubes_ok R w ->
  (forall s', no_block w = true -> serving d mg R s' -> Q (Err LS_ERR_NO_MEMORY) s') ->
  (forall p w', let u' := Tube TS_UNKNOWN from id None (Some p) sock in
     infos_in s !! p = None -> st_objs (tw_tubes w') = <[t := u']> (tubes_in s) ->
     st_objs (tw_infos w') = <[p := i]> (infos_in s) -> tw_sent w' = tw_sent w ->
     oom_script w' = tail (oom_script w) ->
     addable K R w' t u' -> serving d mg R (put_tubes_of w' s) -> Q (Ok tt) (put_tubes_of w' s)) ->
  runs (on_tubes (tube_set_local t (Some info))) (put_tubes_of w s) Q.
Proof.
  intros u u' Hs Hc Hid Hk Hf Et Ei Hok H0 H1. pose proof (sv_tubes _ _ _ _ _ _ Hs) as Hok0.
  destruct (to_wf _ _ _ Hok) as (W1 & W2 & W3). apply runs_on_tubes.
  change (tubes_of (app (put_tubes_of w s))) with w.
  eapply (tube_set_local_runs t u info i); [done|by rewrite Et, lookup_insert_eq|rewrite Ei; apply Hc| |].
  - intros w' Hno Et' Ep' W Epool _. change (put_tubes_of w' (put_tubes_of w s)) with (put_tubes_of w' s).
    apply H0; [done|]. eapply serving_put_tubes; [exact Hs| |done].
    eapply tubes_ok_more; [exact Hok0| | | |done|by rewrite Epool].
    + rewrite Et'. cbn. rewrite Et, insert_insert_eq. by apply insert_subseteq.
    + by rewrite Ep', Ei.
    + rewrite Et'. apply store_wf_set; [rewrite Et, lookup_insert_eq; by eexists|done].
  - intros w' p Hp Et' Ep' W Epool Es. rewrite Ei in Hp.
    change (put_tubes_of w' (put_tubes_of w s)) with (put_tubes_of w' s).
    assert (Hok' : tubes_ok R w').
    { eapply tubes_ok_more; [exact Hok0| | | |done|by rewrite Epool].
      - rewrite Et'. cbn. rewrite Et, insert_insert_eq. by apply insert_subseteq.
      - rewrite Ep', Ei. by apply insert_subseteq.
      - rewrite Et'. apply store_wf_set; [rewrite Et, lookup_insert_eq; by eexists|done]. }
    apply (H1 p w'); [done|rewrite Et'; cbn; by rewrite Et, insert_insert_eq|by rewrite Ep', Ei|done
      |cbn; by rewrite Epool| |by eapply serving_put_tubes].
    split; cbn.
    + rewrite Et'. cbn. by rewrite lookup_insert_eq.
    + done.
    + intros q [= <-]. exists i. split; [by rewrite Ep', lookup_insert_eq|apply Hc].
    + done.
    + intros k t' v q Hk' [= <-] Eq. destruct (to_tubes _ _ _ Hok0 _ _ _ Hk') as (_ & _ & _ & Hv).
      destruct (Hv _ Eq) as (j & Hj & _). congruence.
    + intros q [= <-]. destruct (bg_infos K !! p) as [j|] eqn:Hj; [|done].
      destruct (to_spare _ _ _ Hok0 _ _ Hj) as [Hj' _]. congruence.
    + apply Hc.
Qed.

Lemma accept_runs d mg R s sock from info i id (Q : flow + loc -> world -> Prop) :
  serving d mg R s -> events_of E mg -> can_accept R s sock from info i -> tube_id_wf id ->
  R !! id_u64 id = None ->
  (forall s', not_accepted d mg R s sock from id s' -> Q (inl (Error LS_ERR_NO_MEMORY)) s') ->
  (forall r t p s', accepted d mg R s sock from id i t p s' -> r = inl Cleanup \/ r = inr t -> Q r s') ->
  runs (accept_tube (scripted prog) (scripted_result no_results) fuel sock from info id) s Q.
Proof.
  intros Hs He Hc Hid Hk H0 H1. unfold accept_tube.
  eapply create_tube_runs; [done|apply Hc|apply Hc|done|intros s' Hno Hs'; apply H0; left; auto|].
  cbv zeta. intros t w Hf Et Ei Esent Eo Hok Hs1. run_step. unfold attempt. run_step.
  eapply set_local_new_runs; [exact Hs|exact Hc|exact Hid|exact Hk|exact Hf|exact Et|exact Ei|exact Hok| |].
  { intros s' Hno Hs'. run_step. run_step. apply H0. left. split; [done|]. right. left.
    unfold no_block in *. by rewrite Eo in Hno. }
  cbv zeta. intros p w2 Hp Et2 Hi Es2 Eo2 Hadd Hs2. cbn beta iota.
  set (u := Tube TS_UNKNOWN from id None (Some p) sock) in *.
  eapply (add_runs K E prog fuel prog_quiet fuel_ok d mg R _ t u); [exact Hs2|done|exact Hadd| |].
  { intros h R' s' _ _ HR Hs'. run_step. apply H0. destruct HR as [[-> Hno]|[-> Hno]]; [left|right].
    - split; [done|]. right. right. by exists t, p, w2.
    - split; [exact Hno|]. by exists t, p. }
  intros h s3 Eh Hq Ho Hs3. run_step. change (tube_key u) with (id_u64 id) in Hs3.
  eapply set_state_runs; [exact Hs3|by rewrite lookup_insert_eq|]. cbv zeta. rewrite insert_insert_eq.
  intros Hs4. run_step. eapply send_runs; [exact Hs4|by rewrite lookup_insert_eq|]. cbv zeta.
  intros w5 Hs5 Et5 Ei5 Hp5. change (hs_client h = w2) in Eh.
  assert (Hacc : tw_sent w5 = sent (app s3) ++ (if no_block (tubes_of (app s3)) then []
      else [packet w5 (new_tube sock from id p) SPUD_ACK false false []]) ->
    accepted d mg R s sock from id i t p (put_tubes_of w5 s3)).
  { intros El. split; [exact Hs5|done| |].
    - change (st_objs (tw_infos w5) !! p = Some i). rewrite Ei5. cbn.
      rewrite (qu_infos _ _ Hq). cbn. by rewrite Eh, Hi, lookup_insert_eq.
    - exists h, (app s3). cbv zeta. rewrite Eh. split_and!; [done|done|by rewrite Es2|by rewrite Eo2, Eo|exact Ho|done|exact El]. }
  split; intros Hno E5; cbn beta iota.
  - change (no_block (tubes_of (app s3)) = true) in Hno. rewrite Hno in Hacc. run_step. eapply H1; [apply Hacc; by rewrite E5, app_nil_r|by left].
  - change (no_block (tubes_of (app s3)) = false) in Hno. rewrite Hno in Hacc.
    assert (Ha : accepted d mg R s sock from id i t p (put_tubes_of w5 s3)).
    { apply Hacc. rewrite E5. unfold packet, control_for. by rewrite Ei5. }
    destruct (next_answer _); run_step; eapply H1; [done|by right|done|by left].
Qed.

Lemma accepting_runs d mg R s err sock buf from info i id cmd c :
  serving d mg R s -> events_of E mg -> can_accept R s sock from info i -> arrives buf id cmd c ->
  reaction_to (responds mg) (R !! id_u64 id) cmd = Accept ->
  runs (handle err sock buf from info) s (fun f s' =>
    match f with
    | Cleanup => exists t p, accepted d mg R s sock from id i t p s'
    | Error e => e = LS_ERR_NO_MEMORY /\ not_accepted d mg R s sock from id s'
    end).
Proof.
  intros Hs He Hc Ha Hr. pose proof Ha as (_ & _ & _ & Hid & _).
  destruct (R !! id_u64 id) as [[t u]|] eqn:Hk; cbn in Hr; [by destruct cmd; repeat case_decide|].
  eapply handle_unknown; [done..| |].
  { intros [Er|Hne]; destruct cmd; try done. by rewrite Er in Hr. }
  intros _ ->. run_step. eapply accept_runs; [done..| |].
  - intros s' Hs'. by run_step.
  - intros r t p s' Hacc [->| ->]; [run_step; by exists t, p|].
    eapply dispatch_runs; [apply Hacc|by rewrite lookup_insert_eq|]. by exists t, p.
Qed.

(** ** Every packet *)

(** What becomes of a packet, by the manager's reaction to it. *)
Definition reacted d mg R s sock from id (i : ls_pktinfo) c (r : reaction) (f : flow) s' : Prop :=
  match r with
  | Ignore => f = Cleanup /\ s' = s
  | Accept =>
      match f with
      | Cleanup => exists t p, accepted d mg R s sock from id i t p s'
      | Error e => e = LS_ERR_NO_MEMORY /\ not_accepted d mg R s sock from id s'
      end
  | Deliver t u => serving d mg R s' /\
      match f with
      | Cleanup => quiet (app s) (app s') /\ occurs (mg_ev_data mg) (EvPacket t c from) (app s) (app s')
      | Error e => e = LS_ERR_NO_MEMORY /\ no_event_memory s /\ app s' = app s
      end
  | Closing t u => closed d mg R s id c from t u f s'
  | Opened t u => serving d mg (<[id_u64 id := (t, put_state TS_RUNNING u)]> R) s' /\
      match f with
      | Cleanup => occurs (mg_running mg) (EvPacket t c from) (with_state t u TS_RUNNING (app s)) (app s')
      | Error e => e = LS_ERR_NO_MEMORY /\ no_event_memory s /\ app s' = with_state t u TS_RUNNING (app s)
      end
  end.

Lemma packet_runs d mg R s err sock buf from info i id cmd c :
  serving d mg R s -> events_of E mg -> can_accept R s sock from info i -> arrives buf id cmd c ->
  runs (handle err sock buf from info) s
    (reacted d mg R s sock from id i c (reaction_to (responds mg) (R !! id_u64 id) cmd)).
Proof.
  intros Hs He Hc Ha. destruct (reaction_to _ _ _) as [| |t u|t u|t u] eqn:Hr; cbn [reacted].
  - by eapply ignored_runs.
  - by eapply accepting_runs.
  - by eapply deliver_runs.
  - by eapply closing_runs.
  - by eapply opened_runs.
Qed.
(** C14: the packets that the manager ignores: one for an unknown tube, unless it is an
    OPEN to a responder; data for a tube that is not running; a CLOSE of a tube that is
    closed; an OPEN of a tube that is known; an ACK that was not waited for.  Nothing
    changes: no tube, no event, no packet in answer. *)
Theorem packet_ignored d mg R s err sock buf from info id cmd c :
  serving d mg R s -> arrives buf id cmd c -> reaction_to (responds mg) (R !! id_u64 id) cmd = Ignore ->
  handle err sock buf from info s = Done (Cleanup, s).
Proof.
  intros Hs Ha Hr. by destruct (runs_inv _ _ _ (ignored_runs d mg R s err sock buf from info _ _ _ Hs Ha Hr))
    as (f & s' & E' & -> & ->).
Qed.

(** C6: the manager's protocol.  A packet for the tube [id] with the command [cmd] is
    handled as [reaction_to] says, from the registered tube of that ID and the manager's
    policy: it is ignored; or a tube is accepted, running, with the sender as its peer, is
    announced by the add event, and an ACK of that tube is then the last thing sent, unless
    there is no memory for that ACK; or the data event is delivered; or the tube is closed,
    with the close event and then, if there is memory for it, the remove event, and is
    destroyed, and no CLOSE is sent back; or it becomes running, with the running event.
    Nothing faults, the other tubes are as before, and the only error is the lack of memory:
    for the event, or, for a tube to be accepted, also for the tube, its packet information
    or its place in the table.  (The callbacks are assumed to keep quiet, the peer's address
    to be of a known family, and the tubes to be fewer than 2^28.) *)
Theorem packet_handled d mg R s err sock buf from info i id cmd c :
  serving d mg R s -> events_of E mg -> can_accept R s sock from info i -> arrives buf id cmd c ->
  runs (handle err sock buf from info) s
    (reacted d mg R s sock from id i c (reaction_to (responds mg) (R !! id_u64 id) cmd)).
Proof. apply packet_runs. Qed.

(** ** The tubes after a packet *)

(** What the reaction to a packet for [id] makes of the tubes. *)
Definition moved R (sock : Z) (from : sockaddr) (id : spud_tube_id) (r : reaction) R' : Prop :=
  match r with
  | Ignore | Deliver _ _ => R' = R
  | Accept => exists t p, R' = <[id_u64 id := (t, new_tube sock from id p)]> R
  | Closing _ _ => R' = delete (id_u64 id) R
  | Opened t u => R' = <[id_u64 id := (t, put_state TS_RUNNING u)]> R
  end.

(** And when there is no memory for it. *)
Definition moved_halfway R (sock : Z) (from : sockaddr) (id : spud_tube_id) (r : reaction) R' : Prop :=
  match r with
  | Ignore => False
  | Deliver _ _ => R' = R
  | Accept => R' = R \/ exists t p, R' = <[id_u64 id := (t, half_tube sock from id p)]> R
  | Closing t u => R' = <[id_u64 id := (t, put_state TS_UNKNOWN u)]> R
  | Opened t u => R' = <[id_u64 id := (t, put_state TS_RUNNING u)]> R
  end.

Definition moved_by (f : flow) : registry -> Z -> sockaddr -> spud_tube_id -> reaction -> registry -> Prop :=
  match f with Cleanup => moved | Error _ => moved_halfway end.

Lemma moved_outside f R sock from id r R' k : moved_by f R sock from id r R' -> k <> id_u64 id -> R' !! k = R !! k.
Proof.
  intros Hm Hk. destruct f, r; cbn in Hm; try destruct Hm as [|Hm]; try destruct Hm as (? & ? & Hm); subst;
    rewrite ?lookup_insert_ne, ?lookup_delete_ne by done; done.
Qed.

Lemma reacted_moved d mg R s sock from id i c r f s' : serving d mg R s ->
  reacted d mg R s sock from id i c r f s' -> exists R', serving d mg R' s' /\
    (f = Cleanup \/ f = Error LS_ERR_NO_MEMORY) /\ moved_by f R sock from id r R'.
Proof.
  intros Hs. destruct r as [| |t u|t u|t u]; cbn [reacted].
  - intros [-> ->]. exists R. cbn. auto.
  - destruct f as [|e].
    + intros (t & p & Ha). eexists. split; [apply Ha|]. split; [by left|]. by exists t, p.
    + intros (-> & [[Hs' _]|(_ & t & p & Hs')]); eexists; (split; [exact Hs'|]); cbn; eauto 6.
  - intros [Hs' Hf]. exists R. destruct f; [cbn; by auto|]. destruct Hf as [-> _]. cbn. auto.
  - unfold closed. destruct f as [|e].
    + intros (Hs' & _). eexists. split; [exact Hs'|]. cbn. auto.
    + intros (-> & _ & Hs' & _). eexists. split; [exact Hs'|]. cbn. auto.
  - intros [Hs' Hf]. eexists. split; [exact Hs'|]. destruct f; [cbn; by auto|]. destruct Hf as [-> _]. cbn. auto.
Qed.

(** What the bytes of a datagram make of the tubes; [f] says whether there was memory. *)
Inductive digested (responder : bool) R (sock : Z) (buf : bytes) (from : sockaddr) : flow -> registry -> Prop :=
  | dg_bad e : spud_parse cn_cbor_decode (Some buf) true = Err e -> digested responder R sock buf from Cleanup R
  | dg_packet id cmd c f R' : arrives buf id cmd c ->
      moved_by f R sock from id (reaction_to responder (R !! id_u64 id) cmd) R' -> digested responder R sock buf from f R'.

Lemma digested_outside responder R sock buf from f R' : digested responder R sock buf from f R' ->
  exists id, forall k, k <> id_u64 id -> R' !! k = R !! k.
Proof.
  intros [e _|id cmd c f' R'' _ Hm]; [by exists (TubeId [])|]. exists id. intros k. by eapply moved_outside.
Qed.

(** The bytes are not a SPUD packet, and there is nowhere to put the error: the log line
    reads it all the same. *)
Definition unreported (err : bool) (buf : bytes) (f : fault) : Prop :=
  f = NullDeref /\ err = false /\ exists e, spud_parse cn_cbor_decode (Some buf) true = Err e.

Lemma digest_runs d mg R s err sock buf from info i :
  serving d mg R s -> events_of E mg -> can_accept R s sock from info i -> Forall is_byte buf ->
  runs_or (handle err sock buf from info) s (unreported err buf) (fun f s' => exists R',
    serving d mg R' s' /\ (f = Cleanup \/ f = Error LS_ERR_NO_MEMORY) /\
    digested (responds mg) R sock buf from f R' /\ forall f, ~ unreported err buf f).
Proof.
  intros Hs He Hc Hb. destruct (spud_parse cn_cbor_decode (Some buf) true) as [m|e] eqn:Hp.
  - destruct (spud_parse_names _ _ _ Hb Hp) as (h & cmd & Em & Hid & Hcp & Hcmd). rewrite Em in Hp.
    assert (Ha : arrives buf (hdr_tube_id h) cmd (msg_cbor m)) by (exists h; done).
    apply runs_or_runs. eapply runs_conseq; [by eapply (packet_runs d mg R s err sock buf from info i)|].
    intros f s' Hr. destruct (reacted_moved _ _ _ _ _ _ _ _ _ _ _ _ Hs Hr) as (R' & Hs' & Hf & Hm).
    exists R'. split_and!; [done|done|by eapply dg_packet|]. intros f' (_ & _ & e & Ee). congruence.
  - unfold handle_packet. rewrite Hp. destruct err; or_step.
    + exists R. split_and!; [done|by left|by eapply dg_bad|]. by intros f' (_ & ? & _).
    + split_and!; [done|done|by exists e].
Qed.


(** And then it faults. *)
Lemma bad_packet_null_error sock buf from info e s :
  spud_parse cn_cbor_decode (Some buf) true = Err e ->
  handle false sock buf from info s = Fault NullDeref.
Proof. intros Hp. unfold handle_packet. by rewrite Hp. Qed.
End packets.
