(* ===== verification/ManagerHandshake.v ===== *)
(** Two managers: the opening of a tube from both ends, over the theorems of
    ManagerPackets.v. *)

From S2P Require Import Prelude LsError LsStr LsMem PoolUse Store LsTimer LsHtable LsHash GHeap GHeapLayout PQueue Spud LsSockaddr LsPktinfo Tube LsEventing EventBindings EventDispatch EventNames EventLife TubeManager ManagerState ManagerTubes ManagerPackets.
Open Scope Z_scope.

Section two_managers.
Context {cbor : Type} `{!CborLib cbor}.
Context {CB TCB TX SCB U : Type} `{!EqDecision CB}.
Abbreviation mworld := (mworld TCB TX SCB U).
Abbreviation world := (world cbor CB TCB TX SCB U).
Abbreviation app s := (ec_app (hs_client s)).
Abbreviation tubes_of x := (hs_client (mw_table x)).
Abbreviation program := (CB -> loc -> event_data cbor -> bool -> event_arg ->
  C mworld (bool * list (loc * event_data cbor))).

(** The body of a packet and what the callbacks get of it. *)
Definition body_of (body : bytes) (v : option cbor) : Prop :=
  match body with [] => v = None | _ :: _ => exists c, v = Some c /\ cn_cbor_decode body = inl c end.

(** A packet that a tube sends is one of the tube with that ID. *)
Lemma packet_arrives w u cmd adec pdec body v : tube_id_wf (t_id u) ->
  body_of body v ->
  arrives (dg_payload (packet w u cmd adec pdec body)) (t_id u) cmd v.
Proof.
  intros Hid Hv. exists (tube_header u cmd adec pdec). cbn [dg_payload packet].
  rewrite spud_parse_built by (try apply tube_header_wf; done). split_and!.
  - destruct body; [by rewrite Hv|]. by destruct Hv as (c & -> & ->).
  - by apply spud_copy_id_same.
  - done.
  - cbn [tube_header hdr_flags]. rewrite flags_command_header. apply command_of_code_of.
Qed.

(** The initiator [1] and the responder [2]: callbacks, events, fuel. *)
Context (K1 K2 : background (cbor := cbor) (CB := CB)) (E1 E2 : gmap loc (list (CB * event_arg))) (prog1 prog2 : program) (fuel1 fuel2 : nat).
Context (quiet1 : quiet_callbacks E1 prog1) (quiet2 : quiet_callbacks E2 prog2).
Context (enough1 : enough_fuel E1 fuel1) (enough2 : enough_fuel E2 fuel2).
Abbreviation handle1 := (handle_packet (scripted prog1) (scripted_result no_results) fuel1).
Abbreviation handle2 := (handle_packet (scripted prog2) (scripted_result no_results) fuel2).

(** The responder handles the datagrams [l] of the initiator's tube, one after the other:
    each is delivered from the tube [t2], with its body, or there is no memory for its event. *)
Inductive delivers (mg : manager) err (sock : Z) (from : sockaddr) (info t2 : loc) :
    world -> list (bytes * option cbor) -> world -> Prop :=
  | dv_end s : delivers mg err sock from info t2 s [] s
  | dv_data s buf v s1 l s' :
      handle2 err sock buf from info s = Done (Cleanup, s1) ->
      occurs E2 prog2 (mg_ev_data mg) (EvPacket t2 v from) (app s) (app s1) ->
      delivers mg err sock from info t2 s1 l s' -> delivers mg err sock from info t2 s ((buf, v) :: l) s'
  | dv_no_memory s buf v s1 l s' :
      handle2 err sock buf from info s = Done (Error LS_ERR_NO_MEMORY, s1) ->
      no_event_memory s -> app s1 = app s ->
      delivers mg err sock from info t2 s1 l s' -> delivers mg err sock from info t2 s ((buf, v) :: l) s'.

Lemma delivers_all d mg R u t2 u2 err sock from info bodies : events_of E2 mg -> tube_id_wf (t_id u) ->
  R !! id_u64 (t_id u) = Some (t2, u2) -> t_state u2 = TS_RUNNING ->
  Forall (fun b : tworld * bytes * option cbor => body_of b.1.2 b.2) bodies -> forall s, serving K2 E2 d mg R s ->
  exists s', serving K2 E2 d mg R s' /\ delivers mg err sock from info t2 s
    ((fun b => (dg_payload (packet b.1.1 u SPUD_DATA false false b.1.2), b.2)) <$> bodies) s'.
Proof.
  intros He Hid Hk Hst Hb. induction Hb as [|[[w body] v] bodies Hv _ IH]; intros s Hs.
  { exists s. split; [done|constructor]. }
  destruct (runs_inv _ _ _ (deliver_runs K2 E2 prog2 fuel2 quiet2 enough2 d mg R s err sock
    (dg_payload (packet w u SPUD_DATA false false body)) from info (t_id u) SPUD_DATA v t2 u2 Hs He
    (packet_arrives w u SPUD_DATA false false body v Hid Hv)
    ltac:(rewrite Hk; cbn; by rewrite decide_True))) as (f & s1 & Ef & Hs1 & Hf).
  destruct (IH s1 Hs1) as (s' & Hs' & Hd). exists s'. split; [done|].
  destruct f as [|e]; [destruct Hf; by eapply dv_data|]. destruct Hf as (-> & ? & ?). by eapply dv_no_memory.
Qed.

(** C7: a tube is opened from both ends.  The OPEN of a tube that the initiator is
    opening, handled by a responder that does not know its ID, makes a running tube there
    with the initiator's address as its peer, and an ACK is the last thing that the
    responder sends then, unless it has no memory for it ([accepted] says so).  That very
    ACK, handled by the initiator, makes its tube run and nothing else.  And any DATA
    packets of the initiator's tube that the responder handles from then on, one after the
    other, empty ones too, are each delivered from the new tube with their bodies, and the
    responder's tubes stay as they are.  At each step the only way to fail is the lack of
    memory.  (The callbacks of both are assumed to keep quiet.) *)
Theorem handshake d1 mg1 R1 s1 k t1 u1 d2 mg2 R2 s2 w sock1 sock2 info1 info2 i from1 from2 err :
  serving K1 E1 d1 mg1 R1 s1 -> events_of E1 mg1 -> R1 !! k = Some (t1, u1) -> t_state u1 = TS_OPENING ->
  serving K2 E2 d2 mg2 R2 s2 -> events_of E2 mg2 -> responds mg2 = true -> R2 !! k = None ->
  can_accept R2 s2 sock2 from1 info2 i ->
  runs (handle2 err sock2 (dg_payload (packet w u1 SPUD_OPEN false false [])) from1 info2) s2 (fun f s2' =>
    match f with
    | Error e => e = LS_ERR_NO_MEMORY /\ not_accepted K2 E2 d2 mg2 R2 s2 sock2 from1 (t_id u1) s2'
    | Cleanup => exists t2 p,
        let u2 := new_tube sock2 from1 (t_id u1) p in
        accepted K2 E2 prog2 d2 mg2 R2 s2 sock2 from1 (t_id u1) i t2 p s2' /\
        runs (handle1 err sock1 (dg_payload (ack_of s2' sock2 from1 (t_id u1) p)) from2 info1) s1 (fun f s1' =>
          serving K1 E1 d1 mg1 (<[k := (t1, put_state TS_RUNNING u1)]> R1) s1' /\
          match f with
          | Cleanup => occurs E1 prog1 (mg_running mg1) (EvPacket t1 None from2)
              (with_state t1 u1 TS_RUNNING (app s1)) (app s1')
          | Error e => e = LS_ERR_NO_MEMORY /\ no_event_memory s1
          end) /\
        (forall bodies, Forall (fun b : tworld * bytes * option cbor => body_of b.1.2 b.2) bodies ->
           exists s2'', serving K2 E2 d2 mg2 (<[k := (t2, u2)]> R2) s2'' /\
             delivers mg2 err sock2 from1 info2 t2 s2'
               ((fun b => (dg_payload (packet b.1.1 u1 SPUD_DATA false false b.1.2), b.2)) <$> bodies) s2'')
    end).
Proof.
  intros Hs1 He1 Hk1 Hst Hs2 He2 Hresp Hk2 Hc.
  destruct (serving_tube _ _ _ _ _ _ _ _ _ Hs1 Hk1) as (-> & Hid & _). unfold tube_key in *.
  eapply runs_conseq.
  { apply (accepting_runs K2 E2 prog2 fuel2 quiet2 enough2 d2 mg2 R2 s2) with (id := t_id u1) (c := None)
      (i := i) (cmd := SPUD_OPEN); [done|done|done|by apply packet_arrives|by rewrite Hk2, Hresp]. }
  intros [|e] s2'; [|done]. intros (t2 & p & Hacc).
  exists t2, p. cbv zeta. pose proof (ac_serving _ _ _ _ _ _ _ _ _ _ _ _ _ _ Hacc) as Hs2'. split_and!; [done| |].
  - eapply runs_conseq.
    { apply (opened_runs K1 E1 prog1 fuel1 quiet1 enough1 d1 mg1 R1 s1) with (id := t_id u1) (c := None)
        (t := t1) (u := u1) (cmd := SPUD_ACK); [done|done|by apply (packet_arrives _ (new_tube _ _ _ _))|].
      rewrite Hk1. cbn. by rewrite decide_True. }
    intros f s1' [Hs1' Hf]. split; [done|]. destruct f; [done|by destruct Hf as (? & ? & _)].
  - intros bodies Hb. eapply (delivers_all d2 mg2 _ u1 t2); [done|done|by rewrite lookup_insert_eq|done|done|done].
Qed.
End two_managers.
