(* ===== verification/ManagerLoop.v ===== *)
(** The receive loop of src/tube_manager.c as modelled in TubeManager.v, from the state of
    ManagerState.v: waiting, receiving, and the whole of [tube_manager_loop] over any input
    from the network. *)

From S2P Require Import Prelude LsError LsStr LsMem PoolUse Store LsTimer LsHtable LsHash GHeap GHeapLayout PQueue Spud LsSockaddr LsPktinfo Tube LsEventing EventBindings EventDispatch EventNames EventLife TubeManager ManagerState ManagerTubes ManagerPackets.
Open Scope Z_scope.

(** The two managers are the same but for the clock and for being told to stop. *)
Definition alike (mg mg' : manager) : Prop :=
  mg' = put_last (mg_last mg') (put_keep_going (mg_keep_going mg') mg).

Lemma alike_refl mg : alike mg mg.
Proof. by destruct mg. Qed.

Lemma alike_trans mg mg' mg'' : alike mg mg' -> alike mg' mg'' -> alike mg mg''.
Proof. unfold alike. intros E1 E2. rewrite E2, E1. by destruct mg. Qed.

Lemma alike_last mg t : alike mg (put_last t mg).
Proof. by destruct mg. Qed.

Lemma alike_keep_going mg k : alike mg (put_keep_going k mg).
Proof. by destruct mg. Qed.

(** A datagram as recvmsg() gives it: bytes, if any, and an address of a known family. *)
Definition received_ok (r : recv_answer) : Prop :=
  match r with
  | RecvErrno _ => True
  | Recv payload from _ => Forall is_byte payload /\ known_family from
  end.

(** What an answer of recvmsg() can do to the loop: an empty datagram fails the assertion
    that there are bytes; bytes that are not a SPUD packet are fatal when there is nowhere
    to put the error ([err] says whether there is). *)
Definition fatal {cbor} `{!CborLib cbor} (err : bool) (r : recv_answer) (f : fault) : Prop :=
  match r with
  | RecvErrno _ => False
  | Recv [] _ _ => f = AssertFail
  | Recv payload _ _ => unreported err (take (Z.to_nat MAXBUFLEN) payload) f
  end.

Definition harmless {cbor} `{!CborLib cbor} (err : bool) (r : recv_answer) : Prop := forall f, ~ fatal err r f.

(** The fault [f] is that of the first fatal answer, after others that were taken. *)
Definition stopped {cbor} `{!CborLib cbor} (err : bool) (rs : list recv_answer) (f : fault) : Prop :=
  exists xs a ys, rs = xs ++ a :: ys /\ Forall (harmless err) xs /\ fatal err a f.

Lemma stopped_later {cbor} `{!CborLib cbor} err xs rs f : Forall (harmless err) xs -> stopped err rs f ->
  stopped err (xs ++ rs) f.
Proof.
  intros Hx (xs' & a & ys & -> & Hx' & Hf). exists (xs ++ xs'), a, ys. split_and!; [by rewrite app_assoc| |done].
  by apply Forall_app.
Qed.

Definition not_empty (r : recv_answer) : Prop := match r with Recv [] _ _ => False | _ => True end.

(** Nothing stops a loop that is given an error structure and no empty datagram. *)
Lemma never_stopped {cbor} `{!CborLib cbor} rs f :
  Forall not_empty rs -> ~ stopped true rs f.
Proof.
  intros Hr (xs & a & ys & -> & _ & Hf). apply Forall_app in Hr as [_ [Ha _]%Forall_cons].
  destruct a as [|[|b l]]; cbn in Hf; [done|done|]. by destruct Hf as (_ & ? & _).
Qed.

Section receive_loop.
Context {cbor : Type} `{!CborLib cbor}.
Context {CB TCB TX SCB U : Type} `{!EqDecision CB}.
Abbreviation mworld := (mworld TCB TX SCB U).
Abbreviation world := (world cbor CB TCB TX SCB U).
Abbreviation app s := (ec_app (hs_client s)).
Abbreviation tubes_of x := (hs_client (mw_table x)).
Implicit Types (s : world) (x : mworld) (w : tworld) (R : registry) (K : background (cbor := cbor) (CB := CB)).
Context (E : gmap loc (list (CB * event_arg))).
Context (prog : CB -> loc -> event_data cbor -> bool -> event_arg ->
  C mworld (bool * list (loc * event_data cbor))).
Context (fuel : nat).
Context (prog_quiet : quiet_callbacks E prog) (fuel_ok : enough_fuel E fuel).

Lemma events_of_alike mg mg' : alike mg mg' -> events_of E mg -> events_of E mg'.
Proof. intros -> []. by split. Qed.

(** ** The parts of the background *)

Definition put_selects l K := Background (bg_ground K) (bg_infos K) (bg_queue K) l (bg_recvs K).
Definition put_recvs l K := Background (bg_ground K) (bg_infos K) (bg_queue K) (bg_selects K) l.
Definition put_infos m K := Background (bg_ground K) m (bg_queue K) (bg_selects K) (bg_recvs K).

Lemma serving_mgr K d mg mg' R s : serving K E d mg R s -> mg_tubes mg' = mg_tubes mg ->
  serving K E d mg' R (put_app (set_mgr (Some mg') (app s)) s).
Proof.
  intros [H1 H2 (t & H3 & H4) H5 H6] Et. split; [by apply rest_put_app|done| |done|by destruct H6].
  exists t. split; [congruence|done].
Qed.

Lemma put_last_runs K d mg R s t (Q : unit -> world -> Prop) : serving K E d mg R s ->
  (forall s', serving K E d (put_last t mg) R s' -> Q tt s') -> runs (upd_mgr (put_last t)) s Q.
Proof.
  intros Hs HQ. apply (runs_upd_mgr mg); [apply Hs|]. by apply HQ, (serving_mgr K d mg).
Qed.

(** Changes of the environment. *)
Lemma serving_env K d mg R s v ss rs : serving K E d mg R s -> en_selects v = ss -> en_recvs v = rs ->
  writes_ok (set_env v (app s)) ->
  serving (Background (bg_ground K) (bg_infos K) (bg_queue K) ss rs) E d mg R (put_app (set_env v (app s)) s).
Proof.
  intros [H1 H2 H3 H4 [H5 H6 _ H7]] <- <- Hw. split; [by apply rest_put_app|done|done| |by split].
  destruct H4. by split.
Qed.

Lemma serving_same_input K d mg R s v : serving K E d mg R s ->
  en_selects v = en_selects (mw_env (app s)) -> en_recvs v = en_recvs (mw_env (app s)) ->
  writes_ok (set_env v (app s)) -> serving K E d mg R (put_app (set_env v (app s)) s).
Proof.
  intros Hs Es Er Hw. pose proof Hs as [_ _ _ _ [_ [Es' Er'] _ _]].
  assert (H : serving (Background (bg_ground K) (bg_infos K) (bg_queue K) (bg_selects K) (bg_recvs K)) E d mg R
    (put_app (set_env v (app s)) s)) by (eapply serving_env; [exact Hs|congruence|congruence|done]).
  by destruct K.
Qed.

(** An answer that is not of the input. *)
Ltac other_answer Hs := apply runs_on_mw; unfold answer; run; apply serving_same_input; [done|done|done|apply Hs].

Lemma sys_runs K d mg R s : serving K E d mg R s ->
  runs (on_mw sys) s (fun _ s' => serving K E d mg R s').
Proof. intros Hs. unfold sys. other_answer Hs. Qed.

Lemma gettimeofday_runs K d mg R s : serving K E d mg R s ->
  runs (on_mw gettimeofday) s (fun _ s' => serving K E d mg R s').
Proof. intros Hs. unfold gettimeofday. other_answer Hs. Qed.

Lemma select_runs K d mg R s tv : serving K E d mg R s ->
  runs (on_mw (select tv)) s (fun r s' => r = hd (SelectErrno 9) (bg_selects K) /\
    serving (put_selects (tail (bg_selects K)) K) E d mg R s').
Proof.
  intros Hs. pose proof Hs as [_ _ _ _ [_ [Es Er] Hw _]].
  apply runs_on_mw. unfold select, answer. run. cbn. rewrite Es. split; [done|].
  by eapply serving_env; [exact Hs|..|exact Hw].
Qed.

Lemma recv_runs K d mg R s : serving K E d mg R s ->
  runs (on_mw next_recv) s (fun r s' => r = hd (RecvErrno 9) (bg_recvs K) /\
    serving (put_recvs (tail (bg_recvs K)) K) E d mg R s').
Proof.
  intros Hs. pose proof Hs as [_ _ _ _ [_ [Es Er] Hw _]].
  apply runs_on_mw. unfold next_recv, answer. run. cbn. rewrite Er. split; [done|].
  by eapply serving_env; [exact Hs|..|exact Hw].
Qed.

(** The loop's packet information, which is of no tube. *)
Lemma set_info_runs K d mg R s info i f : serving K E d mg R s -> bg_infos K = {[info := i]} ->
  runs (on_tubes (update info f)) s (fun _ s' =>
    serving (put_infos {[info := f i]} K) E d mg R s').
Proof.
  intros [H1 H2 (t & H3 & H4) [T1 T2 T3 (T4 & T5 & T6)] H6] EK.
  destruct (T3 info i) as [Hi Hn]; [by rewrite EK, lookup_singleton_eq|].
  apply runs_on_tubes. eapply (runs_update info f i); [exact Hi|].
  split; [by apply rest_put_app|done| | |by destruct H6].
  - exists t. split; [done|]. by eapply table_rep_stores.
  - split; [|done| |].
    + intros k t' u Hk. destruct (T1 k t' u Hk) as (? & ? & ? & Hok). split_and!; [done..|].
      intros p Ep. destruct (Hok p Ep) as (j & Hj & ?). exists j. split; [|done]. cbn.
      rewrite lookup_insert_ne; [done|]. intros ->. by eapply Hn.
    + intros p j Hj. cbn in Hj. apply lookup_singleton_Some in Hj as [<- <-]. split; [|done]. cbn. by rewrite lookup_insert_eq.
    + split_and!; [done| |done]. apply store_wf_set; [by eexists|done].
Qed.

(** ** Waiting *)
Context (call_timer : TCB -> loc -> C world unit).
Context (call_sig : SCB -> Z -> C world unit).

(** A callback of a signal keeps quiet, except that it may tell the manager to stop. *)
Definition quiet_signals : Prop := forall cb b s, is_Some (mw_mgr (app s)) ->
  mem_wf (ps_mem (tw_pools (tubes_of (app s)))) ->
  runs (call_sig cb b) s (fun _ s' => s' = put_app (app s') s /\
    quiet (app s) (set_mgr (mw_mgr (app s)) (app s')) /\
    exists k, mw_mgr (app s') = put_keep_going k <$> mw_mgr (app s)).

Context (sig_quiet : quiet_signals).

Lemma contexts_runs K d cs b : forall mg R s, serving K E d mg R s ->
  runs (run_contexts call_sig cs b) s (fun _ s' => exists mg', serving K E d mg' R s' /\ alike mg mg').
Proof.
  induction cs as [|c cs IH]; intros mg R s Hs; cbn [run_contexts].
  { run_step. exists mg. split; [done|apply alike_refl]. }
  run_step. case_decide.
  2:{ run_step. by apply IH. }
  eapply runs_conseq; [apply sig_quiet; [by eexists; apply Hs|by eapply serving_mem_wf]|].
  intros _ s1 (Es & Hq & k & Em).
  assert (Hs1 : serving K E d (put_keep_going k mg) R s1).
  { set (s2 := put_app (set_mgr (mw_mgr (app s)) (app s1)) s).
    assert (Hs2 : serving K E d mg R s2).
    { eapply serving_quiet; [exact Hs|apply rest_put_app, Hs|exact Hq]. }
    pose proof (serving_mgr _ _ _ (put_keep_going k mg) _ _ Hs2 eq_refl) as Hs3. subst s2.
    rewrite (sv_mgr _ _ _ _ _ _ Hs) in Em. cbn in Em. rewrite Es.
    replace (app s1) with (set_mgr (Some (put_keep_going k mg)) (app s1)) by
      (rewrite <- Em; by destruct (app s1)). exact Hs3. }
  eapply runs_conseq; [by apply IH|]. intros _ s' (mg' & Hs' & Ha). exists mg'. split; [done|].
  eapply alike_trans; [apply alike_keep_going|done].
Qed.

Definition no_timers K : Prop := exists q, bg_queue K = Some q /\ pq_size q = 0.

Lemma pending_runs K d mg R s n : serving K E d mg R s -> no_timers K -> (0 < n)%nat ->
  runs (pending_timers call_timer n) s (fun r s' => serving K E d mg R s' /\
    match r with
    | PendingStop => mg_keep_going mg = false
    | PendingUntil _ => False
    | _ => True
    end).
Proof.
  intros Hs (q & Eq & Hq) Hn. destruct n as [|n]; [lia|]. cbn [pending_timers]. run_step.
  apply (runs_get_mgr mg); [apply Hs|]. destruct (mg_keep_going mg); cbn [negb]; [|by run_step].
  run_step. eapply runs_conseq; [by apply (sys_runs K d mg R)|]. intros [[]|e] s1 Hs1; [|by run_step].
  run_step. apply runs_on_mw. unfold next_timer, gpriority_queue_top. run_step. run_step.
  eapply runs_load_queue; [rewrite <- Eq; by apply (st_queue _ _ (sv_steady _ _ _ _ _ _ Hs1))|].
  rewrite decide_True by done. run_step. run_step. rewrite put_app_same.
  run_step. eapply runs_conseq; [by apply (sys_runs K d mg R)|]. intros [[]|e] s2 Hs2; by run_step.
Qed.

(** What waiting comes to: an error, the manager was stopped, or a socket that can be read;
    the input that was waited for is used up. *)
Definition awaited K d mg R (r : waited) s : Prop := exists mg' l,
  serving (put_selects l K) E d mg' R s /\ alike mg mg' /\ (length l <= length (bg_selects K))%nat /\
  match r with
  | WaitError _ => True
  | WaitStop => mg_keep_going mg' = false
  | WaitSocket sock => 0 <= sock /\ (length l < length (bg_selects K))%nat
  end.

Lemma awaited_more K d mg mg' R a l r s : bg_selects K = a :: l -> alike mg mg' ->
  awaited (put_selects l K) d mg' R r s -> awaited K d mg R r s.
Proof.
  intros El Ha (mg2 & l2 & H1 & H2 & H3 & H4). exists mg2, l2. rewrite El. cbn in *.
  split_and!; [done|by eapply alike_trans|lia|]. destruct r; [done|done|]. destruct H4. split; [done|lia].
Qed.

Lemma awaited_now K d mg mg' R r s : serving K E d mg' R s -> alike mg mg' ->
  match r with WaitError _ => True | WaitStop => mg_keep_going mg' = false | WaitSocket _ => False end ->
  awaited K d mg R r s.
Proof.
  intros Hs Ha Hr. exists mg', (bg_selects K). split_and!; [by destruct K|done|done|by destruct r].
Qed.

Lemma wait_runs n : forall K d mg R s, serving K E d mg R s -> no_timers K ->
  (length (bg_selects K) < n)%nat -> (0 < fuel)%nat ->
  runs (wait_loop call_timer call_sig fuel n) s (awaited K d mg R).
Proof.
  induction n as [|n IH]; intros K d mg R s Hs Ht Hn Hf; [lia|]. cbn [wait_loop]. run_step.
  apply (runs_get_mgr mg); [apply Hs|].
  destruct (mg_keep_going mg) eqn:Hk; cbn [negb]; [|run_step; by eapply awaited_now, Hk; [|apply alike_refl]].
  run_step. eapply runs_conseq; [by eapply pending_runs|].
  intros [e| |tv|] s1 [Hs1 Hp]; [run_step; by eapply awaited_now; [|apply alike_refl|]| |done|congruence].
  unfold wait_timeout. run_step. run_step. run_step.
  eapply runs_conseq; [by apply (select_runs K d mg R)|]. intros r s2 [-> Hs2].
  destruct (bg_selects K) as [|a l] eqn:El; cbn [hd tail] in *.
  { rewrite decide_False by done. run_step. exists mg, []. split_and!; [done|apply alike_refl|cbn; lia|done]. }
  assert (Hnext : forall mg' s', serving (put_selects l K) E d mg' R s' -> alike mg mg' ->
    runs (wait_loop call_timer call_sig fuel n) s' (awaited K d mg R)).
  { intros mg' s' Hs' Ha. cbn in Hn. eapply runs_conseq; [apply (IH _ d mg' R s' Hs'); [done|cbn; lia|done]|].
    intros r s3 Hr. by eapply awaited_more. }
  assert (Hnow : forall mg' e s', serving (put_selects l K) E d mg' R s' -> alike mg mg' ->
    awaited K d mg R (WaitError e) s').
  { intros mg' e s' Hs' Ha. eapply awaited_more; [exact El|exact Ha|].
    by eapply awaited_now; [|apply alike_refl|]. }
  destruct a as [e| |pipe sock6 sock4].
  - case_decide; [by eapply Hnext; [|apply alike_refl]|]. run_step. by eapply Hnow; [|apply alike_refl].
  - run_step. eapply runs_conseq; [by apply (gettimeofday_runs (put_selects l K) d mg R)|]. intros [now|e] s3 Hs3.
    + run_step. eapply put_last_runs; [done|]. intros s4 Hs4. eapply Hnext; [done|apply alike_last].
    + run_step. by eapply Hnow; [|apply alike_refl].
  - run_step. eapply (runs_conseq _ _ (fun _ s' => exists mg', serving (put_selects l K) E d mg' R s' /\ alike mg mg')).
    { destruct pipe as [b|].
      - run_step. apply runs_on_mw. run_step. rewrite put_app_same. by apply contexts_runs.
      - run_step. exists mg. split; [done|apply alike_refl]. }
    intros _ s3 (mg3 & Hs3 & Ha3). run_step. apply (runs_get_mgr mg3); [apply Hs3|].
    assert (Hsock : forall sock, sock >= 0 -> awaited K d mg R (WaitSocket sock) s3).
    { intros sock Hsock. exists mg3, l. rewrite El. split_and!; [done|done|cbn; lia|lia|cbn; lia]. }
    case_bool_decide; cbn [andb]; [destruct sock6; [by run_step; apply Hsock|]|];
      (case_bool_decide; cbn [andb]; [destruct sock4; [by run_step; apply Hsock|]|]); by eapply Hnext.
Qed.

(** ** One datagram *)
Lemma wf_set4 j : pktinfo_wf (PktInfo (I4 j) HAS_INFO_4).
Proof. split; cbn; [eauto|discriminate]. Qed.

Lemma wf_set6 j : pktinfo_wf (PktInfo (I6 j) HAS_INFO_6).
Proof. split; cbn; [discriminate|eauto]. Qed.

Lemma control_runs info cs : forall K d mg R s i got, serving K E d mg R s -> bg_infos K = {[info := i]} ->
  pktinfo_wf i ->
  runs (read_control info got cs) s (fun _ s' => exists mg' i',
    serving (put_infos {[info := i']} K) E d mg' R s' /\ alike mg mg' /\ pktinfo_wf i').
Proof.
  induction cs as [|c cs IH]; intros K d mg R s i got Hs EK Hi; cbn [read_control].
  { run_step. exists mg, i. rewrite <- EK. split_and!; [by destruct K|apply alike_refl|done]. }
  destruct c as [j|j|t]; run_step.
  - eapply runs_conseq; [apply (set_info_runs K d mg R s info i (fun _ => PktInfo (I6 j) HAS_INFO_6) Hs EK)|].
    intros [] s1 Hs1. eapply runs_conseq; [eapply IH; [exact Hs1|reflexivity|apply wf_set6]|]. intros g s2 Hs2. exact Hs2.
  - eapply runs_conseq; [apply (set_info_runs K d mg R s info i (fun _ => PktInfo (I4 j) HAS_INFO_4) Hs EK)|].
    intros [] s1 Hs1. eapply runs_conseq; [eapply IH; [exact Hs1|reflexivity|apply wf_set4]|]. intros g s2 Hs2. exact Hs2.
  - eapply put_last_runs; [done|]. intros s1 Hs1. eapply runs_conseq; [by eapply IH|].
    intros _ s2 (mg' & i' & ? & Ha & ?). exists mg', i'. split_and!; [done| |done].
    eapply alike_trans; [apply alike_last|exact Ha].
Qed.

(** The manager between two iterations of the loop. *)
Definition looping K d mg R info s : Prop := exists i,
  serving (put_infos {[info := i]} K) E d mg R s /\ pktinfo_wf i.

(** What one answer of recvmsg() makes of the tubes, and what comes after. *)
Inductive takes responder R : recv_answer -> option flow -> registry -> Prop :=
  | tk_errno e : takes responder R (RecvErrno e) (if decide (e = EINTR) then None else Some (Error (- e))) R
  | tk_packet payload from cs sock f R' : payload <> [] ->
      digested responder R sock (take (Z.to_nat MAXBUFLEN) payload) from f R' ->
      takes responder R (Recv payload from cs) (Some f) R'
  | tk_no_time payload from cs e : payload <> [] ->
      takes responder R (Recv payload from cs) (Some (Error e)) R.

(** What answers in a row make of them; an error is the last, and the loop's. *)
Inductive takes_all responder : registry -> list recv_answer -> res Z unit -> registry -> Prop :=
  | ta_end R r : takes_all responder R [] r R
  | ta_next R a R1 xs r R2 f : takes responder R a f R1 -> match f with Some (Error _) => False | _ => True end ->
      takes_all responder R1 xs r R2 -> takes_all responder R (a :: xs) r R2
  | ta_error R a R1 e : takes responder R a (Some (Error e)) R1 -> takes_all responder R [a] (Err e) R1.

Lemma takes_size responder R a f R' : takes responder R a f R' -> (size R' <= S (size R))%nat.
Proof.
  intros [e|payload from cs sock f0 R1 _ Hd|payload from cs e _]; [lia| |lia].
  destruct (digested_outside _ _ _ _ _ _ _ Hd) as [id Hid]. by eapply size_outside.
Qed.

Lemma takes_all_size responder R xs r R' : takes_all responder R xs r R' -> (size R' <= size R + length xs)%nat.
Proof. induction 1 as [R r|R a R1 xs r R2 f Hr _ _ IH|R a R1 e Hr]; cbn; [lia| |]; apply takes_size in Hr; lia. Qed.

Lemma responds_alike mg mg' : alike mg mg' -> responds mg' = responds mg.
Proof. by intros ->. Qed.

Lemma receive_runs K d mg R s err sock info : looping K d mg R info s -> events_of E mg -> 0 <= sock ->
  Forall received_ok (bg_recvs K) -> Z.of_nat (size R + length (bg_recvs K)) < 2 ^ 28 ->
  runs_or (receive_packet (scripted prog) (scripted_result no_results) fuel err sock info) s
    (fun f => exists a l, bg_recvs K = a :: l /\ fatal err a f) (fun r s' =>
    exists mg' R' l, looping (put_recvs l K) d mg' R' info s' /\ alike mg mg' /\ Forall received_ok l /\
      match bg_recvs K with
      | [] => l = [] /\ R' = R /\ exists e, r = Some (Error e)
      | a :: l' => l = l' /\ takes (responds mg) R a r R' /\
          (match r with Some (Error _) => True | _ => harmless err a end)
      end).
Proof.
  intros (i & Hs & Hi) He Hsock Hin Hroom. unfold receive_packet. or_step.
  eapply runs_conseq; [by apply (recv_runs (put_infos {[info := i]} K) d mg R)|]. intros r s1 [-> Hs1]. cbn [put_infos bg_recvs] in *.
  destruct (bg_recvs K) as [|[e|payload from cs] l] eqn:El; cbn [hd tail] in *.
  { or_step. exists mg, R, []. split_and!; [by exists i|apply alike_refl|done|done|done|by eexists]. }
  { apply Forall_cons in Hin as [_ Hin]. or_step. exists mg, R, l.
    split_and!; [by exists i|apply alike_refl|done|done|apply tk_errno|]. case_decide; [by intros f []|done]. }
  apply Forall_cons in Hin as [(Hb & Hfrom) Hin].
  destruct (decide (payload = [])) as [->|Hne].
  { apply runs_or_bind. rewrite take_nil. apply runs_or_fault. by exists (Recv [] from cs), l. }
  rewrite bool_decide_eq_true_2 by (by destruct payload). apply runs_or_bind, runs_or_ret.
  or_step. eapply runs_conseq; [by eapply control_runs|]. intros got s2 (mg2 & i2 & Hs2 & Ha2 & Hi2).
  change (put_infos {[info := i2]} _) with (put_infos {[info := i2]} (put_recvs l K)) in Hs2.
  or_step. eapply (runs_conseq _ _ (fun _ s' => exists mg3,
    serving (put_infos {[info := i2]} (put_recvs l K)) E d mg3 R s' /\ alike mg mg3)).
  { destruct got; [run_step; by exists mg2|]. unfold attempt. run_step.
    eapply runs_conseq; [by apply (gettimeofday_runs (put_infos {[info := i2]} (put_recvs l K)) d mg2 R)|]. intros [now|e] s3 Hs3.
    - run_step. eapply put_last_runs; [done|]. intros s4 Hs4. run_step. eexists. split; [done|].
      eapply alike_trans; [done|apply alike_last].
    - run_step. by exists mg2. }
  intros now s3 (mg3 & Hs3 & Ha3). destruct now as [[]|e].
  2:{ or_step. exists mg3, R, l. split_and!; [by exists i2|done|done|done|by apply tk_no_time|done]. }
  apply runs_or_bind. destruct (to_spare _ _ _ (sv_tubes _ _ _ _ _ _ Hs3) info i2) as [Hinfo _].
  { cbn. by rewrite lookup_singleton_eq. }
  eapply runs_or_conseq.
  { eapply (digest_runs _ E prog fuel prog_quiet fuel_ok d mg3 R s3 err sock); [exact Hs3|by eapply events_of_alike| |by apply Forall_take].
    split; [done|done|done|done|]. cbn in Hroom. lia. }
  { intros f Hf. exists (Recv payload from cs), l. split; [done|]. by destruct payload. }
  intros f s4 (R' & Hs4 & Hf & Hd & Hno). or_step. exists mg3, R', l.
  split_and!; [by exists i2|done|done|done|rewrite (responds_alike mg mg3 Ha3) in Hd; by eapply tk_packet|].
  destruct f; [|done]. intros f' Hf'. apply (Hno f'). by destruct payload.
Qed.

(** ** The loop *)

(** The tubes [R'] are what the answers of recvmsg() that were taken make of [R]; the input
    that is left, [ss] and [rs], is as good as what there was, and no longer. *)
Definition remains K mg R (r : res Z unit) R' (ss : list select_answer) (rs : list recv_answer) : Prop :=
  Forall received_ok rs /\ (length ss <= length (bg_selects K))%nat /\
  exists xs, bg_recvs K = xs ++ rs /\ takes_all (responds mg) R xs r R'.

Lemma remains_size K mg R r R' ss rs : remains K mg R r R' ss rs -> (size R' + length rs <= size R + length (bg_recvs K))%nat.
Proof. intros (_ & _ & xs & -> & Ht). apply takes_all_size in Ht. rewrite length_app. lia. Qed.

Lemma remains_all K mg R r ss : Forall received_ok (bg_recvs K) -> (length ss <= length (bg_selects K))%nat ->
  remains K mg R r R ss (bg_recvs K).
Proof. intros Hin Hss. split_and!; [done|done|]. exists []. split; [done|constructor]. Qed.

Definition looped K d mg R (r : res Z unit) info s : Prop := exists mg' R' ss rs,
  looping (put_selects ss (put_recvs rs K)) d mg' R' info s /\ alike mg mg' /\
  remains K mg R r R' ss rs /\ (r = Ok tt -> mg_keep_going mg' = false).

(** The rest of the loop, after some of the input. *)
Lemma looped_more K K' d mg mg1 R R1 r info s xs : bg_ground K' = bg_ground K -> bg_infos K' = bg_infos K ->
  bg_queue K' = bg_queue K -> bg_recvs K = xs ++ bg_recvs K' -> (length (bg_selects K') <= length (bg_selects K))%nat ->
  alike mg mg1 -> (forall ys R2, takes_all (responds mg) R1 ys r R2 -> takes_all (responds mg) R (xs ++ ys) r R2) ->
  looped K' d mg1 R1 r info s -> looped K d mg R r info s.
Proof.
  intros E1 E2 E3 E4 Hss Ha Hx (mg2 & R2 & ss & rs & Hl & Ha2 & (M1 & M2 & ys & M3 & M4) & Hr).
  exists mg2, R2, ss, rs. split_and!; [|by eapply alike_trans|split_and!; [done|lia|]|done].
  - destruct K, K'. cbn in *. by subst.
  - exists (xs ++ ys). rewrite E4, M3, app_assoc. split; [done|]. apply Hx. by rewrite <- (responds_alike mg mg1 Ha).
Qed.

Abbreviation iterations := (loop_iterations (scripted prog) (scripted_result no_results) call_timer call_sig fuel).

Lemma iterations_runs n err : forall K d mg R s info, looping K d mg R info s -> events_of E mg ->
  no_timers K -> Forall received_ok (bg_recvs K) -> Z.of_nat (size R + length (bg_recvs K)) < 2 ^ 28 ->
  (length (bg_selects K) < fuel)%nat ->
  (length (bg_selects K) + (if mg_keep_going mg then 1 else 0) < n)%nat ->
  runs_or (iterations n err info) s (stopped err (bg_recvs K)) (fun r s' => looped K d mg R r info s').
Proof.
  induction n as [|n IH]; intros K d mg R s info Hl He Ht Hin Hroom Hf Hn; [lia|]. cbn [loop_iterations].
  pose proof Hl as (i & Hs & Hi). or_step. apply (runs_get_mgr mg); [apply Hs|].
  assert (Hend : forall r mg' ss s', looping (put_selects ss K) d mg' R info s' -> alike mg mg' ->
    (length ss <= length (bg_selects K))%nat ->
    (r = Ok tt -> mg_keep_going mg' = false) -> looped K d mg R r info s').
  { intros r mg' ss s' Hl' Ha Hss Hr. exists mg', R, ss, (bg_recvs K). split_and!; [done|done|by apply remains_all|done]. }
  destruct (mg_keep_going mg) eqn:Hk; cbn [negb].
  2:{ or_step. eapply (Hend _ mg (bg_selects K)); [by destruct K|apply alike_refl|done|done]. }
  or_step. eapply runs_conseq; [by apply (set_info_runs _ d mg R s info i (fun j => PktInfo (pi_info j) 0) Hs)|]. intros [] s1 Hs1. or_step.
  unfold tube_manager_wait.
  eapply runs_conseq; [eapply (wait_runs fuel); [exact Hs1|done|done|lia]|].
  intros r s2 (mg2 & ss & Hs2 & Ha2 & Hss & Hr). cbn in Hss, Hr.
  assert (Hl2 : looping (put_selects ss K) d mg2 R info s2).
  { eexists. split; [exact Hs2|]. by split. }
  destruct r as [e| |sock].
  - or_step. by eapply Hend.
  - eapply runs_or_conseq; [apply (IH (put_selects ss K) d mg2 R); try done; [by eapply events_of_alike|cbn; lia|]|done|].
    + rewrite Hr. cbn. lia.
    + intros r s3 Hl3. by eapply (looped_more K (put_selects ss K) d mg mg2 R R r info s3 []).
  - destruct Hr as [Hsock Hss']. apply runs_or_bind.
    eapply runs_or_conseq; [eapply receive_runs; [exact Hl2|by eapply events_of_alike|done|done|done]| |].
    { cbn. intros f' (a & l & -> & Hf'). by exists [], a, l. }
    intros f s3 (mg3 & R3 & l & Hl3 & Ha3 & Hin3 & Htk). cbn [put_selects bg_recvs] in Htk.
    assert (Ha : alike mg mg3) by (by eapply alike_trans). rewrite (responds_alike mg mg2 Ha2) in Htk.
    destruct (bg_recvs K) as [|a l'] eqn:El.
    + destruct Htk as (-> & -> & e & ->). or_step. exists mg3, R, ss, []. split_and!; [exact Hl3|done| |done].
      split_and!; [done|lia|]. exists []. split; [by rewrite El|constructor].
    + destruct Htk as (-> & Htk & Hok).
      assert (Hnext : match f with Some (Error _) => False | _ => True end ->
        harmless err a ->
        runs_or (iterations n err info) s3 (stopped err (a :: l')) (fun r s' => looped K d mg R r info s')).
      { intros Hf' Hh. pose proof (takes_size _ _ _ _ _ Htk) as Hsz. cbn in Hroom.
        eapply runs_or_conseq; [apply (IH (put_recvs l' (put_selects ss K)) d mg3 R3); cbn; try done| |].
        - by eapply events_of_alike.
        - lia.
        - lia.
        - destruct (mg_keep_going mg3); lia.
        - intros f'. by apply (stopped_later _ [a]), Forall_singleton.
        - intros r s4 Hl4. eapply (looped_more K (put_recvs l' (put_selects ss K)) d mg mg3 R R3 r info s4 [a]); cbn; try done.
          intros ys R2 Hy. by eapply ta_next. }
      destruct f as [[|e]|]; [by apply Hnext| |by apply Hnext]. or_step. exists mg3, R3, ss, l'.
      split_and!; [exact Hl3|done| |done]. split_and!; [done|lia|]. exists [a]. split; [done|by apply ta_error].
Qed.

(** ** The loop with its packet information *)
Lemma create_info_runs K d mg R s (Q : res Z loc -> world -> Prop) : serving K E d mg R s -> bg_infos K = ∅ ->
  (forall s', serving K E d mg R s' -> Q (Err LS_ERR_NO_MEMORY) s') ->
  (forall info s', serving (put_infos {[info := PktInfo Zeros 0]} K) E d mg R s' -> Q (Ok info) s') ->
  runs (on_tubes ls_pktinfo_create) s Q.
Proof.
  intros Hs EK H0 H1. pose proof Hs as [I1 I2 (t & I3 & I4) [T1 T2 T3 (T4 & T5 & T6)] I6].
  pose proof (store_wf_fresh _ T5) as Hf. apply runs_on_tubes. unfold ls_pktinfo_create. run_step.
  apply runs_new; unfold pop_oom; run_step.
  - apply H0. split; [by apply rest_put_app|done| | |by destruct I6].
    + exists t. split; [done|]. by eapply table_rep_stores.
    + by split.
  - apply H1. split; [by apply rest_put_app|done| | |by destruct I6].
    + exists t. split; [done|]. by eapply table_rep_stores.
    + assert (Hne : forall k t' u p, R !! k = Some (t', u) -> t_pktinfo u = Some p ->
        p <> st_next (tw_infos (tubes_of (app s)))).
      { intros k t' u p Hk Ep ->. destruct (T1 k t' u Hk) as (_ & _ & _ & Hok).
        destruct (Hok _ Ep) as (j & Hj & _). congruence. }
      split; [|done| |].
      * intros k t' u Hk. destruct (T1 k t' u Hk) as (? & ? & ? & Hok). split_and!; [done..|].
        intros p Ep. destruct (Hok p Ep) as (j & Hj & ?). exists j. split; [|done]. cbn.
        rewrite lookup_insert_ne; [done|]. intros Epn. by eapply Hne.
      * intros p j Hj. cbn in Hj. apply lookup_singleton_Some in Hj as [<- <-].
        split; [cbn; by rewrite lookup_insert_eq|]. intros k t' u Hk Ep. by eapply Hne.
      * split_and!; [done| |done]. by eapply store_wf_add.
Qed.

Lemma destroy_info_runs K d mg R s info i : serving K E d mg R s -> bg_infos K = {[info := i]} ->
  runs (on_tubes (ls_pktinfo_destroy info)) s (fun _ s' => serving (put_infos ∅ K) E d mg R s').
Proof.
  intros [H1 H2 (t & H3 & H4) [T1 T2 T3 (T4 & T5 & T6)] H6] EK.
  destruct (T3 info i) as [Hi Hn]; [by rewrite EK, lookup_singleton_eq|].
  apply runs_on_tubes. apply runs_release; [by eexists|].
  split; [by apply rest_put_app|done| | |by destruct H6].
  - exists t. split; [done|]. by eapply table_rep_stores.
  - split; [|done|done|].
    + intros k t' u Hk. destruct (T1 k t' u Hk) as (? & ? & ? & Hok). split_and!; [done..|].
      intros p Ep. destruct (Hok p Ep) as (j & Hj & ?). exists j. split; [|done]. cbn.
      rewrite lookup_delete_ne; [done|]. intros ->. by eapply Hn.
    + split_and!; [done| |done]. by apply store_wf_del.
Qed.

Lemma loop_runs K d mg R s err : serving K E d mg R s -> bg_infos K = ∅ -> events_of E mg ->
  no_timers K -> Forall received_ok (bg_recvs K) ->
  Z.of_nat (size R + length (bg_recvs K)) < 2 ^ 28 -> (S (length (bg_selects K)) < fuel)%nat ->
  runs_or (tube_manager_loop (scripted prog) (scripted_result no_results) call_timer call_sig fuel err) s
    (stopped err (bg_recvs K)) (fun r s' => exists mg' R' ss rs, serving (put_selects ss (put_recvs rs K)) E d mg' R' s' /\
       alike mg mg' /\ remains K mg R r R' ss rs /\ (r = Ok tt -> mg_keep_going mg' = false)).
Proof.
  intros Hs EK He Ht Hin Hroom Hf. unfold tube_manager_loop. or_step.
  apply (runs_get_mgr mg); [apply Hs|]. unfold attempt. or_step.
  assert (Hall : forall r, remains K mg R r R (bg_selects K) (bg_recvs K)) by (intros r; by apply remains_all).
  assert (Hend : forall (r : Z) s', serving K E d mg R s' -> exists mg' R' ss rs,
    serving (put_selects ss (put_recvs rs K)) E d mg' R' s' /\
    alike mg mg' /\ remains K mg R (Err r) R' ss rs /\ ((Err r : res Z unit) = Ok tt -> mg_keep_going mg' = false)).
  { intros r s' Hs'. exists mg, R, (bg_selects K), (bg_recvs K).
    split; [by destruct K|]. split; [apply alike_refl|done]. }
  eapply create_info_runs; [done|done|intros s1 Hs1; or_step; by apply Hend|].
  intros info s1 Hs1. cbn beta iota. apply runs_or_bind.
  eapply (runs_or_conseq _ _ _ _ (fun r s' => looped K d mg R r info s')).
  - unfold attempt. or_step. eapply serving_event; [done|done|exact Hs1|apply He|done| |].
    + intros s2 Hs2 _ _. or_step. exists mg, R, (bg_selects K), (bg_recvs K).
      split; [|split; [apply alike_refl|done]]. exists (PktInfo Zeros 0). split; [by destruct K|done].
    + intros s2 Hs2 _ _. cbn beta iota. apply (iterations_runs fuel err K d mg R); try done.
      * by exists (PktInfo Zeros 0).
      * lia.
      * destruct (mg_keep_going mg); lia.
  - done.
  - intros r s2 (mg2 & R2 & ss & rs & (i & Hs2 & Hi) & Ha & Hm & Hr). or_step.
    eapply runs_conseq; [by eapply destroy_info_runs|]. intros [] s3 Hs3. or_step.
    exists mg2, R2, ss, rs. split; [|done]. rewrite <- EK in Hs3. by destruct K.
Qed.

(** C1: the receive loop, whatever the network does.  A manager with no timers, whose
    callbacks and signal handlers keep quiet, runs its loop over any sequence of answers of
    select() and recvmsg(), with any bytes in the datagrams, any control messages and any
    bytes in the pipe, from addresses of a known family, with fewer than 2^28 tubes and
    datagrams to come.  Only the first fatal answer of recvmsg() can stop it with a fault: an
    empty datagram fails an assertion, and, when the caller gave no error
    structure, bytes that are not a SPUD packet read the NULL pointer.  Else it terminates
    once the input does; afterwards its invariant holds again and the loop's packet
    information is freed.  The tubes are then what the datagrams that were taken make of
    them, in their order, each by the protocol of [packet_handled]: so at most one more for
    each.  The loop returns success only when the manager has been told to stop. *)
Theorem loop_safe K d mg R s err : serving K E d mg R s -> bg_infos K = ∅ -> events_of E mg ->
  no_timers K -> Forall received_ok (bg_recvs K) ->
  Z.of_nat (size R + length (bg_recvs K)) < 2 ^ 28 -> (S (length (bg_selects K)) < fuel)%nat ->
  runs_or (tube_manager_loop (scripted prog) (scripted_result no_results) call_timer call_sig fuel err) s
    (stopped err (bg_recvs K)) (fun r s' => exists mg' R' ss rs,
       serving (put_selects ss (put_recvs rs K)) E d mg' R' s' /\
       alike mg mg' /\ remains K mg R r R' ss rs /\ (r = Ok tt -> mg_keep_going mg' = false)).
Proof. apply loop_runs. Qed.

(** With an error structure and no empty datagram nothing stops it. *)
Lemma loop_completes K d mg R s : serving K E d mg R s -> bg_infos K = ∅ -> events_of E mg ->
  no_timers K -> Forall received_ok (bg_recvs K) ->
  Forall not_empty (bg_recvs K) ->
  Z.of_nat (size R + length (bg_recvs K)) < 2 ^ 28 -> (S (length (bg_selects K)) < fuel)%nat ->
  runs (tube_manager_loop (scripted prog) (scripted_result no_results) call_timer call_sig fuel true) s
    (fun r s' => exists mg' R' ss rs, serving (put_selects ss (put_recvs rs K)) E d mg' R' s' /\
       alike mg mg' /\ remains K mg R r R' ss rs /\ (r = Ok tt -> mg_keep_going mg' = false)).
Proof.
  intros Hs EK He Ht Hin Hne Hroom Hf. eapply runs_or_none; [by apply loop_runs|].
  intros f. by apply never_stopped.
Qed.
End receive_loop.
