(* ===== verification/ManagerSockets.v ===== *)
(** The sockets and the policy of the manager: [tube_manager_socket] of
    src/tube_manager.c as modelled in TubeManager.v. *)

From S2P Require Import Prelude LsError LsStr LsMem PoolUse Store LsTimer LsHtable LsHash GHeap GHeapLayout PQueue Spud LsSockaddr LsPktinfo Tube LsEventing EventBindings EventDispatch EventNames EventLife TubeManager ManagerState ManagerPackets.
Open Scope Z_scope.

(** Bit 1 of the policy, set or cleared. *)
Lemma land_2 p : Z.land p 2 = if Z.testbit p 1 then 2 else 0.
Proof.
  apply Z.bits_inj'. intros i Hi. rewrite Z.land_spec. change 2 with (2 ^ 1) at 1.
  rewrite Z.pow2_bits_eqb by lia. destruct (Z.eqb_spec 1 i) as [<-|Hne].
  - rewrite andb_true_r. destruct (Z.testbit p 1); done.
  - rewrite andb_false_r. destruct (Z.testbit p 1); [|by rewrite Z.bits_0].
    change 2 with (2 ^ 1). by rewrite Z.pow2_bits_false.
Qed.

Definition policy_for (will_respond : bool) (p : Z) : Z :=
  if will_respond then Z.lor p TP_WILL_RESPOND else Z.land p (Z.lnot TP_WILL_RESPOND).

Lemma policy_for_bits b p i : 0 <= i ->
  Z.testbit (policy_for b p) i = if decide (i = 1) then b else Z.testbit p i.
Proof.
  intros Hi. unfold policy_for, TP_WILL_RESPOND. change 2 with (2 ^ 1).
  destruct b; rewrite ?Z.lor_spec, ?Z.land_spec, ?Z.lnot_spec by done; rewrite Z.pow2_bits_eqb by lia;
    destruct (Z.eqb_spec 1 i) as [<-|Hne]; rewrite ?decide_True, ?decide_False by congruence; cbn [negb].
  - apply orb_true_r.
  - apply orb_false_r.
  - apply andb_false_r.
  - apply andb_true_r.
Qed.

Section sockets.
Context {cbor : Type} `{!CborLib cbor}.
Context {CB TCB TX SCB U : Type} `{!EqDecision CB}.
Abbreviation world := (world cbor CB TCB TX SCB U).
Abbreviation app s := (ec_app (hs_client s)).

(** The state [s] with another manager and environment. *)
Definition with_mgr_env (s : world) (mg : manager) (v : env) : world :=
  put_app (set_env v (set_mgr (Some mg) (app s))) s.

Lemma responds_policy_for b mg : responds (put_policy (policy_for b (mg_policy mg)) mg) = b.
Proof.
  unfold responds. cbn [mg_policy put_policy]. unfold TP_WILL_RESPOND. rewrite land_2, policy_for_bits by done.
  by destruct b.
Qed.

Context (s : world).
Implicit Types (mg : manager) (v : env).

Lemma upd_runs mg v f : runs (upd_mgr f) (with_mgr_env s mg v) (fun _ s' => s' = with_mgr_env s (f mg) v).
Proof. by apply (runs_upd_mgr mg). Qed.

Lemma sys_bound_runs mg v : runs (on_mw sys) (with_mgr_env s mg v) (fun _ s' => exists v',
  s' = with_mgr_env s mg v' /\ en_bound v' = en_bound v /\ same_input v v').
Proof. apply runs_on_mw. unfold sys, answer. run. by eexists. Qed.

Lemma bind_runs mg v sock addr : runs (on_mw (os_bind sock addr)) (with_mgr_env s mg v) (fun _ s' => exists v',
  s' = with_mgr_env s mg v' /\ en_bound v' = (sock, addr) :: en_bound v /\ same_input v v').
Proof. apply runs_on_mw. unfold os_bind, sys, answer. run. by eexists. Qed.

Lemma open_socket_runs mg v put : runs (open_socket put) (with_mgr_env s mg v) (fun r s' => exists fd v',
  s' = with_mgr_env s (put fd mg) v' /\ en_bound v' = en_bound v /\ same_input v v' /\ match r with Ok a => a = fd | Err _ => fd = -1 end).
Proof.
  unfold open_socket. run_step. apply runs_on_mw. unfold new_fd, answer. run.
  set (v' := Env _ _ _ _ _ _ _ _ _). set (s1 := put_app _ _).
  assert (E : s1 = with_mgr_env s mg v') by done. rewrite E.
  destruct (hd _ _) as [fd|e]; run_step; (eapply runs_conseq; [apply upd_runs|]); intros _ s' ->;
    run_step; by eexists _, v'.
Qed.

Lemma options_runs mg v sock : runs (socket_options sock) (with_mgr_env s mg v) (fun r s' => exists v',
  en_bound v' = en_bound v /\ same_input v v' /\
  s' = with_mgr_env s (if is_ok r then put_max_fd (Z.max (mg_max_fd mg) sock) mg else mg) v').
Proof.
  unfold socket_options, attempt.
  do 4 (run_step; (eapply runs_conseq; [apply sys_bound_runs|]);
    let E := fresh "E" in let V := fresh "V" in intros [[]|?] ? (? & -> & E & V);
      [|run_step; eexists; split_and!; [| |reflexivity]; [congruence|by repeat (etrans; [eassumption|])]]).
  run_step. eapply runs_conseq; [apply upd_runs|]. intros _ s' ->. run_step.
  eexists. split_and!; [| |reflexivity]; [congruence|by repeat (etrans; [eassumption|])].
Qed.

(** [mg'] is [mg] with the policy for [port], and maybe other sockets. *)
Definition with_sockets (port : Z) mg mg' : Prop :=
  mg' = put_max_fd (mg_max_fd mg') (put_socks (mg_sock4 mg') (mg_sock6 mg')
          (put_policy (policy_for (bool_decide (port <> 0)) (mg_policy mg)) mg)).

(** What [tube_manager_socket] leaves, with the answer [r]. *)
Definition socketed (port : Z) mg (r : res Z unit) (s' : world) : Prop := exists mg' v,
  s' = with_mgr_env s mg' v /\ same_input (mw_env (app s)) v /\ with_sockets port mg mg' /\
  responds mg' = bool_decide (port <> 0) /\
  match r with
  | Ok _ =>
      en_bound v = (mg_sock4 mg', ls_sockaddr_v4_any port) :: (mg_sock6 mg', ls_sockaddr_v6_any port) ::
                   en_bound (mw_env (app s)) /\
      mg_sock4 mg' <= mg_max_fd mg' /\ mg_sock6 mg' <= mg_max_fd mg' /\ mg_max_fd mg <= mg_max_fd mg'
  | Err _ => True
  end.

Lemma socket_runs mg port : mw_mgr (app s) = Some mg -> 0 <= port <= 65535 ->
  runs (tube_manager_socket port) s (socketed port mg).
Proof.
  intros Em Hport. set (b := bool_decide (port <> 0)). set (m0 := put_policy (policy_for b (mg_policy mg)) mg).
  assert (Hm0 : responds m0 = b) by apply responds_policy_for.
  assert (Hend : forall mg' v e, with_sockets port mg mg' -> same_input (mw_env (app s)) v ->
    socketed port mg (Err e) (with_mgr_env s mg' v)).
  { intros mg' v e Hw Hv. exists mg', v. split_and!; [done|done|done| |done]. rewrite Hw. exact Hm0. }
  unfold tube_manager_socket. run_step. apply (runs_get_mgr mg); [done|].
  run_step. apply runs_assert; [apply bool_decide_eq_true_2; lia|].
  run_step. apply runs_assert; [apply bool_decide_eq_true_2; lia|].
  run_step. unfold tube_manager_set_policy_responder. apply (runs_upd_mgr mg); [done|].
  set (s0 := put_app _ s). assert (E0 : s0 = with_mgr_env s m0 (mw_env (app s))).
  { unfold s0, with_mgr_env. by f_equal. }
  rewrite E0. clear s0 E0. unfold attempt.
  run_step. eapply runs_conseq; [apply open_socket_runs|]. intros r1 ? (fd6 & v1 & -> & B1 & V1 & Hr1).
  destruct r1 as [sock6|e]; [|run_step; by apply Hend]. subst sock6.
  run_step. eapply runs_conseq; [apply sys_bound_runs|]. intros r2 ? (v2 & -> & B2 & V2). rewrite <- V1 in V2.
  destruct r2 as [[]|e]; [|run_step; by apply Hend].
  run_step. eapply runs_conseq; [apply bind_runs|]. intros r3 ? (v3 & -> & B3 & V3). rewrite <- V2 in V3.
  destruct r3 as [[]|e]; [|run_step; by apply Hend].
  run_step. eapply runs_conseq; [apply options_runs|]. intros r4 ? (v4 & B4 & V4 & ->). rewrite <- V3 in V4.
  destruct r4 as [[]|e]; [|run_step; by apply Hend]. cbn [is_ok].
  run_step. eapply runs_conseq; [apply open_socket_runs|]. intros r5 ? (fd4 & v5 & -> & B5 & V5 & Hr5). rewrite <- V4 in V5.
  destruct r5 as [sock4|e]; [|run_step; by apply Hend]. subst sock4.
  run_step. eapply runs_conseq; [apply bind_runs|]. intros r6 ? (v6 & -> & B6 & V6). rewrite <- V5 in V6.
  destruct r6 as [[]|e]; [|run_step; by apply Hend].
  eapply runs_conseq; [apply options_runs|]. intros r7 ? (v7 & B7 & V7 & ->). rewrite <- V6 in V7.
  destruct r7 as [[]|e]; [|by apply Hend]. cbn [is_ok].
  eexists _, v7. split_and!; [reflexivity|done|done|exact Hm0| |cbn; lia..].
  cbn. congruence.
Qed.

(** C37: making the manager's sockets.  The manager becomes a responder exactly when it is
    given a port, and nothing else of its policy changes; on success it has two sockets,
    bound to the port on any address of IPv6 and of IPv4, and [max_fd], that select() is
    called with, is not below either of them nor below what it was.  Only the policy, the
    sockets and [max_fd] change, whatever fails, and no input is taken. *)
Theorem socket_binds mg port : mw_mgr (app s) = Some mg -> 0 <= port <= 65535 ->
  runs (tube_manager_socket port) s (socketed port mg).
Proof. apply socket_runs. Qed.
End sockets.
