(* ===== verification/ManagerEvents.v ===== *)
(** The application's callbacks under a manager: [tube_manager_bind_event] of
    src/tube_manager.c as modelled in TubeManager.v, on the invariant of ManagerState.v. *)

From S2P Require Import Prelude LsError LsStr LsMem PoolUse Store LsTimer LsHtable LsHash GHeap GHeapLayout PQueue Spud LsSockaddr LsPktinfo Tube LsEventing EventBindings EventDispatch EventNames EventLife TubeManager ManagerState.
Open Scope Z_scope.

Section manager_events.
Context {cbor : Type} `{!CborLib cbor}.
Context {CB TCB TX SCB U : Type} `{!EqDecision CB}.
Abbreviation mworld := (mworld TCB TX SCB U).
Abbreviation world := (world cbor CB TCB TX SCB U).
Abbreviation owned_event := (owned_event (CB := CB) (A := event_arg)).
Abbreviation app s := (ec_app (hs_client s)).
Abbreviation callbacks := (list (CB * event_arg)).
Implicit Types (s : world) (x : mworld) (R : registry) (E : gmap loc callbacks) (L : list owned_event).
Context (K : background (cbor := cbor) (CB := CB)).

(** A list of callbacks with another one: in its place when it is there, else at the end. *)
Fixpoint bind_pair (cb : CB) (arg : event_arg) (vs : callbacks) : callbacks :=
  match vs with
  | [] => [(cb, arg)]
  | (c, a) :: vs => if decide (c = cb) then (cb, arg) :: vs else (c, a) :: bind_pair cb arg vs
  end.

Lemma bind_pair_length cb arg vs : (length (bind_pair cb arg vs) <= S (length vs))%nat.
Proof. induction vs as [|[c a] vs IH]; cbn; [done|]. case_decide; cbn; lia. Qed.

Lemma bind_pair_in cb arg c a vs : (c, a) ∈ bind_pair cb arg vs -> (c, a) = (cb, arg) \/ (c, a) ∈ vs.
Proof.
  induction vs as [|[c' a'] vs IH]; cbn; [intros ->%list_elem_of_singleton; by left|].
  case_decide; intros [->|Hin]%elem_of_cons; [by left|right; by right|right; by left|].
  destruct (IH Hin) as [->|?]; [by left|right; by right].
Qed.

(** The callbacks that views of bindings stand for. *)
Definition pair_of (v : bview (CB := CB) (A := event_arg)) : CB * event_arg := (v.1.1.1, v.1.1.2).
Definition unmarked (v : bview (CB := CB) (A := event_arg)) : Prop := v.1.2 = false.

Lemma pairs_of_bind cb arg vs : pair_of <$> bind_view cb arg vs = bind_pair cb arg (pair_of <$> vs).
Proof. induction vs as [|[[[c a] u] nb] vs IH]; cbn; [done|]. case_decide; cbn; [done|by rewrite IH]. Qed.

Lemma pairs_of_views (bs : list (loc * ls_event_binding CB event_arg)) : pair_of <$> views bs = cb_of <$> bs.
Proof. induction bs as [|[l b] bs IH]; [done|]. cbn. f_equal. exact IH. Qed.

Lemma unmarked_views (bs : list (loc * ls_event_binding CB event_arg)) :
  Forall unmarked (views bs) <-> Forall (fun y => b_unbound y.2 = false) bs.
Proof. unfold views. rewrite Forall_fmap. reflexivity. Qed.

Lemma unmarked_bind cb arg vs : Forall unmarked vs -> Forall unmarked (bind_view cb arg vs).
Proof.
  induction 1 as [|[[[c a] u] nb] vs Hu Hus IH]; cbn; [by repeat constructor|].
  case_decide; constructor; [done|done|exact Hu|done].
Qed.

(** ** What the map of callbacks says of the events that are there *)
Lemma owned_callbacks E d b L s o vs : idle E d s -> owns_all E (bg_ground K) d b L s -> o ∈ L ->
  E !! oe_at o = Some vs ->
  vs = pair_of <$> views (oe_bindings o) /\ Forall unmarked (views (oe_bindings o)).
Proof.
  intros [_ _ _ Hok] [[_ _ [Heach _ _ _ _ _ _ _]] _ _ _ _ _] Hin He.
  destruct (Hok _ _ He) as (n & bs & Hn & _ & Hc & <- & Hu).
  apply (Forall_forall _ _) with (x := o) in Heach; [|done]. destruct Heach as [Hn' Hc'].
  rewrite Hn in Hn'. injection Hn' as ->. rewrite (chain_det _ _ _ _ _ Hc' Hc).
  rewrite pairs_of_views. split; [done|]. by apply unmarked_views.
Qed.

Lemma known_event L k e : known_events L !! k = Some e -> exists o, o ∈ L /\ oe_key o = k /\ oe_at o = e.
Proof.
  intros H%elem_of_list_to_map_2. apply list_elem_of_fmap in H as (o & [= -> ->] & Ho). by exists o.
Qed.

Lemma known_events_perm L L' : NoDup (oe_key <$> L) -> L ≡ₚ L' -> known_events L = known_events L'.
Proof.
  intros Hd Hp. apply list_to_map_proper; [by rewrite <- list_fmap_compose|by apply fmap_Permutation].
Qed.
Lemma owned_keys b d L s : owns_dispatcher b (gr_names (bg_ground K)) d L s -> NoDup (oe_key <$> L).
Proof.
  intros [(dd & m & _ & Ht & Hp) _ _].
  assert (Hk : (map_to_list m).*1 = (fun e : cstr * option loc * option unit => lower e.1.1) <$> (map_to_list m).*2).
  { rewrite <- list_fmap_compose. apply list_fmap_ext. intros i [k e] Hi. cbn.
    apply (table_rep_key _ _ _ _ _ _ Ht), elem_of_map_to_list. by eapply list_elem_of_lookup_2. }
  pose proof (NoDup_fst_map_to_list m) as Hd. rewrite Hk, Hp, <- list_fmap_compose in Hd. exact Hd.
Qed.

(** ** Binding *)

(** The bindings of the event [o] changed, and nothing else. *)
Lemma rebound_rest E d b L L' o vs s s' : idle E d s -> owns_all E (bg_ground K) d b L s -> L ≡ₚ o :: L' ->
  event_at s (oe_at o) (oe_notifier o) (without (binding_locs o) (st_objs (ec_bindings (hs_client s)))) vs s' ->
  Forall unmarked vs -> at_rest K (<[oe_at o := pair_of <$> vs]> E) d s' /\ app s' = app s.
Proof.
  intros Hid Ha HL Hat Hu. pose proof Ha as [Ho Hb Hkn Hev Hoth Hmom].
  destruct (event_at_owned _ _ _ _ _ _ _ _ _ Ho HL Hat) as (n & bs & En & <- & Ho' & [S1 S2 S3 S4 S5 S6 S7 S8]).
  pose proof (owned_keys _ _ _ _ Ho) as Hnd. set (o' := OwnedEvent (oe_at o) n bs) in *.
  assert (Ek : oe_key o' = oe_key o) by (unfold oe_key; cbn; by rewrite En).
  assert (Heach : forall o1, o1 ∈ o' :: L' -> exists n bs, st_objs (ec_events (hs_client s')) !! oe_at o1 = Some n /\
    n_dispatcher n = d /\ chain b_next (st_objs (ec_bindings (hs_client s'))) (n_bindings n) bs /\
    <[oe_at o := pair_of <$> views (oe_bindings o')]> E !! oe_at o1 = Some (cb_of <$> bs) /\
    Forall (fun y => b_unbound y.2 = false) bs).
  { intros o1 Hin. destruct Ho' as [_ Hm [Hea He' _ _ _ _ _ _]].
    apply (Forall_forall _ _) with (x := o1) in Hea; [|done]. apply (Forall_forall _ _) with (x := o1) in Hm; [|done].
    destruct Hea as [Hn Hc]. exists (oe_notifier o1), (oe_bindings o1). split_and!; [done..| |].
    - apply elem_of_cons in Hin as [->|Hin].
      + rewrite lookup_insert_eq. f_equal. apply pairs_of_views.
      + destruct He' as [Hd _]. cbn in Hd. apply NoDup_cons in Hd as [Hno _].
        rewrite lookup_insert_ne by (intros E1; apply Hno; rewrite E1; by apply list_elem_of_fmap_2).
        assert (Hin1 : o1 ∈ L) by (rewrite HL; by right).
        destruct (proj2 (Hev (oe_at o1))) as [v Hv]; [by apply list_elem_of_fmap_2|]. rewrite Hv.
        destruct (owned_callbacks _ _ _ _ _ _ _ Hid Ha Hin1 Hv) as [-> _]. f_equal. apply pairs_of_views.
    - apply elem_of_cons in Hin as [->|Hin]; [by apply unmarked_views|].
      assert (Hin1 : o1 ∈ L) by (rewrite HL; by right).
      destruct (proj2 (Hev (oe_at o1))) as [v Hv]; [by apply list_elem_of_fmap_2|].
      destruct (owned_callbacks _ _ _ _ _ _ _ Hid Ha Hin1 Hv) as [_ Hu1]. by apply unmarked_views. }
  assert (Hdom : forall e, is_Some (<[oe_at o := pair_of <$> views bs]> E !! e) <-> e ∈ oe_at <$> o' :: L').
  { intros e. rewrite lookup_insert_is_Some, Hev, HL. cbn. rewrite !elem_of_cons.
    destruct (decide (oe_at o = e)) as [->|]; naive_solver. }
  split; [split|done].
  - destruct Hid as [I1 I2 I3 I4]. split; [by rewrite S4|by rewrite S6|by rewrite S7|].
    intros e v He. assert (Hin : e ∈ oe_at <$> o' :: L') by (apply Hdom; by eexists).
    apply list_elem_of_fmap in Hin as (o1 & -> & Hin). destruct (Heach o1 Hin) as (n1 & bs1 & ? & ? & ? & He1 & ?).
    change (oe_bindings o') with bs in He1. rewrite He in He1. injection He1 as ->. by exists n1, bs1.
  - exists b, (o' :: L'). split; [done|done| |exact Hdom|by rewrite S4|by rewrite S6].
    rewrite <- Hkn, (known_events_perm _ _ Hnd HL). unfold known_events. cbn. by rewrite Ek.
Qed.

Lemma bind_event_runs E d mg R s name cb (Q : res Z unit -> world -> Prop) :
  serving K E d mg R s -> mg_dispatcher mg = Some d -> cstr_wf name ->
  (gr_known (bg_ground K) !! lower name = None -> Q (Err LS_ERR_BAD_FORMAT) s) ->
  (forall e vs s', gr_known (bg_ground K) !! lower name = Some e -> E !! e = Some vs -> app s' = app s ->
     (serving K (<[e := bind_pair cb ArgManager vs]> E) d mg R s' -> Q (Ok tt) s') /\
     (serving K E d mg R s' -> Q (Err LS_ERR_NO_MEMORY) s')) ->
  runs (tube_manager_bind_event name cb) s Q.
Proof.
  intros Hs Ed Hw H0 H1. pose proof Hs as [[Hid (b & L & Ha)] Hmg Htab Htubes Hst].
  pose proof Ha as [Ho Hb Hkn Hev Hoth Hmom]. pose proof (owned_keys _ _ _ _ Ho) as Hnd.
  assert (Hserve : forall E' s', at_rest K E' d s' -> app s' = app s -> serving K E' d mg R s').
  { intros E' s' Hr Ea. split; [done|by rewrite Ea..]. }
  unfold tube_manager_bind_event, _tube_manager_get_dispatcher. run_step. run_step. apply (runs_get_mgr mg); [done|].
  run_step. rewrite Ed. run_step. run_step. run_step.
  destruct (get_event_owned _ _ _ _ _ _ Ho Hw) as (r & Er & H). eapply runs_done; [exact Er|].
  destruct r as [e|].
  2:{ run_step. apply H0. rewrite <- Hkn. apply not_elem_of_list_to_map_1. by rewrite <- list_fmap_compose. }
  destruct H as (o & L' & HL & Ek & <-).
  assert (Hin : o ∈ L) by (rewrite HL; by left).
  assert (Hk : gr_known (bg_ground K) !! lower name = Some (oe_at o)).
  { rewrite <- Hkn, (known_events_perm _ _ Hnd HL), <- Ek. unfold known_events. cbn. by rewrite lookup_insert_eq. }
  destruct (proj2 (Hev (oe_at o))) as [vs He]; [by apply list_elem_of_fmap_2|].
  destruct (owned_callbacks _ _ _ _ _ _ _ Hid Ha Hin He) as [-> Hu].
  eapply runs_conseq; [apply ls_event_bind_runs; by eapply owned_event_at|].
  intros [[]|x] s' Hr.
  - destruct (rebound_rest _ _ _ _ _ _ _ _ _ Hid Ha HL Hr) as [Hrest Ea]; [by apply unmarked_bind|].
    apply (H1 (oe_at o) _ s' Hk He Ea). rewrite <- pairs_of_bind. by apply Hserve.
  - destruct Hr as (-> & _ & Hr).
    destruct (rebound_rest _ _ _ _ _ _ _ _ _ Hid Ha HL Hr) as [Hrest Ea]; [done|].
    apply (H1 (oe_at o) _ s' Hk He Ea). apply Hserve; [|done]. by rewrite (insert_id _ _ _ He) in Hrest.
Qed.

(** What [tube_manager_bind_event] does, with the answer [r]. *)
Definition event_binding E d mg R s (k : list Z) (cb : CB) (r : res Z unit) s' : Prop :=
  app s' = app s /\
  match r, event_named mg k with
  | Err x, None => x = LS_ERR_BAD_FORMAT /\ s' = s
  | Err x, Some e => x = LS_ERR_NO_MEMORY /\ serving K E d mg R s'
  | Ok _, None => False
  | Ok _, Some e => exists vs, E !! e = Some vs /\ serving K (<[e := bind_pair cb ArgManager vs]> E) d mg R s'
  end.

(** C25: binding a callback to an event of the manager, in any state between two calls.  The
    name, in whatever case, is one of the manager's six, or the answer is
    LS_ERR_BAD_FORMAT and nothing changes.  On success the callbacks of that event are what
    they were with this one last, unless it was bound already, and those of the other
    events are what they were: the invariant holds for the new callbacks, so that the
    theorems about packets and the loop deliver to them.  Out of memory, all callbacks are
    what they were.  The tubes and everything else of the application stay. *)
Theorem event_bound E d mg R s name cb :
  serving K E d mg R s -> mg_dispatcher mg = Some d -> cstr_wf name ->
  (forall k, gr_known (bg_ground K) !! k = event_named mg k) ->
  runs (tube_manager_bind_event name cb) s (event_binding E d mg R s (lower name) cb).
Proof.
  intros Hs Ed Hw Hk. unfold event_binding.
  eapply bind_event_runs; [exact Hs|exact Ed|exact Hw|intros Hn; by rewrite <- Hk, Hn|].
  intros e vs s' Hn He Ea. rewrite <- Hk, Hn. split; intros Hs'; (split; [done|]); [by exists vs|done].
Qed.
End manager_events.
