(* ===== verification/ManagerOpen.v ===== *)
(** Opening a tube: all that [tube_manager_open_tube] of src/tube_manager.c, as modelled in
    TubeManager.v, does to the invariant of ManagerState.v, the ways in which it breaks it
    among them. *)

From S2P Require Import Prelude LsError LsStr LsMem PoolUse Store LsTimer LsHtable LsHash GHeap GHeapLayout PQueue Spud LsSockaddr LsPktinfo Tube LsEventing EventBindings EventDispatch EventNames EventLife TubeManager ManagerState ManagerTubes ManagerPackets ManagerLoop.
Open Scope Z_scope.

Section opening.
Context {cbor : Type} `{!CborLib cbor}.
Context {CB TCB TX SCB U : Type} `{!EqDecision CB}.
Abbreviation mworld := (mworld TCB TX SCB U).
Abbreviation world := (world cbor CB TCB TX SCB U).
Abbreviation app s := (ec_app (hs_client s)).
Abbreviation table x := (mw_table x).
Abbreviation tubes_of x := (hs_client (mw_table x)).
Abbreviation tubes_in s := (st_objs (tw_tubes (tubes_of (app s)))).
Abbreviation infos_in s := (st_objs (tw_infos (tubes_of (app s)))).
Abbreviation sent x := (tw_sent (tubes_of x)).
Implicit Types (s : world) (x : mworld) (w : tworld) (R : registry).
Context (K : background (cbor := cbor) (CB := CB)) (E : gmap loc (list (CB * event_arg))).
Context (prog : CB -> loc -> event_data cbor -> bool -> event_arg ->
  C mworld (bool * list (loc * event_data cbor))).
Context (fuel : nat).
Context (prog_quiet : quiet_callbacks E prog) (fuel_ok : enough_fuel E fuel).
Abbreviation occurs := (occurs E prog).
Abbreviation serving := (serving K E).
Abbreviation tubes_ok := (tubes_ok K).
Abbreviation open_tube := (tube_manager_open_tube (scripted prog) (scripted_result no_results) fuel).

(** A tube that is being opened. *)
Definition opening_tube (sock : Z) (dest : sockaddr) (id : spud_tube_id) : tube :=
  Tube TS_OPENING dest id None None sock.

(** The tube [t] freed behind the manager's back. *)
Definition without_tube (t : loc) s : world :=
  let w := tubes_of (app s) in
  put_tubes_of (TWorld (st_del t (tw_tubes w)) (tw_infos w) (tw_pools w) (tw_sent w) (tw_answers w)) s.

(** The add event of the tube [t] happened, to [x1], after which the OPEN was to be sent. *)
Definition announced mg s (t : loc) x1 : Prop := exists x0,
  sent x0 = sent (app s) /\ mw_user x0 = mw_user (app s) /\ occurs (mg_add mg) (EvTube t) x0 x1.

Inductive open_outcome (d : loc) (mg : manager) R s (dest : sockaddr) : outcome (res Z loc * world) -> Prop :=
  (** Refused before the tube was in the table: the tube is gone. *)
  | oo_refused e s' : serving d mg R s' -> tubes_in s' = tubes_in s -> infos_in s' = infos_in s ->
      sent (app s') = sent (app s) -> open_outcome d mg R s dest (Done (Err e, s'))
  (** The tube is in the table, its callbacks ran, and then its OPEN was sent. *)
  | oo_opened t id sock x1 s' :
      let u := opening_tube sock dest id in
      socket_for mg dest = Some sock -> tubes_in s !! t = None ->
      serving d mg (<[id_u64 id := (t, u)]> R) s' -> announced mg s t x1 ->
      mw_user (app s') = mw_user x1 -> next_answer (tubes_of x1) = Ok tt ->
      sent (app s') = sent x1 ++ [packet (tubes_of x1) u SPUD_OPEN false false []] ->
      open_outcome d mg R s dest (Done (Ok t, s'))
  (** There was no memory for the add event: the tube was freed, and is in the table. *)
  | oo_dangling t id sock s1 :
      socket_for mg dest = Some sock -> tubes_in s !! t = None ->
      serving d mg (<[id_u64 id := (t, opening_tube sock dest id)]> R) s1 ->
      open_outcome d mg R s dest (Done (Err LS_ERR_NO_MEMORY, without_tube t s1))
  (** The OPEN could not be sent: the tube was freed twice. *)
  | oo_freed_twice t id sock s1 e s2 :
      socket_for mg dest = Some sock -> tubes_in s !! t = None ->
      serving d mg (<[id_u64 id := (t, opening_tube sock dest id)]> R) s1 -> announced mg s t (app s1) ->
      on_tubes (tube_send t SPUD_OPEN false false []) s1 = Done (Err e, s2) ->
      open_outcome d mg R s dest (Fault UseAfterFree).

(** A tube that is not the manager's is destroyed. *)
Lemma destroy_other_runs d mg R s t u (Q : unit -> world -> Prop) : serving d mg R s ->
  tubes_in s !! t = Some u -> t_pktinfo u = None -> (forall k u', R !! k <> Some (t, u')) ->
  (serving d mg R (without_tube t s) -> Q tt (without_tube t s)) ->
  runs (on_tubes (tube_destroy t)) s Q.
Proof.
  intros Hs Ht Hp Hn HQ. apply runs_on_tubes. eapply (tube_destroy_runs t u); [done|by rewrite Hp|].
  rewrite Hp. apply HQ. eapply serving_put_tubes; [done| |done].
  destruct (sv_tubes _ _ _ _ _ _ Hs) as [T1 T2 T3 (T4 & T5 & T6)]. split; [|done|done|].
  - intros k t' u' Hk. destruct (T1 k t' u' Hk) as (? & ? & ? & ?). split_and!; [done..| |done].
    cbn. rewrite lookup_delete_ne; [done|]. intros ->. by eapply Hn.
  - split_and!; [by apply store_wf_del|done|done].
Qed.
(** The tube [t], read as [u], was allocated and is not in the table. *)
Record unregistered d mg R s (t : loc) (u : tube) s1 : Prop := {
  ur_serving : serving d mg R s1;
  ur_fresh : tubes_in s !! t = None;
  ur_tubes : tubes_in s1 = <[t := u]> (tubes_in s);
  ur_infos : infos_in s1 = infos_in s;
  ur_sent : sent (app s1) = sent (app s);
  ur_user : mw_user (app s1) = mw_user (app s);
  ur_plain : t_pktinfo u = None }.

Lemma not_registered d mg R s t k u : serving d mg R s -> tubes_in s !! t = None -> R !! k <> Some (t, u).
Proof. intros Hs Hf Hk. destruct (serving_tube _ _ _ _ _ _ _ _ _ Hs Hk) as (_ & _ & Ht & _). congruence. Qed.

Lemma refused d mg R s dest t u e s1 : serving d mg R s -> unregistered d mg R s t u s1 ->
  ends (on_tubes (tube_destroy t);; mret (Err e)) s1 (open_outcome d mg R s dest).
Proof.
  intros Hs [U1 U2 U3 U4 U5 U6 U7]. apply ends_bind.
  eapply (destroy_other_runs d mg R s1 t u); [done|rewrite U3; apply lookup_insert_eq|done| |].
  - intros k u'. by apply (not_registered d mg R s).
  - intros Hs'. apply ends_ret. apply oo_refused; [done| |exact U4|exact U5]. cbn. rewrite U3. by apply delete_insert_id.
Qed.

(** What opening needs: an address that is what its family says, open sockets, a random
    number that is not the ID of a tube, and room in the table. *)
Record can_open mg R s (dest : sockaddr) : Prop := {
  co_dest f : dest = sockaddr_other f -> f <> AF_INET /\ f <> AF_INET6;
  co_socket sock : socket_for mg dest = Some sock -> 0 <= sock;
  co_random id : spud_create_id (hd RandShort (en_rands (mw_env (app s)))) true = Ok id ->
    tube_id_wf id /\ R !! id_u64 id = None;
  co_room : Z.of_nat (size R) < 2 ^ 28 }.

Lemma create_unregistered d mg R s dest (k : loc -> C world (res Z loc)) : serving d mg R s ->
  (forall t s1, unregistered d mg R s t (Tube TS_UNKNOWN (sockaddr_other 0) (TubeId (replicate 8 0)) None None (-1)) s1 ->
     mw_env (app s1) = mw_env (app s) -> ends (k t) s1 (open_outcome d mg R s dest)) ->
  ends (ret ←! on_tubes tube_create; k ret) s (open_outcome d mg R s dest).
Proof.
  intros Hs HK. pose proof (sv_tubes _ _ _ _ _ _ Hs) as Hok. destruct (to_wf _ _ _ Hok) as (W1 & W2 & W3).
  pose proof (store_wf_fresh _ W1) as Hf. unfold attempt. apply ends_bind, runs_on_tubes, tube_create_runs.
  - intros _. apply ends_ret, oo_refused; [|done..]. eapply serving_put_tubes; [done| |done]. by eapply tubes_ok_ext.
  - intros t w1 -> Et En Ei Ep Es Ea. apply HK; [|done]. split; try done; [|by cbn; rewrite Ei].
    eapply serving_put_tubes; [done| |done].
    eapply tubes_ok_more; [exact Hok|rewrite Et; by apply insert_subseteq|by rewrite Ei| |by rewrite Ei|by rewrite Ep].
    by eapply store_wf_new.
Qed.

Lemma random_unregistered d mg R s dest t u s1 (k : rand_answer -> C world (res Z loc)) : unregistered d mg R s t u s1 ->
  (forall s2, unregistered d mg R s t u s2 -> ends (k (hd RandShort (en_rands (mw_env (app s1))))) s2 (open_outcome d mg R s dest)) ->
  ends (rand ← on_mw next_rand; k rand) s1 (open_outcome d mg R s dest).
Proof.
  intros [U1 U2 U3 U4 U5 U6 U7] HK. apply ends_bind, runs_on_mw. unfold next_rand, answer. run.
  apply HK. split; try done. apply serving_same_input; [done..|]. apply U1.
Qed.
(** An assignment to the tube's fields. *)
Lemma set_unregistered d mg R s t u u' s1 : serving d mg R s -> unregistered d mg R s t u s1 -> t_pktinfo u' = None ->
  unregistered d mg R s t u' (put_tubes_of (with_store (st_set t u' (tw_tubes (tubes_of (app s1)))) (tubes_of (app s1))) s1).
Proof.
  intros Hs [U1 U2 U3 U4 U5 U6 U7] Hp. split; try done.
  - eapply serving_put_tubes; [done| |done]. pose proof (sv_tubes _ _ _ _ _ _ Hs) as Hok.
    destruct (to_wf _ _ _ (sv_tubes _ _ _ _ _ _ U1)) as (W1 & W2 & W3).
    eapply tubes_ok_more; [exact Hok|cbn; rewrite U3, insert_insert_eq; by apply insert_subseteq|cbn; by rewrite U4| |done|done].
    apply store_wf_set; [rewrite U3, lookup_insert_eq; by eexists|done].
  - cbn. by rewrite U3, insert_insert_eq.
Qed.

Lemma opening_addable d mg R s dest t id sock s1 : serving d mg R s ->
  unregistered d mg R s t (opening_tube sock dest id) s1 -> tube_id_wf id -> R !! id_u64 id = None ->
  Z.of_nat (size R) < 2 ^ 28 -> addable K R (tubes_of (app s1)) t (opening_tube sock dest id).
Proof.
  intros Hs [U1 U2 U3 U4 U5 U6 U7] Hid Hk Hroom.
  split; [rewrite U3; apply lookup_insert_eq|done|by intros p|done|by intros|by intros p|done].
Qed.

(** The OPEN is sent once the tube is in the table and its callbacks have run. *)
Lemma send_open_ends d mg R s dest t id sock s1 : let u := opening_tube sock dest id in
  serving d mg R s -> events_of E mg -> socket_for mg dest = Some sock -> tubes_in s !! t = None -> R !! id_u64 id = None ->
  serving d mg (<[id_u64 id := (t, u)]> R) s1 -> announced mg s t (app s1) ->
  ends (sent ← on_tubes (tube_send t SPUD_OPEN false false []);
        match sent with
        | Err e =>
            tube_manager_remove (scripted prog) (scripted_result no_results) fuel t;;
            on_tubes (tube_destroy t);; mret (Err e)
        | Ok _ => mret (Ok t)
        end) s1 (open_outcome d mg R s dest).
Proof.
  intros u Hs He Hsock Hf Hk Hs1 Ha.
  assert (Hsend : runs (on_tubes (tube_send t SPUD_OPEN false false [])) s1 (fun r s2 =>
    serving d mg (<[id_u64 id := (t, u)]> R) s2 /\ mw_user (app s2) = mw_user (app s1) /\
    (r = Ok tt -> next_answer (tubes_of (app s1)) = Ok tt /\
       sent (app s2) = sent (app s1) ++ [packet (tubes_of (app s1)) u SPUD_OPEN false false []]))).
  { eapply send_runs; [exact Hs1|apply lookup_insert_eq|]. cbv zeta. intros w2 Hs2 Et Ei Ep.
    split; intros _ Es; (split_and!; [exact Hs2|done|]); [done|]. intros Ha'. split; [done|exact Es]. }
  destruct (runs_inv _ _ _ Hsend) as (r & s2 & Er & Hs2 & Eu & Hr).
  unfold ends. rewrite (bind_done _ _ _ _ _ Er). destruct r as [[]|e].
  - destruct (Hr eq_refl) as [Hans Hsent]. by eapply (oo_opened d mg R s dest t id sock (app s1)).
  - apply ends_bind. eapply (remove_runs K E prog fuel prog_quiet fuel_ok d mg _ s2); [exact Hs2|done|apply lookup_insert_eq|].
    intros s3 h _ _ [C1 _ _ _ _] _. unfold ends.
    assert (Hgone : on_tubes (tube_destroy t) (put_table h s3) = Fault UseAfterFree).
    { assert (Hl : st_objs (tw_tubes (hs_client h)) !! t = None) by (rewrite C1; apply lookup_delete_eq).
      unfold on_tubes, on_table, on_mw, client, on_app, on_client, zoom. cbn.
      unfold tube_destroy, load, c_live, c_get, mbind, C_bind. cbn. by rewrite Hl. }
    unfold mbind, C_bind. rewrite Hgone. exact (oo_freed_twice d mg R s dest t id sock s1 e s2 Hsock Hf Hs1 Ha Er).
Qed.

Lemma open_ends d mg R s dest : serving d mg R s -> events_of E mg -> can_open mg R s dest ->
  ends (open_tube dest) s (open_outcome d mg R s dest).
Proof.
  intros Hs He [Hdest Hsock Hrand Hroom]. unfold tube_manager_open_tube.
  apply create_unregistered; [done|]. intros t s1 U1 Ev.
  eapply random_unregistered; [exact U1|]. intros s2 U2. rewrite Ev.
  destruct (spud_create_id _ _) as [id|e] eqn:Eid; [|by eapply refused].
  destruct (Hrand _ eq_refl) as [Hid Hk]. apply ends_bind. apply (runs_get_mgr mg); [apply U2|].
  destruct (socket_for mg dest) as [sock|] eqn:Es; [|by eapply refused].
  assert (Hfam : known_family dest).
  { unfold socket_for in Es. unfold known_family, ls_sockaddr_get_length. destruct dest as [| |f]; [done..|].
    destruct (Hdest f eq_refl). cbn in Es. by rewrite !decide_False in Es by done. }
  apply ends_bind, runs_on_tubes. eapply tube_set_info_runs; [rewrite (ur_tubes _ _ _ _ _ _ _ U2); apply lookup_insert_eq|by apply Hsock|done|done|].
  cbn [t_state t_data t_pktinfo].
  pose proof (set_unregistered _ _ _ _ _ _ (Tube TS_UNKNOWN dest id None None sock) _ Hs U2 eq_refl) as U3.
  set (s3 := put_tubes_of _ s2) in *.
  apply ends_bind, runs_on_tubes. pose proof (ur_tubes _ _ _ _ _ _ _ U3) as Et3.
  eapply (runs_update t _ (Tube TS_UNKNOWN dest id None None sock)); [change (tubes_in s3 !! t = Some (Tube TS_UNKNOWN dest id None None sock)); by rewrite Et3, lookup_insert_eq|].
  pose proof (set_unregistered _ _ _ _ _ _ (opening_tube sock dest id) _ Hs U3 eq_refl) as U4.
  change (put_state TS_OPENING _) with (opening_tube sock dest id).
  set (s4 := put_tubes_of _ s3) in *. apply ends_bind.
  eapply (add_runs K E prog fuel prog_quiet fuel_ok d mg R s4 t (opening_tube sock dest id));
    [apply U4|done|by eapply opening_addable| |].
  - intros h R' s5 Eh Ea HR Hs5. destruct HR as [[-> _]|[-> _]].
    + eapply (refused d mg R s dest t (opening_tube sock dest id)); [done|].
      destruct U4 as [V1 V2 V3 V4 V5 V6 V7]. split; rewrite ?Ea; cbn; rewrite ?Eh; done.
    + apply ends_bind, runs_on_tubes. pose proof (ur_tubes _ _ _ _ _ _ _ U4) as Et.
      eapply (tube_destroy_runs t (opening_tube sock dest id)); [rewrite Ea; cbn; rewrite Eh, Et; apply lookup_insert_eq|done|].
      apply ends_ret. by eapply (oo_dangling d mg R s dest t id sock s5 Es (ur_fresh _ _ _ _ _ _ _ U4)).
  - intros h s5 Eh Hq Ho Hs5. change (tube_key (opening_tube sock dest id)) with (id_u64 id) in Hs5.
    eapply send_open_ends; [done..|apply U4|done|exact Hs5|]. exists (set_table h (app s4)).
    split_and!; [|apply U4|done]. cbn. rewrite Eh. apply U4.
Qed.

(** C8: opening a tube: all that [tube_manager_open_tube] may come to.  With open sockets and
    a random number that is not the ID of a tube, for any address, whatever fails: it is
    refused with the manager as it was and nothing allocated; or the tube is in the table,
    opening, its add event was delivered, and after that one OPEN was sent to the address;
    or, when the add event cannot be allocated, the tube is freed but stays in the table;
    or, when the OPEN cannot be sent, the tube is freed twice. *)
Theorem open_tube_outcomes d mg R s dest : serving d mg R s -> events_of E mg -> can_open mg R s dest ->
  ends (open_tube dest) s (open_outcome d mg R s dest).
Proof. apply open_ends. Qed.
End opening.
