(* ===== verification/ManagerTimers.v ===== *)
(** The manager's timers: the queue of src/tube_manager.c, as modelled in TubeManager.v,
    over the timers of LsTimer.v; scheduling, cancelling, and what the loop does with a
    timer whose time has come. *)

From S2P Require Import Prelude LsError LsStr LsMem PoolUse Store LsTimer LsHtable LsHash GHeap GHeapLayout PQueue Spud LsSockaddr LsPktinfo Tube LsEventing EventBindings EventDispatch EventNames EventLife TubeManager ManagerState.
Open Scope Z_scope.

(** The order of times is that of their microseconds only for well-formed ones; that of
    timercmp() is lexicographic and total on all. *)
Lemma timercmp_gt_spec a b : timercmp_gt a b = true <->
  tv_sec b < tv_sec a \/ tv_sec a = tv_sec b /\ tv_usec b < tv_usec a.
Proof. unfold timercmp_gt. case_decide; rewrite bool_decide_eq_true; lia. Qed.

Lemma timercmp_gt_false a b : timercmp_gt a b = false <->
  tv_sec a < tv_sec b \/ tv_sec a = tv_sec b /\ tv_usec a <= tv_usec b.
Proof. rewrite <- not_true_iff_false, timercmp_gt_spec. lia. Qed.

(** A queue whose items compare the same. *)
Lemma queue_ok_ext (ctx : layout) `{!HeapLayout ctx} {A} (less less' : A -> A -> bool) q ms :
  queue_ok ctx less q ms -> (forall a b, a ∈ ms -> b ∈ ms -> less' a b = less a b) ->
  queue_ok ctx less' q ms.
Proof.
  intros [Hb Hs Hh Hi] Hsame. split; [done|done| |done]. intros u a b Hu Hp Ha Hb'.
  assert (Hin : forall v c, 0 <= v < pq_size q -> at_ (pq_slots q) v = Some c -> c ∈ ms).
  { intros v c Hv Hc. rewrite <- Hi. apply list_elem_of_lookup. exists (Z.to_nat v).
    apply lookup_take_Some. split; [done|lia]. }
  pose proof (parent_range (ctx := ctx) u ltac:(lia)).
  rewrite Hsame; [by eapply Hh|eapply (Hin _ a); [|done]|eapply (Hin _ b); [|done]]; lia.
Qed.

Section timers.
Context {TCB TX SCB U : Type}.
Abbreviation mworld := (mworld TCB TX SCB U).
Abbreviation timers x := (st_objs (mw_timers x)).
Implicit Types (x : mworld) (ts : list loc) (t : loc).

#[export] Instance timer_order_weak x : StrictWeak (_timer_less x).
Proof.
  split; intros *; unfold _timer_less; rewrite ?timercmp_gt_spec, ?timercmp_gt_false; lia.
Qed.

#[export] Instance timer_queue_laws : QueueLaws mworld loc _timer_less.
Proof. split; try done. by intros []. Qed.

(** The queue of the manager holds the timers [ts], all of them live. *)
Record timers_ok x ts : Prop := {
  tk_queue : exists q, mw_queue x = Some q /\ queue_ok paged_binary_heap_ctx (_timer_less x) q ts;
  tk_live : forall t, t ∈ ts -> is_Some (timers x !! t);
  tk_once : NoDup ts;
  tk_wf : store_wf (mw_timers x);
  tk_room : Z.of_nat (length ts) < 2 ^ 30 }.

Lemma timers_live_runs x ts (Q : unit -> mworld -> Prop) : timers_ok x ts -> Q tt x -> runs timers_live x Q.
Proof.
  intros [(q & Eq & Hq) Hl _ _ _] HQ. unfold timers_live. run_step.
  eapply runs_load_queue; [done|]. run_step. run_step. rewrite (proj2 (forallb_forall _ _)); [by run_step|].
  intros t Ht%list_elem_of_In. rewrite (qo_items _ _ _ _ Hq) in Ht. by apply bool_decide_eq_true_2, Hl.
Qed.

(** The timers with other times, or more of them, hold for the queue when the order of
    those in it is the same. *)
Lemma timers_ok_ext x x' ts : timers_ok x ts -> mw_queue x' = mw_queue x ->
  (forall t, t ∈ ts -> timers x' !! t = timers x !! t) -> store_wf (mw_timers x') -> timers_ok x' ts.
Proof.
  intros [(q & Eq & Hq) Hl Hn Hw Hr] Eq' Et Hw'. split; [|intros t Ht; rewrite Et by done; by apply Hl|done..].
  exists q. split; [congruence|]. apply (queue_ok_ext _ (_timer_less x)); [exact Hq|]. intros a b Ha Hb. unfold _timer_less, due.
  by rewrite !Et.
Qed.

(** ** Scheduling and cancelling *)

(** Memory is there and the lock works. *)
Record reliable x : Prop := {
  re_oom : mw_oom x = [];
  re_sys : en_sys (mw_env x) = [];
  re_mgr : is_Some (mw_mgr x) }.

Lemma pop_oom_reliable x : mw_oom x = [] -> pop_oom x = x.
Proof. destruct x. cbn. by intros ->. Qed.

Lemma sys_reliable x (Q : res Z unit -> mworld -> Prop) : reliable x -> Q (Ok tt) x -> runs sys x Q.
Proof.
  intros [_ Es _] HQ. unfold sys, answer. run. rewrite Es. cbn.
  replace (set_env _ x) with x; [exact HQ|]. destruct x as [? ? ? ? ? ? [] ?]. cbn in *. by subst.
Qed.

Lemma the_mgr_runs x mg (Q : manager -> mworld -> Prop) : mw_mgr x = Some mg -> Q mg x -> runs the_mgr x Q.
Proof. intros Em HQ. unfold the_mgr. do 2 run_step. by apply (runs_live _ mg). Qed.

(** The timers changed, the rest did not. *)
Definition put_timers (st : store (ls_timer TCB TX)) (q : option (gpriority_queue loc)) x : mworld :=
  with_queue q (with_store st x).

Lemma put_timers_reliable st q x : reliable x -> reliable (put_timers st q x).
Proof. by intros []. Qed.

Lemma schedule_timer_runs x ts t (Q : res Z unit -> mworld -> Prop) : timers_ok x ts -> reliable x ->
  is_Some (timers x !! t) -> t ∉ ts -> Z.of_nat (S (length ts)) < 2 ^ 30 ->
  (forall q, timers_ok (put_timers (mw_timers x) q x) (t :: ts) ->
     Q (Ok tt) (put_timers (mw_timers x) q x)) ->
  runs (tube_manager_schedule_timer t) x Q.
Proof.
  intros Hok Hr Ht Hnew Hlen HQ. destruct (re_mgr _ Hr) as [mg Em]. unfold tube_manager_schedule_timer.
  run_step. apply (the_mgr_runs x mg); [done|]. unfold attempt. run_step. apply sys_reliable; [done|].
  run_step. eapply timers_live_runs; [done|]. run_step.
  pose proof Hok as [(q & Eq & Hq) Hl Hn Hw Hroom]. pose proof (queue_ok_length _ _ _ _ Hq) as Hsz.
  eapply runs_conseq.
  { apply (push_runs paged_binary_heap_ctx _timer_less q ts t x); [apply _|done|done|lia|].
    unfold has_memory. cbn. by rewrite (re_oom _ Hr). }
  intros b x1 (-> & q1 & x0 & -> & Hx0 & Hq1).
  assert (E0 : x0 = x) by (destruct Hx0 as [->| ->]; [done|by apply pop_oom_reliable, Hr]). subst x0.
  change (with_queue (Some q1) x) with (put_timers (mw_timers x) (Some q1) x).
  run_step. apply sys_reliable; [by apply put_timers_reliable|]. run_step. apply HQ. split; cbn.
  - exists q1. split; [done|]. exact Hq1.
  - intros t' [->|Ht']%elem_of_cons; [done|by apply Hl].
  - by constructor.
  - done.
  - lia.
Qed.

(** A new timer in the queue. *)
Lemma schedule_new_runs x ts cb (c : TX) tv (Q : res Z loc -> mworld -> Prop) :
  timers_ok x ts -> reliable x -> Z.of_nat (S (length ts)) < 2 ^ 30 ->
  (forall t q, t ∉ ts -> t = st_next (mw_timers x) -> timers x !! t = None ->
     let x' := put_timers (st_add (Timer cb c tv) (mw_timers x)) q x in
     timers x' !! t = Some (Timer cb c tv) -> timers_ok x' (t :: ts) -> Q (Ok t) x') ->
  runs (ret ←! ls_timer_create tv cb c; _ ←! tube_manager_schedule_timer ret; mret (Ok ret)) x Q.
Proof.
  intros Hok Hr Hlen HQ. pose proof Hok as [_ Hl _ Hw _]. pose proof (store_wf_fresh _ Hw) as Hf.
  unfold attempt. run_step. unfold ls_timer_create. run_step.
  apply runs_new_ok; [by cbn; rewrite (re_oom _ Hr)|]. rewrite (pop_oom_reliable x) by apply Hr.
  run_step. run_step. set (t := st_next _). set (x1 := with_store _ x).
  assert (Hnew : t ∉ ts).
  { intros Ht. destruct (Hl t Ht) as [tm Htm]. unfold t in Htm. cbn in Htm. by rewrite Hf in Htm. }
  assert (Ht1 : timers x1 !! t = Some (Timer cb c tv)) by (cbn; by rewrite lookup_insert_eq).
  eapply (schedule_timer_runs x1 ts t); [|by apply (put_timers_reliable _ (mw_queue x) x)|by eexists|done|done|].
  - eapply timers_ok_ext; [exact Hok|done| |by apply store_wf_add].
    intros t' Ht'. cbn. rewrite lookup_insert_ne; [done|]. intros E. by rewrite <- E in Ht'.
  - intros q Hq. run_step. by apply (HQ t q).
Qed.

(** A timer of the queue, cancelled: its time is the epoch from now on, which is before
    every other. *)
Lemma cancel_runs x ts t tm (Q : res Z unit -> mworld -> Prop) : timers_ok x ts -> reliable x ->
  t ∈ ts -> timers x !! t = Some tm ->
  (forall q, let x' := put_timers (st_set t (Timer (tm_cb tm) (tm_context tm) epoch) (mw_timers x)) q x in
     timers_ok x' ts -> Q (Ok tt) x') ->
  runs (tube_manager_cancel_timer t) x Q.
Proof.
  intros [(q & Eq & Hq) Hl Hn Hw Hroom] Hr Ht Etm HQ. destruct (re_mgr _ Hr) as [mg Em].
  pose proof (queue_ok_length _ _ _ _ Hq) as Hsz. unfold tube_manager_cancel_timer.
  run_step. apply (the_mgr_runs x mg); [done|]. run_step. unfold ls_timer_cancel. apply (runs_update t _ tm); [done|].
  set (tm' := Timer _ _ epoch). set (x1 := with_store _ x).
  assert (Hl1 : forall t', t' ∈ ts -> is_Some (timers x1 !! t')).
  { intros t' Ht'. cbn. destruct (decide (t' = t)) as [->|Hne]; [rewrite lookup_insert_eq; by eexists|].
    rewrite lookup_insert_ne by done. by apply Hl. }
  unfold attempt. run_step. apply sys_reliable; [by apply (put_timers_reliable _ (mw_queue x) x)|].
  run_step. unfold timers_live. run_step. eapply runs_load_queue; [exact Eq|]. run_step. run_step.
  rewrite (proj2 (forallb_forall _ _)).
  2:{ intros t' Ht'%list_elem_of_In. rewrite (qo_items _ _ _ _ Hq) in Ht'. by apply bool_decide_eq_true_2, Hl1. }
  run_step. run_step. eapply runs_load_queue; [exact Eq|]. run_step. eapply runs_on_slots; [exact Eq|].
  destruct Hq as [Hb Hs Hh Hi].
  eapply runs_conseq; [apply (make_heap_runs paged_binary_heap_ctx (_timer_less x1) (pq_size q)); [lia|lia]|].
  intros _ l [Hh' Hsh]. pose proof (shuffled_length _ _ _ Hsh) as Hlen.
  apply sys_reliable; [by apply (put_timers_reliable (st_set t tm' (mw_timers x)))|].
  apply (HQ (Some (PQ l (pq_alloc q) (pq_size q) (pq_capacity q)))). split; cbn; [|done|done| |done].
  - eexists. split; [done|]. split; cbn; [lia|lia|exact Hh'|].
    rewrite <- Hi. apply shuffled_take; [lia|done].
  - apply store_wf_set; [by rewrite Etm|done].
Qed.

(** ** The next timer *)

(** No timer of [ts] is due before [t]. *)
Definition earliest x ts t : Prop := t ∈ ts /\ forall b, b ∈ ts -> timercmp_gt (due x t) (due x b) = false.

Lemma put_timers_same x q : mw_queue x = Some q -> put_timers (mw_timers x) (Some q) x = x.
Proof. destruct x. cbn. by intros ->. Qed.

Lemma top_earliest x ts q t : queue_ok paged_binary_heap_ctx (_timer_less x) q ts ->
  at_ (pq_slots q) 0 = Some t -> 0 < pq_size q -> earliest x ts t.
Proof.
  intros Hq Ht Hpos. pose proof (queue_ok_length _ _ _ _ Hq) as Hsz. pose proof (qo_size _ _ _ _ Hq) as Hsize.
  split.
  - rewrite <- (qo_items _ _ _ _ Hq). apply list_elem_of_lookup. exists 0%nat. apply lookup_take_Some.
    split; [exact Ht|lia].
  - intros b Hb. rewrite <- (qo_items _ _ _ _ Hq) in Hb. apply list_elem_of_lookup in Hb as [i Hib].
    apply lookup_take_Some in Hib as [Hib Hin].
    apply (heap_root_max paged_binary_heap_ctx (_timer_less x) (pq_slots q) (pq_size q) t (Z.of_nat i) b);
      [apply Hq|lia|done|lia|]. unfold at_. by rewrite Nat2Z.id.
Qed.

Lemma next_timer_runs x ts mg (Q : pending * bool -> mworld -> Prop) : timers_ok x ts -> mw_mgr x = Some mg ->
  (ts = [] -> Q (PendingNone, false) x) ->
  (forall t, earliest x ts t -> timercmp_gt (due x t) (mg_last mg) = true ->
     Q (PendingUntil (if bool_decide (due x t = epoch) then None else Some (due x t)), false) x) ->
  (forall t ts' q', earliest x ts t -> timercmp_gt (due x t) (mg_last mg) = false -> ts ≡ₚ t :: ts' ->
     let x' := put_timers (st_del t (mw_timers x)) (Some q') x in
     timers_ok x' ts' -> at_ (pq_slots q') (pq_size q') = Some t -> Q (PendingStop, true) x') ->
  runs next_timer x Q.
Proof.
  intros Hok Em HN HU HP. pose proof Hok as [(q & Eq & Hq) Hl Hn Hw Hroom].
  pose proof (queue_ok_length _ _ _ _ Hq) as Hsz. pose proof (qo_size _ _ _ _ Hq) as Hsize. unfold next_timer, gpriority_queue_top.
  run_step. run_step. eapply runs_load_queue; [exact Eq|].
  destruct ts as [|t0 ts0] eqn:Ets.
  { rewrite decide_True by done. run_step. run_step. by apply HN. }
  destruct (queue_ok_top _ _ q _ Hq) as (t & Ht & Hpos); [done|]. rewrite decide_False by lia.
  rewrite <- Ets in *. clear Ets t0 ts0.
  pose proof (top_earliest _ _ _ _ Hq Ht Hpos) as Hmin.
  destruct (Hl t (proj1 Hmin)) as [tm Etm].
  assert (Ed : due x t = tm_tv tm) by (unfold due; by rewrite Etm).
  run_step. eapply runs_on_slots; [exact Eq|]. eapply runs_item_get; [lia|exact Ht|].
  replace (with_queue _ x) with x by (destruct q; symmetry; by apply put_timers_same).
  run_step. run_step. apply (the_mgr_runs x mg); [done|]. run_step. unfold ls_timer_greater_tv. run_step.
  apply (runs_load t tm); [done|]. run_step. rewrite <- Ed.
  destruct (timercmp_gt (due x t) (mg_last mg)) eqn:Elate.
  - run_step. destruct tm as [cb c tv]. apply (ls_timer_get_time_runs t cb c tv); [done|]. run_step.
    cbn in Ed. rewrite <- Ed. by apply HU.
  - run_step. eapply timers_live_runs; [exact Hok|]. run_step.
    eapply (pop_runs paged_binary_heap_ctx _timer_less _timer_del q ts); [apply _|exact Eq|exact Hq| |lia|].
    { intros ->. cbn in Hsz. lia. }
    intros q' t' ts' Hp _ Ht' Hq' Hlast. assert (t' = t) as -> by congruence.
    unfold _timer_del. apply runs_release; [by eexists|]. run_step.
    assert (Hout : t ∉ ts') by (rewrite Hp in Hn; by apply NoDup_cons in Hn as [? _]).
    assert (Hin : forall a, a ∈ ts' -> a ∈ ts) by (intros a Ha; rewrite Hp; by apply elem_of_cons; right).
    apply (HP t ts' q'); [done|done|done| |done]. split; cbn.
    + exists q'. split; [done|]. eapply (queue_ok_ext _ (_timer_less x)); [done|]. intros a b Ha Hb.
      unfold _timer_less, due. cbn. rewrite !lookup_delete_ne by congruence. done.
    + intros a Ha. rewrite lookup_delete_ne by congruence. by apply Hl, Hin.
    + rewrite Hp in Hn. by apply NoDup_cons in Hn as [_ ?].
    + by apply store_wf_del.
    + rewrite Hp in Hroom. cbn in Hroom. lia.
Qed.

(** ** Sessions *)
Inductive timer_op :=
  | Schedule (ms : Z) (cb : TCB) (c : TX)
  | ScheduleAt (tv : timeval) (cb : TCB) (c : TX)
  | Cancel (i : nat).   (* the timer that was scheduled as number [i] *)

(** [l] are the timers that were scheduled, in order. *)
Definition run_timer_op (l : list loc) (op : timer_op) : C mworld (list loc) :=
  match op with
  | Schedule ms cb c =>
      r ← tube_manager_schedule_ms ms cb c; mret (match r with Ok t => l ++ [t] | Err _ => l end)
  | ScheduleAt tv cb c =>
      r ← tube_manager_schedule tv cb c; mret (match r with Ok t => l ++ [t] | Err _ => l end)
  | Cancel i =>
      match l !! i with
      | Some t => _ ← tube_manager_cancel_timer t; mret l
      | None => mret l
      end
  end.

Fixpoint run_timer_ops (l : list loc) (ops : list timer_op) : C mworld (list loc) :=
  match ops with
  | [] => mret l
  | op :: ops => l ← run_timer_op l op; run_timer_ops l ops
  end.

(** The specification: the times of the timers that were scheduled. *)
Definition plan (now : timeval) (ds : list timeval) (op : timer_op) : list timeval :=
  match op with
  | Schedule ms _ _ => ds ++ [timeradd now (ms_delta ms)]
  | ScheduleAt tv _ _ => ds ++ [tv]
  | Cancel i => <[i := epoch]> ds
  end.

Lemma timers_ok_perm x ts ts' : timers_ok x ts -> ts ≡ₚ ts' -> timers_ok x ts'.
Proof.
  intros [(q & Eq & Hq) Hl Hn Hw Hr] Hp. split.
  - exists q. split; [done|]. by eapply queue_ok_perm.
  - intros t Ht. apply Hl. by rewrite Hp.
  - by rewrite <- Hp.
  - done.
  - by rewrite <- Hp.
Qed.

Definition planned mg ds l x : Prop :=
  timers_ok x l /\ reliable x /\ mw_mgr x = Some mg /\ due x <$> l = ds.

Lemma scheduled_runs mg ds l x cb (c : TX) tv (Q : res Z loc -> mworld -> Prop) : planned mg ds l x ->
  Z.of_nat (S (length l)) < 2 ^ 30 ->
  (forall t x', planned mg (ds ++ [tv]) (l ++ [t]) x' -> Q (Ok t) x') ->
  runs (ret ←! ls_timer_create tv cb c; _ ←! tube_manager_schedule_timer ret; mret (Ok ret)) x Q.
Proof.
  intros (Hok & Hr & Em & Ed) Hlen HQ.
  eapply schedule_new_runs; [exact Hok|exact Hr|done|]. cbv zeta. intros t q Hnew Enew Hnone Et Hok'.
  apply HQ. split_and!; [|by apply put_timers_reliable|done|].
  - eapply timers_ok_perm; [exact Hok'|]. apply Permutation_cons_append.
  - rewrite fmap_app, <- Ed. f_equal.
    + apply list_fmap_ext. intros i t' Ht'. apply list_elem_of_lookup_2 in Ht'. unfold due. cbn.
      rewrite lookup_insert_ne; [done|]. rewrite <- Enew. intros E.
      destruct (tk_live _ _ Hok t' Ht') as [tm Htm]. congruence.
    + cbn [fmap list_fmap]. unfold due. by rewrite Et.
Qed.

Lemma cancelled_runs mg ds l x i t (Q : res Z unit -> mworld -> Prop) : planned mg ds l x -> l !! i = Some t ->
  (forall x', planned mg (<[i := epoch]> ds) l x' -> Q (Ok tt) x') ->
  runs (tube_manager_cancel_timer t) x Q.
Proof.
  intros (Hok & Hr & Em & Ed) Hi HQ. pose proof (list_elem_of_lookup_2 _ _ _ Hi) as Ht.
  destruct (tk_live _ _ Hok t Ht) as [tm Htm].
  eapply cancel_runs; [done..|]. cbv zeta. intros q Hok'. apply HQ.
  split_and!; [done|by apply put_timers_reliable|done|]. rewrite <- Ed.
  apply list_eq. intros j. rewrite list_lookup_fmap. destruct (decide (j = i)) as [->|Hne].
  - rewrite Hi, list_lookup_insert_eq; [|rewrite length_fmap; by eapply lookup_lt_Some].
    cbn [fmap option_fmap option_map]. unfold due. cbn. by rewrite lookup_insert_eq.
  - rewrite list_lookup_insert_ne, list_lookup_fmap by done. destruct (l !! j) as [t'|] eqn:Hj; [|done].
    cbn [fmap option_fmap option_map]. unfold due. cbn. rewrite lookup_insert_ne; [done|].
    intros <-. apply Hne. by eapply NoDup_lookup; [apply Hok|..].
Qed.

Lemma run_timer_op_runs mg ds l x op (Q : list loc -> mworld -> Prop) : planned mg ds l x ->
  Z.of_nat (S (length l)) < 2 ^ 30 ->
  (forall l' x', planned mg (plan (mg_last mg) ds op) l' x' -> (length l' <= S (length l))%nat -> Q l' x') ->
  runs (run_timer_op l op) x Q.
Proof.
  intros Hp Hlen HQ. pose proof Hp as (Hok & Hr & Em & Ed).
  assert (Hnew : forall tv, (forall l' x', planned mg (ds ++ [tv]) l' x' -> (length l' <= S (length l))%nat -> Q l' x') ->
    forall t x', planned mg (ds ++ [tv]) (l ++ [t]) x' -> Q (l ++ [t]) x').
  { intros tv HQ' t x' Hp'. apply HQ'; [done|]. rewrite length_app. cbn. lia. }
  destruct op as [ms cb c|tv cb c|i]; cbn [run_timer_op plan] in *.
  - run_step. unfold tube_manager_schedule_ms. run_step. apply (the_mgr_runs x mg); [done|].
    unfold ls_timer_create_ms. eapply scheduled_runs; [done|done|]. intros t x' Hp'. run_step. by eapply Hnew.
  - run_step. unfold tube_manager_schedule. run_step. apply (the_mgr_runs x mg); [done|].
    eapply scheduled_runs; [done|done|]. intros t x' Hp'. run_step. by eapply Hnew.
  - destruct (l !! i) as [t|] eqn:Hi.
    + run_step. eapply cancelled_runs; [done|done|]. intros x' Hp'. run_step. apply HQ; [done|lia].
    + run_step. apply HQ; [|lia]. rewrite list_insert_ge; [done|]. rewrite <- Ed, length_fmap.
      by apply lookup_ge_None.
Qed.

Lemma run_timer_ops_runs mg ops : forall ds l x, planned mg ds l x -> Z.of_nat (length l + length ops) < 2 ^ 30 ->
  runs (run_timer_ops l ops) x (fun l' x' => planned mg (foldl (plan (mg_last mg)) ds ops) l' x').
Proof.
  induction ops as [|op ops IH]; intros ds l x Hp Hlen; cbn [run_timer_ops foldl]; [by run_step|].
  cbn in Hlen. run_step. eapply run_timer_op_runs; [done|lia|]. intros l' x' Hp' Hl'. apply IH; [done|lia].
Qed.

(** C16: the manager's agenda, as long as no allocation and no lock fails ([reliable]; after
    a push that failed the next one writes out of bounds, [pq_push_after_nomem_overflows]).
    After any sequence of schedulings, relative or at a time, and cancellations, fewer than
    2^30 of them, on an empty queue, it holds the timers that were scheduled, each with its time
    (the epoch, if it was cancelled); looking for the next timer then finds none when none
    was scheduled; the time of the earliest one, without taking it out, when that is after
    the manager's clock; and else takes out and frees an earliest timer, leaving the
    others with their times. *)
Theorem timer_agenda mg ops x : timers_ok x [] -> reliable x -> mw_mgr x = Some mg ->
  Z.of_nat (length ops) < 2 ^ 30 ->
  let ds := foldl (plan (mg_last mg)) [] ops in
  runs (l ← run_timer_ops [] ops; r ← next_timer; mret (l, r)) x (fun r x' =>
    length r.1 = length ds /\
    match r.2 with
    | (PendingNone, popped) => ds = [] /\ popped = false
    | (PendingUntil tv, popped) => popped = false /\ due x' <$> r.1 = ds /\ exists d, d ∈ ds /\
        (forall d', d' ∈ ds -> timercmp_gt d d' = false) /\ timercmp_gt d (mg_last mg) = true /\
        tv = (if bool_decide (d = epoch) then None else Some d)
    | (_, popped) => popped = true /\ exists i t d, r.1 !! i = Some t /\ ds !! i = Some d /\
        (forall d', d' ∈ ds -> timercmp_gt d d' = false) /\ timercmp_gt d (mg_last mg) = false /\
        timers x' !! t = None /\ timers_ok x' (delete i r.1) /\ due x' <$> delete i r.1 = delete i ds
    end).
Proof.
  intros Hok Hr Em Hlen ds. run_step.
  eapply runs_conseq; [apply (run_timer_ops_runs mg ops [] [] x); [by split_and!|cbn; lia]|].
  fold ds. intros l x1 (Hok1 & Hr1 & Em1 & Ed1). run_step.
  assert (Hin : forall d', d' ∈ ds -> exists b, b ∈ l /\ d' = due x1 b).
  { intros d' Hd. rewrite <- Ed1 in Hd. apply list_elem_of_fmap in Hd as (b & -> & Hb). by exists b. }
  eapply (next_timer_runs x1 l mg); [done|done|..].
  - intros ->. run_step. cbn in *. by rewrite <- Ed1.
  - intros t [Ht Hmin] Hlate. run_step. cbn [fst snd]. split_and!; [by rewrite <- Ed1, length_fmap|done|done|].
    exists (due x1 t). split_and!; [|intros d' (b & Hb & ->)%Hin; by apply Hmin|done|done].
    rewrite <- Ed1. by apply list_elem_of_fmap_2.
  - intros t ts' q' [Ht Hmin] Hlate Hp. cbv zeta. intros Hok' _. run_step. cbn [fst snd].
    split_and!; [by rewrite <- Ed1, length_fmap|done|].
    apply list_elem_of_lookup in Ht as [i Hi]. exists i, t, (due x1 t).
    assert (Hrest : delete i l ≡ₚ ts').
    { apply (Permutation_cons_inv (a := t)). rewrite <- Hp. symmetry. by apply delete_Permutation. }
    split_and!; [done| |intros d' (b & Hb & ->)%Hin; by apply Hmin|done|cbn; by rewrite lookup_delete_eq|..].
    + rewrite <- Ed1, list_lookup_fmap, Hi. done.
    + by eapply timers_ok_perm.
    + rewrite <- Ed1, <- list_fmap_delete. apply list_fmap_ext. intros j b Hb. unfold due. cbn.
      rewrite lookup_delete_ne; [done|]. intros <-. apply list_elem_of_lookup_2 in Hb. rewrite Hrest in Hb.
      pose proof (tk_once _ _ Hok1) as Hn. rewrite Hp in Hn. by apply NoDup_cons in Hn as [? _].
Qed.
End timers.

(** ** The loop and the timers *)
Section loop_timers.
Context {cbor : Type} `{!CborLib cbor}.
Context {CB TCB TX SCB U : Type} `{!EqDecision CB}.
Abbreviation mworld := (mworld TCB TX SCB U).
Abbreviation world := (world cbor CB TCB TX SCB U).
Abbreviation app s := (ec_app (hs_client s)).
Abbreviation timers x := (st_objs (mw_timers x)).
Implicit Types (s : world) (x : mworld).
Context (call_timer : TCB -> loc -> C world unit) (call_sig : SCB -> Z -> C world unit) (fuel : nat).

Lemma on_mw_done {T} (m : C mworld T) (r : T) s x' : m (app s) = Done (r, x') ->
  on_mw m s = Done (r, put_app x' s).
Proof.
  intros Hm. assert (H : runs (on_mw m) s (fun r' s' => r' = r /\ s' = put_app x' s)).
  { apply runs_on_mw. by eapply runs_done. }
  by destruct (runs_inv _ _ _ H) as (r' & s' & E & -> & ->).
Qed.

Lemma sys_done s : reliable (app s) -> on_mw sys s = Done (Ok tt, s).
Proof.
  intros Hr. assert (H : runs sys (app s) (fun r x => r = Ok tt /\ x = app s)) by (by apply sys_reliable).
  destruct (runs_inv _ _ _ H) as (r & x & E & -> & ->). by rewrite (on_mw_done _ _ _ _ E), put_app_same.
Qed.

Lemma get_mgr_done s mg : mw_mgr (app s) = Some mg -> get_mgr s = Done (mg, s).
Proof.
  intros Em. assert (H : runs get_mgr s (fun r s' => r = mg /\ s' = s)) by (by apply (runs_get_mgr mg)).
  by destruct (runs_inv _ _ _ H) as (r & x & E & -> & ->).
Qed.

(** The first slot of a queue that has been popped. *)
Lemma first_slot_done x q t : mw_queue x = Some q -> at_ (pq_slots q) 0 = Some t -> first_slot x = Done (t, x).
Proof.
  intros Eq Ht. assert (H : runs first_slot x (fun r x' => r = t /\ x' = x)).
  { unfold first_slot. eapply runs_on_slots; [exact Eq|]. eapply runs_item_get; [lia|exact Ht|].
    split; [done|]. destruct q. by apply put_timers_same. }
  by destruct (runs_inv _ _ _ H) as (r & x' & E & -> & ->).
Qed.

(** One turn of pending_timers() that takes a timer off. *)
Lemma pending_pop_done s mg n x' t : mw_mgr (app s) = Some mg -> mg_keep_going mg = true ->
  reliable (app s) -> reliable x' -> next_timer (app s) = Done ((PendingStop, true), x') ->
  first_slot x' = Done (t, x') ->
  pending_timers call_timer (S n) s =
    (ls_timer_exec call_timer t;; pending_timers call_timer n) (put_app x' s).
Proof.
  intros Em Hk Hr Hr' Hnext Hfirst. cbn [pending_timers].
  rewrite (bind_done _ _ _ _ _ (get_mgr_done s mg Em)), Hk. cbn [negb].
  rewrite (bind_done _ _ _ _ _ (sys_done s Hr)). cbn beta iota.
  rewrite (bind_done _ _ _ _ _ (on_mw_done _ _ _ _ Hnext)). cbn beta iota.
  rewrite (bind_done _ _ _ _ _ (sys_done (put_app x' s) Hr')). cbn beta iota.
  rewrite (bind_done _ _ _ _ _ (on_mw_done first_slot t (put_app x' s) x' Hfirst)). done.
Qed.

(** C17: the loop never runs the timer that is due.  When the time of a timer has come, an
    earliest timer [t] is freed by the pop of the queue; the pointer that was got before
    then leads, when [t] was the only timer, to [t] itself, which is used after it was
    freed, and else to an earliest one of the other timers, which is run in its place, be
    it due or not. *)
Theorem due_timer_misused s mg ts n : mw_mgr (app s) = Some mg -> mg_keep_going mg = true ->
  timers_ok (app s) ts -> reliable (app s) ->
  (exists t, t ∈ ts /\ timercmp_gt (due (app s) t) (mg_last mg) = false) ->
  exists t ts' x', earliest (app s) ts t /\ ts ≡ₚ t :: ts' /\
    timers x' = delete t (timers (app s)) /\ timers_ok x' ts' /\
    (ts' = [] -> pending_timers call_timer (S n) s = Fault UseAfterFree) /\
    (ts' <> [] -> exists t2 tm2, earliest x' ts' t2 /\ timers x' !! t2 = Some tm2 /\
       pending_timers call_timer (S n) s =
         (call_timer (tm_cb tm2) t2;; pending_timers call_timer n) (put_app x' s)).
Proof.
  intros Em Hk Hok Hr (t0 & Ht0 & Hdue).
  assert (Hnext : runs next_timer (app s) (fun r x' => exists t ts' q', r = (PendingStop, true) /\
    earliest (app s) ts t /\ ts ≡ₚ t :: ts' /\ x' = put_timers (st_del t (mw_timers (app s))) (Some q') (app s) /\
    timers_ok x' ts' /\ at_ (pq_slots q') (pq_size q') = Some t)).
  { eapply next_timer_runs; [done|done| | |].
    - intros ->. by apply not_elem_of_nil in Ht0.
    - intros t [Ht Hmin] Hlate. specialize (Hmin t0 Ht0).
      rewrite timercmp_gt_spec in Hlate. rewrite timercmp_gt_false in Hmin, Hdue. lia.
    - intros t ts' q' Ht _ Hp Hok' Hat. by exists t, ts', q'. }
  destruct (runs_inv _ _ _ Hnext) as (r & x' & E & t & ts' & q' & -> & Ht & Hp & -> & Hok' & Hat).
  set (x' := put_timers _ _ _) in *. assert (Hr' : reliable x') by (by apply put_timers_reliable).
  exists t, ts', x'. destruct (tk_queue _ _ Hok') as (q & Eq & Hq). injection Eq as <-.
  pose proof (queue_ok_length _ _ _ _ Hq) as Hsz. split_and!; [done|done|done|done| |].
  - intros ->. cbn in Hsz. rewrite Hsz in Hat.
    rewrite (pending_pop_done s mg n x' t Em Hk Hr Hr' E (first_slot_done x' q' t eq_refl Hat)).
    unfold ls_timer_exec, load, mbind, C_bind, c_get. cbn. by rewrite lookup_delete_eq.
  - intros Hne. destruct (queue_ok_top _ _ q' _ Hq) as (t2 & Ht2 & Hpos); [done|].
    pose proof (top_earliest _ _ _ _ Hq Ht2 Hpos) as Hmin2.
    destruct (tk_live _ _ Hok' t2 (proj1 Hmin2)) as [tm2 Htm2]. exists t2, tm2. split_and!; [done|done|].
    rewrite (pending_pop_done s mg n x' t2 Em Hk Hr Hr' E (first_slot_done x' q' t2 eq_refl Ht2)).
    unfold ls_timer_exec. unfold mbind, C_bind. by rewrite (load_done (S := world) t2 tm2).
Qed.

(** The timeout of select(): none without timers, and else the time from the manager's
    clock to the earliest timer. *)
Definition timeout_for mg ts x (timeout : option timeval) : Prop :=
  match ts with
  | [] => timeout = None
  | _ => exists t tv, earliest x ts t /\ timeout = Some tv /\ tv_wf tv /\
      usecs tv = usecs (due x t) - usecs (mg_last mg)
  end.

Definition pending_for ts x (r : pending) : Prop :=
  match ts with
  | [] => r = PendingNone
  | _ => exists t, earliest x ts t /\
      r = PendingUntil (if bool_decide (due x t = epoch) then None else Some (due x t))
  end.

(** No timer is due yet; the clock and the times are well-formed. *)
Record none_due mg (ts : list loc) x : Prop := {
  nd_clock : tv_wf (mg_last mg);
  nd_times : forall t, t ∈ ts -> tv_wf (due x t);
  nd_later : forall t, t ∈ ts -> usecs (mg_last mg) < usecs (due x t) }.

Lemma pending_none_due s mg ts n : mw_mgr (app s) = Some mg -> mg_keep_going mg = true ->
  timers_ok (app s) ts -> reliable (app s) -> (0 < n)%nat -> none_due mg ts (app s) ->
  runs (pending_timers call_timer n) s (fun r s' => s' = s /\ pending_for ts (app s) r).
Proof.
  intros Em Hk Hok Hr Hn [Hc Hwf Hlate]. destruct n as [|n]; [lia|]. cbn [pending_timers]. run_step.
  apply (runs_get_mgr mg); [done|]. rewrite Hk. cbn [negb]. run_step.
  apply runs_on_mw, sys_reliable; [done|]. rewrite put_app_same. run_step. apply runs_on_mw.
  eapply next_timer_runs; [done|done| | |].
  - intros ->. rewrite put_app_same. cbn beta iota. run_step. apply runs_on_mw, sys_reliable; [done|].
    rewrite put_app_same. by run_step.
  - intros t Ht _. rewrite put_app_same. cbn beta iota. run_step. apply runs_on_mw, sys_reliable; [done|].
    rewrite put_app_same. run_step. split; [done|]. destruct ts; [by destruct (not_elem_of_nil t (proj1 Ht))|].
    by exists t.
  - intros t ts' q' [Ht _] Hdue. specialize (Hlate t Ht).
    rewrite timercmp_gt_lt, timercmp_lt_usecs, bool_decide_eq_true_2 in Hdue by auto. done.
Qed.

Lemma wait_timeout_runs s mg ts r : mw_mgr (app s) = Some mg -> none_due mg ts (app s) ->
  pending_for ts (app s) r ->
  runs (wait_timeout r) s (fun timeout s' => s' = s /\ timeout_for mg ts (app s) timeout).
Proof.
  intros Em [Hc Hwf Hlate] Hp. destruct ts as [|t0 ts0] eqn:Ets.
  { cbn in Hp. subst r. unfold wait_timeout. by run_step. }
  destruct Hp as (t & Hmin & ->). pose proof (proj1 Hmin) as Ht.
  specialize (Hwf t Ht). specialize (Hlate t Ht). rewrite bool_decide_eq_false_2.
  2:{ intros Ee. rewrite Ee in Hlate. unfold usecs, tv_wf in *. cbn in Hlate. lia. }
  unfold wait_timeout. run_step. run_step. run_step. apply (runs_get_mgr mg); [done|]. run_step.
  destruct (timersub_usecs (due (app s) t) (mg_last mg)) as [Hw Hu]; [done|done|lia|].
  split; [done|]. by exists t, (timersub (due (app s) t) (mg_last mg)).
Qed.

(** C24: waiting for the next timer, with locks that work.  With no timer due, the loop sleeps in select() for
    exactly as long as it takes from the manager's clock to an earliest timer, in
    microseconds, or for ever when there are no timers; when a socket becomes readable in
    that time it is returned, the one for IPv6 first, and the timers are as before. *)
Theorem wait_until_next_timer s mg ts n ready6 ready4 l : mw_mgr (app s) = Some mg ->
  mg_keep_going mg = true -> timers_ok (app s) ts -> reliable (app s) -> (0 < fuel)%nat ->
  none_due mg ts (app s) -> en_selects (mw_env (app s)) = SelectReady None ready6 ready4 :: l ->
  0 <= mg_sock6 mg -> 0 <= mg_sock4 mg -> ready6 || ready4 = true ->
  runs (wait_loop call_timer call_sig fuel (S n)) s (fun r s' =>
    r = WaitSocket (if ready6 then mg_sock6 mg else mg_sock4 mg) /\ timers_ok (app s') ts /\
    exists timeout, timeout_for mg ts (app s) timeout /\
      en_waits (mw_env (app s')) = timeout :: en_waits (mw_env (app s))).
Proof.
  intros Em Hk Hok Hr Hf Hnd Esel H6 H4 Hready. cbn [wait_loop]. run_step.
  apply (runs_get_mgr mg); [done|]. rewrite Hk. cbn [negb]. run_step.
  eapply runs_conseq; [by apply (pending_none_due s mg ts)|]. intros r s' [-> Hp].
  pose proof (wait_timeout_runs s mg ts r Em Hnd Hp) as Htimeout.
  destruct r as [e| |tv|]; try (by destruct ts as [|? ?]; [|destruct Hp as (? & _ & [=])]).
  all: run_step; (eapply runs_conseq; [exact Htimeout|]); intros timeout s' [-> Ht]; run_step;
    apply runs_on_mw; unfold select, answer; run; cbn; rewrite Esel; cbn;
    run_step; run_step; run_step; (apply (runs_get_mgr mg); [done|]);
    rewrite !bool_decide_eq_true_2 by lia; cbn [andb]; destruct ready6; cbn in Hready; subst;
    run_step; (split_and!; [done|eapply timers_ok_ext; [exact Hok|done|done|apply Hok]|by exists timeout]).
Qed.
End loop_timers.
