(* ===== verification/ManagerLife.v ===== *)
(** The life of the manager: [tube_manager_create] and [tube_manager_destroy] of
    src/tube_manager.c as modelled in TubeManager.v.  Creation establishes the invariant of
    ManagerState.v or gives everything back; destruction gives everything back. *)

From S2P Require Import Prelude LsError LsStr LsMem PoolUse Store LsTimer LsHtable LsHash GHeap GHeapLayout PQueue Spud LsSockaddr LsPktinfo Tube LsEventing EventBindings EventDispatch EventNames EventLife TubeManager ManagerState ManagerTubes ManagerLoop ManagerTimers.
Open Scope Z_scope.

Section life.
Context {cbor : Type} `{!CborLib cbor}.
Context {CB TCB TX SCB U : Type} `{!EqDecision CB}.
Abbreviation mworld := (mworld TCB TX SCB U).
Abbreviation world := (world cbor CB TCB TX SCB U).
Abbreviation owned_event := (owned_event (CB := CB) (A := event_arg)).
Abbreviation app s := (ec_app (hs_client s)).
Abbreviation table x := (mw_table x).
Abbreviation tubes_of x := (hs_client (mw_table x)).
Abbreviation dispatchers s := (st_objs (ec_dispatchers (hs_client s))).
Implicit Types (s : world) (x : mworld) (w : tworld) (R : registry) (K : background (cbor := cbor) (CB := CB)).

(** ** The tubes *)

(** The tubes of [R] are gone, with their packet informations; the rest is as it was, and
    what was sent meanwhile are the CLOSE of tubes that were running, at most one each. *)
Record tubes_gone R w w' : Prop := {
  tg_tubes k t u : R !! k = Some (t, u) -> st_objs (tw_tubes w') !! t = None;
  tg_infos k t u p : R !! k = Some (t, u) -> t_pktinfo u = Some p -> st_objs (tw_infos w') !! p = None;
  tg_other_tubes t : (forall k u, R !! k <> Some (t, u)) ->
    st_objs (tw_tubes w') !! t = st_objs (tw_tubes w) !! t;
  tg_other_infos p : (forall k t u, R !! k = Some (t, u) -> t_pktinfo u <> Some p) ->
    st_objs (tw_infos w') !! p = st_objs (tw_infos w) !! p;
  tg_heap : same_heap (tw_pools w) (tw_pools w');
  tg_sent : exists l, tw_sent w' = tw_sent w ++ l /\ (length l <= size R)%nat /\
    Forall (fun dg => exists k t u w1, R !! k = Some (t, u) /\ t_state u = TS_RUNNING /\
      dg = packet w1 u SPUD_CLOSE false false []) l }.

Lemma tubes_gone_empty w : mem_wf (ps_mem (tw_pools w)) -> tubes_gone ∅ w w.
Proof.
  intros Hw. split; [intros k t u Hk; by rewrite lookup_empty in Hk|intros k t u p Hk; by rewrite lookup_empty in Hk|done|done|by apply same_heap_refl|].
  exists []. split_and!; [by rewrite app_nil_r|cbn; lia|constructor].
Qed.

Lemma tubes_gone_cons K R w w1 w2 k t u : tubes_ok K R w -> R !! k = Some (t, u) -> cleaned t u w w1 ->
  tubes_gone (delete k R) w1 w2 -> tubes_gone R w w2.
Proof.
  intros [H1 H2 H0 H3] Hk [C1 C2 _ C4 C5] [G1 G2 G3 G4 G5 (l & G6 & G7 & G8)].
  assert (Hone : forall k' u', R !! k' = Some (t, u') -> k' = k).
  { intros k' u' Hk'. destruct (H1 _ _ _ Hk) as (-> & _ & Ht & _), (H1 _ _ _ Hk') as (-> & _ & Ht' & _). congruence. }
  split.
  - intros k' t' u' Hk'. destruct (decide (k' = k)) as [->|Hne].
    + rewrite Hk in Hk'. injection Hk' as -> ->. rewrite G3, C1, lookup_delete_eq; [done|].
      intros k' u0 [Hne Hk']%lookup_delete_Some. apply Hne. symmetry. by eapply Hone.
    + apply (G1 k' t' u'). by rewrite lookup_delete_ne.
  - intros k' t' u' p Hk' Ep. destruct (decide (k' = k)) as [->|Hne].
    + rewrite Hk in Hk'. injection Hk' as -> ->. rewrite G4, C2, Ep, lookup_delete_eq; [done|].
      intros k' t0 u0 [Hne Hk']%lookup_delete_Some Ep'. apply Hne. by eapply H2.
    + eapply (G2 k' t' u'); [by rewrite lookup_delete_ne|done].
  - intros t' Hn. rewrite G3, C1, lookup_delete_ne; [done|by intros ->; eapply Hn|].
    intros k' u' [_ Hk']%lookup_delete_Some. by eapply Hn.
  - intros p Hn. rewrite G4, C2.
    + destruct (t_pktinfo u) as [q|] eqn:Eq; [|done]. rewrite lookup_delete_ne; [done|].
      intros ->. by eapply Hn.
    + intros k' t' u' [_ Hk']%lookup_delete_Some. by eapply Hn.
  - by eapply same_heap_trans.
  - assert (Hsz : size R = S (size (delete k R))) by (rewrite <- (insert_delete_id R k (t, u) Hk) at 1; rewrite map_size_insert_None; [done|apply lookup_delete_eq]).
    assert (Hl : Forall (fun dg => exists k t u w1, R !! k = Some (t, u) /\ t_state u = TS_RUNNING /\
      dg = packet w1 u SPUD_CLOSE false false []) l).
    { eapply Forall_impl; [exact G8|]. intros dg (k' & t' & u' & w' & [_ Hk']%lookup_delete_Some & H).
      by exists k', t', u', w'. }
    destruct C5 as [E|[Hst E]]; rewrite E in G6.
    + exists l. split_and!; [done|lia|done].
    + eexists (_ :: l). split_and!; [by rewrite G6, <- app_assoc|cbn; lia|].
      constructor; [|done]. by exists k, t, u, w.
Qed.

Lemma clean_tubes_runs K es : forall R w, es ≡ₚ (map_to_list (entry_for <$> R)).*2 -> tubes_ok K R w ->
  runs (run_calls clean_tube (clean_calls es)) w (fun _ w' => tubes_ok K ∅ w' /\ tubes_gone R w w').
Proof.
  induction es as [|e es IH]; intros R w Hp Hok.
  - apply Permutation_nil_l, symmetry, fmap_nil_inv, map_to_list_empty_iff, fmap_empty_inv in Hp as ->.
    apply (runs_ret tt). split; [done|]. apply tubes_gone_empty. apply (to_wf _ _ _ Hok).
  - assert (Hin : e ∈ (map_to_list (entry_for <$> R)).*2) by (rewrite <- Hp; by left).
    apply list_elem_of_fmap in Hin as ([k e'] & Ee & Hk%elem_of_map_to_list). cbn in Ee. subst e'.
    rewrite lookup_fmap in Hk. apply fmap_Some in Hk as ([t u] & Hk & ->).
    assert (Hes : es ≡ₚ (map_to_list (entry_for <$> delete k R)).*2).
    { rewrite <- (insert_delete_id R k (t, u) Hk) in Hp at 1. rewrite fmap_insert, map_to_list_insert in Hp.
      - cbn in Hp. by apply Permutation_cons_inv in Hp.
      - by rewrite lookup_fmap, lookup_delete_eq. }
    destruct (to_tubes _ _ _ Hok k t u Hk) as (_ & _ & Ht & Hu). destruct (to_wf _ _ _ Hok) as (W1 & W2 & W3).
    change (clean_calls (entry_for (t, u) :: es)) with
      ((tt, false, true, IdPtr (Z.pos t) (t_id u), Some t) :: clean_calls es).
    cbn [run_calls]. run_step. eapply runs_conseq; [by apply (clean_tube_runs t u)|].
    intros [] w1 Hc. eapply runs_conseq; [apply (IH (delete k R)); [done|by eapply tubes_ok_remove]|].
    intros [] w2 [Hok2 Hg]. split; [done|]. by eapply tubes_gone_cons.
Qed.

(** ** The timers *)
Lemma delete_timers_runs n : forall i q x, mw_queue x = Some q -> 0 <= i ->
  (Z.to_nat i + n <= length (pq_slots q))%nat -> NoDup (take n (drop (Z.to_nat i) (pq_slots q))) ->
  (forall t, t ∈ take n (drop (Z.to_nat i) (pq_slots q)) -> is_Some (st_objs (mw_timers x) !! t)) ->
  runs (delete_items _timer_less _timer_del n i) x (fun _ x' =>
    x' = put_timers (Store (without (take n (drop (Z.to_nat i) (pq_slots q))) (st_objs (mw_timers x)))
           (st_next (mw_timers x))) (Some q) x).
Proof.
  induction n as [|n IH]; intros i q x Hq Hi Hl Hnd Hlive; cbn [delete_items].
  - run_step. rewrite take_0. unfold put_timers. destruct x as [? [] ? ? ? ? ? ?]. cbn in *. by rewrite <- Hq.
  - destruct (at_lt (pq_slots q) i) as [t Ht]; [lia|]. rewrite (drop_S _ _ _ Ht) in *. cbn [take] in *.
    apply NoDup_cons in Hnd as [Hn Hnd]. replace (S (Z.to_nat i)) with (Z.to_nat (i + 1)) in * by lia.
    run_step. eapply (runs_on_slots _timer_less); [done|]. eapply runs_item_get; [lia|done|].
    run_step. unfold _timer_del, ls_timer_destroy. apply runs_release; [by apply Hlive; left|].
    eapply runs_conseq; [apply (IH (i + 1) q)|].
    + cbn. by destruct q.
    + lia.
    + lia.
    + done.
    + intros t' Ht'. cbn. rewrite lookup_delete_ne; [by apply Hlive; right|]. by intros ->.
    + intros _ x' ->. unfold put_timers. cbn. f_equal. f_equal. apply without_delete.
Qed.

(** ** Giving everything back *)

(** What the manager [mg] has, of which [K] and [b] are the rest: as much of a table with
    its tubes, a dispatcher with its events, and a queue with its timers as its fields say
    there is. *)
Record parts K b (mg : manager) R (L : list owned_event) (ts : list loc) s : Prop := {
  pa_mgr : mw_mgr (app s) = Some mg;
  pa_table : match mg_tubes mg with
    | Some t => table_rep (gr_table (bg_ground K)) t (entry_for <$> R) (table (app s))
    | None => R = ∅ /\ heap_of (table (app s)) = gr_table (bg_ground K)
    end;
  pa_tubes : tubes_ok K R (tubes_of (app s));
  pa_dispatcher : match mg_dispatcher mg with
    | Some d => (exists dd, dispatchers s !! d = Some dd /\ d_running dd = None /\ d_next_moment dd = None) /\
        owns_dispatcher b (gr_names (bg_ground K)) d L s
    | None => heap_of s = gr_names (bg_ground K) /\ owns_events b [] (hs_client s)
    end;
  pa_timers : match mw_queue (app s) with Some _ => timers_ok (app s) ts | None => ts = [] end }.

(** The rest of the state. *)
Definition elsewhere s s' : Prop := ec_moments (hs_client s') = ec_moments (hs_client s).

(** Another environment, or other fields of the manager. *)
Lemma owns_dispatcher_put_app b B d L x s : owns_dispatcher b B d L s -> owns_dispatcher b B d L (put_app x s).
Proof.
  intros [(dd & m & H1 & H2 & H3) H4 H5]. split; [|done|by eapply owns_events_ext].
  exists dd, m. split_and!; [done| |done]. by eapply table_rep_stores.
Qed.

Definition has_table K (mg : manager) R x : Prop :=
  match mg_tubes mg with
  | Some t => table_rep (gr_table (bg_ground K)) t (entry_for <$> R) (table x)
  | None => R = ∅ /\ heap_of (table x) = gr_table (bg_ground K)
  end.

Lemma parts_put_table K b mg mg' R R' L ts s x : parts K b mg R L ts s -> mw_mgr x = Some mg' ->
  mg_dispatcher mg' = mg_dispatcher mg -> has_table K mg' R' x -> tubes_ok K R' (tubes_of x) ->
  mw_queue x = mw_queue (app s) -> mw_timers x = mw_timers (app s) -> parts K b mg' R' L ts (put_app x s).
Proof.
  intros [H1 H2 H3 H4 H5] Em Ed Ht Hok Eq Eti. split; cbn; rewrite ?Ed, ?Eq; try done.
  - destruct (mg_dispatcher mg); destruct H4 as [H4 H6]; (split; [done|]).
    + by apply owns_dispatcher_put_app.
    + by eapply owns_events_ext.
  - destruct (mw_queue (app s)) as [q|] eqn:Eq'; [|done]. eapply timers_ok_ext; [exact H5|congruence| |].
    + intros t _. by rewrite Eti.
    + rewrite Eti. by destruct H5.
Qed.

Lemma parts_put_app K b mg mg' R L ts s x : parts K b mg R L ts s -> mw_mgr x = Some mg' ->
  mg_tubes mg' = mg_tubes mg -> mg_dispatcher mg' = mg_dispatcher mg -> table x = table (app s) ->
  mw_queue x = mw_queue (app s) -> mw_timers x = mw_timers (app s) -> parts K b mg' R L ts (put_app x s).
Proof.
  intros Hp Em Et Ed Etb Eq Eti. pose proof Hp as [_ H2 H3 _ _].
  eapply parts_put_table; [exact Hp|done..| | |done|done].
  - unfold has_table. by rewrite Et, Etb.
  - by rewrite Etb.
Qed.

(** The loop of the interrupt is over with the answers. *)
Lemma interrupt_loop_runs l : forall x (Q : res Z unit -> mworld -> Prop), en_writes (mw_env x) = l ->
  writes_ok x ->
  (forall r v, en_selects v = en_selects (mw_env x) -> en_recvs v = en_recvs (mw_env x) -> writes_ok (set_env v x) ->
     Q r (set_env v x)) -> runs (interrupt_loop (S (length l))) x Q.
Proof.
  induction l as [|a l IH]; intros x Q El Hw HQ; unfold writes_ok in Hw; rewrite El in Hw;
    cbn [interrupt_loop length]; unfold next_write, answer; run; cbn [set_env mw_env]; rewrite El; cbn [hd tail].
  - rewrite !decide_False by done. run_step. by apply HQ; try apply Forall_nil.
  - apply Forall_cons in Hw as [Ha Hw]. case_decide; [case_decide|rewrite (decide_False (P := a.1 = 0)) by done].
    + apply IH; [done|done|]. intros r v. apply (HQ r v).
    + run_step. by apply HQ.
    + run_step. by apply HQ.
Qed.

Lemma interrupt_runs c x (Q : res Z unit -> mworld -> Prop) : is_Some (mw_mgr x) -> writes_ok x ->
  (forall r v, en_selects v = en_selects (mw_env x) -> en_recvs v = en_recvs (mw_env x) -> writes_ok (set_env v x) ->
     Q r (set_env v x)) -> runs (tube_manager_interrupt c) x Q.
Proof.
  intros [mg Em] Hw HQ. unfold tube_manager_interrupt. run_step. apply (the_mgr_runs x mg); [done|].
  run_step. run_step. by apply interrupt_loop_runs.
Qed.

Lemma sys_any x (Q : res Z unit -> mworld -> Prop) : (forall r v, Q r (set_env v x)) -> runs sys x Q.
Proof. intros HQ. unfold sys, answer. run. apply HQ. Qed.

(** *** The table *)
Lemma tubes_back_runs K b mg R L ts s (Q : unit -> world -> Prop) : parts K b mg R L ts s ->
  (forall s', parts K b (put_tubes None mg) ∅ L ts s' -> tubes_gone R (tubes_of (app s)) (tubes_of (app s')) ->
     ec_dispatchers (hs_client s') = ec_dispatchers (hs_client s) ->
     ec_moments (hs_client s') = ec_moments (hs_client s) -> mw_queue (app s') = mw_queue (app s) ->
     mw_timers (app s') = mw_timers (app s) -> mw_user (app s') = mw_user (app s) -> Q tt s') ->
  runs (match mg_tubes mg with
        | Some t => on_table (ls_htable_destroy clean_tube t);; upd_mgr (put_tubes None)
        | None => mret tt
        end) s Q.
Proof.
  intros Hp HQ. pose proof Hp as [H1 H2 H3 H4 H5]. destruct (to_wf _ _ _ H3) as (_ & _ & W3).
  destruct (mg_tubes mg) as [t|] eqn:Et.
  - destruct H2 as (tab & arr & cs & Ht & HB & Hm).
    destruct (runs_inv _ _ _ (clean_tubes_runs K (entries cs) R (tubes_of (app s))
      ltac:(by rewrite <- Hm; apply map_to_list_entries, Ht) H3)) as ([] & w' & Ec & Hok & Hg).
    run_step. apply runs_on_table. eapply runs_conseq; [by eapply ls_htable_destroy_runs|].
    intros _ h [Hh Ew]. apply (runs_upd_mgr mg); [done|]. rewrite <- Ew in Hok, Hg.
    eapply HQ; [|done..]. change (parts K b (put_tubes None mg) ∅ L ts
      (put_app (set_mgr (Some (put_tubes None mg)) (set_table h (app s))) s)).
    eapply parts_put_table; [exact Hp|done|done|split; [done|cbn; by rewrite Hh]|done|done|done].
  - destruct H2 as [-> Hh]. run_step. apply HQ; [|by apply tubes_gone_empty|done..].
    replace (put_tubes None mg) with mg by (destruct mg; cbn in Et; by subst). done.
Qed.

(** *** The dispatcher *)
Lemma dispatcher_back_runs K b mg R L ts s (Q : unit -> world -> Prop) : parts K b mg R L ts s ->
  (forall s', parts K b (put_dispatcher None mg) R [] ts s' ->
     dispatchers s' = match mg_dispatcher mg with Some d => delete d (dispatchers s) | None => dispatchers s end ->
     ec_moments (hs_client s') = ec_moments (hs_client s) -> table (app s') = table (app s) ->
     mw_queue (app s') = mw_queue (app s) -> mw_timers (app s') = mw_timers (app s) ->
     mw_user (app s') = mw_user (app s) -> Q tt s') ->
  runs (match mg_dispatcher mg with
        | Some d => ls_event_dispatcher_destroy d;; upd_mgr (put_dispatcher None)
        | None => mret tt
        end) s Q.
Proof.
  intros Hp HQ. pose proof Hp as [H1 H2 H3 H4 H5]. destruct (mg_dispatcher mg) as [d|] eqn:Ed.
  - destruct H4 as [(dd & Hd & Hr & Hn) Ho]. run_step.
    eapply runs_conseq; [by eapply dispatcher_destroy_runs|].
    intros _ s1 (Hh & Hd1 & Ho1 & Hm1 & Ha1). apply (runs_upd_mgr mg); [by rewrite Ha1|].
    apply HQ; cbn; rewrite ?Ha1; try done. split; cbn; rewrite ?Ha1; try done.
    + split; [exact Hh|by eapply owns_events_ext].
    + destruct (mw_queue (app s)) as [q|] eqn:Eq'; [|done]. eapply timers_ok_ext; [exact H5|by cbn; rewrite Eq'|done|]. by destruct H5.
  - run_step. apply HQ; [|done..].
    replace (put_dispatcher None mg) with mg by (destruct mg; cbn in Ed; by subst).
    split; try done. by rewrite Ed.
Qed.

(** *** The queue *)
Lemma queue_back_runs ts x (Q : unit -> mworld -> Prop) : timers_ok x ts ->
  (forall st, st_objs st = without ts (st_objs (mw_timers x)) -> Q tt (put_timers st None x)) ->
  runs (timers_live;; gpriority_queue_delete _timer_less _timer_del) x Q.
Proof.
  intros Hok HQ. run_step. eapply timers_live_runs; [done|].
  destruct Hok as [(q & Eq & Hq) Hl Hn Hw _]. pose proof (qo_size _ _ _ _ Hq). pose proof (qo_items _ _ _ _ Hq) as Hi.
  unfold gpriority_queue_delete. run_step. eapply runs_load_queue; [done|]. run_step.
  eapply runs_conseq; [apply (delete_timers_runs _ 0 q); [done|lia|lia|..]|].
  - by rewrite drop_0, Hi.
  - intros t. rewrite drop_0, Hi. apply Hl.
  - intros _ x' ->. rewrite drop_0. run_step.
    apply (HQ (Store (without (take (Z.to_nat (pq_size q)) (pq_slots q)) (st_objs (mw_timers x))) (st_next (mw_timers x)))).
    apply without_ext. intros t. by rewrite Hi.
Qed.

(** *** All of it *)
Record given_back K b (mg : manager) R ts s s' : Prop := {
  gb_mgr : is_Some (mw_mgr (app s'));
  gb_names : heap_of s' = gr_names (bg_ground K);
  gb_events : owns_events b [] (hs_client s');
  gb_dispatchers : dispatchers s' =
    match mg_dispatcher mg with Some d => delete d (dispatchers s) | None => dispatchers s end;
  gb_moments : ec_moments (hs_client s') = ec_moments (hs_client s);
  gb_table : heap_of (table (app s')) = gr_table (bg_ground K);
  gb_tubes : tubes_gone R (tubes_of (app s)) (tubes_of (app s'));
  gb_queue : mw_queue (app s') = None;
  gb_timers : st_objs (mw_timers (app s')) = without ts (st_objs (mw_timers (app s)));
  gb_user : mw_user (app s') = mw_user (app s) }.

(** The end of [_tube_manager_finalize], the loop having been told to stop. *)
Lemma finalize_rest_runs K b mg R L ts s v : parts K b mg R L ts s ->
  runs (upd_mgr (put_initialized false);;
    _ ← on_mw sys;
    m ← get_mgr;
    (match mg_tubes m with
     | Some t => on_table (ls_htable_destroy clean_tube t);; upd_mgr (put_tubes None)
     | None => mret tt
     end);;
    m ← get_mgr;
    (match mg_dispatcher m with
     | Some d => ls_event_dispatcher_destroy d;; upd_mgr (put_dispatcher None)
     | None => mret tt
     end);;
    q ← on_mw (c_gets mw_queue);
    match q with
    | Some _ => on_mw (timers_live;; gpriority_queue_delete _timer_less _timer_del)
    | None => mret tt
    end) (put_app (set_env v (set_mgr (Some (put_keep_going false mg)) (app s))) s) (fun _ s' => given_back K b mg R ts s s').
Proof.
  intros Hp. set (mg1 := put_initialized false (put_keep_going false mg)). run_step.
  apply (runs_upd_mgr (put_keep_going false mg)); [done|]. run_step. apply runs_on_mw, sys_any.
  intros _ v2. cbv beta. set (s1 := put_app _ _).
  assert (Hp1 : parts K b mg1 R L ts s1) by (by apply (parts_put_app _ _ mg mg1 R L ts s (app s1))).
  run_step. apply (runs_get_mgr mg1); [done|]. run_step.
  eapply tubes_back_runs; [exact Hp1|]. intros s2 Hp2 Hg Hd2 Hm2 Hq2 Ht2 Hu2. run_step.
  apply (runs_get_mgr (put_tubes None mg1)); [apply Hp2|]. run_step.
  eapply dispatcher_back_runs; [exact Hp2|]. intros s3 Hp3 Hd3 Hm3 Htb3 Hq3 Ht3 Hu3. run_step.
  destruct Hp3 as [P1 [_ P2] P3 [P4 P5] P6].
  apply runs_on_mw. run_step. replace (put_app (app s3) s3) with s3 by (by destruct s3 as [? ? ? ? []]).
  change (mg_dispatcher (put_tubes None mg1)) with (mg_dispatcher mg) in Hd3. rewrite Hd2 in Hd3.
  assert (Hend : forall x, table x = table (app s3) -> is_Some (mw_mgr x) -> mw_queue x = None ->
    st_objs (mw_timers x) = without ts (st_objs (mw_timers (app s))) -> mw_user x = mw_user (app s3) ->
    given_back K b mg R ts s (put_app x s3)).
  { intros y E1 E2 E3 E4 E5. split; cbn; rewrite ?E1, ?Htb3; try done.
    - by eapply owns_events_ext.
    - by rewrite Hm3, Hm2.
    - by rewrite <- Htb3.
    - by rewrite E5, Hu3, Hu2. }
  assert (Et : mw_timers (app s3) = mw_timers (app s)) by (by rewrite Ht3, Ht2).
  destruct (mw_queue (app s3)) as [q|] eqn:Eq.
  - apply runs_on_mw. apply (queue_back_runs ts); [done|]. intros st Est.
    apply Hend; [done|by cbn; rewrite P1; eexists|done| |done]. cbn. by rewrite Est, Et.
  - subst ts. run_step. replace s3 with (put_app (app s3) s3) by (by destruct s3 as [? ? ? ? []]).
    apply Hend; [done|by rewrite P1; eexists|done|by rewrite Et|done].
Qed.

Lemma finalize_runs K b mg R L ts s : parts K b mg R L ts s -> (mg_initialized mg = true -> writes_ok (app s)) ->
  runs _tube_manager_finalize s (fun _ s' => given_back K b mg R ts s s').
Proof.
  intros Hp Hw. unfold _tube_manager_finalize. run_step. apply (runs_upd_mgr mg); [apply Hp|]. run_step.
  apply (runs_get_mgr (put_keep_going false mg)); [done|]. run_step.
  pose proof (fun v => finalize_rest_runs K b mg R L ts s v Hp) as Hmid.
  cbn [mg_initialized put_keep_going]. destruct (mg_initialized mg).
  - run_step. apply runs_on_mw, interrupt_runs; [by eexists|by apply Hw|]. intros r v _ _ _. run_step. apply Hmid.
  - run_step. specialize (Hmid (mw_env (app s))). exact Hmid.
Qed.

(** ** Destruction *)
Lemma serving_parts K E d mg R s ts : serving K E d mg R s -> mg_dispatcher mg = Some d -> timers_ok (app s) ts ->
  exists b L, base_like (gr_events (bg_ground K)) b /\ parts K b mg R L ts s.
Proof.
  intros [[[(dd & H1 & H2 & H3 & _) _ _ _] (b & L & [Ho Hb _ _ _ _])] H4 (t & H5 & H6) H7 H8] Ed Ht.
  exists b, L. split; [done|]. split; [done|by rewrite H5|done| |].
  - rewrite Ed. split; [by exists dd|done].
  - pose proof Ht as [(q & Eq & _) _ _ _ _]. by rewrite Eq.
Qed.

(** What is left of events, their bindings and their names. *)
Record events_back (b : event_base (CB := CB)) s' : Prop := {
  eb_back_events : st_objs (ec_events (hs_client s')) = eb_events b;
  eb_back_bindings l : unflag <$> st_objs (ec_bindings (hs_client s')) !! l = unflag <$> eb_bindings b !! l;
  eb_back_heap : same_heap (eb_pools b) (ec_pools (hs_client s')) }.

(** What is left when the manager with the tubes [R] and the timers [ts] is gone. *)
Record dismantled K R (ts : list loc) s s' : Prop := {
  di_mgr : mw_mgr (app s') = None;
  di_table : heap_of (table (app s')) = gr_table (bg_ground K);
  di_tubes : tubes_gone R (tubes_of (app s)) (tubes_of (app s'));
  di_dispatchers : dispatchers s' = gr_dispatchers (bg_ground K);
  di_moments : st_objs (ec_moments (hs_client s')) = gr_moments (bg_ground K);
  di_names : heap_of s' = gr_names (bg_ground K);
  di_events : events_back (gr_events (bg_ground K)) s';
  di_queue : mw_queue (app s') = None;
  di_timers : st_objs (mw_timers (app s')) = without ts (st_objs (mw_timers (app s)));
  di_user : mw_user (app s') = mw_user (app s) }.

Lemma finalize_serving K E d mg R s ts : serving K E d mg R s -> mg_dispatcher mg = Some d ->
  timers_ok (app s) ts ->
  runs _tube_manager_finalize s (fun _ s' => is_Some (mw_mgr (app s')) /\
    dismantled K R ts s (put_app (set_mgr None (app s')) s')).
Proof.
  intros Hs Ed Ht. destruct (serving_parts _ _ _ _ _ _ _ Hs Ed Ht) as (b & L & Hb & Hp).
  pose proof Hs as [[_ (_ & _ & [_ _ _ _ O5 O6])] _ _ _ [_ _ Hw _]].
  eapply runs_conseq; [by eapply finalize_runs|].
  intros _ s1 [G1 G2 G3 G4 G5 G6 G7 G8 G9 G10]. rewrite Ed in G4. split; [done|].
  apply owns_events_end in G3 as (E1 & E2 & E3). destruct Hb as [B1 B2 B3].
  split; cbn; try done.
  - by rewrite G4.
  - by rewrite G5.
  - split; [by rewrite <- B1|by intros l; rewrite <- B2, <- E2|by rewrite <- B3].
Qed.

Lemma destroy_runs K E d mg R s ts : serving K E d mg R s -> mg_dispatcher mg = Some d ->
  timers_ok (app s) ts -> runs tube_manager_destroy s (fun _ s' => dismantled K R ts s s').
Proof.
  intros Hs Ed Ht. unfold tube_manager_destroy. run_step.
  eapply runs_conseq; [by eapply finalize_serving|]. intros _ s1 [_ Hd]. apply runs_on_mw. run_step. exact Hd.
Qed.

(** C4: destroying a manager gives back its tubes, its table, its dispatcher and its queue.
    In any state between two calls that the invariant allows, with timers in its queue that
    are live, [tube_manager_destroy] ends without a fault: every tube is destroyed, with its
    packet information, after a CLOSE if it was running (or with none, when there is no
    memory for that CLOSE); the table, the dispatcher with its events, their names and
    bindings, the queue and its timers are gone; and everything else in the heap of these is
    as it was.  (The code does not close the sockets and the pipe, nor free the contexts of
    signals; of those the theorem says nothing.) *)
Theorem manager_destroyed K E d mg R s ts : serving K E d mg R s -> mg_dispatcher mg = Some d ->
  timers_ok (app s) ts -> runs tube_manager_destroy s (fun _ s' => dismantled K R ts s s').
Proof. apply destroy_runs. Qed.

(** ** Creation *)
Context (s0 : world).

Definition no_timers : gpriority_queue loc := PQ [] 1 0 1.

(** What there was before the manager; [N] are the names of the events it has now. *)
Definition before (N : gmap (list Z) loc) : background := Background
  (Ground (heap_of (table (app s0))) (heap_of s0) (base_of (hs_client s0)) (dispatchers s0)
     (st_objs (ec_moments (hs_client s0))) N)
  (st_objs (tw_infos (tubes_of (app s0)))) (Some no_timers)
  (en_selects (mw_env (app s0))) (en_recvs (mw_env (app s0))).

(** The same input and state of the client. *)
Definition same_rest x x' : Prop := same_input (mw_env x) (mw_env x') /\ mw_user x' = mw_user x.

#[local] Instance same_rest_po : PreOrder same_rest.
Proof. split; [done|]. intros x1 x2 x3 [E1 E2] [F1 F2]. split; [by etrans|congruence]. Qed.

(** The manager half-way: it has the parts that its fields name, and nothing else is
    different. *)
Record growing (mg : manager) (L : list owned_event) s : Prop := {
  gw_parts : parts (before ∅) (base_of (hs_client s0)) mg ∅ L [] s;
  gw_uninit : mg_initialized mg = false;
  gw_tubes : tubes_of (app s) = tubes_of (app s0);
  gw_dispatcher : match mg_dispatcher mg with
    | Some d => dispatchers s0 !! d = None /\
        exists t, dispatchers s = <[d := Dispatch ArgManager t None None None false]> (dispatchers s0)
    | None => L = [] /\ dispatchers s = dispatchers s0
    end;
  gw_plain : Forall (fun o => oe_bindings o = []) L;
  gw_moments : ec_moments (hs_client s) = ec_moments (hs_client s0);
  gw_timers : mw_timers (app s) = mw_timers (app s0);
  gw_queue : mw_queue (app s) = None \/ mw_queue (app s) = Some no_timers;
  gw_rest : same_rest (app s0) (app s) }.

Lemma growing_put_app mg mg' L s x : growing mg L s -> mw_mgr x = Some mg' ->
  mg_tubes mg' = mg_tubes mg -> mg_dispatcher mg' = mg_dispatcher mg ->
  mg_initialized mg' = mg_initialized mg -> table x = table (app s) ->
  mw_queue x = mw_queue (app s) -> mw_timers x = mw_timers (app s) ->
  same_rest (app s) x -> growing mg' L (put_app x s).
Proof.
  intros [H1 H2 H3 H4 H5 H6 H7 H8 H9] Em Et Ed Ei Etb Eq Eti Es.
  split; [by eapply parts_put_app|congruence|..]; cbn; rewrite ?Ed, ?Etb, ?Eq, ?Eti; try done.
  by etrans.
Qed.

Lemma upd_growing mg L f s (Q : unit -> world -> Prop) : growing mg L s ->
  mg_tubes (f mg) = mg_tubes mg -> mg_dispatcher (f mg) = mg_dispatcher mg ->
  mg_initialized (f mg) = mg_initialized mg ->
  (growing (f mg) L (put_app (set_mgr (Some (f mg)) (app s)) s) ->
   Q tt (put_app (set_mgr (Some (f mg)) (app s)) s)) -> runs (upd_mgr f) s Q.
Proof.
  intros Hg Et Ed Ei HQ. apply (runs_upd_mgr mg); [apply Hg|]. apply HQ. by eapply (growing_put_app mg).
Qed.

Lemma env_growing mg L s v : growing mg L s -> same_input (mw_env (app s)) v ->
  growing mg L (put_app (set_env v (app s)) s).
Proof. intros Hg Hv. eapply (growing_put_app mg); try done. apply Hg. Qed.

(** A system call; [init_parts] ends when it fails. *)
Definition outcome_of (done_ : world -> Prop) (r : res Z unit) s : Prop :=
  exists mg L, growing mg L s /\ (r = Ok tt -> done_ s).

Lemma sys_growing mg L s (Q : res Z unit -> world -> Prop) : growing mg L s ->
  (forall r v, growing mg L (put_app (set_env v (app s)) s) -> Q r (put_app (set_env v (app s)) s)) ->
  runs (on_mw sys) s Q.
Proof.
  intros Hg HQ. apply runs_on_mw. unfold sys, answer. run. apply HQ, env_growing; done.
Qed.

(** *** The table, the dispatcher *)
Lemma table_growing mg L s buckets (Q : res Z loc -> world -> Prop) : growing mg L s -> mg_tubes mg = None ->
  heap_wf (table (app s)) -> buckets <= 2 ^ 30 ->
  (forall e h, growing mg L (put_table h s) -> Q (Err e) (put_table h s)) ->
  (forall t h, let s1 := put_table h s in let mg1 := put_tubes (Some t) mg in
     growing mg1 L (put_app (set_mgr (Some mg1) (app s1)) s1) -> Q (Ok t) s1) ->
  runs (on_table (ls_htable_create buckets hash_id compare_id)) s Q.
Proof.
  intros Hg Et Hwf Hb H0 H1. pose proof Hg as [Hp H2 H3 H4 H5 H6 H7 H8 H9].
  pose proof Hp as [_ P2 P3 _ _]. rewrite Et in P2. destruct P2 as [_ P2].
  apply runs_on_table. eapply runs_conseq; [by apply (ls_htable_create_runs (HK := id_hashable))|].
  intros [t|e] h [Ec Ht].
  - apply H1. change (growing (put_tubes (Some t) mg) L
      (put_app (set_mgr (Some (put_tubes (Some t) mg)) (set_table h (app s))) s)).
    split; cbn; try done; [|by rewrite Ec].
    eapply parts_put_table; [exact Hp|done|done| |cbn; by rewrite Ec|done|done].
    unfold has_table. cbn [mg_tubes put_tubes table mw_table set_table set_mgr].
    rewrite fmap_empty, <- P2. exact Ht.
  - destruct Ht as (_ & Hh & _). apply H0.
    change (put_table h s) with (put_app (set_table h (app s)) s). split; cbn; try done; [|by rewrite Ec].
    eapply parts_put_table; [exact Hp|apply Hp|done| |cbn; by rewrite Ec|done|done].
    unfold has_table. rewrite Et. cbn. by rewrite Hh.
Qed.

Lemma ready_put_app x s : ready s -> ready (put_app x s).
Proof. by intros []. Qed.

(** The state with another dispatcher, its events and the names. *)
Lemma parts_dispatcher mg mg' L s s1 : growing mg [] s -> app s1 = app s -> mg_tubes mg' = mg_tubes mg ->
  match mg_dispatcher mg' with
  | Some d => (exists dd, dispatchers s1 !! d = Some dd /\ d_running dd = None /\ d_next_moment dd = None) /\
      owns_dispatcher (base_of (hs_client s0)) (heap_of s0) d L s1
  | None => heap_of s1 = heap_of s0 /\ owns_events (base_of (hs_client s0)) [] (hs_client s1)
  end ->
  parts (before ∅) (base_of (hs_client s0)) mg' ∅ L [] (put_app (set_mgr (Some mg') (app s1)) s1).
Proof.
  intros [[P1 P2 P3 P4 P5] H2 H3 H4 H5 H6 H7 H8 H9] Ea Et Hd. rewrite Ea.
  split; cbn; rewrite ?Et, ?Ea; try done.
  - destruct (mg_dispatcher mg'); destruct Hd as [? ?]; (split; [done|]);
      [by apply owns_dispatcher_put_app|by eapply owns_events_ext].
  - destruct (mw_queue (app s)) as [q|] eqn:Eq; [|done]. eapply timers_ok_ext; [exact P5|by cbn; rewrite Eq|done|]. by destruct P5.
Qed.

Lemma dispatcher_growing mg s len (Q : res Z loc -> world -> Prop) : growing mg [] s -> mg_dispatcher mg = None ->
  ready s -> base_of (hs_client s) = base_of (hs_client s0) -> heap_of s = heap_of s0 ->
  (forall e s1, growing mg [] s1 -> Q (Err e) s1) ->
  (forall d s1, let mg1 := put_dispatcher (Some d) mg in app s1 = app s ->
     growing mg1 [] (put_app (set_mgr (Some mg1) (app s1)) s1) -> Q (Ok d) s1) ->
  runs (ls_event_dispatcher_create ArgManager len) s Q.
Proof.
  intros Hg Ed Hr Eb Eh H0 H1. pose proof Hg as [Hp G2 G3 G4 G5 G6 G7 G8 G9]. rewrite Ed in G4. destruct G4 as [_ G4].
  eapply runs_conseq; [by apply dispatcher_create_runs|]. rewrite Eb, Eh, G4.
  intros [d|e] s1 (M1 & A1 & H).
  - apply H1; [done|]. destruct H as (Ho & Hf & t & Hd). split.
    1:{ eapply parts_dispatcher; [exact Hg|done|done|]. cbn. split; [|done].
        eexists. split; [by rewrite Hd, lookup_insert_eq|done]. }
    all: cbn; rewrite ?A1, ?M1; try done. split; [done|]. by exists t.
  - destruct H as (-> & Hh & Hd & Ho). apply H0.
    replace s1 with (put_app (set_mgr (Some mg) (app s1)) s1).
    + split.
      1:{ eapply parts_dispatcher; [exact Hg|done|done|]. by rewrite Ed. }
      all: cbn; rewrite ?A1, ?Ed, ?M1; done.
    + rewrite A1. destruct Hp as [Em _ _ _ _]. destruct s1 as [? ? ? ? [? ? ? ? ? x1]]. cbn in A1 |- *. subst x1.
      destruct (app s). cbn in Em. by subst.
Qed.

(** *** The events *)
Definition recorded (L : list owned_event) (p : ptr) : Prop := exists o, o ∈ L /\ p = Some (oe_at o).

Lemma recorded_cons L o p : recorded L p -> recorded (o :: L) p.
Proof. intros (o' & Ho & ->). exists o'. split; [by right|done]. Qed.

Lemma recorded_new L o : recorded (o :: L) (Some (oe_at o)).
Proof. exists o. split; [by left|done]. Qed.

Lemma growing_event mg mg' d L L' s s1 : growing mg L s -> mg_dispatcher mg = Some d ->
  same_elsewhere (hs_client s) (hs_client s1) -> mg_dispatcher mg' = Some d -> mg_tubes mg' = mg_tubes mg ->
  mg_initialized mg' = false -> owns_dispatcher (base_of (hs_client s0)) (heap_of s0) d L' s1 ->
  Forall (fun o => oe_bindings o = []) L' -> growing mg' L' (put_app (set_mgr (Some mg') (app s1)) s1).
Proof.
  intros Hg Ed [S1 S2 S3] Ed' Et' Ei' Ho Hpl. pose proof Hg as [Hp G2 G3 G4 G5 G6 G7 G8 G9].
  split; cbn; rewrite ?S1, ?S2, ?S3; try done; [|by rewrite Ed'; rewrite Ed in G4].
  destruct Hp as [P1 P2 P3 P4 P5]. rewrite Ed in P4. destruct P4 as [P4 _].
  split; cbn; rewrite ?Et', ?S3; try done.
  - rewrite Ed'. split; [by rewrite S1|by apply owns_dispatcher_put_app].
  - destruct (mw_queue (app s)) as [q|] eqn:Eq; [|done]. eapply timers_ok_ext; [exact P5|by cbn; rewrite Eq|done|]. by destruct P5.
Qed.

(** [ls_event_dispatcher_create_event] on the manager's dispatcher. *)
Lemma create_event_growing mg d L s name (Q : res Z loc -> world -> Prop) : growing mg L s ->
  mg_dispatcher mg = Some d -> cstr_wf name -> (length L <= 9)%nat ->
  (forall e s1, growing mg L s1 -> app s1 = app s -> Q (Err e) s1) ->
  (forall o s1, growing mg (o :: L) s1 -> app s1 = app s -> oe_key o = lower name -> oe_key o ∉ (oe_key <$> L) ->
     Q (Ok (oe_at o)) s1) ->
  runs (ls_event_dispatcher_create_event d name) s Q.
Proof.
  intros Hg Ed Hw Hl H0 H1.
  pose proof (pa_dispatcher _ _ _ _ _ _ _ (gw_parts _ _ _ Hg)) as Ho. rewrite Ed in Ho. destruct Ho as [_ Ho].
  pose proof (pa_mgr _ _ _ _ _ _ _ (gw_parts _ _ _ Hg)) as Em.
  assert (Hsame : forall s1, app s1 = app s -> put_app (set_mgr (Some mg) (app s1)) s1 = s1).
  { intros [? ? ? ? [? ? ? ? ? x1]]. cbn. intros ->. destruct (app s). cbn in Em. by subst. }
  eapply runs_conseq; [apply (create_event_owned (base_of (hs_client s0)) (heap_of s0) d L); [exact Ho|done|lia]|].
  intros [ev|e] s1 [Hs H]; cbn beta iota; pose proof (se_app _ _ Hs) as Ea.
  - destruct H as (n & En & _ & _ & Hk & Ho1).
    assert (Ek : oe_key (OwnedEvent ev n [] : owned_event) = lower name) by (unfold oe_key; cbn; by rewrite En).
    apply (H1 (OwnedEvent ev n [])); [|done|done|by rewrite Ek]. rewrite <- (Hsame s1 Ea).
    eapply growing_event; [exact Hg|done|done|done|done|by apply Hg|exact Ho1|]. constructor; [done|apply Hg].
  - destruct H as [Ho1 _]. apply H0; [|done]. rewrite <- (Hsame s1 Ea).
    eapply growing_event; [exact Hg|done|done|done|done|by apply Hg|exact Ho1|apply Hg].
Qed.

Lemma init_event_growing mg d L s name put (Q : res Z unit -> world -> Prop) : growing mg L s ->
  mg_dispatcher mg = Some d -> cstr_wf name -> (length L <= 5)%nat ->
  (forall p, mg_dispatcher (put p mg) = mg_dispatcher mg /\ mg_tubes (put p mg) = mg_tubes mg /\
     mg_initialized (put p mg) = mg_initialized mg) ->
  (forall e s1, growing mg L s1 -> Q (Err e) s1) ->
  (forall o s1, growing (put (Some (oe_at o)) mg) (o :: L) s1 -> oe_key o = lower name -> Q (Ok tt) s1) ->
  runs (init_event name put) s Q.
Proof.
  intros Hg Ed Hw Hl Hput H0 H1. unfold init_event, attempt. run_step. apply (runs_get_mgr mg); [apply Hg|].
  rewrite Ed. run_step. run_step. run_step.
  eapply create_event_growing; [exact Hg|done|done|lia|intros e s1 G1 _; cbn beta iota; run_step; by apply H0|].
  intros o s1 G1 _ Ek _. cbn beta iota. destruct (Hput (Some (oe_at o))) as (E1 & E2 & E3).
  run_step. eapply upd_growing; [exact G1|done..|]. intros G2. run_step. by apply (H1 o).
Qed.

Ltac event_step Hg Ed H0 :=
  unfold attempt at 1; run_step;
  eapply init_event_growing; [exact Hg|exact Ed|by repeat constructor|cbn; lia|done
    |by intros; run_step; eapply H0|].

Lemma init_events_growing mg d s (Q : res Z unit -> world -> Prop) : growing mg [] s -> mg_dispatcher mg = Some d ->
  (forall e mg1 L s1, growing mg1 L s1 -> Q (Err e) s1) ->
  (forall o1 o2 o3 o4 o5 o6 s1, growing (with_events mg (Some (oe_at o1)) (Some (oe_at o2)) (Some (oe_at o3))
       (Some (oe_at o4)) (Some (oe_at o5)) (Some (oe_at o6))) [o6; o5; o4; o3; o2; o1] s1 ->
     oe_key <$> [o6; o5; o4; o3; o2; o1] = [EV_REMOVE_NAME; EV_ADD_NAME; EV_CLOSE_NAME; EV_DATA_NAME;
       EV_RUNNING_NAME; EV_LOOPSTART_NAME] -> Q (Ok tt) s1) ->
  runs init_events s Q.
Proof.
  intros Hg Ed H0 H1. unfold init_events.
  event_step Hg Ed H0. intros o1 s1 G1 N1. cbv beta iota.
  event_step G1 Ed H0. intros o2 s2 G2 N2. cbv beta iota.
  event_step G2 Ed H0. intros o3 s3 G3 N3. cbv beta iota.
  event_step G3 Ed H0. intros o4 s4 G4 N4. cbv beta iota.
  event_step G4 Ed H0. intros o5 s5 G5 N5. cbv beta iota.
  eapply init_event_growing; [exact G5|exact Ed|by repeat constructor|cbn; lia|done|by intros; eapply H0|].
  intros o6 s6 G6 N6. apply (H1 o1 o2 o3 o4 o5 o6 s6 G6). cbn. by rewrite N1, N2, N3, N4, N5, N6.
Qed.

(** *** The queue, the pipe *)
Lemma queue_growing mg L s (Q : bool -> world -> Prop) : growing mg L s -> store_wf (mw_timers (app s0)) ->
  (forall s1, growing mg L s1 -> Q false s1) ->
  (forall s1, growing mg L s1 -> mw_queue (app s1) = Some no_timers -> Q true s1) ->
  runs (on_mw gpriority_queue_create) s Q.
Proof.
  intros Hg Hw H0 H1. apply runs_on_mw. unfold gpriority_queue_create.
  assert (Hoom : forall o, growing mg L (put_app (with_oom o (app s)) s)).
  { intros o. eapply (growing_put_app mg); try done. apply Hg. }
  run_step. apply runs_oom. destruct (hd _ _); [run_step; apply H0, Hoom|].
  run_step. apply runs_oom. destruct (hd _ _); [run_step; apply H0, Hoom|].
  unfold save_queue. run. apply H1; [|done]. pose proof Hg as [[P1 P2 P3 P4 _] G2 G3 G4 G5 G6 G7 G8 G9].
  split; cbn; try done; [|by right]. split; cbn; try done.
  - destruct (mg_dispatcher mg); destruct P4 as [P4 P5]; (split; [done|]);
      [by apply owns_dispatcher_put_app|by eapply owns_events_ext].
  - split; cbn; [|by intros t Ht%elem_of_nil|constructor|by rewrite G7|lia].
    eexists. split; [done|]. split; cbn; [lia|lia| |done]. intros u a b Hu. lia.
Qed.

Lemma init_pipe_end_growing mg L s fd (Q : res Z unit -> world -> Prop) : growing mg L s ->
  (forall r v, let mg1 := put_max_fd (Z.max (mg_max_fd mg) fd) mg in
     let s1 := put_app (set_env v (set_mgr (Some mg1) (app s))) s in growing mg1 L s1 -> Q r s1) ->
  runs (init_pipe_end fd) s Q.
Proof.
  intros Hg HQ. unfold init_pipe_end, attempt. run_step. eapply upd_growing; [exact Hg|done..|]. intros G1.
  run_step. eapply sys_growing; [exact G1|]. intros [[]|e] v G2; cbn beta iota.
  - eapply sys_growing; [exact G2|]. intros r v2 G3. exact (HQ r v2 G3).
  - run_step. exact (HQ (Err e) v G2).
Qed.

(** ** The whole manager *)
Record grown mg L s : Prop := {
  gr_growing : growing mg L s;
  gr_queue : mw_queue (app s) = Some no_timers;
  gr_has_table : is_Some (mg_tubes mg);
  gr_has_dispatcher : is_Some (mg_dispatcher mg);
  gr_going : mg_keep_going mg = true;
  gr_recorded : Forall (recorded L)
    [mg_loopstart mg; mg_running mg; mg_ev_data mg; mg_close mg; mg_add mg; mg_remove mg] }.

Lemma grown_app mg mg' L s s1 : grown mg L s -> growing mg' L s1 -> mw_queue (app s1) = mw_queue (app s) ->
  mg' = put_pipe (mg_pipe_r mg') (mg_pipe_w mg') (put_max_fd (mg_max_fd mg') (put_last (mg_last mg') mg)) ->
  grown mg' L s1.
Proof.
  intros [G1 G2 G3 G4 G5 G6] Hg Eq E. split; [done|congruence|rewrite E; done..].
Qed.

Definition first_manager : manager :=
  put_pipe (-1) (-1) (put_keep_going true (put_max_fd (-1) (put_socks (-1) (-1) (put_initialized false manager_zero)))).

(** The events are the manager's six, by name. *)
Definition six_named (mg : manager) (L : list owned_event) : Prop := length L = 6%nat /\ forall k, known_events L !! k = event_named mg k.

(** What [init_parts] leaves: something to take back, or a manager. *)
Definition half_or_whole (r : res Z unit) s : Prop := exists mg L,
  growing mg L s /\
  match r with Ok _ => grown mg L s /\ six_named mg L | Err _ => True end.

(** A call of the system that answers something. *)
Lemma time_growing mg L s (Q : res Z timeval -> world -> Prop) : growing mg L s ->
  (forall r v, growing mg L (put_app (set_env v (app s)) s) -> Q r (put_app (set_env v (app s)) s)) ->
  runs (on_mw gettimeofday) s Q.
Proof. intros Hg HQ. apply runs_on_mw. unfold gettimeofday, answer. run. apply HQ, env_growing; done. Qed.

Lemma pipe_growing mg L s (Q : res Z (Z * Z) -> world -> Prop) : growing mg L s ->
  (forall r v, growing mg L (put_app (set_env v (app s)) s) -> Q r (put_app (set_env v (app s)) s)) ->
  runs (on_mw pipe) s Q.
Proof.
  intros Hg HQ. apply runs_on_mw. unfold pipe, attempt. run_step.
  assert (Hfd : forall x (P : res Z Z -> mworld -> Prop), (forall r v, same_input (mw_env x) v ->
    P r (set_env v x)) -> runs new_fd x P).
  { intros x P HP. unfold new_fd, answer. run. by apply HP. }
  apply Hfd. intros [r|e] v Es; cbn beta iota; [|run_step; by apply HQ, env_growing].
  run_step. apply Hfd. intros [w|e] v2 Es2; cbn beta iota; run_step;
    (apply (HQ _ v2), env_growing; [done|by etrans]).
Qed.

Lemma init_rest_runs mg L s : grown mg L s -> six_named mg L ->
  runs (now ←! on_mw gettimeofday;
        upd_mgr (put_last now);;
        ends ←! on_mw pipe;
        upd_mgr (put_pipe ends.1 ends.2);;
        _ ←! init_pipe_end ends.1;
        init_pipe_end ends.2) s half_or_whole.
Proof.
  intros Hw HN. pose proof (gr_growing _ _ _ Hw) as Hg.
  assert (Herr : forall e mg' s', growing mg' L s' -> half_or_whole (Err e) s') by (intros; by eexists _, L).
  unfold attempt. run_step. eapply time_growing; [exact Hg|]. intros [now|e] v G1; cbn beta iota; [|by run_step; eapply Herr].
  run_step. eapply upd_growing; [exact G1|done..|]. intros G2.
  run_step. eapply pipe_growing; [exact G2|]. intros [[r w]|e] v2 G3; cbn beta iota; [|by run_step; eapply Herr].
  run_step. eapply upd_growing; [exact G3|done..|]. intros G4.
  run_step. eapply init_pipe_end_growing; [exact G4|]. intros r1 v3 mg5 s5 G5.
  destruct r1 as [[]|e]; cbn beta iota; [|by run_step; eapply Herr].
  eapply init_pipe_end_growing; [exact G5|]. intros r2 v4 mg6 s6 G6. exists mg6, L. split; [done|].
  destruct r2; [|done]. split; [by eapply grown_app|exact HN].
Qed.

(** The manager's six events by name. *)
Lemma six_known mg (o1 o2 o3 o4 o5 o6 : owned_event) k :
  oe_key <$> [o6; o5; o4; o3; o2; o1] = [EV_REMOVE_NAME; EV_ADD_NAME; EV_CLOSE_NAME; EV_DATA_NAME;
    EV_RUNNING_NAME; EV_LOOPSTART_NAME] ->
  known_events [o6; o5; o4; o3; o2; o1] !! k =
    event_named (with_events mg (Some (oe_at o1)) (Some (oe_at o2)) (Some (oe_at o3))
      (Some (oe_at o4)) (Some (oe_at o5)) (Some (oe_at o6))) k.
Proof.
  intros [= E6 E5 E4 E3 E2 E1]. unfold known_events, event_named. cbn. rewrite E1, E2, E3, E4, E5, E6.
  rewrite !lookup_insert, lookup_empty. repeat (case_decide; subst; try done).
Qed.

Lemma init_parts_runs s buckets len : growing first_manager [] s -> heap_wf (table (app s)) -> ready s -> base_of (hs_client s) = base_of (hs_client s0) -> heap_of s = heap_of s0 ->
  store_wf (mw_timers (app s0)) -> buckets <= 2 ^ 30 -> runs (init_parts buckets len) s half_or_whole.
Proof.
  intros Hg Hwf Hr Eb Eh Hwt Hb. unfold init_parts, attempt.
  assert (Herr : forall e mg' L' s', growing mg' L' s' -> half_or_whole (Err e) s') by (intros; by eexists _, _).
  run_step. eapply sys_growing; [exact Hg|]. intros [[]|e] v G1; cbn beta iota; [|by run_step; eapply Herr].
  run_step. eapply table_growing; [exact G1|done|done|done|intros e h G2; run_step; by eapply Herr|].
  intros t h s2 mg2 G2. cbn beta iota. run_step. apply (runs_upd_mgr first_manager); [apply Hg|].
  run_step. eapply dispatcher_growing; [exact G2|done|by do 3 apply ready_put_app|done|done|intros e s3 G3; run_step; by eapply Herr|].
  intros d s3 mg3 A3 G3. cbn beta iota. run_step. apply (runs_upd_mgr mg2); [by rewrite A3|]. run_step.
  eapply init_events_growing; [exact G3|done|intros e mg4 L4 s4 G4; cbn beta iota; run_step; by eapply Herr|].
  intros o1 o2 o3 o4 o5 o6 s4 G4 Ek. cbn beta iota. run_step.
  eapply queue_growing; [exact G4|done|intros s5 G5; cbn [negb]; run_step; by eapply Herr|].
  intros s5 G5 Eq. cbn [negb]. eapply init_rest_runs.
  - split; [exact G5|done|by eexists|by eexists|done|].
    repeat (constructor; [repeat first [apply recorded_new|apply recorded_cons]|]). constructor.
  - split; [done|]. intros k. by apply six_known.
Qed.

(** *** What it is when it is whole *)

(** The events with their callbacks: none yet. *)
Definition events_in (L : list owned_event) : gmap loc (list (CB * event_arg)) :=
  list_to_map ((fun o => (oe_at o, [])) <$> L).

Lemma events_in_lookup L e vs : events_in L !! e = Some vs -> vs = [] /\ exists o, o ∈ L /\ e = oe_at o.
Proof.
  intros H%elem_of_list_to_map_2. apply list_elem_of_fmap in H as (o & [= -> ->] & Ho). split; [done|by exists o].
Qed.

Lemma recorded_bound L p : recorded L p -> bound (events_in L) p.
Proof.
  intros (o & Ho & ->). exists (oe_at o). split; [done|].
  destruct (events_in L !! oe_at o) as [vs|] eqn:E; [by eexists|].
  apply not_elem_of_list_to_map_2 in E. destruct E. rewrite <- list_fmap_compose.
  by apply (list_elem_of_fmap_2 oe_at L o) in Ho.
Qed.

Lemma grown_serving mg L s : grown mg L s -> store_wf (ec_moments (hs_client s0)) -> writes_ok (app s0) ->
  store_wf (mw_timers (app s0)) ->
  exists d, mg_dispatcher mg = Some d /\ serving (before (known_events L)) (events_in L) d mg ∅ s /\
    events_of (events_in L) mg.
Proof.
  intros [Hg Hq [t Et] [d Ed] _ Hrec] Hwm Hww Hwt. exists d. split; [done|].
  pose proof Hg as [[P1 P2 P3 P4 P5] G2 G3 G4 G5 G6 G7 G8 [(Es & Er & Ew) _]]. rewrite Et in P2. rewrite Ed in P4, G4.
  destruct P4 as [_ Ho]. destruct G4 as (Hf & td & Hd). split; [split|].
  - split.
    2:{ eexists _, L. split; [exact Ho|done|done| |cbn; rewrite Hd; by apply delete_insert_id|cbn; by rewrite G6].
        intros e. split; [intros [vs [_ (o & Hin & ->)]%events_in_lookup]; by apply list_elem_of_fmap_2|].
        intros (o & -> & Hin)%list_elem_of_fmap. by destruct (recorded_bound L (Some (oe_at o))) as (e & [= <-] & He); [exists o|]. }
    split.
    + eexists. split; [by rewrite Hd, lookup_insert_eq|done].
    + by rewrite G6.
    + apply (oe_wf _ _ _ (od_events _ _ _ _ _ Ho)).
    + intros e vs [-> (o & Hin & ->)]%events_in_lookup. destruct Ho as [_ Hm [Heach _ _ _ _ _ _ _]].
      apply (Forall_forall _ _) with (x := o) in Heach; [|done]. apply (Forall_forall _ _) with (x := o) in Hm; [|done].
      apply (Forall_forall _ _) with (x := o) in G5; [|done]. destruct Heach as [He Hc]. rewrite G5 in Hc.
      exists (oe_notifier o), []. split_and!; [done..|constructor].
  - done.
  - by exists t.
  - destruct P3. by split.
  - split; [done|by split| |by rewrite G7]. unfold writes_ok. by rewrite Ew.
  - rewrite !Forall_cons in Hrec. destruct Hrec as (? & ? & ? & ? & ? & ? & _). split; by apply recorded_bound.
Qed.

(** Nothing is left of it. *)
Record nothing_left s : Prop := {
  nl_mgr : mw_mgr (app s) = None;
  nl_table : heap_of (table (app s)) = heap_of (table (app s0));
  nl_tubes : st_objs (tw_tubes (tubes_of (app s))) = st_objs (tw_tubes (tubes_of (app s0))) /\
    st_objs (tw_infos (tubes_of (app s))) = st_objs (tw_infos (tubes_of (app s0))) /\
    same_heap (tw_pools (tubes_of (app s0))) (tw_pools (tubes_of (app s))) /\
    tw_sent (tubes_of (app s)) = tw_sent (tubes_of (app s0));
  nl_dispatchers : dispatchers s = dispatchers s0;
  nl_names : heap_of s = heap_of s0;
  nl_events : st_objs (ec_events (hs_client s)) = st_objs (ec_events (hs_client s0)) /\
    st_objs (ec_bindings (hs_client s)) = st_objs (ec_bindings (hs_client s0)) /\
    same_heap (ec_pools (hs_client s0)) (ec_pools (hs_client s));
  nl_moments : ec_moments (hs_client s) = ec_moments (hs_client s0);
  nl_queue : mw_queue (app s) = None;
  nl_timers : st_objs (mw_timers (app s)) = st_objs (mw_timers (app s0));
  nl_user : mw_user (app s) = mw_user (app s0) }.

Lemma growing_given_back mg L s s1 : growing mg L s ->
  given_back (before ∅) (base_of (hs_client s0)) mg ∅ [] s s1 -> nothing_left (put_app (set_mgr None (app s1)) s1).
Proof.
  intros [_ H2 H3 H4 H5 H6 H7 H8 H9] [G1 G2 G3 G4 G5 G6 G7 G8 G9 G10]. apply owns_events_end in G3 as (E1 & E2 & E3).
  rewrite H3 in G7. destruct G7 as [_ _ T3 T4 T5 (l & T6 & T7 & _)]. rewrite map_size_empty in T7.
  split; cbn; try done.
  - split_and!.
    + apply map_eq. intros t. by apply T3.
    + apply map_eq. intros p. by apply T4.
    + done.
    + rewrite T6. destruct l; [by rewrite app_nil_r|cbn in T7; lia].
  - rewrite G4. destruct (mg_dispatcher mg) as [d|]; [|by destruct H4].
    destruct H4 as (Hf & t & ->). by apply delete_insert_id.
  - by rewrite G5.
  - by rewrite G9, H7.
  - rewrite G10. apply H9.
Qed.

(** Where a manager may be created. *)
Record clean_slate : Prop := {
  cs_ready : ready s0;
  cs_table : heap_wf (table (app s0));
  cs_tubes : store_wf (tw_tubes (tubes_of (app s0))) /\ store_wf (tw_infos (tubes_of (app s0))) /\
    mem_wf (ps_mem (tw_pools (tubes_of (app s0))));
  cs_moments : store_wf (ec_moments (hs_client s0));
  cs_timers : store_wf (mw_timers (app s0));
  cs_queue : mw_queue (app s0) = None;
  cs_mgr : mw_mgr (app s0) = None;
  cs_writes : writes_ok (app s0) }.

Lemma first_growing x : clean_slate -> table x = table (app s0) -> mw_queue x = None ->
  mw_timers x = mw_timers (app s0) -> same_rest (app s0) x -> mw_mgr x = Some first_manager ->
  growing first_manager [] (put_app x s0).
Proof.
  intros [[R1 R2 R3 R4 R5] C2 (T1 & T2 & T3) C4 C5 C6 C7] Et Eq Eti Ee Em. split; cbn; rewrite ?Et, ?Eq, ?Eti, ?Ee; try done.
  - split; cbn; rewrite ?Et, ?Eq; try done.
    split; [done|]. eapply owns_events_ext; [by apply (owns_events_start (hs_client s0))|done..].
  - by left.
Qed.

(** [_tube_manager_init] on a state in which a manager was allocated. *)
Lemma init_runs buckets len x : clean_slate -> buckets <= 2 ^ 30 -> table x = table (app s0) -> mw_queue x = None ->
  mw_timers x = mw_timers (app s0) -> same_rest (app s0) x -> mw_mgr x = Some manager_zero ->
  runs (_tube_manager_init buckets len) (put_app x s0) (fun r s =>
    match r with
    | Ok _ => exists mg L, grown mg L s /\ six_named mg L
    | Err _ => is_Some (mw_mgr (app s)) /\ nothing_left (put_app (set_mgr None (app s)) s)
    end).
Proof.
  intros Hcs Hb Et Eq Eti Ev Em. unfold _tube_manager_init. run_step.
  apply (runs_upd_mgr manager_zero); [done|]. cbv zeta. run_step.
  set (b := if decide (buckets <= 0) then DEFAULT_HASH_SIZE else buckets).
  assert (Hb' : b <= 2 ^ 30) by (unfold b, DEFAULT_HASH_SIZE; case_decide; lia).
  match goal with |- runs _ ?s _ => set (s1 := s) end.
  assert (Hg : growing first_manager [] s1) by (by apply (first_growing (app s1))).
  eapply runs_conseq; [apply (init_parts_runs s1 b len); [done|cbn; rewrite Et; apply Hcs|by do 2 apply ready_put_app; apply Hcs|done|done|apply Hcs|done]|].
  intros [[]|e] s2 (mg & L & Hg2 & H); cbn beta iota; run_step.
  - by exists mg, L.
  - eapply runs_conseq; [eapply finalize_runs; [apply Hg2|by rewrite (gw_uninit _ _ _ Hg2)]|].
    intros [] s3 Hb3. run_step. split; [apply Hb3|by eapply growing_given_back].
Qed.

(** A new manager: nothing is bound to its events, and it has no timers. *)
Definition fresh (E : gmap loc (list (CB * event_arg))) x : Prop :=
  (forall e vs, E !! e = Some vs -> vs = []) /\ timers_ok x [].

Lemma grown_fresh mg L s : grown mg L s -> fresh (events_in L) (app s).
Proof.
  intros Hw. split; [by intros e vs [-> _]%events_in_lookup|].
  pose proof (pa_timers _ _ _ _ _ _ _ (gw_parts _ _ _ (gr_growing _ _ _ Hw))) as Ht.
  by rewrite (gr_queue _ _ _ Hw) in Ht.
Qed.

Lemma nothing_left_start o : clean_slate -> nothing_left (put_app (with_oom o (app s0)) s0).
Proof.
  intros [[R1 R2 R3 R4 R5] C2 (T1 & T2 & T3) C4 C5 C6 C7].
  split; cbn; try done; split_and!; try done; by apply same_heap_refl.
Qed.

Lemma create_runs buckets len : clean_slate -> buckets <= 2 ^ 30 ->
  runs (tube_manager_create buckets len) s0 (fun r s =>
    match r with
    | Err _ => nothing_left s
    | Ok _ => exists mg d E N, mg_initialized mg = true /\ mg_keep_going mg = true /\
        mg_dispatcher mg = Some d /\ serving (before N) E d mg ∅ s /\ events_of E mg /\
        (forall k, N !! k = event_named mg k) /\ fresh E (app s)
    end).
Proof.
  intros Hcs Hb. unfold tube_manager_create. run_step. apply runs_on_mw, runs_oom.
  destruct (hd _ _); [run_step; by apply nothing_left_start|].
  run_step. apply runs_on_mw. run_step. run_step.
  eapply runs_conseq; [by eapply init_runs; try done; apply Hcs|].
  intros [[]|e] s2 H; cbn beta iota.
  - destruct H as (mg & L & Hw & [_ HN]).
    destruct (grown_serving mg L s2 Hw) as (d & Ed & Hs & He); [apply Hcs..|].
    run_step. apply (runs_upd_mgr mg); [apply Hs|]. run_step.
    exists (put_initialized true mg), d, (events_in L), (known_events L).
    split_and!; [done|apply (gr_going _ _ _ Hw)|done| | |exact HN|].
    + by apply serving_mgr with (mg := mg).
    + destruct He. by split.
    + destruct (grown_fresh _ _ _ Hw) as [Hp Ht]. split; [done|].
      eapply timers_ok_ext; [exact Ht|done|done|by destruct Ht].
  - run_step. apply runs_on_mw. run. apply H.
Qed.

(** C3: creating a manager.  From a state without one, [tube_manager_create] ends without
    a fault, whatever fails meanwhile, memory or a call of the system.  Either it reports
    an error and nothing is left: no table, no dispatcher, no event or name, no queue; or
    there is a manager that was told to go on, in the state that the theorems about packets
    and the loop start from: without tubes or timers, with an idle dispatcher that owns
    the manager's six events, found by their names, to which nothing is bound. *)
Theorem manager_created buckets len : clean_slate -> buckets <= 2 ^ 30 ->
  runs (tube_manager_create buckets len) s0 (fun r s =>
    match r with
    | Err _ => nothing_left s
    | Ok _ => exists mg d E N, mg_initialized mg = true /\ mg_keep_going mg = true /\
        mg_dispatcher mg = Some d /\ serving (before N) E d mg ∅ s /\ events_of E mg /\
        (forall k, N !! k = event_named mg k) /\ fresh E (app s)
    end).
Proof. apply create_runs. Qed.
End life.
