(* ===== verification/ManagerSession.v ===== *)
(** The whole life of a server: a manager is created, the application binds its callbacks,
    opens the sockets, runs the loop, looks at the tubes and stops, in any order and any
    number of times, and destroys the manager.  For src/tube_manager.c as modelled in
    TubeManager.v. *)

From S2P Require Import Prelude LsError LsStr LsMem PoolUse Store LsTimer LsHtable LsHash GHeap GHeapLayout PQueue Spud LsSockaddr LsPktinfo Tube LsEventing EventBindings EventDispatch EventNames EventLife TubeManager ManagerState ManagerTubes ManagerPackets ManagerLoop ManagerSockets ManagerEvents ManagerTimers ManagerLife.
Open Scope Z_scope.

Section session.
Context {cbor : Type} `{!CborLib cbor}.
Context {CB TCB TX SCB U : Type} `{!EqDecision CB}.
Abbreviation mworld := (mworld TCB TX SCB U).
Abbreviation world := (world cbor CB TCB TX SCB U).
Abbreviation app s := (ec_app (hs_client s)).
Abbreviation table x := (mw_table x).
Abbreviation tubes_of x := (hs_client (mw_table x)).
Abbreviation dispatchers s := (st_objs (ec_dispatchers (hs_client s))).
Abbreviation callbacks := (gmap loc (list (CB * event_arg))).
Implicit Types (s : world) (x : mworld) (w : tworld) (R : registry) (E : callbacks) (K : background (cbor := cbor) (CB := CB)).

Context (prog : CB -> loc -> event_data cbor -> bool -> event_arg ->
  C mworld (bool * list (loc * event_data cbor))).
Context (call_timer : TCB -> loc -> C world unit) (call_sig : SCB -> Z -> C world unit).
Context (fuel : nat).

(** ** The calls of the application *)
Inductive app_op :=
  | OpBind (name : cstr) (cb : CB)
  | OpSocket (port : Z)
  | OpResponder (will_respond : bool)
  | OpSetData (p : ptr)
  | OpSize
  | OpRunning
  | OpForeach (walker : id_ptr -> option loc -> C tworld bool)
  | OpStop
  | OpLoop.

Inductive op_result := Nothing | Reports (r : res Z unit) | Counts (n : Z) | Answers (b : bool).

Definition run_app_op (op : app_op) : C world op_result :=
  match op with
  | OpBind name cb => r ← tube_manager_bind_event name cb; mret (Reports r)
  | OpSocket port => r ← tube_manager_socket port; mret (Reports r)
  | OpResponder b => tube_manager_set_policy_responder b;; mret Nothing
  | OpSetData p => tube_manager_set_data p;; mret Nothing
  | OpSize => n ← tube_manager_size; mret (Counts n)
  | OpRunning => b ← tube_manager_running; mret (Answers b)
  | OpForeach walker => tube_manager_foreach walker;; mret Nothing
  | OpStop => r ← tube_manager_stop; mret (Reports r)
  | OpLoop =>
      r ← tube_manager_loop (scripted prog) (scripted_result no_results) call_timer call_sig fuel true;
      mret (Reports r)
  end.

Fixpoint run_app_ops (ops : list app_op) : C world (list op_result) :=
  match ops with
  | [] => mret []
  | op :: ops => r ← run_app_op op; rs ← run_app_ops ops; mret (r :: rs)
  end.

Definition server (buckets len : Z) (ops : list app_op) : C world (res Z (list op_result)) :=
  r ← tube_manager_create buckets len;
  match r with
  | Err e => mret (Err e)
  | Ok _ => rs ← run_app_ops ops; tube_manager_destroy;; mret (Ok rs)
  end.

(** ** What they mean

    The manager's fields, the callbacks bound to its events, its tubes by ID, and what
    recvmsg() is to answer. *)
Definition app_state : Type := manager * callbacks * registry * list recv_answer.

Inductive app_step : app_state -> app_op -> op_result -> app_state -> Prop :=
  | step_bind_unknown mg E R rs name cb : event_named mg (lower name) = None ->
      app_step (mg, E, R, rs) (OpBind name cb) (Reports (Err LS_ERR_BAD_FORMAT)) (mg, E, R, rs)
  | step_bind_nomem mg E R rs name cb e : event_named mg (lower name) = Some e ->
      app_step (mg, E, R, rs) (OpBind name cb) (Reports (Err LS_ERR_NO_MEMORY)) (mg, E, R, rs)
  | step_bind mg E R rs name cb e vs : event_named mg (lower name) = Some e -> E !! e = Some vs ->
      app_step (mg, E, R, rs) (OpBind name cb) (Reports (Ok tt)) (mg, <[e := bind_pair cb ArgManager vs]> E, R, rs)
  | step_socket mg E R rs port r mg' : with_sockets port mg mg' ->
      app_step (mg, E, R, rs) (OpSocket port) (Reports r) (mg', E, R, rs)
  | step_responder mg E R rs b :
      app_step (mg, E, R, rs) (OpResponder b) Nothing (put_policy (policy_for b (mg_policy mg)) mg, E, R, rs)
  | step_set_data mg E R rs p : app_step (mg, E, R, rs) (OpSetData p) Nothing (put_data p mg, E, R, rs)
  | step_size mg E R rs : app_step (mg, E, R, rs) OpSize (Counts (Z.of_nat (size R))) (mg, E, R, rs)
  | step_running mg E R rs : app_step (mg, E, R, rs) OpRunning (Answers (mg_keep_going mg)) (mg, E, R, rs)
  | step_foreach mg E R rs walker : app_step (mg, E, R, rs) (OpForeach walker) Nothing (mg, E, R, rs)
  | step_stop mg E R rs r : app_step (mg, E, R, rs) OpStop (Reports r) (put_keep_going false mg, E, R, rs)
  (** The loop takes some datagrams, and the tubes are what they make of them. *)
  | step_loop mg E R xs rs r mg' R' : alike mg mg' -> (r = Ok tt -> mg_keep_going mg' = false) ->
      takes_all (responds mg) R xs r R' ->
      app_step (mg, E, R, xs ++ rs) OpLoop (Reports r) (mg', E, R', rs).

Inductive app_steps : app_state -> list app_op -> list op_result -> app_state -> Prop :=
  | steps_nil a : app_steps a [] [] a
  | steps_cons a op r a1 ops rs a2 : app_step a op r a1 -> app_steps a1 ops rs a2 ->
      app_steps a (op :: ops) (r :: rs) a2.

(** ** What is asked of the application *)

(** A walker uses the manager's tubes, and may send on them. *)
Record tubes_kept w w' : Prop := {
  tk_tubes : tw_tubes w' = tw_tubes w;
  tk_infos : tw_infos w' = tw_infos w;
  tk_pools : same_heap (tw_pools w) (tw_pools w') }.

Definition quiet_walker (walker : id_ptr -> option loc -> C tworld bool) : Prop := forall key t u w,
  mem_wf (ps_mem (tw_pools w)) -> st_objs (tw_tubes w) !! t = Some u -> tube_id_wf (t_id u) -> tube_ok w u ->
  runs (walker key (Some t)) w (fun _ w' => tubes_kept w w').

Definition op_ok (op : app_op) : Prop :=
  match op with
  | OpBind name _ => cstr_wf name
  | OpSocket port => 0 <= port <= 65535
  | OpForeach walker => quiet_walker walker
  | _ => True
  end.

(** Every callback keeps quiet, whatever event it is bound to. *)
Definition always_quiet : Prop := forall cb e a data h x,
  mem_wf (ps_mem (tw_pools (tubes_of x))) -> data_ok x data ->
  runs (prog cb e data h a) x (fun r x' => quiet x x' /\ r.2 = []).

Lemma always_quiet_callbacks E : always_quiet -> quiet_callbacks E prog.
Proof. intros Hq e vs cb a data h x _ _ Hw Hd. by apply Hq. Qed.
(** ** Between the calls *)

(** The timer queue of a manager without timers. *)
Lemma timers_ok_none x : mw_queue x = Some no_timers -> store_wf (mw_timers x) -> timers_ok x [].
Proof.
  intros Eq Hw. split; [|by intros t Ht%elem_of_nil|constructor|done|cbn; lia].
  eexists. split; [done|]. split; cbn; [lia|lia| |done]. intros u a b Hu. lia.
Qed.

(** Room for one tube for each of [n] datagrams. *)
Record between (G : ground) (d : loc) (n : nat) K mg E R s : Prop := {
  bt_serving : serving K E d mg R s;
  bt_ground : bg_ground K = G;
  bt_infos : bg_infos K = ∅;
  bt_queue : bg_queue K = Some no_timers;
  bt_recvs : Forall received_ok (bg_recvs K) /\ Forall not_empty (bg_recvs K);
  bt_room : Z.of_nat (size R + length (bg_recvs K)) < 2 ^ 28;
  bt_selects : (S (length (bg_selects K)) < fuel)%nat;
  bt_events : events_of E mg;
  bt_known k : gr_known G !! k = event_named mg k;
  bt_dispatcher : mg_dispatcher mg = Some d;
  bt_callbacks e vs : E !! e = Some vs -> (length vs <= n)%nat }.

(** Other fields of the manager. *)
Lemma between_mg G d n K mg mg' E R s s' : between G d n K mg E R s -> serving K E d mg' R s' ->
  (forall k, event_named mg' k = event_named mg k) -> mg_dispatcher mg' = mg_dispatcher mg ->
  (events_of E mg -> events_of E mg') -> between G d n K mg' E R s'.
Proof.
  intros [B1 B2 B3 B4 B5 B6 B7 B8 B9 B10 B11] Hs Hn Ed He. split; try done; [auto| |congruence].
  intros k. by rewrite B9.
Qed.

Lemma between_le G d n n' K mg E R s : (n <= n')%nat -> between G d n K mg E R s -> between G d n' K mg E R s.
Proof. intros Hn [B1 B2 B3 B4 B5 B6 B7 B8 B9 B10 B11]. split; try done. intros e vs He. specialize (B11 e vs He). lia. Qed.

(** What an operation leaves. *)
Definition after (G : ground) (d : loc) (n : nat) mg E R rs (op : app_op) (r : op_result) s' : Prop :=
  exists K' mg' E' R', app_step (mg, E, R, rs) op r (mg', E', R', bg_recvs K') /\ between G d n K' mg' E' R' s'.

Lemma bind_after G d n K mg E R s name cb : between G d n K mg E R s -> cstr_wf name ->
  runs (run_app_op (OpBind name cb)) s (after G d (S n) mg E R (bg_recvs K) (OpBind name cb)).
Proof.
  intros Hb Hw. pose proof Hb as [B1 B2 B3 B4 B5 B6 B7 B8 B9 B10 B11]. cbn [run_app_op]. run_step.
  eapply bind_event_runs; [exact B1|exact B10|exact Hw| |]; rewrite B2, B9.
  - intros Hk. run_step. exists K, mg, E, R. split; [by apply step_bind_unknown|]. eapply between_le; [|exact Hb]. lia.
  - intros e vs s' Hk He Ea. split; intros Hs'; run_step.
    + exists K, mg, (<[e := bind_pair cb ArgManager vs]> E), R. split; [by eapply step_bind|].
      split; try done.
      * destruct B8 as [P1 P2 P3 P4 P5 P6].
        assert (Hbd : forall p, bound E p -> bound (<[e := bind_pair cb ArgManager vs]> E) p).
        { intros p (e' & -> & He'). exists e'. split; [done|]. rewrite lookup_insert. case_decide; [by eexists|done]. }
        split; auto.
      * intros e' vs' [[_ <-]|[_ He']]%lookup_insert_Some.
        -- pose proof (bind_pair_length cb ArgManager vs). specialize (B11 e vs He). lia.
        -- specialize (B11 e' vs' He'). lia.
    + exists K, mg, E, R. split; [by eapply step_bind_nomem|]. eapply between_le; [|eapply between_mg; [exact Hb|exact Hs'|done..]]. lia.
Qed.

Lemma socket_after G d n K mg E R s port : between G d n K mg E R s -> 0 <= port <= 65535 ->
  runs (run_app_op (OpSocket port)) s (after G d n mg E R (bg_recvs K) (OpSocket port)).
Proof.
  intros Hb Hp. pose proof (bt_serving _ _ _ _ _ _ _ _ Hb) as Hs. cbn [run_app_op]. run_step.
  eapply runs_conseq; [apply (socket_runs s mg port); [apply Hs|done]|].
  intros r s' (mg' & v & -> & (V1 & V2 & V3) & Hw & _ & _). run_step.
  exists K, mg', E, R. split; [by apply step_socket|]. pose proof Hw as Hw'. unfold with_sockets in Hw'.
  eapply between_mg; [exact Hb| |by rewrite Hw'|by rewrite Hw'|by intros []; rewrite Hw'; split].
  pose proof (serving_mgr E K d mg mg' R s Hs ltac:(by rewrite Hw')) as Hs1.
  apply (serving_same_input E K d mg' R _ v) in Hs1; [done|done|done|].
  unfold writes_ok. cbn. rewrite V3. apply (sv_steady _ _ _ _ _ _ Hs).
Qed.

Lemma update_after G d n K mg E R s op f : between G d n K mg E R s ->
  mg_tubes (f mg) = mg_tubes mg -> (forall k, event_named (f mg) k = event_named mg k) ->
  mg_dispatcher (f mg) = mg_dispatcher mg -> (events_of E mg -> events_of E (f mg)) ->
  app_step (mg, E, R, bg_recvs K) op Nothing (f mg, E, R, bg_recvs K) ->
  runs (upd_mgr f;; mret Nothing) s (after G d n mg E R (bg_recvs K) op).
Proof.
  intros Hb Et Hn Ed He Hstep. pose proof (bt_serving _ _ _ _ _ _ _ _ Hb) as Hs. run_step.
  apply (runs_upd_mgr mg); [apply Hs|]. run_step. exists K, (f mg), E, R. split; [done|].
  eapply between_mg; [exact Hb|by apply serving_mgr with (mg := mg)|done..].
Qed.

Lemma stop_after G d n K mg E R s : between G d n K mg E R s ->
  runs (run_app_op OpStop) s (after G d n mg E R (bg_recvs K) OpStop).
Proof.
  intros Hb. pose proof (bt_serving _ _ _ _ _ _ _ _ Hb) as Hs. cbn [run_app_op]. unfold tube_manager_stop. run_step.
  run_step. apply (runs_upd_mgr mg); [apply Hs|]. pose proof (serving_mgr E K d mg (put_keep_going false mg) R s Hs eq_refl) as Hs1.
  apply runs_on_mw, interrupt_runs; [by eexists|apply (sv_steady _ _ _ _ _ _ Hs)|]. intros r v V1 V2 V3. run_step.
  do 4 eexists. split; [apply step_stop|]. eapply between_mg; [exact Hb| |done|done|by intros []; split].
  by apply (serving_same_input E K d _ R _ v) in Hs1.
Qed.

Lemma size_after G d n K mg E R s : between G d n K mg E R s ->
  runs (run_app_op OpSize) s (after G d n mg E R (bg_recvs K) OpSize).
Proof.
  intros Hb. pose proof (bt_serving _ _ _ _ _ _ _ _ Hb) as Hs. pose proof Hs as [_ Em (t & Et & Ht) _ _].
  cbn [run_app_op]. unfold tube_manager_size. run_step. run_step. apply (runs_get_mgr mg); [done|].
  rewrite Et. run_step. run_step. apply runs_on_table.
  eapply runs_done; [by apply (ls_htable_get_count_done (HK := id_hashable) (gr_table (bg_ground K)) t (entry_for <$> R))|]. run_step.
  rewrite map_size_fmap. unfold put_table. rewrite set_table_same, put_app_same.
  exists K, mg, E, R. split; [apply step_size|done].
Qed.

Lemma loop_after G d n K mg E R s : between G d n K mg E R s -> always_quiet -> quiet_signals call_sig ->
  (n < fuel)%nat -> runs (run_app_op OpLoop) s (after G d n mg E R (bg_recvs K) OpLoop).
Proof.
  intros Hb Hq Hsig Hn. pose proof Hb as [B1 B2 B3 B4 B5 B6 B7 B8 B9 B10 B11]. cbn [run_app_op]. run_step.
  eapply runs_conseq.
  { eapply (loop_completes E prog fuel); [by apply always_quiet_callbacks| |exact Hsig|exact B1|done|done| |apply B5|apply B5|done|done].
    - split; [lia|]. intros e vs He. specialize (B11 e vs He). lia.
    - by exists no_timers. }
  intros r s' (mg' & R' & ss & rs & Hs' & Ha & Hm & Hr). run_step.
  pose proof (remains_size _ _ _ _ _ _ _ Hm) as Hsz. destruct Hm as (M1 & M2 & xs & M3 & M4).
  exists (put_selects ss (put_recvs rs K)), mg', E, R'. split; [rewrite M3; by apply step_loop|]. unfold alike in Ha.
  split; cbn; try done; [|lia|lia|by apply (events_of_alike E mg)|intros k; rewrite B9, Ha; done|by rewrite Ha].
  split; [done|]. destruct B5 as [_ B5]. rewrite M3 in B5. by apply Forall_app in B5 as [_ B5].
Qed.
(** *** Walking *)
Lemma tubes_kept_refl w : mem_wf (ps_mem (tw_pools w)) -> tubes_kept w w.
Proof. intros. by split; [..|apply same_heap_refl]. Qed.

Lemma tubes_kept_trans w1 w2 w3 : tubes_kept w1 w2 -> tubes_kept w2 w3 -> tubes_kept w1 w3.
Proof. intros [A1 A2 A3] [B1 B2 B3]. split; [congruence..|by eapply same_heap_trans]. Qed.

Lemma walk_entries_quiet walker es : quiet_walker walker -> forall n w, mem_wf (ps_mem (tw_pools w)) ->
  Forall (fun e : id_ptr * option loc * option unit => exists t u, e.1.2 = Some t /\
    st_objs (tw_tubes w) !! t = Some u /\ tube_id_wf (t_id u) /\ tube_ok w u) es ->
  runs (walk_entries walker n es) w (fun _ w' => tubes_kept w w').
Proof.
  intros Hq. induction es as [|e es IH]; intros n w Hw Hes; cbn [walk_entries].
  { run_step. by apply tubes_kept_refl. }
  apply Forall_cons in Hes as [(t & u & -> & Ht & Hid & Hok) Hes]. run_step.
  eapply runs_conseq; [by apply (Hq _ t u)|]. intros b w1 Hk. destruct b; [|by run_step].
  eapply runs_conseq; [apply IH|intros ? w2 Hk2; by eapply tubes_kept_trans].
  - by destruct Hk as [_ _ []].
  - eapply Forall_impl; [exact Hes|]. intros e' (t' & u' & ?). exists t', u'. destruct Hk as [E1 E2 _].
    unfold tube_ok in *. by rewrite E1, E2.
Qed.

Lemma foreach_runs E K d mg R s walker : serving K E d mg R s -> quiet_walker walker ->
  runs (tube_manager_foreach walker) s (fun _ s' => exists w', s' = put_tubes_of w' s /\
    tubes_kept (tubes_of (app s)) w' /\ serving K E d mg R s').
Proof.
  intros Hs Hq. pose proof Hs as [H1 Em (t & Et & tab & arr & cs & Ht & HB & Hm) H4 H5].
  unfold tube_manager_foreach. run_step. apply (runs_get_mgr mg); [done|]. rewrite Et. run_step. run_step. run_step.
  apply runs_on_table.
  destruct (runs_inv _ _ _ (walk_entries_quiet walker (entries cs) Hq 0 (tubes_of (app s)) (serving_mem_wf _ _ _ _ _ _ Hs)
    ltac:(apply Forall_forall; intros e He; pose proof (map_of_lookup _ e (ta_keys _ _ _ _ _ Ht) He) as Hl;
      rewrite Hm in Hl; apply lookup_fmap_Some in Hl as ([t1 u1] & <- & Hl);
      destruct (to_tubes _ _ _ H4 _ _ _ Hl) as (_ & ? & ? & ?); by exists t1, u1))) as ([b n] & w' & Ew & Hk).
  eapply runs_done.
  { rewrite (ls_htable_walk_done _ _ _ _ _ _ Ht). unfold client, zoom. rewrite Ew. reflexivity. }
  run_step. exists w'. split; [done|]. split; [done|]. destruct Hk as [K1 K2 K3].
  eapply serving_put_tubes; [exact Hs| |done]. eapply tubes_ok_ext; [exact H4|done|done|by destruct K3].
Qed.

Lemma foreach_after G d n K mg E R s walker : between G d n K mg E R s -> quiet_walker walker ->
  runs (run_app_op (OpForeach walker)) s (after G d n mg E R (bg_recvs K) (OpForeach walker)).
Proof.
  intros Hb Hq. pose proof (bt_serving _ _ _ _ _ _ _ _ Hb) as Hs. cbn [run_app_op]. run_step.
  eapply runs_conseq; [by eapply foreach_runs|]. intros [] s' (w' & -> & Hk & Hs'). run_step.
  exists K, mg, E, R. split; [apply step_foreach|]. by eapply between_mg.
Qed.

(** ** A session *)
Lemma op_after G d n K mg E R s op : between G d n K mg E R s -> always_quiet -> quiet_signals call_sig ->
  op_ok op -> (n < fuel)%nat -> runs (run_app_op op) s (after G d (S n) mg E R (bg_recvs K) op).
Proof.
  intros Hb Hq Hsig Hop Hn.
  assert (Hle : runs (run_app_op op) s (after G d n mg E R (bg_recvs K) op) -> runs (run_app_op op) s (after G d (S n) mg E R (bg_recvs K) op)).
  { intros H. eapply runs_conseq; [exact H|]. intros r s' (K' & mg' & E' & R' & Hst & Hb').
    exists K', mg', E', R'. split; [done|]. eapply between_le; [|exact Hb']. lia. }
  destruct op as [name cb|port|b|p| | |walker| |]; [by eapply bind_after|apply Hle..].
  - by eapply socket_after.
  - eapply update_after; [exact Hb|done..|by intros []; split|apply step_responder].
  - eapply update_after; [exact Hb|done..|by intros []; split|apply step_set_data].
  - by eapply size_after.
  - pose proof (bt_serving _ _ _ _ _ _ _ _ Hb) as Hs. cbn [run_app_op]. unfold tube_manager_running. run_step. run_step.
    apply (runs_get_mgr mg); [apply Hs|]. run_step. run_step. exists K, mg, E, R. split; [apply step_running|done].
  - by eapply foreach_after.
  - by eapply stop_after.
  - by eapply loop_after.
Qed.

Lemma ops_after G d ops : always_quiet -> quiet_signals call_sig -> Forall op_ok ops ->
  forall n K mg E R s, between G d n K mg E R s -> (n + length ops < fuel)%nat ->
  runs (run_app_ops ops) s (fun rs s' => exists n' K' mg' E' R',
    app_steps (mg, E, R, bg_recvs K) ops rs (mg', E', R', bg_recvs K') /\ between G d n' K' mg' E' R' s').
Proof.
  intros Hq Hsig. induction ops as [|op ops IH]; intros Hops n K mg E R s Hb Hn; cbn [run_app_ops].
  { run_step. exists n, K, mg, E, R. split; [constructor|done]. }
  apply Forall_cons in Hops as [Hop Hops]. cbn in Hn. run_step.
  eapply runs_conseq; [eapply op_after; [exact Hb|done..|lia]|]. intros r s1 (K1 & mg1 & E1 & R1 & Hst & Hb1). run_step.
  eapply runs_conseq; [eapply (IH Hops (S n)); [exact Hb1|lia]|]. intros rs s2 (n2 & K2 & mg2 & E2 & R2 & Hst2 & Hb2).
  run_step. exists n2, K2, mg2, E2, R2. split; [by econstructor|done].
Qed.
(** What the manager had is gone, and the rest of the heaps of its table and of its
    dispatcher is what it was in [s0]. *)
Record closed s0 R s s' : Prop := {
  cd_mgr : mw_mgr (app s') = None;
  cd_table : heap_of (table (app s')) = heap_of (table (app s0));
  cd_tubes : tubes_gone R (tubes_of (app s)) (tubes_of (app s'));
  cd_dispatchers : dispatchers s' = dispatchers s0;
  cd_moments : st_objs (ec_moments (hs_client s')) = st_objs (ec_moments (hs_client s0));
  cd_names : heap_of s' = heap_of s0;
  cd_events : events_back (base_of (hs_client s0)) s';
  cd_queue : mw_queue (app s') = None }.

(** C2: a whole session of a server.  An application creates a manager and then makes any
    sequence of calls: it binds callbacks to events by name, opens the sockets, sets the
    policy and the user data, asks for the number of tubes and whether the loop is to go
    on, walks the tubes, stops the manager and runs the loop, over and over, and in the end
    destroys the manager.  It schedules nothing; its callbacks, signal handlers and walkers
    keep quiet: they may send, read the clock and change the application's state, but not
    create or destroy tubes; it gives every call an error structure; and no datagram is
    empty (an empty one, or a bad one with no error structure, stops the loop: see
    [loop_safe]).  The table has up to 2^30 buckets, and fewer than 2^28 datagrams come, from
    addresses of a known family.  Then, whatever else the network, and whatever the clock and the allocator
    answer, no call faults and every one returns.  If the creation fails, nothing is left.
    Otherwise each call has the result and the effect that it promises on the manager, the
    callbacks bound to its events and its tubes, from the fresh manager on, and the tubes are
    at any time what the datagrams that the loop took make of them, one by one; and at the
    end the tubes, the table, the dispatcher, the events, their names and bindings and the
    queue are gone, and the other objects are as they were. *)
Theorem manager_session s0 buckets len ops :
  clean_slate s0 -> st_objs (tw_infos (tubes_of (app s0))) = ∅ -> buckets <= 2 ^ 30 ->
  Forall received_ok (en_recvs (mw_env (app s0))) -> Forall not_empty (en_recvs (mw_env (app s0))) ->
  Z.of_nat (length (en_recvs (mw_env (app s0)))) < 2 ^ 28 ->
  (S (length (en_selects (mw_env (app s0)))) < fuel)%nat -> (length ops < fuel)%nat ->
  always_quiet -> quiet_signals call_sig -> Forall op_ok ops ->
  runs (server buckets len ops) s0 (fun r s' =>
    match r with
    | Err _ => nothing_left s0 s'
    | Ok rs => exists mg E mg' E' R' rest s, mg_keep_going mg = true /\ events_of E mg /\
        (forall e vs, E !! e = Some vs -> vs = []) /\
        app_steps (mg, E, ∅, en_recvs (mw_env (app s0))) ops rs (mg', E', R', rest) /\ closed s0 R' s s'
    end).
Proof.
  intros Hcs Hi Hb Hr Hne Hroom Hsel Hn Hq Hsig Hops. unfold server. run_step.
  eapply runs_conseq; [by apply create_runs|]. intros [[]|e] s1; [|intros H; by run_step].
  intros (mg & d & E & N & Hini & Hgo & Ed & Hs & He & HN & Hfr & Ht). run_step.
  eapply runs_conseq.
  { apply (ops_after (bg_ground (before s0 N)) d ops Hq Hsig Hops 0 (before s0 N) mg E ∅ s1); [|lia].
    split; try done. intros e vs Hv. by rewrite (Hfr e vs Hv). }
  intros rs s2 (n & K & mg2 & E2 & R2 & Hst & [B1 B2 B3 B4 B5 B6 B7 B8 B9 B10 B11]). run_step.
  eapply runs_conseq; [eapply destroy_runs; [exact B1|exact B10|]|].
  { destruct (sv_steady _ _ _ _ _ _ B1) as [Q1 _ _ Q2]. apply timers_ok_none; [congruence|done]. }
  intros _ s' [D1 D2 D3 D4 D5 D6 D7 D8 D9 D10]. run_step.
  exists mg, E, mg2, E2, R2, (bg_recvs K), s2. split_and!; [done|done|done|exact Hst|]. rewrite B2 in *. by split.
Qed.
End session.
