(* ===== verification/TubeStream.v ===== *)
(** Streams over tubes: src/tube_stream.c.  A stream manager is a tube manager with three
    events more on the same dispatcher; most of what is declared in include/tube_stream.h is
    not implemented, and says so.  Creation and destruction, on the results about tube
    managers of ManagerLife.v. *)

From S2P Require Import Prelude LsError LsStr LsMem PoolUse Store LsTimer LsHtable LsHash GHeap GHeapLayout PQueue Spud LsSockaddr LsPktinfo Tube LsEventing EventBindings EventDispatch EventNames EventLife TubeManager ManagerState ManagerTubes ManagerPackets ManagerLoop ManagerTimers ManagerLife.
Open Scope Z_scope.

(** *** Data: [struct _tube_stream], and [struct _tube_stream_manager] without its first
    member, the tube manager *)
Record tube_stream := TubeStream { ts_initialized : bool }.

Record tube_stream_manager := StreamManager { e_open : ptr; e_close : ptr; e_data : ptr }.

(** "tcp:open", "tcp:close", "tcp:data" *)
Definition EV_STREAM_OPEN_NAME : cstr := [116; 99; 112; 58; 111; 112; 101; 110].
Definition EV_STREAM_CLOSE_NAME : cstr := [116; 99; 112; 58; 99; 108; 111; 115; 101].
Definition EV_STREAM_DATA_NAME : cstr := [116; 99; 112; 58; 100; 97; 116; 97].

(** The streams and the stream manager are in the client's part of the tube manager's
    state. *)
Record streams (X : Type) := Streams {
  sc_streams : store tube_stream;
  sc_manager : option tube_stream_manager;
  sc_user : X }.
Arguments Streams {X}.
Arguments sc_streams {X}.
Arguments sc_manager {X}.
Arguments sc_user {X}.

Definition put_manager {X} (m : option tube_stream_manager) (u : streams X) : streams X :=
  Streams (sc_streams u) m (sc_user u).

Definition is_not_null {A} (p : option A) : bool := bool_decide (is_Some p).

Section tube_stream.
Context {cbor : Type} `{!CborLib cbor}.
Context {CB TCB TX SCB X : Type} `{!EqDecision CB}.
Abbreviation mworld := (mworld TCB TX SCB (streams X)).
Abbreviation world := (world cbor CB TCB TX SCB (streams X)).

Definition put_user (u : streams X) (x : mworld) : mworld :=
  MWorld (mw_table x) (mw_timers x) (mw_queue x) (mw_oom x) (mw_mgr x) (mw_sigs x) (mw_env x) u.

#[export] Instance mworld_streams : HasStore mworld tube_stream := {
  the_store x := sc_streams (mw_user x);
  with_store st x := put_user (Streams st (sc_manager (mw_user x)) (sc_user (mw_user x))) x }.

#[export] Instance mworld_streams_laws : StoreLaws mworld tube_stream.
Proof. by split. Qed.

(** ** Streams *)
Definition tube_stream_create : C mworld (res Z loc) :=
  ret ← new (TubeStream false);
  match ret with
  | None => mret (Err LS_ERR_NO_MEMORY)
  | Some s => update s (fun _ => TubeStream true);; mret (Ok s)
  end.

Definition tube_stream_destroy (s : ptr) : C mworld unit :=
  match s with
  | None => mret tt
  | Some s => update s (fun _ => TubeStream false);; release s
  end.

Definition tube_stream_bind (s t : ptr) : C mworld (res Z unit) :=
  c_assert (is_not_null s);; mret (Err LS_ERR_NO_IMPL).

Definition tube_stream_read (s : ptr) (data : option bytes) (len : Z) : C mworld Z :=
  c_assert (is_not_null s);; c_assert (is_not_null data);; mret (-1).

Definition tube_stream_write (s : ptr) (data : option bytes) (len : Z) : C mworld (res Z unit) :=
  c_assert (is_not_null s);; mret (Err LS_ERR_NO_IMPL).

Definition tube_stream_close (s : ptr) : C mworld (res Z unit) :=
  c_assert (is_not_null s);; mret (Err LS_ERR_NO_IMPL).

(** ** Stream managers *)

(** Assignments to the events of the stream manager. *)
Definition upd_streams (f : tube_stream_manager -> tube_stream_manager) : C world unit :=
  on_mw (x ← c_get; m ← c_live (sc_manager (mw_user x));
         c_modify (fun x => put_user (put_manager (Some (f m)) (mw_user x)) x)).

(** The manager as an object: its two parts are allocated and freed at once. *)
Definition alloc_manager : C mworld unit :=
  c_modify (fun x => put_user (put_manager (Some (StreamManager None None None)) (mw_user x))
    (set_mgr (Some manager_zero) x)).
Definition free_manager : C mworld unit :=
  c_modify (fun x => put_user (put_manager None (mw_user x)) (set_mgr None x)).

(** [sm] not NULL. *)
Definition tube_stream_manager_destroy : C world unit :=
  upd_streams (fun _ => StreamManager None None None);;
  _tube_manager_finalize;;
  on_mw free_manager.

Definition create_stream_event (dispatcher : loc) (name : cstr)
    (put : ptr -> tube_stream_manager -> tube_stream_manager) : C world (res Z unit) :=
  ev ←! ls_event_dispatcher_create_event dispatcher name;
  upd_streams (put (Some ev));;
  mret (Ok tt).

Definition create_stream_events (dispatcher : loc) : C world (res Z unit) :=
  _ ←! create_stream_event dispatcher EV_STREAM_OPEN_NAME (fun p m => StreamManager p (e_close m) (e_data m));
  _ ←! create_stream_event dispatcher EV_STREAM_CLOSE_NAME (fun p m => StreamManager (e_open m) p (e_data m));
  create_stream_event dispatcher EV_STREAM_DATA_NAME (fun p m => StreamManager (e_open m) (e_close m) p).

Definition tube_stream_manager_create (buckets message_len : Z) : C world (res Z unit) :=
  fail ← on_mw oom;
  if fail : bool then mret (Err LS_ERR_NO_MEMORY)
  else
    on_mw alloc_manager;;
    r ← _tube_manager_init buckets message_len;
    match r with
    | Err e => on_mw free_manager;; mret (Err e)
    | Ok _ =>
        dispatcher ← _tube_manager_get_dispatcher;
        dispatcher ← c_deref dispatcher;
        r ← create_stream_events dispatcher;
        match r with
        | Err e => tube_stream_manager_destroy;; mret (Err e)
        | Ok _ => upd_mgr (put_initialized true);; mret (Ok tt)
        end
    end.

(** The tube manager is the first member. *)
Definition tube_stream_manager_get_manager (sm : ptr) : ptr := sm.

Definition tube_stream_manager_connect (sm : ptr) (dest : sockaddr) (s : option ptr) : C world (res Z unit) :=
  c_assert (is_not_null sm);; c_assert (is_not_null s);; mret (Err LS_ERR_NO_IMPL).

Definition tube_stream_manager_listen (sm : ptr) : C world (res Z unit) :=
  c_assert (is_not_null sm);; mret (Err LS_ERR_NO_IMPL).

Definition tube_stream_manager_bind_event (sm : ptr) (name : option cstr) (cb : option CB) : C world (res Z unit) :=
  c_assert (is_not_null sm);; c_assert (is_not_null name);; c_assert (is_not_null cb);;
  mret (Err LS_ERR_NO_IMPL).

(** *** A stream from its creation to its destruction *)
Inductive stream_call :=
  | CallBind (t : ptr)
  | CallRead (data : bytes) (len : Z)
  | CallWrite (data : option bytes) (len : Z)
  | CallClose.

Definition run_stream_call (s : loc) (c : stream_call) : C mworld (res Z unit + Z) :=
  match c with
  | CallBind t => r ← tube_stream_bind (Some s) t; mret (inl r)
  | CallRead data len => n ← tube_stream_read (Some s) (Some data) len; mret (inr n)
  | CallWrite data len => r ← tube_stream_write (Some s) data len; mret (inl r)
  | CallClose => r ← tube_stream_close (Some s); mret (inl r)
  end.

Fixpoint run_stream_calls (s : loc) (cs : list stream_call) : C mworld (list (res Z unit + Z)) :=
  match cs with
  | [] => mret []
  | c :: cs => r ← run_stream_call s c; rs ← run_stream_calls s cs; mret (r :: rs)
  end.

Definition stream_run (cs : list stream_call) : C mworld (res Z (loc * list (res Z unit + Z))) :=
  s ←! tube_stream_create;
  rs ← run_stream_calls s cs;
  tube_stream_destroy (Some s);;
  mret (Ok (s, rs)).

(** Reading is the one call that does not say why it fails. *)
Definition unimplemented (c : stream_call) : res Z unit + Z :=
  match c with CallRead _ _ => inr (-1) | _ => inl (Err LS_ERR_NO_IMPL) end.

Lemma stream_calls_runs s cs x : runs (run_stream_calls s cs) x (fun rs x' => rs = unimplemented <$> cs /\ x' = x).
Proof.
  induction cs as [|c cs IH]; cbn [run_stream_calls]; [by run_step|]. run_step.
  assert (Hc : runs (run_stream_call s c) x (fun r x' => r = unimplemented c /\ x' = x)) by (by destruct c).
  eapply runs_conseq; [exact Hc|]. intros r x1 [-> ->]. run_step.
  eapply runs_conseq; [exact IH|]. intros rs x2 [-> ->]. by run_step.
Qed.

(** A stream from its creation to its destruction.  Either there is no memory for it,
    or it is an object that was not there before, and every call on it answers that it is
    not implemented, reading that nothing was read, and changes nothing.  At the end the
    streams are what they were, and nothing of the manager's state changed but the answers
    of the allocator that were taken. *)
Theorem stream_life cs x : store_wf (sc_streams (mw_user x)) ->
  runs (stream_run cs) x (fun r x' => exists st, x' = with_store st (pop_oom x) /\
    st_objs st = st_objs (sc_streams (mw_user x)) /\ store_wf st /\
    match r with
    | Err e => e = LS_ERR_NO_MEMORY /\ hd false (mw_oom x) = true
    | Ok (s, rs) => hd false (mw_oom x) = false /\ st_objs (sc_streams (mw_user x)) !! s = None /\
        rs = unimplemented <$> cs
    end).
Proof.
  intros Hwf. pose proof (store_wf_fresh _ Hwf) as Hf. unfold stream_run, attempt, tube_stream_create.
  run_step. run_step. unfold new. run_step. apply runs_oom. change (oom_script x) with (mw_oom x).
  destruct (hd false (mw_oom x)) eqn:Eo; run.
  { exists (sc_streams (mw_user x)). by destruct x as [? ? ? ? ? ? ? []]. }
  eapply runs_update; [apply lookup_insert_eq|]. run.
  eapply runs_conseq; [apply stream_calls_runs|]. intros rs ? [-> ->]. run. unfold tube_stream_destroy. run_step.
  eapply runs_update; [cbn; apply lookup_insert_eq|]. apply runs_release; [cbn; rewrite lookup_insert_eq; by eexists|]. run.
  eexists. split_and!; [reflexivity| | |done|exact Hf|done].
  - cbn. rewrite !insert_insert_eq. by apply delete_insert_id.
  - apply store_wf_del, store_wf_set; [cbn; rewrite lookup_insert_eq; by eexists|]. apply store_wf_set; [cbn; rewrite lookup_insert_eq; by eexists|].
    by apply store_wf_add.
Qed.

(** ** The manager under a state of the streams *)
Abbreviation app s := (ec_app (hs_client s)).
Abbreviation user s := (mw_user (app s)).
Abbreviation owned_event := (owned_event (CB := CB) (A := event_arg)).
Implicit Types (s : world) (x : mworld) (u : streams X) (L : list owned_event).

Definition with_user u s : world := put_app (put_user u (app s)) s.

Lemma with_user_same s : with_user (user s) s = s.
Proof. by destruct s as [? ? ? ? [? ? ? ? ? []]]. Qed.

Lemma clean_slate_user u s0 : clean_slate s0 -> clean_slate (with_user u s0).
Proof. intros [C1 C2 C3 C4 C5 C6 C7 C8]. split; try done. by apply ready_put_app. Qed.

Lemma nothing_left_user u u' s0 s : nothing_left (with_user u s0) s -> nothing_left (with_user u' s0) (with_user u' s).
Proof. intros [N1 N2 N3 N4 N5 N6 N7 N8 N9 N10]. by split. Qed.

Lemma growing_user s0 u u' mg L s : growing (with_user u s0) mg L s -> growing (with_user u' s0) mg L (with_user u' s).
Proof.
  intros [H1 H2 H3 H4 H5 H6 H7 H8 [H9 H10]]. split; try done.
  change (before (with_user u' s0) ∅) with (before (with_user u s0) ∅).
  eapply parts_put_app; [exact H1|apply H1|done..].
Qed.

Lemma upd_streams_runs m f s (Q : unit -> world -> Prop) : sc_manager (user s) = Some m ->
  Q tt (with_user (put_manager (Some (f m)) (user s)) s) -> runs (upd_streams f) s Q.
Proof.
  intros Em HQ. apply runs_on_mw. run_step. run_step. run_step. apply (runs_live _ m); [done|]. run_step. exact HQ.
Qed.
(** ** Creation *)
Section creation.
Context (s0 : world) (s0_clean : clean_slate s0) (s0_none : sc_manager (user s0) = None).

(** The state before, with the fields of the stream manager. *)
Definition base (m : tube_stream_manager) : world := with_user (put_manager (Some m) (user s0)) s0.

Lemma put_none m : put_manager None (put_manager (Some m) (user s0)) = user s0.
Proof. unfold put_manager. cbn. rewrite <- s0_none. by destruct (user s0). Qed.

Lemma growing_streams m mg L s : growing (base m) mg L s -> user s = put_manager (Some m) (user s0).
Proof. intros Hg. apply (gw_rest _ _ _ _ Hg). Qed.

Lemma grown_user m m' mg L s : grown (base m) mg L s -> grown (base m') mg L (with_user (put_manager (Some m') (user s)) s).
Proof.
  intros [H1 H2 H3 H4 H5 H6]. split; try done. pose proof (growing_streams _ _ _ _ H1) as ->. exact (growing_user _ _ _ _ _ _ H1).
Qed.

(** An event more. *)
Lemma stream_event_grown m d mg L s name put (Q : res Z unit -> world -> Prop) : grown (base m) mg L s ->
  mg_dispatcher mg = Some d -> cstr_wf name -> (length L <= 9)%nat ->
  (forall e s1, growing (base m) mg L s1 -> Q (Err e) s1) ->
  (forall o s1, grown (base (put (Some (oe_at o)) m)) mg (o :: L) s1 -> oe_key o = lower name -> oe_key o ∉ (oe_key <$> L) ->
     Q (Ok tt) s1) ->
  runs (create_stream_event d name put) s Q.
Proof.
  intros Hw Ed Hn Hl H0 H1. unfold create_stream_event, attempt. run_step.
  eapply create_event_growing; [apply Hw|exact Ed|done|done|intros e s1 G1 _; cbn beta iota; run_step; by apply H0|].
  intros o s1 G1 Ea Ek Hk. cbn beta iota. run_step. pose proof (growing_streams _ _ _ _ G1) as Eu.
  apply (upd_streams_runs m); [by rewrite Eu|]. run_step. apply (H1 o); [|done|done].
  apply (grown_user m). destruct Hw as [_ W2 W3 W4 W5 W6]. split; try done; [by rewrite Ea|].
  eapply Forall_impl; [exact W6|]. intros p. apply recorded_cons.
Qed.

(** Giving back. *)
Lemma free_runs m s : nothing_left (base m) (put_app (set_mgr None (app s)) s) ->
  runs (on_mw free_manager) s (fun _ s' => nothing_left s0 s').
Proof.
  intros H. pose proof (nl_user _ _ H) as Eu. cbn in Eu. apply runs_on_mw. unfold free_manager. run_step. rewrite Eu, put_none.
  apply (nothing_left_user _ (user s0)) in H. rewrite with_user_same in H. exact H.
Qed.

Lemma destroy_growing m mg L s : growing (base m) mg L s ->
  runs tube_stream_manager_destroy s (fun _ s' => nothing_left s0 s').
Proof.
  intros Hg. unfold tube_stream_manager_destroy. pose proof (growing_streams _ _ _ _ Hg) as Eu.
  run_step. apply (upd_streams_runs m); [by rewrite Eu|].
  assert (Hg1 : growing (base (StreamManager None None None)) mg L
    (with_user (put_manager (Some (StreamManager None None None)) (user s)) s)).
  { rewrite Eu. exact (growing_user _ _ _ _ _ _ Hg). }
  run_step. eapply runs_conseq; [eapply finalize_runs; [apply Hg1|by rewrite (gw_uninit _ _ _ _ Hg1)]|].
  intros [] s1 Hb. eapply free_runs. by eapply growing_given_back.
Qed.

(** The event of a name in lower case, of the nine of a stream manager. *)
Definition stream_event_named (mg : manager) (m : tube_stream_manager) (k : list Z) : ptr :=
  if decide (k = EV_STREAM_OPEN_NAME) then e_open m
  else if decide (k = EV_STREAM_CLOSE_NAME) then e_close m
  else if decide (k = EV_STREAM_DATA_NAME) then e_data m
  else event_named mg k.

Lemma nine_named mg o1 o2 o3 L k : six_named mg L ->
  oe_key o1 = EV_STREAM_OPEN_NAME -> oe_key o2 = EV_STREAM_CLOSE_NAME -> oe_key o3 = EV_STREAM_DATA_NAME ->
  known_events (o3 :: o2 :: o1 :: L) !! k =
    stream_event_named mg (StreamManager (Some (oe_at o1)) (Some (oe_at o2)) (Some (oe_at o3))) k.
Proof.
  intros [_ HN] E1 E2 E3. unfold stream_event_named. rewrite <- HN. unfold known_events. cbn. rewrite E1, E2, E3, !lookup_insert.
  repeat (case_decide; subst; try done).
Qed.

Lemma stream_events_runs m d mg L s : grown (base m) mg L s -> mg_dispatcher mg = Some d -> six_named mg L ->
  runs (create_stream_events d) s (fun r s1 =>
    match r with
    | Err _ => exists m' L', growing (base m') mg L' s1
    | Ok _ => exists m' L', grown (base m') mg L' s1 /\ (forall k, known_events L' !! k = stream_event_named mg m' k) /\
        Forall (recorded L') [e_open m'; e_close m'; e_data m']
    end).
Proof.
  intros Hw Ed Hn. unfold create_stream_events, attempt. pose proof (proj1 Hn) as Hl.
  run_step. eapply (stream_event_grown m); [exact Hw|exact Ed|by repeat constructor|lia|intros e s1 G1; cbn beta iota; run_step; by exists m, L|].
  intros o1 s1 W1 K1 _. cbn beta iota. run_step.
  eapply stream_event_grown; [exact W1|exact Ed|by repeat constructor|cbn; lia|intros e s2 G2; cbn beta iota; run_step; by eexists _, _|].
  intros o2 s2 W2 K2 _. cbn beta iota.
  eapply stream_event_grown; [exact W2|exact Ed|by repeat constructor|cbn; lia|intros e s3 G3; by eexists _, _|].
  intros o3 s3 W3 K3 _. cbn [e_open e_close e_data] in W3.
  eexists _, _. split_and!; [exact W3|intros k; by apply nine_named|].
  repeat (constructor; [repeat first [apply recorded_new|apply recorded_cons]|]). constructor.
Qed.

(** The new stream manager: a new tube manager and three events more. *)
Record stream_manager_at s : Prop := {
  sm_streams : sc_streams (user s) = sc_streams (user s0) /\ sc_user (user s) = sc_user (user s0);
  sm_manager : exists mg m d E N, mg_initialized mg = true /\ mg_keep_going mg = true /\
    mg_dispatcher mg = Some d /\ sc_manager (user s) = Some m /\
    serving (before s0 N) E d mg ∅ s /\ events_of E mg /\ Forall (bound E) [e_open m; e_close m; e_data m] /\
    (forall k, N !! k = stream_event_named mg m k) /\ fresh E (app s) }.

Lemma grown_stream_manager m mg L s : grown (base m) mg L s ->
  (forall k, known_events L !! k = stream_event_named mg m k) -> Forall (recorded L) [e_open m; e_close m; e_data m] ->
  runs (upd_mgr (put_initialized true)) s (fun _ s' => stream_manager_at s').
Proof.
  intros Hw HN Hr. pose proof (growing_streams _ _ _ _ (gr_growing _ _ _ _ Hw)) as Eu.
  pose proof s0_clean as [C1 C2 C3 C4 C5 C6 C7 C8].
  destruct (grown_serving (base m) mg L s Hw C4 C8 C5) as (d & Ed & Hs & He).
  apply (runs_upd_mgr mg); [apply Hs|]. split; [cbn; by rewrite Eu|].
  exists (put_initialized true mg), m, d, (events_in L), (known_events L).
  destruct (grown_fresh _ _ _ _ Hw) as [Hp Ht].
  split_and!; [done|apply (gr_going _ _ _ _ Hw)|done|cbn; by rewrite Eu|by apply serving_mgr with (mg := mg)|destruct He; by split| |exact HN|].
  - eapply Forall_impl; [exact Hr|]. intros p. apply recorded_bound.
  - split; [done|]. eapply timers_ok_ext; [exact Ht|done|done|by destruct Ht].
Qed.

Lemma create_stream_runs buckets len : buckets <= 2 ^ 30 ->
  runs (tube_stream_manager_create buckets len) s0 (fun r s =>
    match r with
    | Err _ => nothing_left s0 s
    | Ok _ => stream_manager_at s
    end).
Proof.
  intros Hb. unfold tube_stream_manager_create. run_step. apply runs_on_mw, runs_oom.
  destruct (hd _ _); [run_step; by apply nothing_left_start|].
  run_step. apply runs_on_mw. unfold alloc_manager. run_step. run_step. set (m := StreamManager None None None).
  eapply runs_conseq.
  { eapply (init_runs (base m)); [by apply clean_slate_user|exact Hb|done|apply s0_clean|done|done|done]. }
  intros [[]|e] s1; cbn beta iota.
  2:{ intros [_ H]. run_step. eapply runs_conseq; [by eapply free_runs|]. intros [] s2 H2. by run_step. }
  intros (mg & L & Hw & Hn). destruct (gr_has_dispatcher _ _ _ _ Hw) as [d Ed].
  unfold _tube_manager_get_dispatcher. run_step. run_step.
  apply (runs_get_mgr mg); [apply (pa_mgr _ _ _ _ _ _ _ (gw_parts _ _ _ _ (gr_growing _ _ _ _ Hw)))|]. run_step.
  rewrite Ed. run_step. run_step. run_step.
  eapply runs_conseq; [by eapply stream_events_runs|]. intros [[]|e] s2 (m' & L' & H); cbn beta iota.
  - destruct H as (Hw' & HN & Hr). run_step. eapply runs_conseq; [by eapply grown_stream_manager|]. intros [] s3 H3. by run_step.
  - run_step. eapply runs_conseq; [by eapply destroy_growing|]. intros [] s3 H3. by run_step.
Qed.
(** C26: creating a stream manager.  From a state without any manager,
    [tube_stream_manager_create] ends without a fault, whatever fails, memory or a call of
    the system.  Either it reports an error and nothing is left of the tube manager, of its
    events, or of the three events of streams; or there is a tube manager as
    [tube_manager_create] makes it, whose dispatcher has nine events, found by their names,
    the three of the stream manager among them, and to none of them is anything bound.  The
    streams that were there stay. *)
Theorem stream_manager_created buckets len : buckets <= 2 ^ 30 ->
  runs (tube_stream_manager_create buckets len) s0 (fun r s =>
    match r with
    | Err _ => nothing_left s0 s
    | Ok _ => stream_manager_at s
    end).
Proof. apply create_stream_runs. Qed.
End creation.

(** ** Destruction *)

(** The stream manager without its fields. *)
Definition without_manager s : world := with_user (put_manager None (user s)) s.

(** C27: destroying a stream manager.  In any state between two calls, it ends without a
    fault and gives back all that [tube_manager_destroy] does: the tubes, each closed if it
    was running, the table, the dispatcher with all its events, those of streams among
    them, the queue and its timers; and the stream manager itself.  The streams are not
    closed nor released: they are what they were. *)
Theorem stream_manager_destroyed K E d mg R s m ts : serving K E d mg R s -> mg_dispatcher mg = Some d ->
  timers_ok (app s) ts -> sc_manager (user s) = Some m ->
  runs tube_stream_manager_destroy s (fun _ s' =>
    dismantled K R ts (without_manager s) s' /\ user s' = put_manager None (user s)).
Proof.
  intros Hs Ed Ht Em. unfold tube_stream_manager_destroy. run_step. apply (upd_streams_runs m); [done|].
  set (s1 := with_user _ s). run_step.
  assert (Hs1 : serving K E d mg R s1).
  { destruct Hs as [H1 H2 H3 H4 H5]. split; [by apply rest_put_app|done|done|done|by destruct H5]. }
  eapply runs_conseq; [eapply finalize_serving; [exact Hs1|exact Ed|]|].
  { eapply timers_ok_ext; [exact Ht|done|done|by destruct Ht]. }
  intros [] s2 [_ [D1 D2 D3 D4 D5 D6 D7 D8 D9 D10]]. apply runs_on_mw. unfold free_manager. run_step.
  assert (Eu : user s2 = put_manager (Some (StreamManager None None None)) (user s)) by exact D10.
  split; [|cbn; by rewrite Eu]. split; [exact D1|exact D2|exact D3|exact D4|exact D5|exact D6|by destruct D7; split|exact D8|exact D9|cbn; by rewrite Eu].
Qed.
End tube_stream.

(** ** A stream manager that is created, makes a stream and is destroyed *)
Abbreviation sworld_ex := (world cbor_ex Z Z Z Z (streams Z)).
Abbreviation smworld_ex := (mworld Z Z Z (streams Z)).

Definition no_world (streams_oom names_oom : list bool) : sworld_ex :=
  HState store_empty store_empty store_empty names_oom
    (EClient store_empty store_empty store_empty store_empty (pstate_init [])
      (MWorld (HState store_empty store_empty store_empty []
         (TWorld store_empty store_empty (pstate_init []) [] []))
       store_empty None streams_oom None [] (Env [] [inl 3; inl 4] [] [] [] [] [] [] []) (Streams store_empty None 7))).

Lemma no_world_clean o1 o2 : clean_slate (no_world o1 o2).
Proof.
  split; [split; [split_and!|..]|split_and!|split_and!|..]; first [apply store_wf_empty|apply pstate_init_wf|reflexivity|constructor].
Qed.

Definition left_of (s : sworld_ex) :=
  let x := ec_app (hs_client s) in
  (map_to_list (st_objs (sc_streams (mw_user x))), sc_manager (mw_user x),
   map_to_list (st_objs (ec_events (hs_client s))), map_to_list (m_live (ps_mem (ec_pools (hs_client s)))),
   map_to_list (st_objs (hs_tables s)), bool_decide (is_Some (mw_mgr x))).

(** The stream is still there when its manager is gone. *)
Definition stream_session : C sworld_ex (res Z (ptr * loc)) :=
  _ ←! tube_stream_manager_create 5 3;
  s ←! on_mw tube_stream_create;
  e ← ls_event_dispatcher_get_event 1 [84; 67; 80; 58; 68; 65; 84; 65];
  tube_stream_manager_destroy;;
  mret (Ok (e, s)).

Example streams_outlive_manager : match stream_session (no_world [] []) with
  | Done (r, s) => Some (r, left_of s)
  | Fault _ => None
  end = Some (Ok (Some 9%positive, 1%positive), ([(1%positive, TubeStream true)], None, [], [], [], false)).
Proof. vm_compute. reflexivity. Qed.

(** Memory runs out at the last event of the stream manager. *)
Example no_memory_for_last_event : match stream_session (no_world [] (replicate 21 false ++ [true])) with
  | Done (r, s) => Some (r, left_of s)
  | Fault _ => None
  end = Some (Err LS_ERR_NO_MEMORY, ([], None, [], [], [], false)).
Proof. vm_compute. reflexivity. Qed.

Lemma stream_manager_created_witness :
  let s0 := no_world [false; false] (replicate 21 false ++ [true]) in
  runs (tube_stream_manager_create 5 3) s0 (fun r s =>
    match r with
    | Err _ => nothing_left s0 s
    | Ok _ => stream_manager_at s0 s
    end).
Proof.
  intros s0. refine (stream_manager_created s0 (no_world_clean _ _) eq_refl 5 3 _). lia.
Defined.

(** The manager that was created above. *)
Lemma stream_manager_destroyed_witness :
  let s0 := no_world [] [] in
  runs (r ← tube_stream_manager_create 5 3; match r with Err _ => mret tt | Ok _ => tube_stream_manager_destroy end) s0
    (fun _ s' => mw_mgr (ec_app (hs_client s')) = None /\ mw_user (ec_app (hs_client s')) = Streams store_empty None 7 /\
       st_objs (ec_dispatchers (hs_client s')) = ∅ /\ st_objs (ec_events (hs_client s')) = ∅ /\ heap_of s' = heap_of s0).
Proof.
  intros s0. run_step.
  eapply runs_conseq; [refine (create_stream_runs s0 (no_world_clean _ _) eq_refl 5 3 _); lia|].
  intros [[]|e] s1; [|intros [N1 _ _ N4 N5 [N6 _] _ _ _ N10]; by run_step].
  intros [[A1 A2] (mg & m & d & E & N & B1 & B2 & B3 & B4 & B5 & B6 & B7 & B8 & _ & B9)].
  eapply runs_conseq; [refine (stream_manager_destroyed (before s0 N) E d mg ∅ s1 m [] B5 B3 B9 B4)|].
  intros [] s' [[D1 D2 D3 D4 D5 D6 [D7 _ _] D8 D9 D10] Eu]. split_and!; [done| |done|done|done].
  rewrite Eu. unfold put_manager. by rewrite A1, A2.
Defined.

Lemma stream_life_witness :
  let x := ec_app (hs_client (no_world [false] [])) in
  let cs := [CallBind (Some 1%positive); CallWrite (Some [104; 105]) 2; CallRead [0; 0] 2; CallClose] in
  runs (stream_run cs) x (fun r x' => exists st, x' = with_store st (pop_oom x) /\
    st_objs st = st_objs (sc_streams (mw_user x)) /\ store_wf st /\
    match r with
    | Err e => e = LS_ERR_NO_MEMORY /\ hd false (mw_oom x) = true
    | Ok (s, rs) => hd false (mw_oom x) = false /\ st_objs (sc_streams (mw_user x)) !! s = None /\
        rs = unimplemented <$> cs
    end).
Proof. intros x cs. refine (stream_life cs x _). apply store_wf_empty. Defined.
