(* ===== verification/Samples.v ===== *)
(** What the programs of samplecode/ have in common: the end of main() at the first failure,
    calls on tubes from callbacks, and runs of a whole program from a state in which nothing
    is there.  Timertest.v and Spudecho.v are the programs. *)

From S2P Require Import Prelude LsError LsStr LsMem PoolUse Store LsTimer LsHtable LsHash GHeap GHeapLayout PQueue Spud LsSockaddr LsPktinfo Tube LsEventing EventBindings EventDispatch TubeManager ManagerState.
Open Scope Z_scope.

Definition SIGUSR1 : Z := 10.

(** The client's part of the state. *)
Section client_state.
Context {TCB TX SCB U : Type}.

Definition put_client (u : U) (x : mworld TCB TX SCB U) : mworld TCB TX SCB U :=
  MWorld (mw_table x) (mw_timers x) (mw_queue x) (mw_oom x) (mw_mgr x) (mw_sigs x) (mw_env x) u.

(** A call on a tube, from a callback of an event. *)
Definition on_tube {T} (m : C tworld T) : C (mworld TCB TX SCB U) T := zoom mw_table set_table (client m).

Lemma on_tube_runs {T} (m : C tworld T) (x : mworld TCB TX SCB U) (Q : T -> mworld TCB TX SCB U -> Prop) :
  runs m (hs_client (mw_table x)) (fun r w => Q r (set_table (set_client w (mw_table x)) x)) -> runs (on_tube m) x Q.
Proof. intros H. by apply runs_zoom, runs_zoom. Qed.
End client_state.

(** A call that ends main() when it fails. *)
Definition or_exit {S A} (m : C S (res Z A)) (k : A -> C S Z) : C S Z :=
  r ← m; match r with Err _ => mret 1 | Ok a => k a end.
Notation "x '←?' y ; z" := (or_exit y (fun x => z))
  (at level 20, y at level 100, z at level 200) : spud_scope.

(** ** Runs *)

(** Nothing is there yet. *)
Definition boot {CB TCB TX SCB U} (v : env) (u : U) : world cbor_ex CB TCB TX SCB U :=
  HState store_empty store_empty store_empty []
    (EClient store_empty store_empty store_empty store_empty (pstate_init [])
      (MWorld (HState store_empty store_empty store_empty [] (TWorld store_empty store_empty (pstate_init []) [] []))
         store_empty None [] None [] v u)).

Definition ending {CB TCB TX SCB U T} (o : outcome (Z * world cbor_ex CB TCB TX SCB U)) (f : U -> tworld -> T) : (Z * T) + fault :=
  match o with
  | Done (r, s) => let x := ec_app (hs_client s) in inl (r, f (mw_user x) (hs_client (mw_table x)))
  | Fault f => inr f
  end.
