(* ===== verification/Timertest.v ===== *)
(** The program samplecode/timertest.c: it runs the loop until a timer of 0.1 s stops it. *)

From S2P Require Import Prelude LsError LsStr LsMem PoolUse Store LsTimer LsHtable LsHash GHeap GHeapLayout PQueue Spud LsSockaddr LsPktinfo Tube LsEventing EventBindings EventDispatch TubeManager ManagerState ManagerLoop ManagerTimers Samples.
Open Scope Z_scope.

Inductive event_cb := startup.
Inductive timer_cb := after.
Inductive sig_cb := sg.
#[export] Instance event_cb_eq_dec : EqDecision event_cb.
Proof. solve_decision. Defined.

Inductive line := After | Sig (sig : Z) | Failed (e : Z).

Section timertest.
Context {cbor : Type} `{!CborLib cbor}.
Abbreviation mworld := (mworld timer_cb ptr sig_cb (list line)).
Abbreviation world := (world cbor event_cb timer_cb ptr sig_cb (list line)).

Definition say (l : line) : C mworld unit := c_modify (fun x => put_client (mw_user x ++ [l]) x).

Definition on_event (cb : event_cb) (e : loc) (data : event_data cbor) (handled : bool) (a : event_arg)
    : C mworld (bool * list (loc * event_data cbor)) :=
  match cb with
  | startup =>
      r ← tube_manager_schedule_ms 100 after None;
      (match r with Err e => say (Failed e) | Ok _ => mret tt end);;
      mret (handled, [])
  end.

Definition on_timer (cb : timer_cb) (tim : loc) : C world unit :=
  match cb with after => on_mw (say After);; _ ← tube_manager_stop; mret tt end.

Definition on_signal (cb : sig_cb) (sig : Z) : C world unit :=
  match cb with sg => on_mw (say (Sig sig)) end.

Definition main (message_len : Z) (fuel : nat) : C world Z :=
  _ ←? tube_manager_create 0 message_len;
  _ ←? on_mw (tube_manager_signal SIGUSR1 sg);
  _ ←? tube_manager_bind_event EV_LOOPSTART_NAME startup;
  _ ←? tube_manager_loop (scripted on_event) (scripted_result no_results) on_timer on_signal fuel true;
  tube_manager_destroy;;
  mret 0.
End timertest.

(** ** A run *)

(** timertest, on a clock that says 100 s until select() comes back after 0.1 s.  The timer
    is due; it is taken off the queue, freed, and used. *)
Definition clock_ex : env := Env [] [inl 3; inl 4] [inl (Timeval 100 0); inl (Timeval 100 100000)] []
  [SelectTimeout] [] [] [] [].

Example timertest_crashes : ending (main 3 20 (boot clock_ex [])) (fun l _ => l) = inr UseAfterFree.
Proof. vm_compute. reflexivity. Qed.
