(* ===== verification/Spudecho.v ===== *)
(** The program samplecode/spudecho.c: a server that sends back what it gets, after a delay.
    Its callbacks and main(), what the echo sends, and runs. *)

From S2P Require Import Prelude LsError LsStr LsMem PoolUse Store LsTimer LsHtable LsHash GHeap GHeapLayout PQueue Spud LsSockaddr LsPktinfo Tube LsEventing EventBindings EventDispatch TubeManager ManagerState ManagerLoop ManagerTimers ManagerLife ManagerSession Samples.
Open Scope Z_scope.

Definition MYPORT : Z := 1402.

Inductive event_cb := read_cb | close_cb | add_cb | remove_cb.
Inductive timer_cb := read_delay.
Inductive sig_cb := print_stats.
#[export] Instance event_cb_eq_dec : EqDecision event_cb.
Proof. solve_decision. Defined.

(** What is to be sent later: [buf] is NULL or a block of [length] bytes. *)
Record delay_write_t := DelayWrite { dw_t : ptr; dw_buf : option bytes }.

Record context_t := Context { c_count : Z }.

Inductive line :=
  | Listening (port : Z)
  | NoMemory
  | Received (data : bytes)
  | Closed (id : option bytes) (count : Z)
  | TubeCount (n : Z)
  | Failed (e : Z).

Record client := Client {
  cl_delays : store delay_write_t;
  cl_contexts : store context_t;
  cl_log : list line }.

Abbreviation mworld := (mworld timer_cb ptr sig_cb client).

#[export] Instance mworld_delays : HasStore mworld delay_write_t := {
  the_store x := cl_delays (mw_user x);
  with_store st x := put_client (Client st (cl_contexts (mw_user x)) (cl_log (mw_user x))) x }.
#[export] Instance mworld_contexts : HasStore mworld context_t := {
  the_store x := cl_contexts (mw_user x);
  with_store st x := put_client (Client (cl_delays (mw_user x)) st (cl_log (mw_user x))) x }.

(** A value that was decoded, as the callback reads it: [length] is the number of the bytes
    of a string, and of any other value that of its items, with no bytes to go with it. *)
Inductive cbor_value := CborString (str : bytes) | CborOther (length : Z).

Section spudecho.
Context {cbor : Type} `{!CborLib cbor}.
(** cn_cbor_mapget_int() for the key 0: no value, or one. *)
Context (mapget_0 : cbor -> option cbor_value).
(** Whether the program was started with [-v]. *)
Context (verbose : bool).
Abbreviation world := (world cbor event_cb timer_cb ptr sig_cb client).

Definition say (l : line) : C mworld unit :=
  c_modify (fun x => put_client (Client (cl_delays (mw_user x)) (cl_contexts (mw_user x)) (cl_log (mw_user x) ++ [l])) x).

(** A line of the level LS_LOG_VERBOSE. *)
Definition say_verbose (l : line) : C mworld unit := if verbose then say l else mret tt.

(** memcpy() of [cp->length] bytes from [cp->v.str], whatever the type of [cp]. *)
Definition copy_value (v : cbor_value) : C mworld bytes :=
  match v with
  | CborString str => mret str
  | CborOther length => if decide (length = 0) then mret [] else c_fault OutOfBounds
  end.

(** The line for "%*s": the length is the width of a column, not a bound, and the block has no
    0 at its end. *)
Definition say_received (data : bytes) : C mworld unit :=
  if verbose then
    if decide (0 ∈ data) then say (Received data) else c_fault OutOfBounds
  else mret tt.

(** malloc() is not checked. *)
Definition new_context : C mworld loc :=
  c ← new (Context 0);
  c_deref c.

Definition on_read (t : loc) (c : option cbor) : C mworld unit :=
  dw ← new (DelayWrite None None);
  match dw with
  | None => say NoMemory
  | Some dw =>
      update dw (fun w => DelayWrite (Some t) (dw_buf w));;
      copied ←
        match c ≫= mapget_0 with
        | None => mret true
        | Some cp =>
            fail ← oom;
            if fail : bool then say NoMemory;; release (A := delay_write_t) dw;; mret false
            else
              data ← copy_value cp;
              update dw (fun w => DelayWrite (dw_t w) (Some data));;
              say_received data;;
              mret true
        end;
      if copied : bool then
        r ← tube_manager_schedule_ms 10 read_delay (Some dw);
        match r with Err e => say (Failed e) | Ok _ => mret tt end
      else mret tt
  end.

Definition on_close (t : loc) : C mworld unit :=
  c ← on_tube (tube_get_data t);
  id ← on_tube (tube_id_to_string t (SPUD_ID_STRING_SIZE + 1));
  c ← c_deref c;
  c ← load (A := context_t) c;
  say_verbose (Closed id (c_count c)).

Definition on_add (t : loc) : C mworld unit :=
  c ← new_context;
  on_tube (tube_set_data t (Some c)).

Definition on_remove (t : loc) : C mworld unit :=
  c ← on_tube (tube_get_data t);
  match c with Some c => release (A := context_t) c | None => mret tt end.

(** DATA and CLOSE come with a [tube_event_data], ADD and REMOVE with a tube; the callbacks
    do not look which. *)
Definition on_event (cb : event_cb) (e : loc) (data : event_data cbor) (handled : bool) (a : event_arg)
    : C mworld (bool * list (loc * event_data cbor)) :=
  (match cb, data with
   | read_cb, EvPacket t c _ => on_read t c
   | close_cb, EvPacket t _ _ => on_close t
   | add_cb, EvTube t => on_add t
   | remove_cb, EvTube t => on_remove t
   | _, _ => c_fault OutOfBounds
   end);;
  mret (handled, []).

Definition send_delayed (tim : loc) : C mworld unit :=
  dw ← ls_timer_get_context (CB := timer_cb) tim;
  dw ← c_deref dw;
  w ← load (A := delay_write_t) dw;
  t ← c_deref (dw_t w);
  c ← on_tube (tube_get_data t);
  r ← on_tube (tube_data t (default [] (dw_buf w)));
  (match r with Err e => say (Failed e) | Ok _ => mret tt end);;
  release (A := delay_write_t) dw;;
  c ← c_deref c;
  update c (fun c => Context (u64 (c_count c + 1))).

Definition on_timer (cb : timer_cb) (tim : loc) : C world unit :=
  match cb with read_delay => on_mw (send_delayed tim) end.

Definition on_signal (cb : sig_cb) (sig : Z) : C world unit :=
  match cb with print_stats => n ← tube_manager_size; on_mw (say (TubeCount n)) end.

Definition main (message_len : Z) (fuel : nat) : C world Z :=
  _ ←? tube_manager_create 0 message_len;
  _ ←? on_mw (tube_manager_signal SIGUSR1 print_stats);
  _ ←? tube_manager_socket MYPORT;
  _ ←? tube_manager_bind_event EV_DATA_NAME read_cb;
  _ ←? tube_manager_bind_event EV_CLOSE_NAME close_cb;
  _ ←? tube_manager_bind_event EV_ADD_NAME add_cb;
  _ ←? tube_manager_bind_event EV_REMOVE_NAME remove_cb;
  on_mw (say (Listening MYPORT));;
  _ ←? tube_manager_loop (scripted on_event) (scripted_result no_results) on_timer on_signal fuel true;
  mret 0.
End spudecho.

(** ** The echo *)
Section echo.
Context {cbor : Type} `{!CborLib cbor} `{!CborLaws cbor}.
Context (mapget_0 : cbor -> option cbor_value) (verbose : bool).
Abbreviation tubes_of x := (hs_client (mw_table x)).
Abbreviation delays x := (st_objs (cl_delays (mw_user x))).
Abbreviation contexts x := (st_objs (cl_contexts (mw_user x))).
Abbreviation log x := (cl_log (mw_user x)).
Implicit Types (x : mworld).

(** The timer [tim] is for the bytes [data], which are to be sent on the tube [t]. *)
Record delayed x (tim : loc) (w : timeval) (dw t : loc) (data : bytes) : Prop := {
  dl_timer : st_objs (mw_timers x) !! tim = Some (Timer read_delay (Some dw) w);
  dl_data : delays x !! dw = Some (DelayWrite (Some t) (Some data)) }.

(** A state in which [on_read] runs: memory at hand, and room for a timer. *)
Record can_delay mg x (ts : list loc) : Prop := {
  cd_timers : timers_ok x ts;
  cd_memory : reliable x;
  cd_mgr : mw_mgr x = Some mg;
  cd_room : Z.of_nat (S (length ts)) < 2 ^ 30;
  cd_delays : store_wf (cl_delays (mw_user x)) }.

(** What is copied of a value: the bytes of a string, nothing of an empty value. *)
Definition copy_of (cp : cbor_value) : option bytes :=
  match cp with
  | CborString str => Some str
  | CborOther length => if decide (length = 0) then Some [] else None
  end.

(** What cannot be copied, or not logged. *)
Definition strays (cp : cbor_value) : Prop :=
  match copy_of cp with None => True | Some data => verbose = true /\ 0 ∉ data end.

(** [on_read] up to the copy of the data. *)
Lemma on_read_found mg x ts t v cp F (Q : unit -> mworld -> Prop) : can_delay mg x ts -> mapget_0 v = Some cp ->
  (let dw := st_next (cl_delays (mw_user x)) in forall x1,
   x1 = put_client (Client (st_set dw (DelayWrite (Some t) None) (st_add (DelayWrite None None) (cl_delays (mw_user x))))
     (cl_contexts (mw_user x)) (log x)) x ->
   runs_or (data ← copy_value cp;
            update dw (fun w => DelayWrite (dw_t w) (Some data));;
            say_received verbose data;; mret true) x1 F
     (fun copied s' => runs_or (if copied : bool then
         r ← tube_manager_schedule_ms 10 read_delay (Some dw);
         match r with Err e => say (Failed e) | Ok _ => mret tt end else mret tt) s' F Q)) ->
  runs_or (on_read mapget_0 verbose t (Some v)) x F Q.
Proof.
  intros [Hok Hr Em Hroom Hwf] Hv HO. unfold on_read.
  or_step. apply runs_new_ok; [cbn; by rewrite (re_oom _ Hr)|]. rewrite (pop_oom_reliable x) by apply Hr.
  or_step. eapply runs_update; [apply lookup_insert_eq|]. cbn [mbind option_bind]. rewrite Hv.
  apply runs_or_bind. or_step. apply runs_oom. change (oom_script _) with (mw_oom x). rewrite (re_oom _ Hr). cbn [hd].
  rewrite pop_oom_reliable by exact (re_oom _ Hr). by apply HO.
Qed.

Lemma on_read_runs mg x ts t v cp data : can_delay mg x ts -> mapget_0 v = Some cp -> copy_of cp = Some data ->
  ~ strays cp ->
  runs (on_read mapget_0 verbose t (Some v)) x (fun _ x' => exists tim dw,
    (tim ∉ ts) /\ delays x !! dw = None /\ timers_ok x' (tim :: ts) /\
    delayed x' tim (timeradd (mg_last mg) (ms_delta 10)) dw t data /\
    mw_table x' = mw_table x /\ contexts x' = contexts x).
Proof.
  intros Hc Hv Hcp Hs. pose proof Hc as [Hok Hr Em Hroom Hwf].
  apply (runs_or_none _ _ (fun _ => False)); [|tauto].
  eapply on_read_found; [exact Hc|exact Hv|]. cbv zeta. intros x1 E1.
  assert (Ecp : copy_value cp x1 = Done (data, x1)).
  { unfold copy_value. destruct cp as [str|n]; cbn in Hcp; [by simplify_eq|]. case_decide; by simplify_eq. }
  apply runs_or_runs. run_step. eapply runs_done; [exact Ecp|]. run_step.
  eapply runs_update; [subst x1; cbn; apply lookup_insert_eq|]. run_step.
  set (x2 := with_store _ x1).
  apply (runs_conseq _ _ (fun _ x3 => exists l, x3 = put_client (Client (cl_delays (mw_user x2))
    (cl_contexts (mw_user x2)) (log x2 ++ l)) x2)).
  { unfold say_received, say. destruct verbose eqn:Ev.
    - case_decide as Hin; [|by destruct Hs; unfold strays; rewrite Hcp]. run. by exists [Received data].
    - run. exists []. rewrite app_nil_r. by subst x1. }
  intros [] x3 [l ->]. run_step. apply runs_or_runs.
  assert (Hok1 : timers_ok (put_client (Client (cl_delays (mw_user x2)) (cl_contexts (mw_user x2)) (log x2 ++ l)) x2) ts)
    by (subst x2 x1; eapply timers_ok_ext; [exact Hok|done|done|by destruct Hok]).
  unfold tube_manager_schedule_ms, ls_timer_create_ms. run_step. run_step.
  apply (the_mgr_runs _ mg); [by subst x2 x1|].
  eapply schedule_new_runs; [exact Hok1|subst x2 x1; by destruct Hr; split|done|]. cbv zeta.
  intros tim q Hnew _ _ Ht Hok2. run_step.
  exists tim, (st_next (cl_delays (mw_user x))). split_and!; [done|by apply store_wf_fresh|exact Hok2| |by subst x2 x1|by subst x2 x1].
  split; [exact Ht|]. subst x2 x1. cbn. apply lookup_insert_eq.
Qed.

(** A value that is not a string is read through a pointer that was never set; and with [-v]
    the text that is printed ends at the first 0, wherever that is. *)
Lemma on_read_strays mg x ts t v cp : can_delay mg x ts -> mapget_0 v = Some cp -> strays cp ->
  on_read mapget_0 verbose t (Some v) x = Fault OutOfBounds.
Proof.
  intros Hc Hv Hs. apply runs_or_certain. eapply on_read_found; [exact Hc|exact Hv|]. cbv zeta. intros x1 E1.
  unfold strays in Hs. apply runs_or_bind. destruct (copy_of cp) as [data|] eqn:Hcp.
  - destruct Hs as [-> Hin].
    assert (Ecp : copy_value cp x1 = Done (data, x1)).
    { unfold copy_value. destruct cp as [str|n]; cbn in Hcp; [by simplify_eq|]. case_decide; by simplify_eq. }
    apply runs_or_runs, (runs_done _ _ _ _ _ Ecp). or_step.
    eapply runs_update; [subst x1; cbn; apply lookup_insert_eq|]. apply runs_or_bind.
    unfold say_received. rewrite decide_False by done. by apply runs_or_fault.
  - destruct cp as [str|n]; [done|]. cbn in Hcp |- *. case_decide; [done|]. by apply runs_or_fault.
Qed.

(** What is sent for [data], and what is logged: one packet, or the reason why there is none. *)
Definition echoed (w : tworld) (u : tube) (data : bytes) (w' : tworld) (l : list line) : Prop :=
  (tw_sent w' = tw_sent w /\ (l = [Failed LS_ERR_NO_MEMORY] \/
     l = [Failed LS_ERR_OVERFLOW] /\ data <> [] /\ cn_cbor_encoder_write MAXBUFLEN (data_map data) = None)) \/
  exists d, tw_sent w' = tw_sent w ++ [d] /\ dg_dest d = t_peer u /\
    received d u SPUD_DATA false false (match data with [] => None | _ => Some (data_map data) end) /\
    l = match next_answer w with Ok _ => [] | Err e => [Failed e] end.

Lemma send_delayed_runs x tim w dw t data u c n : delayed x tim w dw t data ->
  mem_wf (ps_mem (tw_pools (tubes_of x))) -> st_objs (tw_tubes (tubes_of x)) !! t = Some u -> tube_ok (tubes_of x) u ->
  tube_id_wf (t_id u) -> t_data u = Some c -> contexts x !! c = Some (Context n) ->
  runs (send_delayed tim) x (fun _ x' =>
    delays x' = delete dw (delays x) /\ contexts x' = <[c := Context (u64 (n + 1))]> (contexts x) /\
    tw_tubes (tubes_of x') = tw_tubes (tubes_of x) /\
    exists l, log x' = log x ++ l /\ echoed (tubes_of x) u data (tubes_of x') l).
Proof.
  intros [Htim Hdw] Hm Ht Hok Hid Hc Hn. unfold send_delayed, ls_timer_get_context, tube_get_data.
  run_step. run_step. eapply runs_load; [exact Htim|]. run. eapply runs_load; [exact Hdw|]. run.
  apply on_tube_runs. run_step. eapply runs_load; [exact Ht|]. run_step. run_step.
  apply on_tube_runs. eapply runs_conseq; [by apply (tube_data_runs t u)|].
  cbn [dw_buf default]. intros r w1 (_ & Et & _ & Hsent).
  assert (He : echoed (tubes_of x) u data w1 (match r with Ok _ => [] | Err e => [Failed e] end)).
  { destruct Hsent as [[-> Es]|[(Hne & Henc & -> & Es)|(d & -> & Es & _ & Hd & Hrc)]].
    - left. split; [done|by left].
    - left. split; [done|by right].
    - right. by exists d. }
  set (x1 := set_table _ _).
  run_step. apply (runs_conseq _ _ (fun _ x2 => x2 = put_client (Client (cl_delays (mw_user x)) (cl_contexts (mw_user x))
    (log x ++ match r with Ok _ => [] | Err e => [Failed e] end)) x1)).
  { destruct r as [[]|e]; [|unfold say]; run; [|done]. rewrite app_nil_r. subst x1. by destruct x as [? ? ? ? ? ? ? []]. }
  intros [] x2 ->. run_step. apply runs_release; [cbn; rewrite Hdw; by eexists|]. rewrite Hc. run_step. run_step.
  eapply runs_update; [cbn; exact Hn|]. cbn. split_and!; [done|done|done|]. by eexists.
Qed.

Lemma send_delayed_dangling x tim w dw t data : delayed x tim w dw t data ->
  st_objs (tw_tubes (tubes_of x)) !! t = None -> send_delayed tim x = Fault UseAfterFree.
Proof.
  intros [Htim Hdw] Ht. apply runs_or_certain. unfold send_delayed, ls_timer_get_context.
  or_step. run_step. eapply runs_load; [exact Htim|]. run_step. or_step. run_step.
  or_step. eapply runs_load; [exact Hdw|]. or_step. run_step. apply runs_or_bind.
  unfold on_tube, LsHtable.client, zoom, tube_get_data, load, c_live, c_get, runs_or, ends, mbind, C_bind. cbn. by rewrite Ht.
Qed.

(** C28: the echo, in two steps.  When a packet with a value [cp] for the key 0 comes for the
    tube [t], and there is memory, spudecho's callback leaves a timer that is due ten
    milliseconds after the manager's clock, in a sound queue, with a copy of the data; but a
    value that is not a string (an array or a map with items) is read through a pointer that
    was never set, and with [-v] data without a 0 is read beyond its end.  In whatever state
    that timer is run, if the tube is there with its context, what is sent is one packet to
    the tube's peer, whose body reads back as the map with this data, or which has no body
    when there is no data; or nothing, and then the log says why: there was no memory, or
    the data is too long.  The copy is gone and the tube's count is one more.  But if the
    tube was destroyed meanwhile, it is used after it was freed. *)
Theorem echo_later mg x ts t v cp : can_delay mg x ts -> mapget_0 v = Some cp ->
  (strays cp -> on_read mapget_0 verbose t (Some v) x = Fault OutOfBounds) /\
  forall data, copy_of cp = Some data ->
  (~ strays cp -> runs (on_read mapget_0 verbose t (Some v)) x (fun _ x1 => exists tim dw,
    (tim ∉ ts) /\ delays x !! dw = None /\ timers_ok x1 (tim :: ts) /\
    delayed x1 tim (timeradd (mg_last mg) (ms_delta 10)) dw t data)) /\
  forall x2 tim w dw, delayed x2 tim w dw t data ->
    (st_objs (tw_tubes (tubes_of x2)) !! t = None -> send_delayed tim x2 = Fault UseAfterFree) /\
    forall u c n, mem_wf (ps_mem (tw_pools (tubes_of x2))) -> st_objs (tw_tubes (tubes_of x2)) !! t = Some u ->
      tube_ok (tubes_of x2) u -> tube_id_wf (t_id u) -> t_data u = Some c -> contexts x2 !! c = Some (Context n) ->
      runs (send_delayed tim) x2 (fun _ x' =>
        delays x' = delete dw (delays x2) /\ contexts x' = <[c := Context (u64 (n + 1))]> (contexts x2) /\
        tw_tubes (tubes_of x') = tw_tubes (tubes_of x2) /\
        exists l, log x' = log x2 ++ l /\ echoed (tubes_of x2) u data (tubes_of x') l).
Proof.
  intros Hc Hv. split; [by eapply on_read_strays|]. intros data Hcp. split.
  - intros Hs. eapply runs_conseq; [by eapply on_read_runs|].
    intros _ x1 (tim & dw & H1 & H2 & H3 & H4 & _). by exists tim, dw.
  - intros x2 tim w dw Hd. split; [by eapply send_delayed_dangling|]. intros. by eapply send_delayed_runs.
Qed.
End echo.

(** ** Runs *)

(** The examples' body is a byte string, or a map with two items. *)
Definition mapget_ex (c : cbor_ex) : option cbor_value :=
  Some (if decide (c = [162]) then CborOther 2 else CborString c).

Definition sender : sockaddr := sockaddr_in [127; 0; 0; 1] 1402.
Definition of_tube (cmd : spud_command) (body : bytes) : recv_answer :=
  Recv (dg_payload (packet tworld_ex (Tube TS_RUNNING sender id_ex None None 6) cmd false false body)) sender
    [InPktinfo4 (InPktinfo 2 [10; 0; 0; 1] [10; 0; 0; 1])].

Definition echo_env (ss : list select_answer) (rs : list recv_answer) : env :=
  Env [] [inl 3; inl 4; inl 5; inl 6] (replicate (S (length rs)) (inl (Timeval 100 0)) ++ [inl (Timeval 100 10000)]) [] ss rs [] [] [].

Definition echo_ex (verbose : bool) (ss : list select_answer) (rs : list recv_answer) :=
  ending (main mapget_ex verbose 3 20 (boot (echo_env ss rs) (Client store_empty store_empty [])))
    (fun c w => (cl_log c, map_to_list (st_objs (cl_contexts c)), map_to_list (st_objs (cl_delays c)), dg_payload <$> tw_sent w)).

(** The client closes its tube before the echo is due: the copy of the data still names it. *)
Example echo_closed : exists log sent, echo_ex false (replicate 3 (SelectReady None false true))
    [of_tube SPUD_OPEN []; of_tube SPUD_DATA [97; 98]; of_tube SPUD_CLOSE []] =
  inl (1, (log, [], [(1%positive, DelayWrite (Some 1%positive) (Some [97; 98]))], sent)).
Proof. eexists _, _. vm_compute. reflexivity. Qed.

(** When the echo's time comes, it is used after it was freed. *)
Example echo_due : echo_ex false (replicate 3 (SelectReady None false true) ++ [SelectTimeout])
    [of_tube SPUD_OPEN []; of_tube SPUD_DATA [97; 98]; of_tube SPUD_CLOSE []] = inr UseAfterFree.
Proof. vm_compute. reflexivity. Qed.

(** Nor does the echo come while the tube is open: the loop frees the timer before it runs
    it. *)
Example echo_open : echo_ex false [SelectReady None false true; SelectReady None false true; SelectTimeout]
    [of_tube SPUD_OPEN []; of_tube SPUD_DATA [97; 98]] = inr UseAfterFree.
Proof. vm_compute. reflexivity. Qed.

(** A client may end the program with a map, and with any text when it was started with [-v]. *)
Example echo_map : echo_ex false (replicate 2 (SelectReady None false true))
    [of_tube SPUD_OPEN []; of_tube SPUD_DATA [162]] = inr OutOfBounds /\
  echo_ex true (replicate 2 (SelectReady None false true))
    [of_tube SPUD_OPEN []; of_tube SPUD_DATA [97; 98]] = inr OutOfBounds.
Proof. by vm_compute. Qed.

(** A tube that is there, with its context, and no timers. *)
Definition echo_state : mworld :=
  MWorld (HState store_empty store_empty store_empty [] tworld_ex) store_empty (Some no_timers) [] (Some manager_zero) []
    (echo_env [] []) (Client store_empty (Store {[1%positive := Context 4]} 2) []).

Lemma echo_state_ready : can_delay manager_zero echo_state [].
Proof.
  split; [apply timers_ok_none; [reflexivity|apply store_wf_empty]|split; [reflexivity|reflexivity|by eexists]|
    reflexivity|cbn; lia|apply store_wf_empty].
Qed.

(** A timer for the two bytes 104 and 105, on that tube. *)
Definition delayed_state : mworld :=
  MWorld (HState store_empty store_empty store_empty []
      (with_store (Store {[1%positive := Tube TS_RUNNING (t_peer tube_ex) (t_id tube_ex) (Some 1%positive) (t_pktinfo tube_ex) (t_sock tube_ex)]} 2) tworld_ex))
    (Store {[7%positive := Timer read_delay (Some 5%positive) (Timeval 0 10000)]} 8) (Some no_timers) []
    (Some manager_zero) [] (echo_env [] [])
    (Client (Store {[5%positive := DelayWrite (Some 1%positive) (Some [104; 105])]} 6)
       (Store {[1%positive := Context 4]} 2) []).

Definition delayed_tube : tube :=
  Tube TS_RUNNING (t_peer tube_ex) (t_id tube_ex) (Some 1%positive) (t_pktinfo tube_ex) (t_sock tube_ex).

Lemma delayed_tube_ok : tube_ok (hs_client (mw_table delayed_state)) delayed_tube.
Proof. intros p Hp. exact (tube_ex_ok p Hp). Qed.

(** The timer is run: the two bytes go out, with the header and the example's encoding. *)
Example send_delayed_run :
  match send_delayed (cbor := cbor_ex) 7 delayed_state with
  | Done (_, x) => Some (cl_log (mw_user x), dg_dest <$> tw_sent (hs_client (mw_table x)),
      map_to_list (st_objs (cl_contexts (mw_user x))), map_to_list (st_objs (cl_delays (mw_user x))))
  | Fault _ => None
  end = Some ([], [sockaddr_in [127; 0; 0; 1] 1402], [(1%positive, Context 5)], []).
Proof. vm_compute. reflexivity. Qed.

(** Both steps at work, and a map that is taken for a string. *)
Lemma echo_later_witness :
  let tubes_of (x : mworld) := hs_client (mw_table x) in
  let delays (x : mworld) := st_objs (cl_delays (mw_user x)) in
  let contexts (x : mworld) := st_objs (cl_contexts (mw_user x)) in
  let log (x : mworld) := cl_log (mw_user x) in
  runs (on_read mapget_ex false 1 (Some [104; 105])) echo_state (fun _ x1 => exists tim dw,
    (tim ∉ []) /\ delays echo_state !! dw = None /\ timers_ok x1 [tim] /\
    delayed x1 tim (timeradd epoch (ms_delta 10)) dw 1 [104; 105]) /\
  runs (send_delayed (cbor := cbor_ex) 7) delayed_state (fun _ x' =>
    delays x' = delete 5%positive (delays delayed_state) /\
    contexts x' = <[1%positive := Context 5]> (contexts delayed_state) /\
    tw_tubes (tubes_of x') = tw_tubes (tubes_of delayed_state) /\
    exists l, log x' = [] ++ l /\ echoed (tubes_of delayed_state) delayed_tube [104; 105] (tubes_of x') l) /\
  on_read mapget_ex false 1 (Some [162]) echo_state = Fault OutOfBounds.
Proof.
  destruct (echo_later mapget_ex false manager_zero echo_state [] 1 [104; 105] (CborString [104; 105])
    echo_state_ready eq_refl) as [_ H].
  destruct (H _ eq_refl) as [H1 H2]. split; [apply H1; by intros [Hf _]|split].
  - destruct (H2 delayed_state 7%positive (Timeval 0 10000) 5%positive ltac:(by split)) as [_ H3].
    apply (H3 delayed_tube 1%positive 4); [apply tworld_ex_wf|reflexivity|apply delayed_tube_ok|apply id_ex_wf|reflexivity|reflexivity].
  - apply (proj1 (echo_later mapget_ex false manager_zero echo_state [] 1 [162] (CborOther 2)
      echo_state_ready eq_refl)). exact I.
Defined.
