(* ===== verification/Spudload.v ===== *)
(** The program samplecode/spudload.c: a client that opens, uses and closes tubes at random
    while another thread runs the loop.  What one round of it does, and what it does wrong. *)

From S2P Require Import Prelude LsError LsStr LsMem PoolUse Store LsTimer LsHtable LsHash GHeap GHeapLayout PQueue Spud LsSockaddr LsPktinfo Tube LsEventing EventBindings EventDispatch TubeManager ManagerState ManagerTubes ManagerPackets ManagerLoop ManagerOpen Samples.
Open Scope Z_scope.

Definition NUM_TUBES : Z := 1024.
Definition SIGINT : Z := 2.
(** "1402" *)
Definition SERVICE : cstr := [49; 52; 48; 50].

Inductive event_cb := remove_cb.
Inductive sig_cb := done_cb.
#[export] Instance event_cb_eq_dec : EqDecision event_cb.
Proof. solve_decision. Defined.

(** The number that a tube's data points to. *)
Record slot_t := Slot { sl_index : Z }.

Inductive line := Failed (e : Z) | InvalidState | DONE | Usage.

(** The global variables, the numbers that random() is going to return, and the exit code
    of the process, once it has exited. *)
Record client := Client {
  cl_tubes : list ptr;
  cl_remote : sockaddr;
  cl_data : bytes;
  cl_slots : store slot_t;
  cl_rands : list Z;
  cl_exit : option Z;
  cl_log : list line }.

Abbreviation mworld := (mworld Empty_set ptr sig_cb client).

Definition put_log l c := Client (cl_tubes c) (cl_remote c) (cl_data c) (cl_slots c) (cl_rands c) (cl_exit c) l.
Definition put_slots_of st c := Client (cl_tubes c) (cl_remote c) (cl_data c) st (cl_rands c) (cl_exit c) (cl_log c).
Definition put_slot_tubes l c := Client l (cl_remote c) (cl_data c) (cl_slots c) (cl_rands c) (cl_exit c) (cl_log c).
Definition put_rands l c := Client (cl_tubes c) (cl_remote c) (cl_data c) (cl_slots c) l (cl_exit c) (cl_log c).
Definition put_exit e c := Client (cl_tubes c) (cl_remote c) (cl_data c) (cl_slots c) (cl_rands c) e (cl_log c).
Definition put_start r d c := Client (cl_tubes c) r d (cl_slots c) (cl_rands c) (cl_exit c) (cl_log c).

#[export] Instance mworld_slots : HasStore mworld slot_t := {
  the_store x := cl_slots (mw_user x);
  with_store st x := put_client (put_slots_of st (mw_user x)) x }.

Section spudload.
Context {cbor : Type} `{!CborLib cbor}.
Abbreviation world := (world cbor event_cb Empty_set ptr sig_cb client).

Definition mod_client (f : client -> client) : C mworld unit :=
  c_modify (fun x => put_client (f (mw_user x)) x).
Definition say (l : line) : C mworld unit := mod_client (fun c => put_log (cl_log c ++ [l]) c).

(** random() *)
Definition random : C mworld Z :=
  x ← c_get;
  mod_client (put_rands (tail (cl_rands (mw_user x))));;
  mret (hd 0 (cl_rands (mw_user x))).

(** [tubes[i]] read and written. *)
Definition slot_get (i : Z) : C mworld ptr :=
  x ← c_get;
  match cl_tubes (mw_user x) !! Z.to_nat i with Some p => mret p | None => c_fault OutOfBounds end.
Definition slot_put (i : Z) (p : ptr) : C mworld unit :=
  _ ← slot_get i; mod_client (fun c => put_slot_tubes (<[Z.to_nat i := p]> (cl_tubes c)) c).

Definition on_remove (t : loc) : C mworld unit :=
  i ← on_tube (tube_get_data t);
  i ← c_deref i;
  n ← load (A := slot_t) i;
  slot_put (sl_index n) None;;
  release (A := slot_t) i.

Definition on_event (cb : event_cb) (e : loc) (data : event_data cbor) (handled : bool) (a : event_arg)
    : C mworld (bool * list (loc * event_data cbor)) :=
  (match cb, data with
   | remove_cb, EvTube t => on_remove t
   | _, _ => c_fault OutOfBounds
   end);;
  mret (handled, []).

(** done(), up to exit(). *)
Definition on_signal (cb : sig_cb) (sig : Z) : C world unit :=
  match cb with
  | done_cb =>
      r ← tube_manager_stop;
      (match r with Err e => on_mw (say (Failed e)) | Ok _ => mret tt end);;
      on_mw (say DONE);;
      on_mw (mod_client (put_exit (Some 0)))
  end.

Definition no_timer (cb : Empty_set) (tim : loc) : C world unit := match cb with end.

(** Fuel for the events that a call triggers. *)
Context (fuel : nat).
Abbreviation open_tube := (tube_manager_open_tube (scripted on_event) (scripted_result no_results) fuel).

(** A new tube for [tubes[i]]; malloc() of its number is not checked. *)
Definition fill_slot (i : Z) : C world (res Z loc) :=
  t ←! on_tubes tube_create;
  on_mw (slot_put i (Some t));;
  iptr ← on_mw (new (Slot i));
  iptr ← c_deref iptr;
  on_tubes (tube_set_data t (Some iptr));;
  mret (Ok t).

(** A failure in the loop of markov(): it returns 1. *)
Definition or_one {A} (m : C world (res Z A)) (k : A -> C world (option Z)) : C world (option Z) :=
  r ← m;
  match r with Err e => on_mw (say (Failed e));; mret (Some 1) | Ok a => k a end.

(** The switch of markov(), in a round for the tube [t]: the result, when it returns. *)
Definition act (t : loc) : C world (option Z) :=
  state ← on_tubes (tube_get_state t);
  match state with
  | TS_START => on_mw (say InvalidState);; mret (Some 1)
  | TS_UNKNOWN =>
      x ← on_mw c_get;
      or_one (open_tube (cl_remote (mw_user x))) (fun _ => mret None)
  | TS_OPENING => mret None
  | TS_RUNNING =>
      r ← on_mw random;
      if decide (r mod 10000 < 10) then or_one (on_tubes (tube_close t)) (fun _ => mret None)
      else
        n ← on_mw random;
        x ← on_mw c_get;
        let data := cl_data (mw_user x) in
        or_one (on_tubes (tube_data t (take (Z.to_nat (n mod Z.of_nat (length data))) data))) (fun _ => mret None)
  | TS_RESUMING => mret None
  end.

Definition round : C world (option Z) :=
  r ← on_mw random;
  let i := r mod NUM_TUBES in
  t ← on_mw (slot_get i);
  match t with
  | Some t => act t
  | None => or_one (fill_slot i) act
  end.

(** [listen] is what the other thread does between two rounds. *)
Fixpoint markov (listen : C world unit) (rounds : nat) : C world Z :=
  match rounds with
  | O => c_fault OutOfFuel
  | S rounds =>
      listen;;
      go ← tube_manager_running;
      if negb go then mret 0
      else
        r ← round;
        match r with Some code => mret code | None => markov listen rounds end
  end.

(** The thread: one run of the loop. *)
Definition socketListen : C world unit :=
  r ← tube_manager_loop (scripted on_event) (scripted_result no_results) no_timer on_signal fuel true;
  match r with Err e => on_mw (say (Failed e)) | Ok _ => mret tt end.

(** getaddrinfo() *)
Context (getaddrinfo : option cstr -> option cstr -> bool -> gai_answer).

(** "0123456789", over and over. *)
Definition load_data : bytes := (fun i => 48 + Z.of_nat i mod 10) <$> seq 0 1024.

Definition spudload (argv : list cstr) (message_len : Z) (listen : C world unit) (rounds : nat) : C world Z :=
  match argv with
  | _ :: dest :: _ =>
      on_mw (mod_client (fun c => put_start (cl_remote c) load_data c));;
      match ls_sockaddr_get_remote_ip_addr getaddrinfo (Some dest) (Some SERVICE) SIZEOF_SOCKADDR_STORAGE with
      | Err _ => mret 1
      | Ok remote =>
          on_mw (mod_client (put_start remote load_data));;
          _ ←? tube_manager_create 0 message_len;
          _ ←? tube_manager_socket 0;
          _ ←? on_mw (tube_manager_signal SIGINT done_cb);
          _ ←? tube_manager_bind_event EV_REMOVE_NAME remove_cb;
          on_mw (mod_client (put_slot_tubes (replicate (Z.to_nat NUM_TUBES) None)));;
          markov listen rounds
      end
  | _ => on_mw (say Usage);; mret 64
  end.
End spudload.

(** ** A round for a running tube *)
Section running.
Context {cbor : Type} `{!CborLib cbor} `{!CborLaws cbor}.
Abbreviation world := (world cbor event_cb Empty_set ptr sig_cb client).
Abbreviation app s := (ec_app (hs_client s)).
Abbreviation tubes_of x := (hs_client (mw_table x)).
Implicit Types (s : world) (x : mworld).

Lemma random_runs s (Q : Z -> world -> Prop) :
  let c := mw_user (app s) in
  Q (hd 0 (cl_rands c)) (put_app (put_client (put_rands (tail (cl_rands c)) c) (app s)) s) ->
  runs (on_mw random) s Q.
Proof. intros c HQ. apply runs_on_mw. unfold random, mod_client. run. exact HQ. Qed.

Lemma or_one_runs {A} (m : C tworld (res Z A)) s w (P : res Z A -> tworld -> Prop) (Q : option Z -> world -> Prop) :
  tubes_of (app s) = w -> runs m w P ->
  (forall a s', P a (tubes_of (app s')) -> Q (match a with Ok _ => None | Err _ => Some 1 end) s') ->
  runs (or_one (on_tubes m) (fun _ => mret None)) s Q.
Proof.
  intros <- Hm HQ. unfold or_one. run_step. apply runs_on_tubes. eapply runs_conseq; [exact Hm|].
  intros [a|e] w' HP; cbv beta iota; [run_step; by apply (HQ (Ok a))|].
  run_step. apply runs_on_mw. unfold say, mod_client. run. by apply (HQ (Err e)).
Qed.

(** A round for a running tube: with one chance in a thousand the tube is closed: its state
    is unknown from then on, and at most one CLOSE is sent; else the tubes stay as they are
    and at most one DATA packet is sent to the tube's peer, that reads back as some of the
    client's data, from the start, of a random length below all of it.  Either way markov()
    goes on, or returns 1 when that was not possible. *)
Theorem running_round fuel s t u : let x := app s in let w := tubes_of x in
  let c := mw_user x in let r := hd 0 (cl_rands c) in let n := hd 0 (tail (cl_rands c)) in
  mem_wf (ps_mem (tw_pools w)) -> st_objs (tw_tubes w) !! t = Some u -> tube_ok w u -> tube_id_wf (t_id u) ->
  t_state u = TS_RUNNING ->
  runs (act fuel t) s (fun go s' => let w' := tubes_of (app s') in
    (go = None \/ go = Some 1) /\
    if decide (r mod 10000 < 10) then
      tw_tubes w' = st_set t (put_state TS_UNKNOWN u) (tw_tubes w) /\
      (tw_sent w' = tw_sent w \/ tw_sent w' = tw_sent w ++ [packet w u SPUD_CLOSE false false []])
    else
      let data := take (Z.to_nat (n mod Z.of_nat (length (cl_data c)))) (cl_data c) in
      tw_tubes w' = tw_tubes w /\
      (tw_sent w' = tw_sent w \/ exists d, tw_sent w' = tw_sent w ++ [d] /\ dg_dest d = t_peer u /\
         received d u SPUD_DATA false false (match data with [] => None | _ => Some (data_map data) end))).
Proof.
  intros x w c r n Hm Ht Hok Hid Hst. unfold act. run_step. apply runs_on_tubes. unfold tube_get_state.
  run_step. eapply runs_load; [exact Ht|]. run_step. rewrite Hst. run_step. apply random_runs.
  change (hd 0 _) with r. destruct (decide (r mod 10000 < 10)) as [Hc|Hc].
  - eapply or_one_runs; [done|by eapply tube_close_runs|]. intros a s' (Et & _ & _ & Hs).
    split; [destruct a; auto|]. split; [done|]. destruct Hs as [[_ ->]|[_ ->]]; auto.
  - run_step. apply random_runs. change (hd 0 _) with n. run_step. apply runs_on_mw. run_step.
    eapply or_one_runs; [done|by eapply (tube_data_runs t u)|]. intros a s' (_ & Et & _ & Hs).
    split; [destruct a; auto|]. split; [done|].
    destruct Hs as [[_ ->]|[(_ & _ & _ & ->)|(d & _ & Es & _ & Hd & Hr)]]; [by left|by left|].
    right. by exists d.
Qed.
End running.

Lemma running_round_witness : let s := boot (Env [] [] [] [] [] [] [] [] [])
    (Client [] (sockaddr_other 0) [48; 49; 50] store_empty [10; 5] None []) : world cbor_ex event_cb Empty_set ptr sig_cb client in
  let s1 := put_tubes_of tworld_ex s in
  runs (act 1 1%positive) s1 (fun go s' => let w' := hs_client (mw_table (ec_app (hs_client s'))) in
    (go = None \/ go = Some 1) /\
    tw_tubes w' = tw_tubes tworld_ex /\
    (tw_sent w' = tw_sent tworld_ex \/ exists d, tw_sent w' = tw_sent tworld_ex ++ [d] /\ dg_dest d = t_peer tube_ex /\
       received d tube_ex SPUD_DATA false false (Some (data_map [48; 49])))).
Proof.
  intros s s1. refine (running_round 1 s1 1%positive tube_ex _ _ _ _ _).
  - apply tworld_ex_wf.
  - reflexivity.
  - apply tube_ex_ok.
  - apply id_ex_wf.
  - reflexivity.
Defined.

(** ** Runs *)

Definition server : sockaddr := sockaddr_in [127; 0; 0; 1] 1402.
Definition resolve (node service : option cstr) (numeric : bool) : gai_answer := gai_list [(server, 16)].

(** Four rounds could have been for the same slot, [tubes[0]]. *)
Definition load_env (ss : list select_answer) (rs : list recv_answer) : env :=
  Env [] [inl 3; inl 4; inl 5; inl 6] (replicate (S (length rs)) (inl (Timeval 100 0))) [] ss rs
    [RandBytes [1; 0; 0; 0; 0; 0; 0; 1]; RandBytes [1; 0; 0; 0; 0; 0; 0; 2]; RandBytes [1; 0; 0; 0; 0; 0; 0; 3]] [] [].

Definition load_ex (ss : list select_answer) (rs : list recv_answer)
    (listen : C (world cbor_ex event_cb Empty_set ptr sig_cb client) unit) :=
  ending (spudload 20 resolve [[]; [108]] 3 listen 10
      (boot (load_env ss rs) (Client [] (sockaddr_other 0) [] store_empty [] None [])))
    (fun c w => (cl_tubes c !! 0%nat, map_to_list ((fun u => (t_state u, t_data u)) <$> st_objs (tw_tubes w)))).

(** The loop is stopped when there are three tubes. *)
Definition stop_at_three : C (world cbor_ex event_cb Empty_set ptr sig_cb client) unit :=
  n ← tube_manager_size;
  if decide (n = 3) then _ ← tube_manager_stop; mret tt else mret tt.

(** The tube of a slot is never opened: each round for the slot opens another tube instead,
    which has no data, and which the program does not know. *)
Example load_opens_others : load_ex [] [] stop_at_three =
  inl (0, (Some (Some 1%positive), [(3%positive, (TS_OPENING, None)); (4%positive, (TS_OPENING, None));
    (2%positive, (TS_OPENING, None)); (1%positive, (TS_UNKNOWN, Some 1%positive))])).
Proof. vm_compute. reflexivity. Qed.

(** So when the server closes such a tube, remove_cb() reads its number through NULL. *)
Definition listen_when_opened : C (world cbor_ex event_cb Empty_set ptr sig_cb client) unit :=
  n ← tube_manager_size;
  if decide (n = 0) then mret tt else socketListen 20.

Definition closed_by_server : recv_answer :=
  Recv (dg_payload (packet tworld_ex (Tube TS_RUNNING server (TubeId [1; 0; 0; 0; 0; 0; 0; 1]) None None 6) SPUD_CLOSE false false [])) server
    [InPktinfo4 (InPktinfo 2 [10; 0; 0; 1] [10; 0; 0; 1])].

Example load_crashes : load_ex [SelectReady None false true] [closed_by_server] listen_when_opened = inr NullDeref.
Proof. vm_compute. reflexivity. Qed.
