(* ===== verification/Spudtest.v ===== *)
(** The program samplecode/spudtest.c: a client that opens a tube and sends on it twenty
    times a second, for five seconds.  Its callbacks open the tube and send on it. *)

From S2P Require Import Prelude LsError LsStr LsMem PoolUse Store LsTimer LsHtable LsHash GHeap GHeapLayout PQueue Spud LsSockaddr LsPktinfo Tube LsEventing EventBindings EventDispatch TubeManager ManagerState ManagerLoop ManagerTimers ManagerLife ManagerSession Samples.
Open Scope Z_scope.

Definition numChar : Z := 53.
Definition SIGINT : Z := 2.
(** "1402" *)
Definition SERVICE : cstr := [49; 52; 48; 50].

(** "[_]~~ c[_]~~ c[_]~~ COFFEE BREAK c[_]~~ c[_]~~ c[_]~~", four times *)
Definition cup : cstr := [91; 95; 93; 126; 126].
Definition coffee_break : cstr := [32; 67; 79; 70; 70; 69; 69; 32; 66; 82; 69; 65; 75; 32].
Definition s1_part : cstr :=
  cup ++ [32; 99] ++ cup ++ [32; 99] ++ cup ++ coffee_break ++ [99] ++ cup ++ [32; 99] ++ cup ++ [32; 99] ++ cup.
Definition s1 : cstr := s1_part ++ s1_part ++ s1_part ++ s1_part.

Inductive event_cb := loopstart_cb | running_cb | data_cb.
Inductive timer_cb := sendData | done.
Inductive sig_cb := done_sig.
#[export] Instance event_cb_eq_dec : EqDecision event_cb.
Proof. solve_decision. Defined.

Inductive line :=
  | Verbose
  | Usage
  | Failed (e : Z)
  | Running
  | Printed (text : option (option bytes * cstr * cstr))
  | RX (n : Z) (text : cstr)
  | Done_
  | Caught (sig : Z).

(** [struct test_config], of which the program uses these fields, and what it prints. *)
Record test_config := TestConfig {
  remoteAddr : sockaddr;
  cf_t : ptr;
  numSentPkts : Z;
  numRcvdPkts : Z;
  cf_log : list line }.

Definition put_remote a c := TestConfig a (cf_t c) (numSentPkts c) (numRcvdPkts c) (cf_log c).
Definition put_t t c := TestConfig (remoteAddr c) t (numSentPkts c) (numRcvdPkts c) (cf_log c).
Definition put_sent n c := TestConfig (remoteAddr c) (cf_t c) n (numRcvdPkts c) (cf_log c).
Definition put_rcvd n c := TestConfig (remoteAddr c) (cf_t c) (numSentPkts c) n (cf_log c).
Definition put_cf_log l c := TestConfig (remoteAddr c) (cf_t c) (numSentPkts c) (numRcvdPkts c) l.

Abbreviation mworld := (mworld timer_cb ptr sig_cb test_config).

(** An option that getopt() finds. *)
Inductive option_found := OptV | OptS (optarg : cstr) | OptUsage.

Section spudtest.
Context {cbor : Type} `{!CborLib cbor}.
(** cn_cbor_mapget_int() for the key 0: no value, the bytes of a text or of a byte string, or
    a value of another type. *)
Context (mapget_0 : cbor -> option (option bytes)).
(** What is in [buf] of sendData() before anything is written there. *)
Context (stack : bytes).
Context (getsockname : Z -> sockaddr + Z) (inet_ntop : Z -> list Z -> option cstr) (dec : Z -> cstr).
Context (getaddrinfo : option cstr -> option cstr -> bool -> gai_answer).
Abbreviation world := (world cbor event_cb timer_cb ptr sig_cb test_config).
Abbreviation moment := (ls_event_moment Empty_set event_arg (event_data cbor)).

Definition mod_config (f : test_config -> test_config) : C mworld unit :=
  c_modify (fun x => put_client (f (mw_user x)) x).
Definition config : C mworld test_config := c_gets mw_user.
Definition say (l : line) : C mworld unit := mod_config (fun c => put_cf_log (cf_log c ++ [l]) c).

(** [buf] when it is sent. *)
Definition filled (n : Z) : bytes :=
  take (Z.to_nat numChar) (drop (Z.to_nat (Z.rem n numChar)) s1) ++ drop (Z.to_nat numChar) stack.

Definition send_data : C mworld unit :=
  mod_config (fun c => put_sent (i32 (numSentPkts c + 1)) c);;
  c ← config;
  c_assert (bool_decide (is_Some (cf_t c)));;
  t ← c_deref (cf_t c);
  r ← on_tube (tube_data t (take (length s1) (filled (numSentPkts c))));
  (match r with Err e => say (Failed e) | Ok _ => mret tt end);;
  r ← tube_manager_schedule_ms 50 sendData None;
  match r with Err e => say (Failed e) | Ok _ => mret tt end.

(** What printf() makes of a buffer: the text up to the first 0. *)
Fixpoint c_text (b : bytes) : cstr :=
  match b with [] => [] | x :: b => if decide (x = 0) then [] else x :: c_text b end.

(** The last byte of the value is overwritten before it is known what was found. *)
Definition on_data (c : option cbor) : C mworld unit :=
  mod_config (fun c => put_rcvd (i32 (numRcvdPkts c + 1)) c);;
  match c with
  | None => mret tt
  | Some c =>
      match mapget_0 c with
      | None => c_fault NullDeref
      | Some None => c_fault OutOfBounds
      | Some (Some []) => c_fault OutOfBounds
      | Some (Some data) =>
          x ← config;
          say (RX (numRcvdPkts x) (c_text (removelast data ++ [0])))
      end
  end.

(** The tube is opened while its manager's dispatcher runs this: the add event waits. *)
Definition on_loopstart : C world unit :=
  c ← on_mw config;
  r ← tube_manager_open_tube no_callback no_result 0 (remoteAddr c);
  match r with
  | Err e => on_mw (say (Failed e))
  | Ok t =>
      on_mw (mod_config (put_t (Some t)));;
      r ← on_tubes (tube_print getsockname inet_ntop dec t);
      on_mw (say (match r with Err e => Failed e | Ok text => Printed text end))
  end.

Definition on_event (cb : event_cb) (ml : loc) (arg : event_arg) : C world unit :=
  m ← load (A := moment) ml;
  match cb, ev_data (m_evt m) with
  | loopstart_cb, _ => on_loopstart
  | running_cb, _ => on_mw (say Running;; send_data)
  | data_cb, EvPacket _ c _ => on_mw (on_data c)
  | data_cb, _ => c_fault OutOfBounds
  end.

Definition no_event_result (r : Empty_set) (ml : loc) (handled : bool) (arg : event_arg) : C world unit :=
  match r with end.

Definition on_done : C world unit :=
  on_mw (say Done_);;
  r ← tube_manager_stop;
  match r with Err e => on_mw (say (Failed e)) | Ok _ => mret tt end.

Definition on_timer (cb : timer_cb) (tim : loc) : C world unit :=
  match cb with sendData => on_mw send_data | done => on_done end.

Definition on_signal (cb : sig_cb) (sig : Z) : C world unit :=
  match cb with done_sig => on_mw (say (Caught sig));; on_done end.

(** The loop over the options: the exit code, when there is one.  The address of [-s] is not
    used. *)
Fixpoint options (opts : list option_found) : C world (option Z) :=
  match opts with
  | [] => mret None
  | OptV :: opts => on_mw (say Verbose);; options opts
  | OptS optarg :: opts =>
      match ls_sockaddr_parse getaddrinfo (Some optarg) SIZEOF_SOCKADDR_STORAGE with
      | Err e => on_mw (say (Failed e));; mret (Some 1)
      | Ok _ => options opts
      end
  | OptUsage :: _ => on_mw (say Usage);; mret (Some 64)
  end.

Definition spudtest (opts : list option_found) (argv : list cstr) (message_len : Z) (fuel : nat) : C world Z :=
  code ← options opts;
  match code, argv with
  | Some code, _ => mret code
  | None, [] => on_mw (say Usage);; mret 64
  | None, destination :: _ =>
      on_mw (mod_config (fun c => TestConfig (sockaddr_other 0) None 0 0 (cf_log c)));;
      match ls_sockaddr_get_remote_ip_addr getaddrinfo (Some destination) (Some SERVICE) SIZEOF_SOCKADDR_STORAGE with
      | Err e => on_mw (say (Failed e));; mret 1
      | Ok remote =>
          on_mw (mod_config (put_remote remote));;
          _ ←? tube_manager_create 0 message_len;
          _ ←? tube_manager_socket 0;
          _ ←? tube_manager_bind_event EV_LOOPSTART_NAME loopstart_cb;
          _ ←? tube_manager_bind_event EV_RUNNING_NAME running_cb;
          _ ←? tube_manager_bind_event EV_DATA_NAME data_cb;
          _ ←? on_mw (tube_manager_signal SIGINT done_sig);
          _ ←? on_mw (tube_manager_schedule_ms 5000 done None);
          r ← tube_manager_loop on_event no_event_result on_timer on_signal fuel true;
          (match r with Err e => on_mw (say (Failed e)) | Ok _ => mret tt end);;
          mret 0
      end
  end.
End spudtest.

Example s1_length : length s1 = Z.to_nat (4 * numChar).
Proof. reflexivity. Qed.

(** ** What is sent, and what is received *)
Section sending.
Context {cbor : Type} `{!CborLib cbor} `{!CborLaws cbor}.
Context (mapget_0 : cbor -> option (option bytes)) (stack : bytes).
Abbreviation tubes_of x := (hs_client (mw_table x)).
Implicit Types (x : mworld).

(** What goes out in the [n]-th packet: 53 bytes of the text, from the place that [n] gives,
    and then 159 bytes of what happened to be on the stack. *)
Definition payload (n : Z) : bytes :=
  take 53 (drop (Z.to_nat (n mod 53)) s1) ++ take 159 (drop 53 stack).

Lemma filled_payload n : length stack = 1024%nat -> 0 <= n ->
  take (length s1) (filled stack n) = payload n.
Proof.
  intros Hl Hn. unfold filled, payload. rewrite s1_length.
  change (Z.to_nat (4 * numChar)) with 212%nat. change (Z.to_nat numChar) with 53%nat.
  rewrite Z.rem_mod_nonneg by (unfold numChar; lia). unfold numChar at 1.
  pose proof (Z.mod_pos_bound n 53 ltac:(lia)).
  assert (Hw : length (take 53 (drop (Z.to_nat (n mod 53)) s1)) = 53%nat).
  { rewrite length_take, length_drop, s1_length. unfold numChar. lia. }
  by rewrite take_app, Hw, firstn_all2 by lia.
Qed.

Lemma payload_cons n : 0 <= n -> exists b l, payload n = b :: l.
Proof.
  intros Hn. pose proof (Z.mod_pos_bound n 53 ltac:(lia)). unfold payload.
  destruct (take 53 (drop (Z.to_nat (n mod 53)) s1)) as [|b l] eqn:E; [|by eexists _, _].
  apply (f_equal length) in E. rewrite length_take, length_drop, s1_length in E.
  unfold numChar in E. cbn [length] in E. lia.
Qed.

(** What a round sends and logs: one packet, or the reason why there is none. *)
Definition round_sent (w : tworld) (u : tube) (n : Z) (w' : tworld) (l : list line) : Prop :=
  (tw_sent w' = tw_sent w /\ (l = [Failed LS_ERR_NO_MEMORY] \/
     l = [Failed LS_ERR_OVERFLOW] /\ cn_cbor_encoder_write MAXBUFLEN (data_map (payload n)) = None)) \/
  exists d, tw_sent w' = tw_sent w ++ [d] /\ dg_dest d = t_peer u /\
    received d u SPUD_DATA false false (Some (data_map (payload n))) /\
    l = match next_answer w with Ok _ => [] | Err e => [Failed e] end.

(** C29: each round of spudtest, with memory for its timer, sends one packet, to the tube's
    peer, with the data above (or none, and then it logs that there was no memory to build
    it or that it is too long): what is beyond the 53 bytes that were put into the buffer is
    the stack, of which the server gets 159 bytes.  The next round is left to a timer fifty
    milliseconds later, in a sound queue. *)
Theorem stack_is_sent mg x ts t u : timers_ok x ts -> reliable x -> mw_mgr x = Some mg ->
  Z.of_nat (S (length ts)) < 2 ^ 30 -> length stack = 1024%nat ->
  let n := numSentPkts (mw_user x) + 1 in 0 <= n < 2 ^ 31 -> cf_t (mw_user x) = Some t ->
  let w := tubes_of x in mem_wf (ps_mem (tw_pools w)) -> st_objs (tw_tubes w) !! t = Some u ->
  tube_ok w u -> tube_id_wf (t_id u) ->
  runs (send_data stack) x (fun _ x' => let w' := tubes_of x' in
    numSentPkts (mw_user x') = n /\ tw_tubes w' = tw_tubes w /\
    (exists l, cf_log (mw_user x') = cf_log (mw_user x) ++ l /\ round_sent w u n w' l) /\
    exists tim, (tim ∉ ts) /\ timers_ok x' (tim :: ts) /\
      st_objs (mw_timers x') !! tim = Some (Timer sendData None (timeradd (mg_last mg) (ms_delta 50)))).
Proof.
  intros Hok Hr Em Hroom Hst n Hn Ht w Hm Hu Hok' Hid. unfold send_data, mod_config, config.
  assert (En : i32 (numSentPkts (mw_user x) + 1) = n) by (apply swrap_id; unfold n; lia).
  run_step. run_step. run_step. run_step. rewrite En. cbn [put_sent cf_t numSentPkts put_client mw_user].
  rewrite Ht. run_step. apply runs_assert; [by apply bool_decide_eq_true_2; eexists|]. run_step. run_step.
  run_step. rewrite filled_payload by (done || lia).
  apply on_tube_runs. eapply runs_conseq; [by apply (tube_data_runs t u)|].
  intros r w1 (_ & Et & _ & Hsent). set (l := match r with Ok _ => [] | Err e => [Failed e] end).
  assert (Hs : round_sent w u n w1 l).
  { destruct Hsent as [[-> Es]|[(_ & Henc & -> & Es)|(d & -> & Es & _ & Hd & Hrc)]].
    - left. split; [done|by left].
    - left. split; [done|by right].
    - right. exists d. split_and!; [done|done| |done]. destruct (payload_cons n) as (b & l' & E); [lia|].
      by rewrite E in Hrc |- *. }
  set (after := set_table _ _).
  run_step. apply (runs_conseq _ _ (fun _ y => y = put_client (put_cf_log (cf_log (mw_user x) ++ l) (mw_user after)) after)).
  { subst l. destruct r as [[]|e]; [|unfold say, mod_config]; run; [|done]. rewrite app_nil_r. subst after.
    by destruct x as [? ? ? ? ? ? ? []]. }
  intros [] y ->. set (y := put_client _ after).
  unfold tube_manager_schedule_ms, ls_timer_create_ms. run_step. run_step. apply (the_mgr_runs y mg); [done|].
  assert (Hoky : timers_ok y ts) by (eapply timers_ok_ext; [exact Hok|done|done|by destruct Hok]).
  assert (Hry : reliable y) by (by destruct Hr; split).
  eapply schedule_new_runs; [exact Hoky|exact Hry|done|]. cbv zeta. intros tim q Hnew _ _ Htim Hok2. run_step.
  split_and!; [done|exact Et|by exists l|by exists tim].
Qed.
End sending.

(** A DATA packet for a tube that runs: without a value for the key 0, with a value that is
    not a string, or with an empty string, it makes the callback use an address that is not
    one of the value's; else the value is printed, without its last byte, up to a 0. *)
Theorem data_may_crash {cbor} (mapget_0 : cbor -> option (option bytes)) v (x : mworld) :
  match mapget_0 v with
  | Some (Some (b :: l)) => exists x', on_data mapget_0 (Some v) x = Done (tt, x') /\
      cf_log (mw_user x') = cf_log (mw_user x) ++
        [RX (i32 (numRcvdPkts (mw_user x) + 1)) (c_text (removelast (b :: l)))]
  | Some _ => on_data mapget_0 (Some v) x = Fault OutOfBounds
  | None => on_data mapget_0 (Some v) x = Fault NullDeref
  end.
Proof.
  unfold on_data, mod_config. destruct (mapget_0 v) as [[[|b l]|]|] eqn:E; [done| |done|done].
  eexists. split; [reflexivity|]. cbn [mw_user put_client put_cf_log cf_log put_rcvd numRcvdPkts].
  do 2 f_equal. f_equal. generalize (removelast (b :: l)) as d.
  induction d as [|a d IH]; cbn; [done|]. case_decide; [done|]. by rewrite IH.
Qed.

(** ** Runs *)

(** The value of the key 0 of a map that has nothing else: a byte string. *)
Definition mapget_ex (c : cbor_ex) : option (option bytes) :=
  match c with
  | 161 :: 0 :: _ :: d => Some (Some d)
  | _ => None
  end.

Definition server : sockaddr := sockaddr_in [127; 0; 0; 1] 1402.
Definition resolve (node service : option cstr) (numeric : bool) : gai_answer := gai_list [(server, 16)].
Definition test_id : spud_tube_id := TubeId [1; 0; 0; 0; 0; 0; 0; 1].

Definition of_server (cmd : spud_command) (body : bytes) : recv_answer :=
  Recv (dg_payload (packet tworld_ex (Tube TS_RUNNING server test_id None None 6) cmd false false body)) server
    [InPktinfo4 (InPktinfo 2 [10; 0; 0; 1] [10; 0; 0; 1])].

Definition test_env (ss : list select_answer) (rs : list recv_answer) : env :=
  Env [] [inl 3; inl 4; inl 5; inl 6] (replicate (S (length rs)) (inl (Timeval 100 0)) ++ [inl (Timeval 100 50000)])
    [] ss rs [RandBytes [1; 0; 0; 0; 0; 0; 0; 1]] [] [].

Definition test_ex (opts : list option_found) (ss : list select_answer) (rs : list recv_answer) :=
  ending (spudtest mapget_ex (replicate 1024 7) (fun _ => inr 9) (fun _ _ => None) (fun _ => []) resolve opts [[104]] 3 20
      (boot (test_env ss rs) (TestConfig (sockaddr_other 0) None 0 0 [])))
    (fun c w => (cf_log c, (fun d => (length (dg_payload d), nth 80 (dg_payload d) 0)) <$> tw_sent w)).

(** The tube is opened; the server's ACK starts it: a first packet goes out, with what the
    stack held, 7, behind the text; and what the server sends is printed. *)
Example test_sends : test_ex [OptV] (replicate 2 (SelectReady None false true) ++ [SelectErrno 9])
    [of_server SPUD_ACK []; of_server SPUD_DATA [161; 0; 67; 97; 98; 99]] =
  inl (0, ([Verbose; Failed (-9); Running; RX 1 [97; 98]; Failed (-9)], [(13%nat, 0); (228%nat, 7)])).
Proof. vm_compute. reflexivity. Qed.

(** The server can end the program with an empty map. *)
Example test_crashes : test_ex [] (replicate 2 (SelectReady None false true))
    [of_server SPUD_ACK []; of_server SPUD_DATA [160]] = inr NullDeref.
Proof. vm_compute. reflexivity. Qed.

(** After fifty milliseconds the timer for the next packet is due.  The loop takes it off the
    queue, and runs the one that is then the first: the program is done after one packet,
    five seconds early. *)
Example test_ends_early : test_ex [] [SelectReady None false true; SelectTimeout] [of_server SPUD_ACK []] =
  inl (0, ([Failed (-9); Running; Done_], [(13%nat, 0); (228%nat, 7)])).
Proof. vm_compute. reflexivity. Qed.

Lemma stack_is_sent_witness : let stack := replicate 1024 7 in
  let x := MWorld (HState store_empty store_empty store_empty [] tworld_ex) store_empty (Some no_timers) []
    (Some manager_zero) [] (Env [] [] [] [] [] [] [] [] []) (TestConfig server (Some 1%positive) 0 0 []) : mworld in
  runs (send_data stack) x (fun _ x' => let w' := hs_client (mw_table x') in
    numSentPkts (mw_user x') = 1 /\ tw_tubes w' = tw_tubes tworld_ex /\
    (exists l, cf_log (mw_user x') = [] ++ l /\ round_sent stack tworld_ex tube_ex 1 w' l) /\
    exists tim, (tim ∉ []) /\ timers_ok x' [tim] /\
      st_objs (mw_timers x') !! tim = Some (Timer sendData None (timeradd epoch (ms_delta 50)))).
Proof.
  intros stack x. refine (stack_is_sent stack manager_zero x [] 1%positive tube_ex _ _ eq_refl _ eq_refl _ eq_refl _ _ _ _).
  - apply timers_ok_none; [reflexivity|apply store_wf_empty].
  - split; [reflexivity|reflexivity|by eexists].
  - cbn. lia.
  - cbn. lia.
  - apply tworld_ex_wf.
  - reflexivity.
  - apply tube_ex_ok.
  - apply id_ex_wf.
Defined.
