(* ===== verification/ManagerExample.v ===== *)
(** Concrete managers: a responder without tubes and an initiator that is opening one,
    with an echoing callback; managers with timers; failures of opening a tube.  The
    theorems of the other Manager files applied to them, and runs of whole sessions. *)

From S2P Require Import Prelude LsError LsStr LsMem PoolUse Store LsTimer LsHtable LsHash GHeap GHeapLayout PQueue Spud LsSockaddr LsPktinfo Tube LsEventing EventBindings EventDispatch EventNames EventLife TubeManager ManagerState ManagerTubes ManagerPackets ManagerHandshake ManagerLoop ManagerSockets ManagerEvents ManagerOpen ManagerTimers ManagerLife ManagerSession.
Import StrCaseKey.
Open Scope Z_scope.

(** ** The world of the examples *)
Abbreviation event_log := (list (loc * event_data cbor_ex)).
Abbreviation world_ex := (world cbor_ex Z Z Z Z event_log).
Abbreviation mworld_ex := (mworld Z Z Z event_log).

Definition log_event (e : loc) (data : event_data cbor_ex) (x : mworld_ex) : mworld_ex :=
  MWorld (mw_table x) (mw_timers x) (mw_queue x) (mw_oom x) (mw_mgr x) (mw_sigs x) (mw_env x)
    (mw_user x ++ [(e, data)]).

(** Callback 1 logs the event and sends the body of a packet back, like
    samplecode/spudecho.c; any other callback only logs. *)
Definition echo (cb : Z) (e : loc) (data : event_data cbor_ex) (h : bool) (a : event_arg)
    : C mworld_ex (bool * list (loc * event_data cbor_ex)) :=
  c_modify (log_event e data);;
  match data with
  | EvPacket t (Some c) _ =>
      if decide (cb = 1) then
        _ ← zoom mw_table set_table (client (tube_send t SPUD_DATA false false [c]));
        mret (true, [])
      else mret (h, [])
  | _ => mret (h, [])
  end.

Definition E_mgr : gmap loc (list (Z * event_arg)) :=
  <[3%positive := [(1, ArgManager)]]> (<[5%positive := [(2, ArgManager)]]>
    (<[1%positive := []]> (<[2%positive := []]> (<[4%positive := []]> {[6%positive := []]})))).

Lemma E_mgr_cases e vs : E_mgr !! e = Some vs -> (length vs <= 1)%nat.
Proof.
  unfold E_mgr. intros H.
  repeat (apply lookup_insert_Some in H as [[_ <-]|[_ H]]; [cbn; lia|]).
  apply lookup_singleton_Some in H as [_ <-]. cbn. lia.
Qed.

Lemma enough_ex : enough_fuel E_mgr 8.
Proof. split; [lia|]. intros e vs H%E_mgr_cases. lia. Qed.

(** The echoing callback keeps quiet. *)
Lemma echo_always_quiet : always_quiet echo.
Proof.
  intros cb e a data h x Hwf Hdata. unfold echo. run_step. run_step.
  assert (Hq : quiet x (log_event e data x)) by (by split; try apply same_heap_refl).
  destruct data as [|t|t [c|] peer]; try by run_step.
  destruct (decide (cb = 1)); [|by run_step]. run_step. apply runs_zoom, runs_zoom.
  destruct Hdata as (u & Ht & _ & Hok).
  apply (tube_send_runs t u); [exact Hwf|exact Ht|exact Hok| |]; intros p Hp; run_step; (split; [|done]).
  - by split.
  - split; try done. cbn. by apply prefix_app_r.
Qed.

Lemma echo_quiet : quiet_callbacks E_mgr echo.
Proof. apply always_quiet_callbacks, echo_always_quiet. Qed.

(** The events of the manager's dispatcher, two of them with a callback. *)
Abbreviation owned_event := (owned_event (CB := Z) (A := event_arg)).
Definition owned_ex (l : loc) (name : cstr) (bs : list (loc * ls_event_binding Z event_arg)) : owned_event :=
  OwnedEvent l (Notifier 1 ArgManager name l (head bs.*1)) bs.

Definition L_ex : list owned_event :=
  [owned_ex 1 EV_LOOPSTART_NAME []; owned_ex 2 EV_RUNNING_NAME [];
   owned_ex 3 EV_DATA_NAME [(1%positive, Binding 1 ArgManager None false false)];
   owned_ex 4 EV_CLOSE_NAME [];
   owned_ex 5 EV_ADD_NAME [(2%positive, Binding 2 ArgManager None false false)];
   owned_ex 6 EV_REMOVE_NAME []].

Definition events_ex : gmap loc (ls_event_notifier event_arg) :=
  list_to_map ((fun o => (oe_at o, oe_notifier o)) <$> L_ex).

(** Their names, and the dispatcher's table with one bucket. *)
Definition names_ex : pstate :=
  PState (Mem (list_to_map ((fun o => (oe_at o, Z.of_nat (length (n_name (oe_notifier o))) + 1)) <$> L_ex)) 7 ∅ [])
    ∅ true [].

Definition name_node (o : owned_event) : loc * ls_hnode cstr loc unit :=
  (oe_at o, HNode (if decide (oe_at o = 6%positive) then None else Some (Pos.succ (oe_at o)))
     (n_name (oe_notifier o)) (Some (oe_at o)) 0 (ls_strcase_hashcode (n_name (oe_notifier o))) (Some tt)).
Definition name_nodes : gmap loc (ls_hnode cstr loc unit) := list_to_map (name_node <$> L_ex).
Definition name_table : ls_htable cstr := HTable ls_strcase_hashcode ls_strcase_compare 6 1 0 1.

Definition manager_ex : manager :=
  Manager true 6 5 3 4 6 (Some 1%positive) (Some 1%positive) (Timeval 100 0)
    (Some 1%positive) (Some 2%positive) (Some 3%positive) (Some 4%positive) (Some 5%positive)
    (Some 6%positive) TP_WILL_RESPOND true None.

(** The input to come: the answers of select() and recvmsg(). *)
Definition env_ex (ss : list select_answer) (rs : list recv_answer) : env :=
  Env [] [] [] [] ss rs [] [] [].

Definition no_timers_ex : gpriority_queue loc := PQ [] 1 0 1.

(** A table of tubes with one bucket, and the tubes and packet informations there are. *)
Definition mworld_with (bucket : ptr) (count : Z) (nodes : gmap loc (ls_hnode id_ptr loc unit))
    (w : tworld) (ss : list select_answer) (rs : list recv_answer) : mworld_ex :=
  MWorld (HState (Store {[1%positive := HTable hash_id compare_id count 1 0 1%positive]} 2)
            (Store {[1%positive := [bucket]]} 2) (Store nodes 2) [] w)
    store_empty (Some no_timers_ex) [] (Some manager_ex) [SigContext 2 7] (env_ex ss rs) [].

Definition world_with (x : mworld_ex) : world_ex :=
  HState (Store {[1%positive := name_table]} 2) (Store {[1%positive := [Some 1%positive]]} 2)
    (Store name_nodes 7) []
    (EClient (Store {[1%positive := Dispatch ArgManager 1 None None None false]} 2)
       (Store events_ex 7)
       (Store (list_to_map (L_ex ≫= oe_bindings)) 3)
       store_empty names_ex x).

Lemma store_wf_one {T} (x : T) : store_wf (Store {[1%positive := x]} 2).
Proof. intros l [y Hy]. cbn in Hy. apply lookup_singleton_Some in Hy as [<- _]. done. Qed.

Lemma list_wf {T} (l : list (loc * T)) n k : Forall (fun x => x.1 < n)%positive l ->
  is_Some ((list_to_map l : gmap loc T) !! k) -> (k < n)%positive.
Proof.
  intros Hl [y Hy]. apply elem_of_list_to_map_2 in Hy. by apply (Forall_forall _ _) with (x := (k, y)) in Hl.
Qed.

Lemma names_ex_wf : mem_wf (ps_mem names_ex).
Proof. intros k. apply list_wf. by repeat constructor. Qed.

Lemma idle_ex x : idle E_mgr 1 (world_with x).
Proof.
  split.
  - eexists. split_and!; reflexivity.
  - apply store_wf_empty.
  - apply names_ex_wf.
  - intros e vs H. unfold E_mgr in H.
    apply lookup_insert_Some in H as [[<- <-]|[_ H]].
    { eexists _, [(1%positive, Binding 1 ArgManager None false false)].
      split_and!; try reflexivity; by repeat constructor. }
    apply lookup_insert_Some in H as [[<- <-]|[_ H]].
    { eexists _, [(2%positive, Binding 2 ArgManager None false false)].
      split_and!; try reflexivity; by repeat constructor. }
    repeat (apply lookup_insert_Some in H as [[<- <-]|[_ H]];
      [eexists _, []; split_and!; try reflexivity; by repeat constructor|]).
    apply lookup_singleton_Some in H as [<- <-].
    eexists _, []. split_and!; try reflexivity; by repeat constructor.
Qed.

Definition ground_ex : ground (cbor := cbor_ex) (CB := Z) :=
  Ground (HeapBase ∅ ∅ ∅) (HeapBase ∅ ∅ ∅) (EventBase ∅ ∅ (pstate_init [])) ∅ ∅
    (list_to_map [(EV_LOOPSTART_NAME, 1%positive); (EV_RUNNING_NAME, 2%positive); (EV_DATA_NAME, 3%positive);
       (EV_CLOSE_NAME, 4%positive); (EV_ADD_NAME, 5%positive); (EV_REMOVE_NAME, 6%positive)]).

Lemma owned_events_ex x : owns_events (gr_events ground_ex) L_ex (hs_client (world_with x)).
Proof.
  split; try done.
  - by repeat constructor.
  - split_and!; [by apply (bool_decide_unpack _)|by repeat (constructor; [by eexists|])|reflexivity].
  - split_and!; [by apply (bool_decide_unpack _)|by repeat (constructor; [by eexists|])|reflexivity].
  - split_and!; [by apply (bool_decide_unpack _)|by repeat (constructor; [by eexists|])|reflexivity].
  - split_and!; [| |apply names_ex_wf]; intros k; apply list_wf; by repeat constructor.
Qed.

Lemma owning_ex x : owning E_mgr ground_ex 1 (world_with x).
Proof.
  exists (gr_events ground_ex), L_ex. split; [|done|reflexivity| |reflexivity|reflexivity].
  2:{ intros e. rewrite <- elem_of_dom.
      assert (Ed : dom E_mgr = list_to_set (oe_at <$> L_ex)) by (by apply (bool_decide_unpack _)).
      rewrite Ed. apply elem_of_list_to_set. }
  split; [|by repeat constructor|apply owned_events_ex].
  set (cs := [name_node <$> L_ex]).
  exists (Dispatch ArgManager 1 None None None false), (map_of (entries cs)). split_and!; [done| |].
  - exists name_table, [Some 1%positive], cs. split_and!; [split|done|done]; try done.
    + by repeat constructor.
    + intros i c l n Hc Hin. destruct i; [|by destruct i].
      assert (c = name_node <$> L_ex) as -> by (by injection Hc).
      apply list_elem_of_fmap in Hin as (o & [= -> ->] & Ho). cbn. rewrite Z.mod_1_r.
      split_and!; [done..|]. revert o Ho. apply Forall_forall. by repeat constructor.
    + by apply (bool_decide_unpack _).
    + split_and!; [apply store_wf_one|apply store_wf_one|].
      intros k. apply (list_wf (name_node <$> L_ex)). by repeat constructor.
  - rewrite <- map_to_list_entries; [done|]. by apply (bool_decide_unpack _).
Qed.

Lemma events_of_ex : events_of E_mgr manager_ex.
Proof. split; (eexists; split; [reflexivity|by eexists]). Qed.

Lemma bytes_forall b : forallb (fun x => (0 <=? x) && (x <? 256)) b = true -> Forall is_byte b.
Proof.
  intros H. apply Forall_forall. intros x Hx. rewrite forallb_forall in H.
  apply list_elem_of_In in Hx. specialize (H x Hx). unfold is_byte. lia.
Qed.

(** *** The packets, of a tube that is being opened *)
Definition sender_ex : sockaddr := sockaddr_in [127; 0; 0; 1] 1402.
Definition opening_ex : tube := Tube TS_OPENING (sockaddr_in [10; 0; 0; 9] 1402) id_ex None None 6.

Definition packet_ex (cmd : spud_command) (body : bytes) : bytes :=
  dg_payload (packet tworld_ex opening_ex cmd false false body).

(** *** A responder without tubes.  An OPEN will come on the socket for IPv6 and, after an
    interrupt, data on the other; then a signal. *)
Definition selects_ex : list select_answer :=
  [SelectReady None true false; SelectErrno EINTR; SelectReady None false true; SelectReady (Some 2) false false].
Definition recvs_ex : list recv_answer :=
  [Recv (packet_ex SPUD_OPEN []) sender_ex [InPktinfo4 (InPktinfo 2 [10; 0; 0; 1] [10; 0; 0; 1])];
   Recv (packet_ex SPUD_DATA [97; 98]) sender_ex [InTimestamp (Timeval 101 0)]].

Definition responder_ex : world_ex := world_with (mworld_with None 0 ∅
  (TWorld store_empty (Store {[1%positive := info_ex]} 2) (pstate_init []) [] []) selects_ex recvs_ex).

Definition background_ex : background := Background ground_ex ∅ (Some no_timers_ex) selects_ex recvs_ex.

Lemma table_empty_ex w : table_rep (HeapBase ∅ ∅ ∅) 1 (entry_for <$> (∅ : registry))
  (mw_table (mworld_with None 0 ∅ w selects_ex recvs_ex)).
Proof.
  eexists _, _, [[]]. split_and!; [split|..]; try reflexivity.
  - by repeat constructor.
  - done.
  - intros i c l n Hc Hin. destruct i; [|by destruct i]. injection Hc as <-. by apply not_elem_of_nil in Hin.
  - constructor.
  - done.
  - split_and!; [apply store_wf_one|apply store_wf_one|]. by intros l [y Hy].
Qed.

Lemma responder_serving : serving background_ex E_mgr 1 manager_ex ∅ responder_ex.
Proof.
  split.
  - split; [apply idle_ex|apply owning_ex].
  - reflexivity.
  - exists 1%positive. split; [reflexivity|apply table_empty_ex].
  - split; [by intros k t u H; rewrite lookup_empty in H|by intros k k' t t' u u' p H; rewrite lookup_empty in H|done|].
    split_and!; [apply store_wf_empty|apply store_wf_one|apply pstate_init_wf].
  - split; [reflexivity|by split|constructor|apply store_wf_empty].
Qed.


Lemma can_accept_ex : can_accept ∅ responder_ex 5 sender_ex 1 info_ex.
Proof.
  split.
  - reflexivity.
  - split; [by eexists|done].
  - lia.
  - discriminate.
  - reflexivity.
Qed.

(** *** An initiator: the tube 1 is being opened *)
Definition opening_reg : registry := {[id_u64 id_ex := (1%positive, opening_ex)]}.

Definition initiator_ex : world_ex := world_with (mworld_with (Some 1%positive) 1
  {[1%positive := HNode None (IdPtr 1 id_ex) (Some 1%positive) 0 (hash_id (IdPtr 1 id_ex)) (Some tt)]}
  (TWorld (Store {[1%positive := opening_ex]} 2) (Store {[1%positive := info_ex]} 2)
    (pstate_init []) [] []) [] []).

Definition initiator_background : background := Background ground_ex ∅ (Some no_timers_ex) [] [].

Lemma initiator_serving : serving initiator_background E_mgr 1 manager_ex opening_reg initiator_ex.
Proof.
  split.
  - split; [apply idle_ex|apply owning_ex].
  - reflexivity.
  - exists 1%positive. split; [reflexivity|].
    eexists _, _, [[(1%positive, _)]]. split_and!; [split|..]; try reflexivity.
    + by repeat constructor.
    + done.
    + intros i c l n Hc Hin. destruct i; [|by destruct i]. injection Hc as <-.
      apply list_elem_of_singleton in Hin. injection Hin as -> ->. split_and!; [done|done| |apply id_ex_wf].
      cbn [hn_khash]. by rewrite Z.mod_1_r.
    + apply NoDup_singleton.
    + done.
    + split_and!; apply store_wf_one.
    + unfold opening_reg. rewrite map_fmap_singleton. reflexivity.
  - split.
    + intros k t u H. unfold opening_reg in H. apply lookup_singleton_Some in H as [<- [= <- <-]]. split_and!; [done|apply id_ex_wf|done|by intros p].
    + intros k k' t t' u u' p H _. unfold opening_reg in H. by apply lookup_singleton_Some in H as [<- [= <- <-]].
    + done.
    + split_and!; [apply store_wf_one|apply store_wf_one|apply pstate_init_wf].
  - split; [reflexivity|by split|constructor|apply store_wf_empty].
Qed.

(** ** The theorems, here *)
Abbreviation handle_ex := (handle_packet (cbor := cbor_ex) (scripted echo) (scripted_result no_results) 8 true).


Lemma arrives_ex cmd : arrives (cbor := cbor_ex) (packet_ex cmd []) id_ex cmd None.
Proof. apply (packet_arrives tworld_ex opening_ex); [apply id_ex_wf|done]. Qed.

(** An ACK that the responder did not wait for. *)
Lemma packet_ignored_witness :
  handle_ex 5 (packet_ex SPUD_ACK []) sender_ex 1 responder_ex = Done (Cleanup, responder_ex).
Proof.
  refine (packet_ignored background_ex E_mgr echo 8 1 manager_ex ∅ responder_ex true 5 (packet_ex SPUD_ACK []) sender_ex 1
    id_ex SPUD_ACK None responder_serving (arrives_ex SPUD_ACK) _). reflexivity.
Defined.

(** An OPEN that the responder accepts. *)
Lemma packet_handled_witness :
  runs (handle_ex 5 (packet_ex SPUD_OPEN []) sender_ex 1) responder_ex
    (reacted background_ex E_mgr echo 8 1 manager_ex ∅ responder_ex 5 sender_ex id_ex info_ex None Accept).
Proof.
  refine (packet_handled background_ex E_mgr echo 8 echo_quiet enough_ex 1 manager_ex ∅ responder_ex true 5
    (packet_ex SPUD_OPEN []) sender_ex 1 info_ex id_ex SPUD_OPEN None
    responder_serving events_of_ex can_accept_ex (arrives_ex SPUD_OPEN)).
Defined.

(** A CLOSE of a tube that is being opened, by a manager that only initiates. *)
Lemma can_accept_initiator : can_accept opening_reg initiator_ex 5 sender_ex 1 info_ex.
Proof.
  split.
  - reflexivity.
  - split; [by eexists|done].
  - lia.
  - discriminate.
  - reflexivity.
Qed.


Lemma handshake_witness :
  runs (handle_ex 5 (packet_ex SPUD_OPEN []) sender_ex 1) responder_ex (fun f s2' =>
    match f with
    | Error e => e = LS_ERR_NO_MEMORY /\ not_accepted background_ex E_mgr 1 manager_ex ∅ responder_ex 5 sender_ex id_ex s2'
    | Cleanup => exists t2 p,
        let u2 := new_tube 5 sender_ex id_ex p in
        accepted background_ex E_mgr echo 1 manager_ex ∅ responder_ex 5 sender_ex id_ex info_ex t2 p s2' /\
        runs (handle_ex 6 (dg_payload (ack_of s2' 5 sender_ex id_ex p)) sender_ex 1) initiator_ex (fun f s1' =>
          serving initiator_background E_mgr 1 manager_ex (<[id_u64 id_ex := (1%positive, put_state TS_RUNNING opening_ex)]> opening_reg) s1' /\
          match f with
          | Cleanup => occurs E_mgr echo (mg_running manager_ex) (EvPacket 1 None sender_ex)
              (with_state 1 opening_ex TS_RUNNING (ec_app (hs_client initiator_ex))) (ec_app (hs_client s1'))
          | Error e => e = LS_ERR_NO_MEMORY /\ no_event_memory initiator_ex
          end) /\
        (forall bodies, Forall (fun b : tworld * bytes * option cbor_ex => body_of b.1.2 b.2) bodies ->
           exists s2'', serving background_ex E_mgr 1 manager_ex (<[id_u64 id_ex := (t2, u2)]> ∅) s2'' /\
             delivers E_mgr echo 8 manager_ex true 5 sender_ex 1 t2 s2'
               ((fun b => (dg_payload (packet b.1.1 opening_ex SPUD_DATA false false b.1.2), b.2)) <$> bodies) s2'')
    end).
Proof.
  refine (handshake initiator_background background_ex E_mgr E_mgr echo echo 8 8 echo_quiet echo_quiet enough_ex enough_ex
    1 manager_ex opening_reg initiator_ex (id_u64 id_ex) 1 opening_ex 1 manager_ex ∅ responder_ex
    tworld_ex 6 5 1 1 info_ex sender_ex sender_ex true
    initiator_serving events_of_ex _ _ responder_serving events_of_ex _ _ can_accept_ex); reflexivity.
Defined.

(** The same computed: the ACK is the one thing the responder sends, and the initiator's
    tube runs when it has handled that. *)
Example handshake_run : match handle_ex 5 (packet_ex SPUD_OPEN []) sender_ex 1 responder_ex with
  | Done (_, s2) =>
      match tw_sent (hs_client (mw_table (ec_app (hs_client s2)))) with
      | [ack] => match handle_ex 6 (dg_payload ack) sender_ex 1 initiator_ex with
          | Done (f, s1) => Some (f, t_state <$> st_objs (tw_tubes (hs_client (mw_table (ec_app (hs_client s1))))) !! 1%positive)
          | Fault _ => None
          end
      | _ => None
      end
  | Fault _ => None
  end = Some (Cleanup, Some TS_RUNNING).
Proof. vm_compute. reflexivity. Qed.

(** ** The loop, here: its signal stops it *)
Definition stop_ex (cb : Z) (b : Z) : C world_ex unit := upd_mgr (put_keep_going false).
Definition no_timer_ex (cb : Z) (t : loc) : C world_ex unit := mret tt.

Lemma stop_quiet : quiet_signals stop_ex.
Proof.
  intros cb b s [mg Hmg] Hwf. unfold stop_ex. apply (runs_upd_mgr mg); [done|].
  split_and!; [done| |].
  - cbn. by split.
  - exists false. cbn. by rewrite Hmg.
Qed.

Abbreviation loop_with err := (tube_manager_loop (cbor := cbor_ex) (scripted echo) (scripted_result no_results)
  no_timer_ex stop_ex 8 err).
Abbreviation loop_ex := (loop_with true).

Lemma recvs_ok_ex : Forall received_ok recvs_ex.
Proof.
  repeat (apply Forall_cons; split; [split_and!; [by apply bytes_forall|discriminate]|]). by apply Forall_nil.
Qed.

Lemma recvs_not_empty_ex : Forall not_empty recvs_ex.
Proof. by repeat (apply Forall_cons; split; [done|]). Qed.

Lemma loop_safe_witness : runs_or loop_ex responder_ex (stopped (cbor := cbor_ex) true recvs_ex) (fun r s' => exists mg' R' ss rs,
  serving (put_selects ss (put_recvs rs background_ex)) E_mgr 1 mg' R' s' /\
  alike manager_ex mg' /\ remains background_ex manager_ex ∅ r R' ss rs /\ (r = Ok tt -> mg_keep_going mg' = false)).
Proof.
  refine (loop_safe E_mgr echo 8 echo_quiet enough_ex no_timer_ex stop_ex stop_quiet background_ex 1 manager_ex ∅
    responder_ex true responder_serving _ events_of_ex _ recvs_ok_ex _ _).
  - reflexivity.
  - by exists no_timers_ex.
  - reflexivity.
  - cbn. lia.
Defined.

(** An empty datagram stops it; so does one byte that is not a packet, when there is no
    error structure, and not when there is one. *)
Definition responder_gets (payload : bytes) : world_ex := world_with (mworld_with None 0 ∅
  (TWorld store_empty (Store {[1%positive := info_ex]} 2) (pstate_init []) [] []) selects_ex
  [Recv payload sender_ex []]).

Definition fault_of {A S} (o : outcome (A * S)) : option fault := match o with Done _ => None | Fault f => Some f end.

Example loop_stopped : (fault_of (loop_with true (responder_gets [])), fault_of (loop_with false (responder_gets [1])),
    fault_of (loop_with true (responder_gets [1]))) = (Some AssertFail, Some NullDeref, None).
Proof. vm_compute. reflexivity. Qed.

(** The echo of the data: an ACK and a DATA are sent, and the loop ends when the signal has
    stopped it. *)
Example loop_run : match loop_ex responder_ex with
  | Done (r, s') => Some (r, dg_payload <$> tw_sent (hs_client (mw_table (ec_app (hs_client s')))),
                          fst <$> mw_user (ec_app (hs_client s')))
  | Fault _ => None
  end = Some (Ok tt, [packet_ex SPUD_ACK []; packet_ex SPUD_DATA [97; 98]], [5%positive; 3%positive]).
Proof. vm_compute. reflexivity. Qed.

(** ** Timers *)
Abbreviation timer_ex t := (Timer (CB := Z) (X := Z) 7 0 (Timeval t 0)).

(** The manager's clock is at 100 s. *)
Definition timers_world (ts : gmap loc (ls_timer Z Z)) (slots : list loc) (ss : list select_answer) : world_ex :=
  world_with (with_store (Store ts 9)
    (with_queue (Some (PQ slots 2 (Z.of_nat (length slots)) 2))
       (mworld_with None 0 ∅ (TWorld store_empty store_empty (pstate_init []) [] []) ss []))).

Abbreviation app_of s := (ec_app (hs_client s)).

Lemma reliable_ex ts slots ss : reliable (app_of (timers_world ts slots ss)).
Proof. split; [done|done|by eexists]. Qed.

Lemma no_timers_ok ss : timers_ok (app_of (timers_world ∅ [] ss)) [].
Proof.
  split.
  - eexists. split; [reflexivity|]. split; cbn; [lia|lia| |done]. intros u a b Hu. lia.
  - intros t Ht. by apply not_elem_of_nil in Ht.
  - constructor.
  - intros l [y Hy]. done.
  - cbn. lia.
Qed.

Definition timer_ops_ex : list (timer_op (TCB := Z) (TX := Z)) :=
  [Schedule 1500 7 0; ScheduleAt (Timeval 100 700) 7 0; Schedule 20 7 0; Cancel 1].

Lemma timer_agenda_witness :
  let x := app_of (timers_world ∅ [] []) in
  let ds := [Timeval 101 500000; epoch; Timeval 100 20000] in
  runs (l ← run_timer_ops [] timer_ops_ex; r ← next_timer; mret (l, r)) x (fun r x' =>
    length r.1 = length ds /\
    match r.2 with
    | (PendingNone, popped) => ds = [] /\ popped = false
    | (PendingUntil tv, popped) => popped = false /\ due x' <$> r.1 = ds /\ exists d, d ∈ ds /\
        (forall d', d' ∈ ds -> timercmp_gt d d' = false) /\ timercmp_gt d (Timeval 100 0) = true /\
        tv = (if bool_decide (d = epoch) then None else Some d)
    | (_, popped) => popped = true /\ exists i t d, r.1 !! i = Some t /\ ds !! i = Some d /\
        (forall d', d' ∈ ds -> timercmp_gt d d' = false) /\ timercmp_gt d (Timeval 100 0) = false /\
        st_objs (mw_timers x') !! t = None /\ timers_ok x' (delete i r.1) /\ due x' <$> delete i r.1 = delete i ds
    end).
Proof.
  intros x ds.
  refine (timer_agenda manager_ex timer_ops_ex x (no_timers_ok []) (reliable_ex ∅ [] []) _ _); reflexivity.
Defined.

(** Two timers: the first is due, the second is not. *)
Definition two_timers : gmap loc (ls_timer Z Z) :=
  <[1%positive := timer_ex 99]> {[2%positive := timer_ex 200]}.

Lemma two_timers_ok ss : timers_ok (app_of (timers_world two_timers [1%positive; 2%positive] ss)) [1%positive; 2%positive].
Proof.
  split.
  - eexists. split; [reflexivity|]. split; cbn; [lia|lia| |done].
    intros u a b Hu _ Ha Hb. cbn in Hu. assert (u = 1) as -> by lia.
    vm_compute in Ha, Hb. injection Ha as <-. injection Hb as <-. by vm_compute.
  - intros t [->|[->|Ht]%elem_of_cons]%elem_of_cons; [by eexists..|by apply not_elem_of_nil in Ht].
  - apply NoDup_cons; split; [|apply NoDup_singleton]. intros H%list_elem_of_singleton. done.
  - intros l [y Hy]. cbn in Hy. unfold two_timers in Hy.
    apply lookup_insert_Some in Hy as [[<- _]|[_ Hy]]; [done|]. by apply lookup_singleton_Some in Hy as [<- _].
  - cbn. lia.
Qed.

Lemma due_timer_misused_witness :
  let s := timers_world two_timers [1%positive; 2%positive] [] in
  exists t ts' x', earliest (app_of s) [1%positive; 2%positive] t /\ [1%positive; 2%positive] ≡ₚ t :: ts' /\
    st_objs (mw_timers x') = delete t (st_objs (mw_timers (app_of s))) /\ timers_ok x' ts' /\
    (ts' = [] -> pending_timers no_timer_ex 3 s = Fault UseAfterFree) /\
    (ts' <> [] -> exists t2 tm2, earliest x' ts' t2 /\ st_objs (mw_timers x') !! t2 = Some tm2 /\
       pending_timers no_timer_ex 3 s = (no_timer_ex (tm_cb tm2) t2;; pending_timers no_timer_ex 2) (put_app x' s)).
Proof.
  intros s. refine (due_timer_misused no_timer_ex s manager_ex [1%positive; 2%positive] 2 _ _ _ _ _).
  - reflexivity.
  - reflexivity.
  - apply two_timers_ok.
  - apply reliable_ex.
  - exists 1%positive. split; [by left|reflexivity].
Defined.

(** The timer callbacks' log: timer 2, which is due in a hundred seconds, is run, and timer
    1 is not; when the clock has come to timer 2, it is used after it was freed. *)
Definition log_timer_ex (cb : Z) (t : loc) : C world_ex unit :=
  on_mw (c_modify (log_event t EvManager)).

Example wrong_timer_run :
  (match pending_timers log_timer_ex 3 (timers_world two_timers [1%positive; 2%positive] []) with
   | Done (r, s') => Some (r, fst <$> mw_user (app_of s'))
   | Fault _ => None
   end) = Some (PendingUntil (Some (Timeval 200 0)), [2%positive]).
Proof. vm_compute. reflexivity. Qed.

(** One timer, due in 100 s. *)
Definition one_timer : gmap loc (ls_timer Z Z) := {[2%positive := timer_ex 200]}.

Lemma one_timer_ok ss : timers_ok (app_of (timers_world one_timer [2%positive] ss)) [2%positive].
Proof.
  split.
  - eexists. split; [reflexivity|]. split; cbn; [lia|lia| |done]. intros u a b Hu. cbn in Hu. lia.
  - intros t ->%list_elem_of_singleton. by eexists.
  - apply NoDup_singleton.
  - intros l [y Hy]. cbn in Hy. unfold one_timer in Hy. by apply lookup_singleton_Some in Hy as [<- _].
  - cbn. lia.
Qed.

Lemma wait_until_next_timer_witness :
  let s := timers_world one_timer [2%positive] [SelectReady None false true] in
  runs (wait_loop no_timer_ex stop_ex 3 2) s (fun r s' =>
    r = WaitSocket 6 /\ timers_ok (app_of s') [2%positive] /\
    exists timeout, timeout_for manager_ex [2%positive] (app_of s) timeout /\
      en_waits (mw_env (app_of s')) = timeout :: en_waits (mw_env (app_of s))).
Proof.
  intros s. refine (wait_until_next_timer no_timer_ex stop_ex 3 s manager_ex [2%positive] 1 false true []
    _ _ _ _ _ _ _ _ _ _).
  - reflexivity.
  - reflexivity.
  - apply one_timer_ok.
  - apply reliable_ex.
  - lia.
  - split.
    + unfold tv_wf. cbn. lia.
    + intros t ->%list_elem_of_singleton. change (due _ _) with (Timeval 200 0). unfold tv_wf. cbn. lia.
    + intros t ->%list_elem_of_singleton. reflexivity.
  - reflexivity.
  - cbn. lia.
  - cbn. lia.
  - reflexivity.
Defined.

(** ** Opening a tube *)
Definition opener_env : env := Env [] [] [] [] [] [] [RandBytes (octet id_ex)] [] [].
Definition opener_ex (answers : list send_answer) (oom : list bool) : world_ex :=
  let s := world_with (set_env opener_env
    (mworld_with None 0 ∅ (TWorld store_empty store_empty (pstate_init []) [] answers) [] [])) in
  set_client (set_epools (PState (Mem (m_live (ps_mem names_ex)) 7 ∅ oom) ∅ true []) (hs_client s)) s.

Lemma opener_serving answers : serving initiator_background E_mgr 1 manager_ex ∅ (opener_ex answers []).
Proof.
  split.
  - split; [apply (idle_ex (app_of (opener_ex answers [])))|apply (owning_ex (app_of (opener_ex answers [])))].
  - reflexivity.
  - exists 1%positive. split; [reflexivity|]. eapply table_rep_stores; [apply (table_empty_ex tworld_ex)|done..].
  - split; [by intros k t u H; rewrite lookup_empty in H|by intros k k' t t' u u' p H; rewrite lookup_empty in H|done|].
    split_and!; [apply store_wf_empty|apply store_wf_empty|apply pstate_init_wf].
  - split; [reflexivity|by split|constructor|apply store_wf_empty].
Qed.

Abbreviation open_ex := (tube_manager_open_tube (cbor := cbor_ex) (scripted echo) (scripted_result no_results) 8
  sender_ex).

Definition outcome_of {A} (r : outcome (A * world_ex)) : option A + fault :=
  match r with Done (a, _) => inl (Some a) | Fault f => inr f end.

(** The OPEN cannot be sent. *)
Lemma open_tube_outcomes_witness :
  let s := opener_ex [SendAnswer (-1) 1] [] in
  ends (open_ex) s (open_outcome initiator_background E_mgr echo 1 manager_ex ∅ s sender_ex).
Proof.
  intros s. refine (open_tube_outcomes initiator_background E_mgr echo 8 echo_quiet enough_ex 1 manager_ex ∅ s sender_ex
    (opener_serving _) events_of_ex _). split.
  - discriminate.
  - intros sock [= <-]. lia.
  - intros id [= <-]. split; [apply id_ex_wf|reflexivity].
  - reflexivity.
Defined.

Example open_run : outcome_of (open_ex (opener_ex [] [])) = inl (Some (Ok 1%positive)).
Proof. vm_compute. reflexivity. Qed.

(** Opening a tube that fails.  When its OPEN cannot be sent, taking the tube out of
    the table destroys it, and then it is destroyed again: a use after free.  When there is
    no memory for the event that announces it, the tube is destroyed but stays in the table,
    so that a CLOSE with its ID uses it after it was freed. *)
Example open_tube_failures :
  open_ex (opener_ex [SendAnswer (-1) 1] []) = Fault UseAfterFree /\
  outcome_of (open_ex (opener_ex [] [true])) = inl (Some (Err LS_ERR_NO_MEMORY)) /\
  (_ ← open_ex; handle_ex 6 (packet_ex SPUD_CLOSE []) sender_ex 1) (opener_ex [] [true]) = Fault UseAfterFree.
Proof. split_and!; vm_compute; reflexivity. Qed.

(** ** Sockets *)
Lemma socket_binds_witness :
  runs (tube_manager_socket 1402) responder_ex (socketed responder_ex 1402 manager_ex).
Proof.
  refine (socket_binds responder_ex manager_ex 1402 _ _); [reflexivity|lia].
Defined.

Example socket_run : match tube_manager_socket (cbor := cbor_ex) 1402 responder_ex with
  | Done (r, s') => Some (r, en_bound (mw_env (app_of s')))
  | Fault _ => None
  end = Some (Ok tt, [(3, ls_sockaddr_v4_any 1402); (3, ls_sockaddr_v6_any 1402)]).
Proof. vm_compute. reflexivity. Qed.

(** ** Binding: RUNNING, in lower case *)
Lemma event_bound_witness :
  let name := [114; 117; 110; 110; 105; 110; 103] in
  runs (tube_manager_bind_event name 9) responder_ex
    (event_binding background_ex E_mgr 1 manager_ex ∅ responder_ex (lower name) 9).
Proof.
  intros name. refine (event_bound background_ex E_mgr 1 manager_ex ∅ responder_ex name 9 responder_serving _ _ _).
  - reflexivity.
  - by repeat constructor.
  - intros k. unfold event_named. cbn -[EV_LOOPSTART_NAME EV_RUNNING_NAME EV_DATA_NAME EV_CLOSE_NAME EV_ADD_NAME EV_REMOVE_NAME].
    repeat (rewrite lookup_insert; case_decide; subst; [by repeat (rewrite decide_False by done)|]).
    by repeat (rewrite decide_False by done).
Defined.

(** ** The life of a manager *)

(** Nothing is there; the system answers with the descriptors 3 and 4. *)
Definition empty_mworld (tubes_oom : list bool) : mworld_ex :=
  MWorld (HState store_empty store_empty store_empty tubes_oom
            (TWorld store_empty store_empty (pstate_init []) [] []))
    store_empty None [] None [] (Env [] [inl 3; inl 4] [] [] selects_ex recvs_ex [] [] []) [].

Definition empty_world (tubes_oom names_oom : list bool) : world_ex :=
  HState store_empty store_empty store_empty names_oom
    (EClient store_empty store_empty store_empty store_empty (pstate_init []) (empty_mworld tubes_oom)).

Lemma clean_slate_ex o1 o2 : clean_slate (empty_world o1 o2).
Proof.
  split; [split; [split_and!|..]|split_and!|split_and!|..]; first [apply store_wf_empty|apply pstate_init_wf|reflexivity|constructor].
Qed.

Lemma manager_created_witness :
  let s0 := empty_world [false; false] [false; true] in
  runs (tube_manager_create 17 3) s0 (fun r s =>
    match r with
    | Err _ => nothing_left s0 s
    | Ok _ => exists mg d E N, mg_initialized mg = true /\ mg_keep_going mg = true /\
        mg_dispatcher mg = Some d /\ serving (before s0 N) E d mg ∅ s /\ events_of E mg /\
        (forall k, N !! k = event_named mg k) /\ fresh E (app_of s)
    end).
Proof.
  intros s0. refine (manager_created s0 17 3 _ _).
  - apply clean_slate_ex.
  - lia.
Defined.

(** Creation, a callback that is bound, a packet that opens a tube, and destruction: its
    CLOSE is the last packet, and nothing else is left.  Nor is there when memory runs out
    at the last event. *)
Definition life_run : C world_ex (res Z (list (res Z unit))) :=
  r ← tube_manager_create 17 3;
  match r with
  | Err e => mret (Err e)
  | Ok _ =>
      b ← tube_manager_bind_event [65; 68; 68] 2;
      tube_manager_set_policy_responder true;;
      info ← on_tubes (new info_ex);
      _ ← handle_ex 6 (packet_ex SPUD_OPEN []) sender_ex (default 1%positive info);
      tube_manager_destroy;;
      mret (Ok [b])
  end.

Definition left_over (s : world_ex) :=
  (map_to_list (st_objs (tw_tubes (hs_client (mw_table (app_of s))))),
   map_to_list (st_objs (ec_events (hs_client s))), map_to_list (m_live (ps_mem (ec_pools (hs_client s)))),
   map_to_list (st_objs (hs_tables s)), dg_payload <$> tw_sent (hs_client (mw_table (app_of s)))).

Example life_goes : match life_run (empty_world [] []) with
  | Done (r, s) => Some (r, left_over s)
  | Fault _ => None
  end = Some (Ok [Ok tt], ([], [], [], [], [packet_ex SPUD_ACK []; packet_ex SPUD_CLOSE []])).
Proof. vm_compute. reflexivity. Qed.

Example life_without_memory : match life_run (empty_world [] (replicate 14 false ++ [true])) with
  | Done (r, s) => Some (r, left_over s)
  | Fault _ => None
  end = Some (Err LS_ERR_NO_MEMORY, ([], [], [], [], [])).
Proof. vm_compute. reflexivity. Qed.

(** The initiator of above, with its opening tube. *)
Lemma initiator_timers : timers_ok (app_of initiator_ex) [].
Proof.
  split.
  - eexists. split; [reflexivity|]. split; cbn; [lia|lia| |done]. intros u a b Hu. lia.
  - intros t Ht. by apply not_elem_of_nil in Ht.
  - constructor.
  - apply store_wf_empty.
  - cbn. lia.
Qed.

Lemma manager_destroyed_witness :
  runs tube_manager_destroy initiator_ex (fun _ s' =>
    dismantled initiator_background opening_reg [] initiator_ex s').
Proof.
  refine (manager_destroyed initiator_background E_mgr 1 manager_ex opening_reg initiator_ex []
    initiator_serving _ initiator_timers).
  reflexivity.
Defined.

(** ** A whole session of an echo server: it binds the echo to DATA and another callback to
    REMOVE, opens its sockets and runs the loop; the client's OPEN and its data come, and
    then a signal. *)
Definition server_world (oom : list bool) : world_ex :=
  put_app (MWorld (mw_table (empty_mworld [])) store_empty None oom None [SigContext 2 7]
    (mw_env (empty_mworld [])) []) (empty_world [] []).

(** A walker that sends an empty packet of data on every tube. *)
Definition ping_walker (key : id_ptr) (t : option loc) : C tworld bool :=
  match t with
  | Some t => _ ← tube_send t SPUD_DATA false false []; mret true
  | None => mret false
  end.

Lemma ping_quiet : quiet_walker ping_walker.
Proof.
  intros key t u w Hw Ht Hid Hok. cbn. run_step.
  by apply (tube_send_runs t u); [done..| |]; intros p Hp; run_step.
Qed.

Definition session_ops : list app_op :=
  [OpBind [100; 97; 116; 97] 1; OpBind EV_REMOVE_NAME 2; OpBind [120] 1; OpSocket 1402; OpSize; OpLoop;
   OpSize; OpForeach ping_walker; OpRunning; OpStop; OpResponder false; OpSetData None].

Lemma session_ops_ok : Forall op_ok session_ops.
Proof.
  assert (Hname : forall name, forallb (fun c => (0 <? c) && (c <? 256)) name = true -> cstr_wf name).
  { intros name H. apply Forall_forall. intros c Hc. rewrite forallb_forall in H.
    apply list_elem_of_In in Hc. specialize (H c Hc). lia. }
  repeat (apply Forall_cons; split; [first [done|by apply Hname|apply ping_quiet|cbn; lia]|]). by apply Forall_nil.
Qed.

Abbreviation server_ex := (server (cbor := cbor_ex) echo no_timer_ex stop_ex 20 17 3 session_ops).

(** An ACK, the echo, the walker's packet, and a CLOSE at the end. *)
Example session_goes : match server_ex (server_world []) with
  | Done (r, s) => Some (r, left_over s, fst <$> mw_user (app_of s))
  | Fault _ => None
  end =
  Some (Ok [Reports (Ok tt); Reports (Ok tt); Reports (Err LS_ERR_BAD_FORMAT); Reports (Ok tt); Counts 0;
            Reports (Ok tt); Counts 1; Nothing; Answers false; Reports (Ok tt); Nothing; Nothing],
        ([], [], [], [], [packet_ex SPUD_ACK []; packet_ex SPUD_DATA [97; 98]; packet_ex SPUD_DATA []; packet_ex SPUD_CLOSE []]),
        [3%positive]).
Proof. vm_compute. reflexivity. Qed.

Lemma server_clean_slate oom : clean_slate (server_world oom).
Proof.
  split; [split; [split_and!|..]|split_and!|split_and!|..]; first [apply store_wf_empty|apply pstate_init_wf|reflexivity|constructor].
Qed.

Lemma manager_session_witness :
  let s0 := server_world [false; true] in
  runs (server_ex) s0 (fun r s' =>
    match r with
    | Err _ => nothing_left s0 s'
    | Ok rs => exists mg E mg' E' R' rest s, mg_keep_going mg = true /\ events_of E mg /\
        (forall e vs, E !! e = Some vs -> vs = []) /\
        app_steps (mg, E, ∅, recvs_ex) session_ops rs (mg', E', R', rest) /\ closed s0 R' s s'
    end).
Proof.
  intros s0. refine (manager_session echo no_timer_ex stop_ex 20 s0 17 3 session_ops (server_clean_slate _) _ _
    recvs_ok_ex recvs_not_empty_ex _ _ _ echo_always_quiet stop_quiet session_ops_ok);
    [reflexivity|lia|reflexivity|cbn; lia..].
Defined.
